(* ===== verification/_CoqProject ===== *)
-Q . S2P
Prelude.v
Bytes.v
Conn.v
Protocol.v
RequestBody.v
Metadata.v
Synthetic.v
Config.v
Health.v
StateMachine.v
Sticky.v
Cache.v
LeaderCache.v
Sasl.v
Pool.v
Stats.v
Router.v
AutoRebalance.v
Rebalancer.v
Drain.v
Controller.v
DRCoordinator.v
Manager.v
Connection.v
Listener.v
Startup.v
Status.v
Checker.v
Autopilot.v
BringUp.v
Sessions.v
Reader.v
DrainThreads.v
RefreshThreads.v
PoolThreads.v
PoolClose.v
PoolLoops.v
ManagerLoop.v
Http.v
Watcher.v
Logger.v
Dial.v
