(* ===== verification/Prelude.v ===== *)
(** * Bifrost: a Kafka layer-7 proxy

    A verification library for the Go program under [src/]: a TCP proxy that
    clients take for a Kafka cluster.  Each business unit (BU) has a port and one
    or two upstream clusters, [primary] and [secondary], used as [active_passive],
    [load_balance] or [single].  The proxy rewrites broker addresses in Metadata
    responses, routes Produce and Fetch requests to partition leaders, checks the
    clusters' health, fails BUs over and back, and reloads its configuration.

    ** The parts, in dependency order

    - [Prelude] (this file): Go's results ([res]: value, error or panic), machine
      integers, times and durations, shared lemmas on lists and on one goroutine
      among [others], tactics and the [go] hints.
    - [Bytes], [Conn]: big-endian bytes, slices with Go's bounds, cursors for
      round trips; connections as byte streams, and the state monad [IO] over them.
    - [Protocol] ([internal/protocol]): request headers and frames.
    - [RequestBody] ([routing/data.go], parsers): topic and partition of a request.
    - [Metadata], [Synthetic] ([routing/metadata.go], [synthetic_metadata.go]):
      rewriting one cluster's Metadata response, and merging two.
    - [Config] ([internal/config]): validation, defaults, reload, diff, watch loop.
    - [Health] ([internal/health]): hysteresis, one check, SASL PLAIN, scheduling.
    - [StateMachine] ([failover/state.go]): DR states, [Transition] as sequential
      code and as a step relation whose threads interleave.
    - [Sticky], [Cache], [LeaderCache] ([routing/sticky.go], [cache.go],
      [pool/leader_cache.go]): partition hashing; the class [PartitionLeaderCache],
      its laws [LawfulCache], and both implementations as instances.
    - [Sasl] ([routing/sasl.go]): the authentication passthrough.
    - [Pool] ([pool/pool.go]): the connection pool with its semaphore.
    - [Stats], [Router] ([routing/data.go]): counters, weights and [Route], proved
      against the cache's interface.
    - [AutoRebalance] ([routing/rebalance.go]): weights following health.
    - [Rebalancer] ([failover/rebalance.go]): weights following request outcomes.
    - [Drain], [Controller], [DRCoordinator], [Manager] ([proxy/drain.go],
      [failover/controller.go], [proxy/dr_coordinator.go], [failover/manager.go]):
      tracked connections and drains, the failover decision, the callbacks that
      join them, the loop over BUs.
    - [Connection] ([proxy/connection.go]): a client's connection from target
      selection to the final copy.
    - [Listener], [Startup], [Status] ([proxy/listener.go], [cmd/proxy/main.go],
      [internal/server]): the listener's routing state, [main]'s wiring and reload
      callback, and the documents of the observability server.
    - [Checker], [ManagerLoop] ([health/checker.go], [failover/manager.go]): the
      goroutines that check and that tick, with [Start] and [Stop], and the time a
      goroutine of the checker needs to notice an outage.
    - [Autopilot]: the checker, the manager, the drain timers and the connections
      of a running proxy in any order, and the machine that each BU is by itself.
    - [BringUp]: what [main] sets up and the autopilot together, from the start to
      the first failover.
    - [Sessions]: the sessions of a client that produces or fetches, and of one that
      asks two clusters for Metadata, through all the parts above.
    - [Reader] ([proxy/connection.go]): sockets that cut their bytes anywhere, the
      reader and the connection a routed request is read through, and that they
      are the byte streams of [Conn].
    - [DrainThreads] ([proxy/drain.go]): the drain manager of one BU under the
      interleaving of its users and its timers.
    - [RefreshThreads] ([pool/leader_cache.go]): the refresh loops of all
      bootstraps among the calls that start, stop and trigger them.
    - [PoolThreads], [PoolClose], [PoolLoops] ([pool/pool.go]): the pool of one
      broker under the interleaving of its channel operations, what [Close] leaves
      its users, and the two background loops [Close] waits for.
    - [Http] ([server/server.go]): construction, descriptors, routing of paths.
    - [Watcher], [Logger] ([config/watcher.go], [logger/logger.go]): the stand-alone
      watcher; levels, attributes and the default logger.
    - [Dial] ([pool.go], [checker.go], [connection.go], [leader_cache.go]): the
      functions that open connections, over the standard library's.

    Definitions keep the names of the Go functions; a function split here in
    pieces has the pieces named after what they do, and composed under its name.
    A method becomes a function of the receiver's state that returns the new
    state.  Objects that Go shares by pointer are held once: the leader cache in
    the router, the drain manager in [World], the metrics in the manager.

    ** How effects are modelled

    What the outside decides is an argument: the clock, the result of a dial, the
    bytes a peer sends ([cn_in]) and after how many writes it fails ([cn_writes]),
    the order in which Go ranges over a map, the roll of [rand], and how each
    direction of a final copy went ([copying]: the chunks it read, and what it had
    read but not written when the end of the other direction closed the
    connections).  A callback list is a list of functions on the state of both
    components.  A goroutine that ticks
    is the sequence of its ticks, except in [Checker], [ManagerLoop],
    [RefreshThreads] and [PoolLoops], where it is a thread with a place in its
    loop; timers are the deadlines stored in the state, and in [DrainThreads]
    goroutines.  Blocking for ever is [None].  A section of code under one lock is one
    step.  Where the code gives up a lock between reading and writing, or uses
    channels, the steps interleave: [Transition], the drain manager, the pool, the
    loops.  Each such file shows that one goroutine alone does what the sequential
    file says ([Get_alone], [drain_operations_alone],
    [refresher_operations_alone]).

    All recursion is structural but the SASL loop, whose fuel is one more than the
    length of the client's stream; each round consumes at least one byte of it, so
    the fuel is never spent ([Sasl.HandleSASLExchange_transparent]), and the loop
    of [io.ReadFull], whose fuel is the number of bytes it needs; each read gives
    at least one ([Reader.read_loop_ok]).

    ** What the theorems show

    - What reaches the wire: metadata rewriting is a round trip up to broker
      addresses and sound on arbitrary bytes; the synthetic response is the merge;
      request headers and bodies parse back; SASL passes every byte through
      unchanged; [Route] passes one request and its response, and of what follows a
      prefix each way ([Route_transparent]); whole sessions end to end are
      [metadata_session] (active_passive), [balanced_session] (load_balance) and
      [routed_session] (Produce and Fetch, in any mode).
    - What the streams of [Conn] stand for: [Route_reads_prepended].
    - Where requests go: [request_ownership] (the first request of a connection
      decides, by its first partition), [Refresh_installs_leaders],
      [weights_split], [status_reports_routing].
    - The proxy by itself: an outage of the primary moves a BU's traffic after the
      two thresholds and no sooner, whatever the other BUs do
      ([outage_moves_traffic], by the refinement [autopilot_refines]), from any steady
      state or from the start of the process ([outage_after_startup]); the time the
      checker needs to notice it ([detection_window]); goroutines that end when
      they are told to, by bounds on every run in which no timer fires or no tick
      begins ([Stop_quiesces], [Close_returns]; also [Manager_loop_life]);
      refresh loops that are unique and lose no trigger unless they are stopped
      ([refresher_interleavings], [trigger_not_lost]).
    - Failover: the conditions and the rate of failovers, the drain workflow as a
      refinement, isolation of BUs, fast failover and slow failback, the
      interleavings of [Transition], hysteresis.
    - Resources: connections are accounted for and closed exactly when they must
      ([drain_accounting], [forceCloseOld_exact], [handler_registers_once], and
      [drain_interleavings] under any interleaving); the
      pool shares nothing and blocks only when it is full, operation by operation
      ([pool_discipline]) and under any interleaving ([pool_interleavings]); no dial
      leaks a connection ([dials_clean]).
    - Configuration: validation, atomic reload, complete diffs, startup as
      configured, caches that follow the configuration.
    - Behaviour that the program's comments do not promise: requests that stop the
      process, routed requests that ignore a failover, reloads that drain the wrong
      way, drain a new BU, or hang; both clusters down; a start that, at a recovery
      threshold of 2 or more, moves a BU to its primary whichever side is configured
      ([startup_settles]); a second [Stop] of the checker that does not wait
      ([Stop_quiesces]); aborted drains, and routing around a drain
      ([draining_gaps]); a [Get] that waits beside a free slot ([Get_lost_wakeup]); a
      timer that had fired and ends the drain after its own
      ([late_timer_ends_new_drain]); a stopped refresher that still writes
      ([stopped_refresher_writes]); a health check that [Close] waits for
      ([Close_waits_for_users]); log lines without a time.

    ** Not modelled

    YAML, JSON and Prometheus encodings, [fsnotify], TLS, DNS and TCP themselves
    (parameters); the log calls of the components; how [slog] quotes a line; paths
    that Go's [ServeMux] first redirects to their clean form; read and write
    deadlines; the process's flags and signals.  Data races on fields that Go
    accesses without a lock are outside the model: the health provider that a
    reload swaps, the listener's rebalancer. *)

From stdpp Require Export base gmap strings list fin_maps numbers.
From Stdlib Require Import ZArith Lia.

#[global] Open Scope Z_scope.
#[export] Set Warnings "-clear-no-such-hyp".

(** ** Go's results: values, errors and panics

    A Go function that returns [(T, error)] is a function into [res T].  A
    run-time panic (index or slice out of range, negative [make] length) is a
    third outcome, since an unrecovered panic in one connection's goroutine
    terminates the whole proxy process. *)

(** Errors carry their constant text; [Sentinel] is a package-level
    [errors.New] value, [Wrapf] is [fmt.Errorf] with a [%w] verb. *)
Inductive error :=
  | Sentinel (name : string)
  | Errorf (msg : string)
  | Wrapf (msg : string) (inner : error).

#[export] Instance error_eq_dec : EqDecision error.
Proof. solve_decision. Defined.

(** [errors.Is err target] for a sentinel target. *)
Fixpoint errors_Is (e : error) (target : error) : bool :=
  bool_decide (e = target) ||
  match e with
  | Wrapf _ inner => errors_Is inner target
  | _ => false
  end.

Inductive res (A : Type) :=
  | Ok (a : A)
  | Err (e : error)
  | Panic.
Arguments Ok {A} a.
Arguments Err {A} e.
Arguments Panic {A}.

Definition res_bind {A B} (f : A → res B) (m : res A) : res B :=
  match m with
  | Ok a => f a
  | Err e => Err e
  | Panic => Panic
  end.

#[export] Instance res_ret : MRet res := @Ok.
#[export] Instance res_mbind : MBind res := @res_bind.

(** [if err != nil { return fmt.Errorf("...: %w", err) }]. *)
Definition wrap_err {A} (msg : string) (m : res A) : res A :=
  match m with
  | Ok a => Ok a
  | Err e => Err (Wrapf msg e)
  | Panic => Panic
  end.

(** [safe m]: [m] does not panic. *)
Definition safe {A} (m : res A) : Prop :=
  match m with Panic => False | _ => True end.

Definition is_ok {A} (m : res A) : bool :=
  match m with Ok _ => true | _ => false end.

Declare Scope go_scope.
Delimit Scope go_scope with go.

(** [check c, e;; k] is the guard [if c { return ..., e }] followed by [k]. *)
Notation "'check' c , e ;; k" := (if c then Err e else k)
  (at level 10, c at level 99, e at level 99, k at level 200,
   format "'check'  c ,  e ;; '//' k") : go_scope.
#[global] Open Scope go_scope.

Create HintDb go.

Lemma bind_Ok_inv {A B} (m : res A) (f : A → res B) b :
  m ≫= f = Ok b → ∃ a, m = Ok a ∧ f a = Ok b.
Proof. destruct m; simpl; naive_solver. Qed.

Lemma safe_bind {A B} (m : res A) (f : A → res B) :
  safe m → (∀ a, m = Ok a → safe (f a)) → safe (m ≫= f).
Proof. destruct m; simpl; naive_solver. Qed.

Lemma safe_wrap {A} msg (m : res A) : safe m → safe (wrap_err msg m).
Proof. by destruct m. Qed.

Lemma wrap_err_Ok {A} msg (m : res A) a : wrap_err msg m = Ok a ↔ m = Ok a.
Proof. destruct m; simpl; naive_solver. Qed.

Lemma safe_Ok {A} (a : A) : safe (Ok a).
Proof. exact I. Qed.

Lemma safe_Err {A} e : safe (@Err A e).
Proof. exact I. Qed.

#[export] Hint Resolve safe_Ok safe_Err safe_wrap : go.

(** ** Lists *)

Lemma elem_of_map {A B} (f : A → B) y l : y ∈ map f l → ∃ x, y = f x ∧ x ∈ l.
Proof. apply list_elem_of_fmap. Qed.

Lemma NoDup_map_inj {A B} (f : A → B) l x y :
  NoDup (map f l) → x ∈ l → y ∈ l → f x = f y → x = y.
Proof.
  induction l as [|a l IH]; [set_solver|]. cbn [map]. rewrite list.NoDup_cons.
  intros [Hn Hd] Hx%list.elem_of_cons Hy%list.elem_of_cons Heq.
  destruct Hx as [->|Hx], Hy as [->|Hy]; [done| | |by apply IH];
    exfalso; apply Hn; apply list_elem_of_fmap; eauto.
Qed.

Lemma NoDup_map_2 {A B} (f : A → B) l :
  (∀ x y, x ∈ l → y ∈ l → f x = f y → x = y) → NoDup l → NoDup (map f l).
Proof. apply NoDup_fmap_2_strong. Qed.

(** The results of a loop that emits at most one entry per key. *)
Lemma NoDup_concat_map {A B K} (key : A → K) (name : B → K) (f : A → list B) l :
  (∀ x, map name (f x) = [] ∨ map name (f x) = [key x]) →
  NoDup (map key l) → NoDup (map name (concat (map f l))).
Proof.
  intros Hf. induction l as [|x l IH]; cbn [map concat]; [constructor|].
  rewrite list.NoDup_cons. intros [Hx Hl]. rewrite map_app.
  destruct (Hf x) as [->| ->]; [by apply IH|].
  cbn [app]. apply list.NoDup_cons. split; [|by apply IH].
  intros (b & Hb & Hin)%elem_of_map. apply Hx.
  apply list_elem_of_In, in_concat in Hin as (bs & Hbs & Hin).
  apply in_map_iff in Hbs as (y & <- & Hy). apply list_elem_of_In in Hin.
  assert (name b ∈ map name (f y)) as Hn by (apply list_elem_of_fmap; eauto).
  destruct (Hf y) as [He|He]; rewrite He in Hn; [by apply not_elem_of_nil in Hn|].
  apply list_elem_of_singleton in Hn. rewrite Hb, Hn. apply list_elem_of_fmap.
  exists y. split; [done|by apply list_elem_of_In].
Qed.

Lemma elem_of_concat_map {A B} (f : A → list B) l b :
  b ∈ concat (map f l) ↔ ∃ x, x ∈ l ∧ b ∈ f x.
Proof.
  rewrite list_elem_of_In, in_concat. split.
  - intros (bs & (x & <- & Hx)%in_map_iff & Hb). exists x. by rewrite !list_elem_of_In.
  - intros (x & Hx & Hb). exists (f x). rewrite <- !list_elem_of_In. split; [|done].
    apply list_elem_of_fmap. eauto.
Qed.

Lemma filter_Forall {A} (P : A → Prop) `{∀ x, Decision (P x)} l :
  Forall P l → filter P l = l.
Proof.
  induction 1 as [|x l Hx _ IH]; [done|]. rewrite filter_cons, decide_True by done. by f_equal.
Qed.

Lemma filter_none {A} (P : A → Prop) `{∀ x, Decision (P x)} l :
  Forall (λ x, ¬ P x) l → filter P l = [].
Proof.
  induction 1 as [|x l Hx _ IH]; [done|]. by rewrite filter_cons, decide_False.
Qed.

Lemma Forall_filter_2 {A} (P Q : A → Prop) `{∀ x, Decision (P x)} l :
  Forall Q l → Forall Q (filter P l).
Proof.
  rewrite !list.Forall_forall. intros HQ x [_ Hx]%list_elem_of_filter. auto.
Qed.

(** *** One of many

    The goroutines of a program are a list; one of them takes a step and the
    others stay as they are. *)

Definition others {A} (i : nat) (l : list A) : list A := take i l ++ drop (S i) l.

Lemma others_insert {A} i (x : A) l : others i (<[i := x]> l) = others i l.
Proof. unfold others. by rewrite take_insert_ge, drop_insert_lt by lia. Qed.

Lemma sum_others {A} (f : A → nat) i x l :
  l !! i = Some x → sum_list_with f l = (f x + sum_list_with f (others i l))%nat.
Proof.
  intros Hi. rewrite <- (take_drop_middle _ _ _ Hi) at 1. unfold others.
  rewrite !sum_list_with_app. cbn. lia.
Qed.

Lemma concat_others {A B} (f : A → list B) i x l :
  l !! i = Some x → concat (map f l) ≡ₚ f x ++ concat (map f (others i l)).
Proof.
  intros Hi. rewrite <- (take_drop_middle _ _ _ Hi) at 1. unfold others.
  rewrite !map_app, !concat_app. cbn [map concat]. solve_Permutation.
Qed.

Lemma Forall_others {A} (P : A → Prop) i x l :
  l !! i = Some x → Forall P l ↔ P x ∧ Forall P (others i l).
Proof.
  intros Hi. rewrite <- (take_drop_middle _ _ _ Hi) at 1. unfold others.
  rewrite !list.Forall_app, list.Forall_cons. tauto.
Qed.

(** ** Fixed-width integers

    An [int16], [int32], ... is a [Z] in range; conversions are written out. *)

Definition wrapU (w z : Z) : Z := z `mod` 2 ^ w.
Definition wrapS (w z : Z) : Z := (z + 2 ^ (w - 1)) `mod` 2 ^ w - 2 ^ (w - 1).

Definition int16 (z : Z) : Z := wrapS 16 z.
Definition int32 (z : Z) : Z := wrapS 32 z.
Definition int64 (z : Z) : Z := wrapS 64 z.
Definition uint16 (z : Z) : Z := wrapU 16 z.
Definition uint32 (z : Z) : Z := wrapU 32 z.
Definition uint64 (z : Z) : Z := wrapU 64 z.

Definition in_int16 (z : Z) : Prop := -32768 ≤ z < 32768.
Definition in_int32 (z : Z) : Prop := -2147483648 ≤ z < 2147483648.

Lemma int16_range z : in_int16 (int16 z).
Proof.
  unfold in_int16, int16, wrapS.
  pose proof (Z.mod_pos_bound (z + 2 ^ (16 - 1)) (2 ^ 16)). lia.
Qed.

Lemma int32_range z : in_int32 (int32 z).
Proof.
  unfold in_int32, int32, wrapS.
  pose proof (Z.mod_pos_bound (z + 2 ^ (32 - 1)) (2 ^ 32)). lia.
Qed.

Lemma int16_uint16 z : int16 (uint16 z) = int16 z.
Proof.
  unfold int16, uint16, wrapS, wrapU. f_equal.
  by rewrite Zplus_mod_idemp_l.
Qed.

Lemma int32_uint32 z : int32 (uint32 z) = int32 z.
Proof.
  unfold int32, uint32, wrapS, wrapU. f_equal.
  by rewrite Zplus_mod_idemp_l.
Qed.

Lemma int16_id z : in_int16 z → int16 z = z.
Proof. unfold in_int16, int16, wrapS. intros. rewrite Z.mod_small; lia. Qed.

Lemma int32_id z : in_int32 z → int32 z = z.
Proof. unfold in_int32, int32, wrapS. intros. rewrite Z.mod_small; lia. Qed.

Lemma int32_small z : 0 ≤ z < 2147483648 → int32 z = z.
Proof. intros. apply int32_id. unfold in_int32. lia. Qed.

Lemma int16_small z : 0 ≤ z < 32768 → int16 z = z.
Proof. intros. apply int16_id. unfold in_int16. lia. Qed.

(** ** Time

    [time.Time] is a number of nanoseconds since year 1; [0] is the zero
    [time.Time{}].  [Time.Sub] saturates at the bounds of [time.Duration]. *)

Abbreviation time := Z (only parsing).
Abbreviation duration := Z (only parsing).
Definition zero_time : time := 0.
Definition nanosecond : duration := 1.
Definition millisecond : duration := 1000000.
Definition second : duration := 1000000000.
Definition maxDuration : duration := 2 ^ 63 - 1.
Definition minDuration : duration := - 2 ^ 63.

Definition time_sub (t u : time) : duration :=
  Z.max minDuration (Z.min maxDuration (t - u)).

(** [time.Since(t)], with the clock reading as an argument. *)
Definition time_since (now t : time) : duration := time_sub now t.

Lemma time_since_le now t d : d < maxDuration → time_since now t ≤ d → now - t ≤ d.
Proof. unfold time_since, time_sub. lia. Qed.

Lemma time_since_lt_iff now t d :
  minDuration < d ≤ maxDuration → time_since now t < d ↔ now - t < d.
Proof. unfold time_since, time_sub, minDuration, maxDuration. lia. Qed.

Lemma time_since_ge_iff now t d :
  minDuration < d ≤ maxDuration → d ≤ time_since now t ↔ d ≤ now - t.
Proof. unfold time_since, time_sub, minDuration, maxDuration. lia. Qed.

(** ** Tactics *)

(** Compute the monad's plumbing and nothing else. *)
Ltac bind_simpl := cbn [mbind res_mbind res_bind mret res_ret wrap_err].
Tactic Notation "bind_simpl" "in" ident(H) :=
  cbn [mbind res_mbind res_bind mret res_ret wrap_err] in H.

(** [lia] with [/] and [mod] by constants. *)
Ltac dlia := Z.to_euclidean_division_equations; lia.

(** Case analysis on the first boolean conditional of the goal. *)
Ltac case_if :=
  match goal with
  | |- context [if ?b then _ else _] =>
      lazymatch type of b with bool => destruct b eqn:? end
  end.

(** Boolean comparisons in the hypotheses become propositions. *)
Ltac bool_to_prop :=
  repeat match goal with
  | H : _ && _ = true |- _ => apply andb_true_iff in H as [? ?]
  | H : _ || _ = false |- _ => apply orb_false_iff in H as [? ?]
  | H : negb _ = true |- _ => apply negb_true_iff in H
  | H : negb _ = false |- _ => apply negb_false_iff in H
  | H : (_ <? _) = true |- _ => apply Z.ltb_lt in H
  | H : (_ <? _) = false |- _ => apply Z.ltb_ge in H
  | H : (_ <=? _) = true |- _ => apply Z.leb_le in H
  | H : (_ <=? _) = false |- _ => apply Z.leb_gt in H
  | H : (_ =? _) = true |- _ => apply Z.eqb_eq in H
  | H : (_ =? _) = false |- _ => apply Z.eqb_neq in H
  | H : bool_decide _ = true |- _ => apply bool_decide_eq_true in H
  | H : bool_decide _ = false |- _ => apply bool_decide_eq_false in H
  end.
