(* ===== verification/Bytes.v ===== *)
(** * Byte slices

    Go's [[]byte] as [list byte], slice expressions with their bounds checks,
    [binary.BigEndian], and the conversions between [string] and [[]byte].
    The second half is the cursor library: [at_pos data pos rest] says that a
    parser standing at offset [pos] of [data] has [rest] in front of it; every
    wire-format round trip of the development is proved by moving cursors. *)

From Stdlib Require Export Strings.Byte.
From S2P Require Import Prelude.

Abbreviation bytes := (list byte).

#[export] Instance byte_eq_dec : EqDecision byte := Byte.byte_eq_dec.

(** ** Bytes as integers *)

Definition Z_of_byte (b : byte) : Z := Z.of_N (Byte.to_N b).
Definition byte_of_Z (z : Z) : byte :=
  default x00 (Byte.of_N (Z.to_N (z `mod` 256))).

Lemma Z_of_byte_range b : 0 ≤ Z_of_byte b < 256.
Proof. unfold Z_of_byte. pose proof (Byte.to_N_bounded b). lia. Qed.

Lemma byte_of_Z_of_byte b : byte_of_Z (Z_of_byte b) = b.
Proof.
  unfold byte_of_Z. rewrite Z.mod_small by apply Z_of_byte_range.
  unfold Z_of_byte. by rewrite N2Z.id, Byte.of_to_N.
Qed.

Lemma Z_of_byte_of_Z z : Z_of_byte (byte_of_Z z) = z `mod` 256.
Proof.
  unfold byte_of_Z, Z_of_byte.
  pose proof (Z.mod_pos_bound z 256 eq_refl).
  destruct (Byte.of_N _) eqn:E; simpl.
  - apply Byte.to_of_N in E. rewrite E. lia.
  - apply Byte.of_N_None_iff in E. lia.
Qed.

(** ** Length and slice expressions

    [slice data lo hi] is [data[lo:hi]].  Go bounds [hi] by the capacity; the
    model bounds it by the length, so a model that does not panic is a program
    that neither panics nor reads past the slice. *)

Definition blen (b : bytes) : Z := Z.of_nat (length b).

Definition slice (data : bytes) (lo hi : Z) : res bytes :=
  if (0 <=? lo) && (lo <=? hi) && (hi <=? blen data)
  then Ok (take (Z.to_nat (hi - lo)) (drop (Z.to_nat lo) data))
  else Panic.

(** [data[lo:]]. *)
Definition slice_from (data : bytes) (lo : Z) : res bytes :=
  slice data lo (blen data).

(** [make([]byte, n)]. *)
Definition make_bytes (n : Z) : res bytes :=
  if n <? 0 then Panic
  else Ok (replicate (Z.to_nat n) x00).

(** [binary.BigEndian.Uint16] and [Uint32]. *)
Definition Uint16 (b : bytes) : res Z :=
  match b with
  | b0 :: b1 :: _ => Ok (Z_of_byte b0 * 2 ^ 8 + Z_of_byte b1)
  | _ => Panic
  end.

Definition Uint32 (b : bytes) : res Z :=
  match b with
  | b0 :: b1 :: b2 :: b3 :: _ =>
      Ok (Z_of_byte b0 * 2 ^ 24 + Z_of_byte b1 * 2 ^ 16
          + Z_of_byte b2 * 2 ^ 8 + Z_of_byte b3)
  | _ => Panic
  end.

(** [Uint16(data[pos:pos+2])] and [Uint32(data[pos:pos+4])]. *)
Definition u16_at (data : bytes) (pos : Z) : res Z :=
  b ← slice data pos (pos + 2); Uint16 b.
Definition u32_at (data : bytes) (pos : Z) : res Z :=
  b ← slice data pos (pos + 4); Uint32 b.

(** [Uint16(data[pos:])] and [Uint32(data[pos:])]. *)
Definition u16_from (data : bytes) (pos : Z) : res Z :=
  b ← slice_from data pos; Uint16 b.
Definition u32_from (data : bytes) (pos : Z) : res Z :=
  b ← slice_from data pos; Uint32 b.

(** [PutUint16], [PutUint32] and [binary.Write] of an integer. *)
Definition be16 (z : Z) : bytes := [byte_of_Z (z / 2 ^ 8); byte_of_Z z].
Definition be32 (z : Z) : bytes :=
  [byte_of_Z (z / 2 ^ 24); byte_of_Z (z / 2 ^ 16);
   byte_of_Z (z / 2 ^ 8); byte_of_Z z].

(** [copy(buf[off:], src)] into a buffer that is long enough. *)
Definition copy_at (buf : bytes) (off : Z) (src : bytes) : bytes :=
  let n := Nat.min (length src) (length buf - Z.to_nat off) in
  take (Z.to_nat off) buf ++ take n src ++ drop (Z.to_nat off + n) buf.

(** [string(b)] and [[]byte(s)]: a Go string is a byte sequence. *)
Definition str (b : bytes) : string := String.string_of_list_byte b.
Definition bytes_of (s : string) : bytes := String.list_byte_of_string s.
(** [len(s)]. *)
Definition slen (s : string) : Z := blen (bytes_of s).

Lemma str_bytes_of s : str (bytes_of s) = s.
Proof. apply String.string_of_list_byte_of_string. Qed.

Lemma bytes_of_str b : bytes_of (str b) = b.
Proof. apply String.list_byte_of_string_of_list_byte. Qed.

Lemma bytes_of_inj s t : bytes_of s = bytes_of t → s = t.
Proof. intros H. rewrite <- (str_bytes_of s), <- (str_bytes_of t). by f_equal. Qed.

(** ** Lengths *)

Lemma blen_nonneg b : 0 ≤ blen b.
Proof. unfold blen. lia. Qed.

Lemma blen_nil : blen [] = 0.
Proof. done. Qed.

Lemma blen_app a b : blen (a ++ b) = blen a + blen b.
Proof. unfold blen. rewrite length_app. lia. Qed.

Lemma blen_cons x b : blen (x :: b) = 1 + blen b.
Proof. unfold blen. simpl. lia. Qed.

Lemma blen_be16 z : blen (be16 z) = 2.
Proof. done. Qed.

Lemma blen_be32 z : blen (be32 z) = 4.
Proof. done. Qed.

Lemma blen_bytes_of s : blen (bytes_of s) = slen s.
Proof. done. Qed.

Lemma slen_str b : slen (str b) = blen b.
Proof. unfold slen. by rewrite bytes_of_str. Qed.

Lemma slen_nonneg s : 0 ≤ slen s.
Proof. apply blen_nonneg. Qed.

Create Rewrite HintDb blen.
#[export] Hint Rewrite blen_app blen_nil blen_cons blen_be16 blen_be32
  blen_bytes_of slen_str bytes_of_str str_bytes_of : blen.

(** ** Big-endian integers *)

Lemma Uint16_be16 z s : Uint16 (be16 z ++ s) = Ok (uint16 z).
Proof.
  simpl. rewrite !Z_of_byte_of_Z. f_equal. unfold uint16, wrapU.
  change (2 ^ 16) with (256 * 256). change (2 ^ 8) with 256.
  rewrite Z.rem_mul_r by lia. lia.
Qed.

Lemma Uint32_be32 z s : Uint32 (be32 z ++ s) = Ok (uint32 z).
Proof.
  simpl. rewrite !Z_of_byte_of_Z. f_equal. unfold uint32, wrapU.
  change (2 ^ 32) with (256 * (256 * (256 * 256))).
  rewrite !Z.rem_mul_r by lia.
  change (2 ^ 24) with (256 * 256 * 256). change (2 ^ 16) with (256 * 256).
  change (2 ^ 8) with 256. rewrite <- !Z.div_div by lia. lia.
Qed.

Lemma Uint16_range b v : Uint16 b = Ok v → 0 ≤ v < 65536.
Proof.
  destruct b as [|b0 [|b1 ?]]; simpl; intros; simplify_eq.
  pose proof (Z_of_byte_range b0). pose proof (Z_of_byte_range b1). lia.
Qed.

Lemma Uint32_range b v : Uint32 b = Ok v → 0 ≤ v < 4294967296.
Proof.
  destruct b as [|b0 [|b1 [|b2 [|b3 ?]]]]; simpl; intros; simplify_eq.
  pose proof (Z_of_byte_range b0). pose proof (Z_of_byte_range b1).
  pose proof (Z_of_byte_range b2). pose proof (Z_of_byte_range b3). lia.
Qed.

Lemma byte_of_Z_eq z b : z `mod` 256 = Z_of_byte b → byte_of_Z z = b.
Proof.
  intros H. rewrite <- (byte_of_Z_of_byte b), <- H.
  unfold byte_of_Z. by rewrite Z.mod_mod.
Qed.

Lemma byte_of_Z_mod z z' : z `mod` 256 = z' `mod` 256 → byte_of_Z z = byte_of_Z z'.
Proof. intros H. apply byte_of_Z_eq. by rewrite Z_of_byte_of_Z. Qed.

(** A decoded integer re-encodes to the bytes it came from. *)
Lemma be16_Uint16 b0 b1 v : Uint16 [b0; b1] = Ok v → be16 v = [b0; b1].
Proof.
  simpl. intros [= <-]. unfold be16.
  pose proof (Z_of_byte_range b0). pose proof (Z_of_byte_range b1).
  change (2 ^ 8) with 256. repeat f_equal; apply byte_of_Z_eq; dlia.
Qed.

Lemma be32_Uint32 b0 b1 b2 b3 v :
  Uint32 [b0; b1; b2; b3] = Ok v → be32 v = [b0; b1; b2; b3].
Proof.
  simpl. intros [= <-]. unfold be32.
  pose proof (Z_of_byte_range b0). pose proof (Z_of_byte_range b1).
  pose proof (Z_of_byte_range b2). pose proof (Z_of_byte_range b3).
  change (2 ^ 24) with 16777216. change (2 ^ 16) with 65536.
  change (2 ^ 8) with 256. repeat f_equal; apply byte_of_Z_eq; dlia.
Qed.

(** ** Bounds of the primitives *)

Lemma slice_ok data lo hi :
  0 ≤ lo → lo ≤ hi → hi ≤ blen data →
  ∃ b, slice data lo hi = Ok b ∧ blen b = hi - lo.
Proof.
  intros. unfold slice.
  rewrite (proj2 (Z.leb_le 0 lo)), (proj2 (Z.leb_le lo hi)),
    (proj2 (Z.leb_le hi (blen data))) by lia. simpl.
  eexists; split; [done|]. unfold blen in *.
  rewrite length_take, length_drop. lia.
Qed.

Lemma slice_Ok_inv data lo hi b :
  slice data lo hi = Ok b →
  0 ≤ lo ∧ lo ≤ hi ∧ hi ≤ blen data ∧
  b = take (Z.to_nat (hi - lo)) (drop (Z.to_nat lo) data).
Proof. unfold slice. case_if; [|done]. bool_to_prop. naive_solver. Qed.

Lemma slice_Ok_len data lo hi b : slice data lo hi = Ok b → blen b = hi - lo.
Proof.
  intros H. pose proof (slice_Ok_inv _ _ _ _ H) as (? & ? & ? & _).
  destruct (slice_ok data lo hi) as (b' & Hb & ?); try done. congruence.
Qed.

Lemma Uint16_ok b : 2 ≤ blen b → ∃ v, Uint16 b = Ok v ∧ 0 ≤ v < 65536.
Proof.
  destruct b as [|b0 [|b1 b]]; intros H; [done|done|].
  eexists; split; [done|]. by eapply (Uint16_range (b0 :: b1 :: b)).
Qed.

Lemma Uint32_ok b : 4 ≤ blen b → ∃ v, Uint32 b = Ok v ∧ 0 ≤ v < 4294967296.
Proof.
  destruct b as [|b0 [|b1 [|b2 [|b3 b]]]]; intros H; [done|done|done|done|].
  eexists; split; [done|]. by eapply (Uint32_range (b0 :: b1 :: b2 :: b3 :: b)).
Qed.

Lemma u16_at_ok data pos :
  0 ≤ pos → pos + 2 ≤ blen data →
  ∃ v, u16_at data pos = Ok v ∧ 0 ≤ v < 65536.
Proof.
  intros. unfold u16_at.
  destruct (slice_ok data pos (pos + 2)) as (b & -> & Hb); [lia..|].
  apply Uint16_ok. lia.
Qed.

Lemma u32_at_ok data pos :
  0 ≤ pos → pos + 4 ≤ blen data →
  ∃ v, u32_at data pos = Ok v ∧ 0 ≤ v < 4294967296.
Proof.
  intros. unfold u32_at.
  destruct (slice_ok data pos (pos + 4)) as (b & -> & Hb); [lia..|].
  apply Uint32_ok. lia.
Qed.

Lemma Uint16_take b n : (2 ≤ n)%nat → Uint16 (take n b) = Uint16 b.
Proof. intros. destruct n as [|[|n]]; [lia..|]. by destruct b as [|? [|? ?]]. Qed.

Lemma Uint32_take b n : (4 ≤ n)%nat → Uint32 (take n b) = Uint32 b.
Proof.
  intros. destruct n as [|[|[|[|n]]]]; [lia..|].
  by destruct b as [|? [|? [|? [|? ?]]]].
Qed.

Lemma Uint16_short b : blen b < 2 → Uint16 b = Panic.
Proof. destruct b as [|? [|? b]]; rewrite ?blen_cons; intros; [done..|].
  pose proof (blen_nonneg b). lia. Qed.

Lemma Uint32_short b : blen b < 4 → Uint32 b = Panic.
Proof. destruct b as [|? [|? [|? [|? b]]]]; rewrite ?blen_cons; intros; [done..|].
  pose proof (blen_nonneg b). lia. Qed.

(** Reading under [data[pos:]] or [data[pos:pos+n]] is the same. *)
Lemma from_at_aux {A} (f : bytes → res A) (n : Z) data pos :
  0 < n → (∀ b k, (Z.to_nat n ≤ k)%nat → f (take k b) = f b) →
  (∀ b, blen b < n → f b = Panic) →
  slice_from data pos ≫= f = slice data pos (pos + n) ≫= f.
Proof.
  intros Hn Htake Hshort. unfold slice_from, slice.
  destruct (0 <=? pos) eqn:E1; [|done]; simpl. bool_to_prop.
  rewrite (proj2 (Z.leb_le pos (pos + n))) by lia. rewrite Z.leb_refl, andb_true_r. simpl.
  destruct (pos <=? blen data) eqn:E2; destruct (pos + n <=? blen data) eqn:E3;
    bool_to_prop; bind_simpl; try lia; try done.
  - rewrite !Htake by (unfold blen in *; lia). done.
  - apply Hshort. unfold blen in *. rewrite length_take, length_drop. lia.
Qed.

Lemma u16_from_eq data pos : u16_from data pos = u16_at data pos.
Proof.
  apply (from_at_aux Uint16 2); [lia| |apply Uint16_short].
  intros. apply Uint16_take. lia.
Qed.

Lemma u32_from_eq data pos : u32_from data pos = u32_at data pos.
Proof.
  apply (from_at_aux Uint32 4); [lia| |apply Uint32_short].
  intros. apply Uint32_take. lia.
Qed.

(** ** Cursors *)

Definition at_pos (data : bytes) (pos : Z) (rest : bytes) : Prop :=
  0 ≤ pos ≤ blen data ∧ drop (Z.to_nat pos) data = rest.

Lemma at_pos_0 data : at_pos data 0 data.
Proof. pose proof (blen_nonneg data). split; [lia|done]. Qed.

Lemma at_pos_len data pos rest :
  at_pos data pos rest → 0 ≤ pos ∧ blen data = pos + blen rest.
Proof. intros [? <-]. unfold blen in *. rewrite length_drop. lia. Qed.

Lemma at_pos_advance data pos a s :
  at_pos data pos (a ++ s) → at_pos data (pos + blen a) s.
Proof.
  intros H. pose proof (at_pos_len _ _ _ H) as [? Hlen].
  rewrite blen_app in Hlen. destruct H as [? Hd].
  pose proof (blen_nonneg s). pose proof (blen_nonneg a). split; [lia|].
  replace (Z.to_nat (pos + blen a)) with (Z.to_nat pos + length a)%nat
    by (unfold blen; lia).
  rewrite <- drop_drop, Hd. by rewrite drop_app_length.
Qed.

Lemma copy_at_app a b c src :
  length b = length src → copy_at (a ++ b ++ c) (blen a) src = a ++ src ++ c.
Proof.
  intros Hlen. unfold copy_at, blen. rewrite Nat2Z.id, !length_app.
  replace (Nat.min _ _) with (length b) by lia.
  rewrite take_app_length, <- drop_drop, drop_app_length, drop_app_length.
  by rewrite take_ge by lia.
Qed.

Lemma copy_at_over a d src off :
  off = blen a → (length src ≤ length d)%nat →
  copy_at (a ++ d) off src = a ++ src ++ drop (length src) d.
Proof.
  intros -> Hl. rewrite <- (take_drop (length src) d) at 1.
  apply copy_at_app. rewrite length_take. lia.
Qed.

Lemma at_pos_bytes data pos a s :
  at_pos data pos (a ++ s) →
  slice data pos (pos + blen a) = Ok a ∧ at_pos data (pos + blen a) s.
Proof.
  intros H. split; [|by apply at_pos_advance].
  pose proof (at_pos_len _ _ _ H) as [? Hlen]. rewrite blen_app in Hlen.
  pose proof (blen_nonneg s). pose proof (blen_nonneg a).
  unfold slice. rewrite (proj2 (Z.leb_le 0 pos)),
    (proj2 (Z.leb_le pos (pos + blen a))),
    (proj2 (Z.leb_le (pos + blen a) (blen data))) by lia. simpl.
  destruct H as [_ ->].
  replace (Z.to_nat (pos + blen a - pos)) with (length a) by (unfold blen; lia).
  by rewrite take_app_length.
Qed.

Lemma at_pos_u16 data pos z s :
  at_pos data pos (be16 z ++ s) →
  u16_at data pos = Ok (uint16 z) ∧ at_pos data (pos + 2) s.
Proof.
  intros H. pose proof (at_pos_bytes _ _ _ _ H) as [E ?].
  rewrite blen_be16 in *. split; [|done]. unfold u16_at. rewrite E. bind_simpl.
  by rewrite <- (Uint16_be16 z []), app_nil_r.
Qed.

Lemma at_pos_u32 data pos z s :
  at_pos data pos (be32 z ++ s) →
  u32_at data pos = Ok (uint32 z) ∧ at_pos data (pos + 4) s.
Proof.
  intros H. pose proof (at_pos_bytes _ _ _ _ H) as [E ?].
  rewrite blen_be32 in *. split; [|done]. unfold u32_at. rewrite E. bind_simpl.
  by rewrite <- (Uint32_be32 z []), app_nil_r.
Qed.

Lemma at_pos_slice_from data pos s :
  at_pos data pos s → slice_from data pos = Ok s.
Proof.
  intros H. unfold slice_from.
  pose proof (at_pos_len _ _ _ H) as [_ ->].
  rewrite <- (app_nil_r s) in H. by apply at_pos_bytes in H as [-> _].
Qed.

(** ** Safety of the primitives *)

Lemma safe_slice data lo hi :
  0 ≤ lo → lo ≤ hi → hi ≤ blen data → safe (slice data lo hi).
Proof. intros. by destruct (slice_ok data lo hi) as (? & -> & _). Qed.

Lemma safe_slice_from data lo : 0 ≤ lo → lo ≤ blen data → safe (slice_from data lo).
Proof. intros. by apply safe_slice. Qed.

Lemma safe_u16_at data pos : 0 ≤ pos → pos + 2 ≤ blen data → safe (u16_at data pos).
Proof. intros. by destruct (u16_at_ok data pos) as (? & -> & _). Qed.

Lemma safe_u32_at data pos : 0 ≤ pos → pos + 4 ≤ blen data → safe (u32_at data pos).
Proof. intros. by destruct (u32_at_ok data pos) as (? & -> & _). Qed.

Lemma safe_make_bytes n : 0 ≤ n → safe (make_bytes n).
Proof. intros. unfold make_bytes. by rewrite (proj2 (Z.ltb_ge n 0)). Qed.

Lemma u16_at_range data pos v : u16_at data pos = Ok v → 0 ≤ v < 65536.
Proof. intros (b & _ & ?%Uint16_range)%bind_Ok_inv. lia. Qed.

Lemma u32_at_range data pos v : u32_at data pos = Ok v → 0 ≤ v < 4294967296.
Proof. intros (b & _ & ?%Uint32_range)%bind_Ok_inv. lia. Qed.

Lemma slice_from_Ok_len data lo b : slice_from data lo = Ok b → blen b = blen data - lo.
Proof. apply slice_Ok_len. Qed.

Lemma int16_cases v : 0 ≤ v < 65536 → int16 v = if v <? 32768 then v else v - 65536.
Proof. intros. unfold int16, wrapS. case_if; bool_to_prop; dlia. Qed.

Lemma uint32_small z : 0 ≤ z < 4294967296 → uint32 z = z.
Proof. intros. unfold uint32, wrapU. rewrite Z.mod_small by lia. done. Qed.

Lemma int32_cases v :
  0 ≤ v < 4294967296 → int32 v = if v <? 2147483648 then v else v - 4294967296.
Proof. intros. unfold int32, wrapS. case_if; bool_to_prop; dlia. Qed.

(** ** Cursor tactics *)

(** Bounds facts for the values read so far. *)
Ltac learn_bounds :=
  repeat match goal with
  | H : u16_at ?d ?p = Ok ?v |- _ =>
      lazymatch goal with
      | _ : 0 ≤ v < 65536 |- _ => fail
      | _ => pose proof (u16_at_range d p v H)
      end
  | H : u32_at ?d ?p = Ok ?v |- _ =>
      lazymatch goal with
      | _ : 0 ≤ v < 4294967296 |- _ => fail
      | _ => pose proof (u32_at_range d p v H)
      end
  | H : slice ?d ?lo ?hi = Ok ?b |- _ =>
      lazymatch goal with
      | _ : blen b = hi - lo |- _ => fail
      | _ => pose proof (slice_Ok_len d lo hi b H)
      end
  | H : slice_from ?d ?lo = Ok ?b |- _ =>
      lazymatch goal with
      | _ : blen b = blen d - lo |- _ => fail
      | _ => pose proof (slice_from_Ok_len d lo b H)
      end
  end.

(** [lia] knowing that lengths are non-negative and integers in range. *)
Ltac blia :=
  repeat match goal with
  | _ : context [blen ?b] |- _ =>
      lazymatch goal with _ : 0 ≤ blen b |- _ => fail | _ => pose proof (blen_nonneg b) end
  | |- context [blen ?b] =>
      lazymatch goal with _ : 0 ≤ blen b |- _ => fail | _ => pose proof (blen_nonneg b) end
  | _ : context [slen ?b] |- _ =>
      lazymatch goal with _ : 0 ≤ slen b |- _ => fail | _ => pose proof (slen_nonneg b) end
  | |- context [slen ?b] =>
      lazymatch goal with _ : 0 ≤ slen b |- _ => fail | _ => pose proof (slen_nonneg b) end
  | _ : context [int16 ?z] |- _ =>
      lazymatch goal with
      | _ : in_int16 (int16 z) |- _ => fail
      | _ => pose proof (int16_range z)
      end
  | _ : context [int32 ?z] |- _ =>
      lazymatch goal with
      | _ : in_int32 (int32 z) |- _ => fail
      | _ => pose proof (int32_range z)
      end
  end;
  unfold in_int16, in_int32 in *; lia.

(** One step of a proof that a parser does not panic. *)
Ltac safe_step :=
  lazymatch goal with
  | |- safe (Ok _) => exact I
  | |- safe (Err _) => exact I
  | |- safe (mret _) => exact I
  | |- safe (wrap_err _ _) => apply safe_wrap
  | |- safe (let _ := _ in _) => cbv zeta
  | |- safe (mbind _ _) => apply safe_bind; [|intros; cbv beta]
  | |- safe (if ?b then _ else _) => destruct b eqn:?; bool_to_prop
  | |- safe (match ?x with _ => _ end) => destruct x eqn:?
  | |- safe (u16_at _ _) => learn_bounds; apply safe_u16_at; blia
  | |- safe (u32_at _ _) => learn_bounds; apply safe_u32_at; blia
  | |- safe (slice _ _ _) => learn_bounds; apply safe_slice; blia
  | |- safe (slice_from _ _) => learn_bounds; apply safe_slice_from; blia
  | |- safe (make_bytes _) => learn_bounds; apply safe_make_bytes; blia
  | |- safe _ => solve [eauto with go]
  end.
Ltac safe_tac := repeat safe_step.

(** Lengths of all the cursors in scope, normalised. *)
Ltac cursor_lens :=
  repeat match goal with
  | H : at_pos ?d ?p ?s |- _ =>
      lazymatch goal with
      | _ : 0 ≤ p ∧ blen d = p + blen s |- _ => fail
      | _ => pose proof (at_pos_len d p s H)
      end
  end;
  autorewrite with blen in *.
Ltac cursor_lia := cursor_lens; blia.

(** Constant offsets are kept in normal form. *)
Ltac is_pos_lit p :=
  lazymatch p with
  | xH => idtac
  | xI ?q => is_pos_lit q
  | xO ?q => is_pos_lit q
  end.
Ltac is_Z_lit z := lazymatch z with Z0 => idtac | Zpos ?p => is_pos_lit p end.
Ltac norm_offsets :=
  cbv zeta;
  repeat match goal with
  | |- context [?a + ?b] =>
      is_Z_lit a; is_Z_lit b;
      let c := eval vm_compute in (a + b) in change (a + b) with c
  | H : at_pos _ (?a + ?b) _ |- _ =>
      is_Z_lit a; is_Z_lit b;
      let c := eval vm_compute in (a + b) in change (a + b) with c in H
  end.

(** Decide the guard in front of a cursor, or read under it. *)
Ltac cursor_step :=
  norm_offsets;
  match goal with
  | H : at_pos ?d ?p (be16 ?z ++ _) |- context [u16_at ?d ?p] =>
      let H' := fresh "Hcur" in
      destruct (at_pos_u16 _ _ _ _ H) as [-> H']; clear H; rename H' into H; bind_simpl
  | H : at_pos ?d ?p (be32 ?z ++ _) |- context [u32_at ?d ?p] =>
      let H' := fresh "Hcur" in
      destruct (at_pos_u32 _ _ _ _ H) as [-> H']; clear H; rename H' into H; bind_simpl
  | H : at_pos ?d ?p (?a ++ _) |- context [slice ?d ?p ?q] =>
      let H' := fresh "Hcur" in
      destruct (at_pos_bytes _ _ _ _ H) as [? H'];
      replace (slice d p q) with (Ok a)
        by (symmetry; first [eassumption | replace q with (p + blen a) by cursor_lia; eassumption]);
      clear H; rename H' into H; rewrite ?blen_bytes_of in H; bind_simpl
  | |- context [if ?a <? ?b then _ else _] =>
      first [ rewrite (proj2 (Z.ltb_ge a b)) by cursor_lia
            | rewrite (proj2 (Z.ltb_lt a b)) by cursor_lia ]
  end.

(** Invert a parser's success, guard by guard. *)
Ltac parse_inv H :=
  repeat (cbv zeta in H;
    lazymatch type of H with
    | (if ?b then _ else _) = Ok _ => destruct b eqn:?; try discriminate H
    | mbind _ _ = Ok _ =>
        let a := fresh "v" in let E := fresh "E" in
        apply bind_Ok_inv in H as (a & E & H)
    | wrap_err _ _ = Ok _ => apply wrap_err_Ok in H
    | (let '(_, _) := ?x in _) = Ok _ => destruct x as [? ?]
    end);
  bool_to_prop.
