(* ===== verification/Conn.v ===== *)
(** * Connections

    [net.Conn] as the code uses it, for the programs that talk to a peer over
    one or two connections.  A connection is the bytes the peer will send
    before closing, the bytes written to it, and how many more writes succeed.
    A handler is a state-passing program over its connections, so theorems
    about it quantify over every peer.  Deadlines are not modelled: a read that
    times out is a read that fails, as one that meets the end of the stream. *)

From S2P Require Import Prelude Bytes.

Record conn := {
  cn_in : bytes;
  cn_out : bytes;
  cn_writes : option nat
}.

(** ** Programs over a state *)

Definition IO (S A : Type) : Type := S → res A * S.

#[export] Instance IO_ret {S} : MRet (IO S) := λ A a s, (Ok a, s).
#[export] Instance IO_bind {S} : MBind (IO S) := λ A B f m s,
  match m s with
  | (Ok a, s) => f a s
  | (Err e, s) => (Err e, s)
  | (Panic, s) => (Panic, s)
  end.

(** A pure computation, an error return, and an error wrapped on its way up. *)
Definition pure {S A} (r : res A) : IO S A := λ s, (r, s).
Definition fail {S A} (e : error) : IO S A := λ s, (Err e, s).
Definition wrap {S A} (msg : string) (m : IO S A) : IO S A :=
  λ s, let '(r, s) := m s in (wrap_err msg r, s).

(** Run a program on one component of the state. *)
Definition on_fst {S T A} (m : IO S A) : IO (S * T) A :=
  λ '(s, t), let '(r, s) := m s in (r, (s, t)).
Definition on_snd {S T A} (m : IO T A) : IO (S * T) A :=
  λ '(s, t), let '(r, t) := m t in (r, (s, t)).

(** ** Reading and writing *)

(** [conn.Write(b)]. *)
Definition Write (b : bytes) : IO conn unit := λ c,
  match cn_writes c with
  | Some O => (Err (Sentinel "write error"), c)
  | Some (S n) =>
      (Ok tt, {| cn_in := cn_in c; cn_out := cn_out c ++ b; cn_writes := Some n |})
  | None => (Ok tt, {| cn_in := cn_in c; cn_out := cn_out c ++ b; cn_writes := None |})
  end.

(** [io.ReadFull(conn, buf)] for a buffer of [n] bytes. *)
Definition ReadFull (n : Z) : IO conn bytes := λ c,
  if blen (cn_in c) <? n
  then (Err (Sentinel "EOF"), {| cn_in := []; cn_out := cn_out c; cn_writes := cn_writes c |})
  else (Ok (take (Z.to_nat n) (cn_in c)),
        {| cn_in := drop (Z.to_nat n) (cn_in c); cn_out := cn_out c;
           cn_writes := cn_writes c |}).

(** [buf := make([]byte, n); io.ReadFull(conn, buf)]. *)
Definition read_make (n : Z) : IO conn bytes :=
  _ ← pure (make_bytes n); ReadFull n.

(** ** Copying *)

Lemma Write_Ok b c u c' :
  Write b c = (Ok u, c') → cn_in c' = cn_in c ∧ cn_out c' = cn_out c ++ b.
Proof. unfold Write. destruct (cn_writes c) as [[|n]|]; [done|..]; by intros [= _ <-]. Qed.

Lemma Write_reliable b c u c' : Write b c = (Ok u, c') → cn_writes c = None → cn_writes c' = None.
Proof. unfold Write. intros H Hn. rewrite Hn in H. by injection H as _ <-. Qed.

(** How a direction of a final copy went until it was cut: the sizes of the chunks
    its reads returned, and how much a last read returned that was never written,
    because the other direction had ended and the connections were closed. *)
Record copying := { cy_chunks : list nat; cy_cut : nat }.

(** The bytes it passes on if every write succeeds, and those it reads. *)
Definition copied (cy : copying) : nat := sum_list (cy_chunks cy).
Definition consumed (cy : copying) : nat := copied cy + cy_cut cy.

Definition skip (n : nat) (c : conn) : conn :=
  {| cn_in := drop n (cn_in c); cn_out := cn_out c; cn_writes := cn_writes c |}.

(** [io.Copy(dst, src)]: the bytes written, and the connections.  A chunk whose
    write fails is lost, and the copy ends. *)
Fixpoint copy_loop (chunks : list nat) (cut : nat) (dst src : conn) : Z * (conn * conn) :=
  match chunks with
  | [] => (0, (dst, skip cut src))
  | k :: chunks =>
      let b := take k (cn_in src) in
      let src := skip k src in
      if blen b =? 0 then copy_loop chunks cut dst src
      else match Write b dst with
           | (Ok _, dst) => let '(n, cs) := copy_loop chunks cut dst src in (blen b + n, cs)
           | (_, dst) => (0, (dst, src))
           end
  end.

Definition Copy (cy : copying) (dst src : conn) : Z * (conn * conn) :=
  copy_loop (cy_chunks cy) (cy_cut cy) dst src.

(** Whatever happens, what was written is a prefix of what was read, and nothing
    is lost while writes succeed and the copy is not cut. *)
Lemma Copy_spec cy dst src :
  let '(n, (dst', src')) := Copy cy dst src in
  ∃ written lost,
    cn_in src = written ++ lost ++ cn_in src' ∧ cn_out src' = cn_out src ∧
    cn_writes src' = cn_writes src ∧ cn_in dst' = cn_in dst ∧
    cn_out dst' = cn_out dst ++ written ∧ n = blen written ∧
    (cn_writes dst = None → cn_writes dst' = None ∧ (cy_cut cy = O → lost = [])).
Proof.
  unfold Copy. destruct cy as [chunks cut]. cbn [cy_chunks cy_cut]. revert dst src.
  induction chunks as [|k chunks IH]; intros dst src; cbn [copy_loop].
  { exists [], (take cut (cn_in src)). cbn [skip cn_in cn_out cn_writes app].
    rewrite take_drop, app_nil_r. split_and!; try done. intros ?. split; [done|by intros ->]. }
  destruct (Z.eqb_spec (blen (take k (cn_in src))) 0) as [E|E].
  { assert (take k (cn_in src) = []) as Hnil by (destruct (take k (cn_in src)); [done|unfold blen in E; cbn in E; lia]).
    specialize (IH dst (skip k src)).
    destruct (copy_loop chunks cut dst (skip k src)) as [n [dst' src']].
    destruct IH as (w & l & Hin & Hrest). exists w, l. split; [|done].
    rewrite <- Hin. cbn [skip cn_in]. by rewrite <- (take_drop k (cn_in src)) at 1; rewrite Hnil. }
  destruct (Write (take k (cn_in src)) dst) as [[u|e|] dst1] eqn:Hw.
  - pose proof (Write_Ok _ _ _ _ Hw) as [Hi Ho]. specialize (IH dst1 (skip k src)).
    destruct (copy_loop chunks cut dst1 (skip k src)) as [n [dst' src']].
    destruct IH as (w & l & Hin & H1 & H2 & H3 & H4 & -> & H6). cbn [skip cn_out cn_writes] in H1, H2.
    exists (take k (cn_in src) ++ w), l. split_and!; try congruence.
    + rewrite <- app_assoc, <- Hin. cbn [skip cn_in]. by rewrite take_drop.
    + by rewrite H4, Ho, app_assoc.
    + by rewrite blen_app.
    + intros Hn. by eapply H6, Write_reliable.
  - exists [], (take k (cn_in src)). revert Hw. unfold Write.
    destruct (cn_writes dst) as [[|m]|] eqn:Hd; [|done..]. intros [= _ <-].
    cbn [skip cn_in cn_out cn_writes app]. rewrite take_drop, app_nil_r. by split_and!.
  - revert Hw. unfold Write. by destruct (cn_writes dst) as [[|m]|].
Qed.

(** Between reliable peers. *)
Lemma Copy_reliable cy din dout sin sout sw :
  Copy cy {| cn_in := din; cn_out := dout; cn_writes := None |}
          {| cn_in := sin; cn_out := sout; cn_writes := sw |} =
  (blen (take (copied cy) sin),
   ({| cn_in := din; cn_out := dout ++ take (copied cy) sin; cn_writes := None |},
    {| cn_in := drop (consumed cy) sin; cn_out := sout; cn_writes := sw |})).
Proof.
  unfold Copy, consumed, copied. destruct cy as [chunks cut]. cbn [cy_chunks cy_cut].
  revert dout sin. induction chunks as [|k chunks IH]; intros dout sin; cbn [copy_loop sum_list].
  { by rewrite app_nil_r. }
  unfold skip at 1 2. cbn [cn_in cn_out cn_writes].
  unfold id. rewrite <- Nat.add_assoc, <- drop_drop, <- take_take_drop.
  destruct (Z.eqb_spec (blen (take k sin)) 0) as [E|E].
  - assert (take k sin = []) as -> by (destruct (take k sin); [done|unfold blen in E; cbn in E; lia]).
    by rewrite IH.
  - unfold Write. cbn [cn_in cn_out cn_writes]. rewrite IH. by rewrite blen_app, <- app_assoc.
Qed.

(** ** Safety *)

Definition io_safe {S A} (P : A → Prop) (m : IO S A) : Prop :=
  ∀ s, match fst (m s) with Ok a => P a | Err _ => True | Panic => False end.

Lemma io_safe_bind {S A B} (m : IO S A) (f : A → IO S B) P Q :
  io_safe P m → (∀ a, P a → io_safe Q (f a)) → io_safe Q (m ≫= f).
Proof.
  intros Hm Hf s. unfold mbind, IO_bind. specialize (Hm s).
  destruct (m s) as [[a| |] s']; cbn [fst] in *; [by apply Hf|done|done].
Qed.

Lemma io_safe_weaken {S A} (m : IO S A) (P Q : A → Prop) :
  io_safe P m → (∀ a, P a → Q a) → io_safe Q m.
Proof. intros Hm HPQ s. specialize (Hm s). destruct (fst (m s)); auto. Qed.

Lemma io_safe_ret {S A} (a : A) (P : A → Prop) : P a → io_safe P (mret a : IO S A).
Proof. intros ? s. done. Qed.

Lemma io_safe_fail {S A} e (P : A → Prop) : io_safe P (fail e : IO S A).
Proof. intros s. done. Qed.

Lemma io_safe_wrap {S A} msg (m : IO S A) P : io_safe P m → io_safe P (wrap msg m).
Proof.
  intros Hm s. unfold wrap. specialize (Hm s).
  by destruct (m s) as [[a| |] s']; cbn [fst wrap_err] in *.
Qed.

Lemma io_safe_pure {S A} (r : res A) : safe r → io_safe (λ a, r = Ok a) (pure r : IO S A).
Proof. intros Hr s. unfold pure; cbn [fst]. by destruct r. Qed.

Lemma io_safe_on_fst {S T A} (m : IO S A) P : io_safe P m → io_safe P (on_fst (T:=T) m).
Proof. intros Hm [s t]. unfold on_fst. specialize (Hm s). by destruct (m s). Qed.

Lemma io_safe_on_snd {S T A} (m : IO T A) P : io_safe P m → io_safe P (on_snd (S:=S) m).
Proof. intros Hm [s t]. unfold on_snd. specialize (Hm t). by destruct (m t). Qed.

Lemma io_safe_Write b : io_safe (λ _, True) (Write b).
Proof. intros c. unfold Write. by destruct (cn_writes c) as [[|n]|]. Qed.

Lemma io_safe_ReadFull n : 0 ≤ n → io_safe (λ b, blen b = n) (ReadFull n).
Proof.
  intros Hn c. unfold ReadFull. destruct (Z.ltb_spec (blen (cn_in c)) n); [done|].
  cbn [fst]. unfold blen in *. rewrite length_take. lia.
Qed.

Lemma io_safe_read_make n : 0 ≤ n → io_safe (λ b, blen b = n) (read_make n).
Proof.
  intros Hn. eapply io_safe_bind; [apply io_safe_pure, safe_make_bytes, Hn|].
  intros _ _. by apply io_safe_ReadFull.
Qed.

(** ** Computing a run *)

Lemma ReadFull_app n b rest out w :
  blen b = n →
  ReadFull n {| cn_in := b ++ rest; cn_out := out; cn_writes := w |} =
  (Ok b, {| cn_in := rest; cn_out := out; cn_writes := w |}).
Proof.
  intros <-. unfold ReadFull; cbn [cn_in cn_out cn_writes].
  rewrite (proj2 (Z.ltb_ge _ _)) by (rewrite blen_app; blia).
  unfold blen. by rewrite Nat2Z.id, take_app_length, drop_app_length.
Qed.

Lemma read_make_app n b rest out w :
  blen b = n →
  read_make n {| cn_in := b ++ rest; cn_out := out; cn_writes := w |} =
  (Ok b, {| cn_in := rest; cn_out := out; cn_writes := w |}).
Proof.
  intros Hb. unfold read_make, mbind, IO_bind, pure, make_bytes.
  rewrite (proj2 (Z.ltb_ge n 0)) by (subst; apply blen_nonneg). by apply ReadFull_app.
Qed.

(** A read that returns [b] consumed exactly [b]. *)
Lemma ReadFull_Ok n c b c' :
  ReadFull n c = (Ok b, c') → 0 ≤ n →
  blen b = n ∧ cn_in c = b ++ cn_in c' ∧ cn_out c' = cn_out c ∧ cn_writes c' = cn_writes c.
Proof.
  unfold ReadFull. destruct (Z.ltb_spec (blen (cn_in c)) n); [done|].
  intros [= <- <-] ?. cbn [cn_in cn_out cn_writes]. rewrite take_drop.
  split_and!; try done. unfold blen in *. rewrite length_take. lia.
Qed.

Lemma read_make_Ok n c b c' :
  read_make n c = (Ok b, c') →
  0 ≤ n ∧ blen b = n ∧ cn_in c = b ++ cn_in c' ∧ cn_out c' = cn_out c ∧
  cn_writes c' = cn_writes c.
Proof.
  unfold read_make, mbind, IO_bind, pure, make_bytes.
  destruct (Z.ltb_spec n 0); [done|]. intros Hr. split; [done|]. by apply ReadFull_Ok.
Qed.

Lemma io_bind_Ok {S A B} (m : IO S A) (f : A → IO S B) s b s' :
  (m ≫= f) s = (Ok b, s') → ∃ a s1, m s = (Ok a, s1) ∧ f a s1 = (Ok b, s').
Proof.
  unfold mbind, IO_bind. destruct (m s) as [[a| |] s1]; [|done|done]. eauto.
Qed.

Lemma wrap_Ok {S A} msg (m : IO S A) s a s' : wrap msg m s = (Ok a, s') ↔ m s = (Ok a, s').
Proof.
  unfold wrap. destruct (m s) as [[x| |] s1]; cbn [wrap_err]; split; congruence.
Qed.

Lemma pure_Ok {S A} (r : res A) (s : S) a s' : pure r s = (Ok a, s') ↔ r = Ok a ∧ s' = s.
Proof. unfold pure. split; [intros [= -> ->]|intros [-> ->]]; done. Qed.
