(* ===== verification/Protocol.v ===== *)
(** * The wire protocol ([internal/protocol])

    Request and response headers, the table of supported API versions, and
    frame encoding into pooled buffers. *)

From S2P Require Import Prelude Bytes.

(** ** [errors.go] *)

Definition ErrUnsupportedAPIKey : error := Sentinel "unsupported API key: passthrough mode".
Definition ErrUnsupportedVersion : error := Sentinel "API version outside supported range".
Definition ErrFrameTooShort : error := Sentinel "frame too short to parse request header".

(** ** [versions.go] *)

Definition APIKeyProduce : Z := 0.
Definition APIKeyFetch : Z := 1.
Definition APIKeyMetadata : Z := 3.
Definition APIKeySaslHandshake : Z := 17.
Definition APIKeySaslAuthenticate : Z := 36.

Record VersionRange := { MinVersion : Z; MaxVersion : Z }.

Definition SupportedAPIs : gmap Z VersionRange :=
  {[ APIKeyProduce := {| MinVersion := 0; MaxVersion := 9 |};
     APIKeyFetch := {| MinVersion := 0; MaxVersion := 12 |};
     APIKeyMetadata := {| MinVersion := 0; MaxVersion := 12 |};
     APIKeySaslHandshake := {| MinVersion := 0; MaxVersion := 1 |};
     APIKeySaslAuthenticate := {| MinVersion := 0; MaxVersion := 2 |} ]}.

Definition IsSupported (apiKey version : Z) : bool :=
  match SupportedAPIs !! apiKey with
  | None => false
  | Some r => (MinVersion r <=? version) && (version <=? MaxVersion r)
  end.

Definition GetMaxVersion (apiKey : Z) : Z * bool :=
  match SupportedAPIs !! apiKey with
  | None => (0, false)
  | Some r => (MaxVersion r, true)
  end.

(** ** [parser.go] *)

Record RequestHeader := {
  Size : Z;
  APIKey : Z;
  APIVersion : Z;
  CorrelationID : Z;
  ClientID : string
}.

Record ResponseHeader := { RSize : Z; RCorrelationID : Z }.

Definition fixedHeaderLen : Z := 14.

Definition ParseRequestHeader (data : bytes) : res RequestHeader :=
  check blen data <? fixedHeaderLen, ErrFrameTooShort;;
  size ← u32_at data 0; let size := int32 size in
  apiKey ← u16_at data 4; let apiKey := int16 apiKey in
  apiVersion ← u16_at data 6; let apiVersion := int16 apiVersion in
  correlationID ← u32_at data 8; let correlationID := int32 correlationID in
  clientIDLen ← u16_at data 12; let clientIDLen := int16 clientIDLen in
  clientID ←
    (if clientIDLen =? -1 then Ok ""%string
     else if 0 <? clientIDLen then
       let e := fixedHeaderLen + clientIDLen in
       check blen data <? e, ErrFrameTooShort;;
       b ← slice data fixedHeaderLen e; Ok (str b)
     else Ok ""%string);
  Ok {| Size := size; APIKey := apiKey; APIVersion := apiVersion;
        CorrelationID := correlationID; ClientID := clientID |}.

Definition ParseResponseHeader (data : bytes) : res ResponseHeader :=
  check blen data <? 8, ErrFrameTooShort;;
  size ← u32_at data 0;
  correlationID ← u32_at data 4;
  Ok {| RSize := int32 size; RCorrelationID := int32 correlationID |}.

(** [WriteFrame] takes a buffer from [bufferPool]: [pooled] is its backing
    array, with whatever an earlier frame left in it ([cap(buf)] is its
    length).  Too small a buffer is replaced by a zeroed one. *)
Definition WriteFrame (pooled : bytes) (header body : bytes) : bytes :=
  let totalSize := 4 + blen header + blen body in
  let buf := if blen pooled <? totalSize
             then replicate (Z.to_nat totalSize) x00
             else take (Z.to_nat totalSize) pooled in
  let buf := copy_at buf 0 (be32 (blen header + blen body)) in
  let buf := copy_at buf 4 header in
  copy_at buf (4 + blen header) body.

(** ** The reference encoding of a request header

    [client_id] is a nullable string. *)

Definition encode_nullable (s : option string) : bytes :=
  match s with
  | None => be16 (-1)
  | Some s => be16 (slen s) ++ bytes_of s
  end.

Definition encode_request_header (size apiKey apiVersion correlationID : Z)
    (clientID : option string) : bytes :=
  be32 size ++ be16 apiKey ++ be16 apiVersion ++ be32 correlationID
  ++ encode_nullable clientID.

Definition valid_nullable (s : option string) : Prop :=
  match s with None => True | Some s => slen s < 32768 end.

(** ** Lemmas *)

Lemma at_pos_nullable data pos s rest :
  valid_nullable s → at_pos data pos (encode_nullable s ++ rest) →
  ∃ n, u16_at data pos = Ok (uint16 n) ∧ in_int16 n ∧
    n = match s with None => -1 | Some s => slen s end ∧
    at_pos data (pos + 2) (bytes_of (default ""%string s) ++ rest).
Proof.
  intros Hv H. destruct s as [s|]; cbn [encode_nullable valid_nullable] in *.
  - rewrite <- app_assoc in H. apply at_pos_u16 in H as [? ?].
    exists (slen s). split_and!; try done. pose proof (slen_nonneg s).
    unfold in_int16. lia.
  - apply at_pos_u16 in H as [? ?]. by exists (-1).
Qed.

(** The frame ends before the client id it announces. *)
Definition client_id_cut (data : bytes) : Prop :=
  ∃ n, u16_at data 12 = Ok n ∧ 0 < int16 n ∧ blen data < fixedHeaderLen + int16 n.

Lemma ParseRequestHeader_cases data :
  (ParseRequestHeader data = Err ErrFrameTooShort ∧
     (blen data < fixedHeaderLen ∨ client_id_cut data)) ∨
  (∃ h, ParseRequestHeader data = Ok h ∧ fixedHeaderLen + slen (ClientID h) ≤ blen data).
Proof.
  unfold ParseRequestHeader. case_if; bool_to_prop; [by left; split; [|left]|].
  unfold fixedHeaderLen, client_id_cut in *.
  destruct (u32_at_ok data 0) as (? & -> & _); [lia..|].
  destruct (u16_at_ok data 4) as (? & -> & _); [lia..|].
  destruct (u16_at_ok data 6) as (? & -> & _); [lia..|].
  destruct (u32_at_ok data 8) as (? & -> & _); [lia..|].
  destruct (u16_at_ok data 12) as (n & -> & Hn); [lia..|].
  bind_simpl. cbv zeta.
  repeat case_if; bind_simpl; bool_to_prop.
  - right. eexists; split; [done|]. cbn [ClientID]. change (slen "") with 0. lia.
  - left. split; [done|]. right. eauto.
  - destruct (slice_ok data 14 (14 + int16 n)) as (b & -> & Hb); [lia..|].
    right. eexists; split; [done|]. cbn [ClientID]. rewrite slen_str. lia.
  - right. eexists; split; [done|]. cbn [ClientID]. change (slen "") with 0. lia.
Qed.

Lemma ParseRequestHeader_at data size key ver corr cid rest :
  in_int32 size → in_int16 key → in_int16 ver → in_int32 corr → valid_nullable cid →
  at_pos data 0 (encode_request_header size key ver corr cid ++ rest) →
  ParseRequestHeader data =
  Ok {| Size := size; APIKey := key; APIVersion := ver; CorrelationID := corr;
        ClientID := default ""%string cid |}.
Proof.
  intros Hs Hk Hv Hc Hcid Hcur. unfold encode_request_header in Hcur. rewrite <- !app_assoc in Hcur.
  unfold ParseRequestHeader, fixedHeaderLen.
  do 4 cursor_step. norm_offsets.
  apply at_pos_nullable in Hcur as (n & -> & Hr & Hn & Hcur); [|done]. bind_simpl.
  norm_offsets. rewrite !int32_uint32, !int16_uint16, !int32_id, !int16_id by done.
  cursor_step.
  destruct cid as [s|]; unfold default, id in *; subst; [|done].
  pose proof (slen_nonneg s).
  rewrite (proj2 (Z.eqb_neq (slen s) (-1))) by lia.
  destruct (decide (slen s = 0)) as [E|].
  - rewrite E. bind_simpl. by rewrite <- (str_bytes_of s), (nil_length_inv (bytes_of s)) by (unfold slen, blen in E; lia).
  - do 3 cursor_step. by rewrite str_bytes_of.
Qed.

Lemma split_lengths {A} (l a b c : list A) :
  length l = length (a ++ b ++ c) →
  ∃ l1 l2 l3, l = l1 ++ l2 ++ l3 ∧ length l1 = length a ∧
    length l2 = length b ∧ length l3 = length c.
Proof.
  rewrite !length_app. intros H.
  exists (take (length a) l), (take (length b) (drop (length a) l)),
    (drop (length b) (drop (length a) l)).
  rewrite !take_drop, !length_take, !length_drop. split_and!; [done|lia..].
Qed.

Lemma WriteFrame_eq pooled header body :
  WriteFrame pooled header body =
  be32 (blen header + blen body) ++ header ++ body.
Proof.
  unfold WriteFrame. set (total := 4 + blen header + blen body).
  set (buf := if blen pooled <? total then _ else _).
  assert (length buf = length (be32 0 ++ header ++ body)) as Hlen.
  { unfold buf, total, blen in *. rewrite !length_app.
    case_if; bool_to_prop; rewrite ?length_replicate, ?length_take; simpl; lia. }
  destruct (split_lengths buf _ _ _ Hlen) as (b1 & b2 & b3 & -> & ? & ? & ?).
  set (hd := be32 (blen header + blen body)).
  rewrite (copy_at_app [] b1 (b2 ++ b3) hd ltac:(done)
             : copy_at (b1 ++ b2 ++ b3) 0 hd = hd ++ b2 ++ b3).
  rewrite (copy_at_app hd b2 b3 header ltac:(done)
             : copy_at (hd ++ b2 ++ b3) 4 header = _).
  change 4 with (blen hd). rewrite <- blen_app, app_assoc, <- (app_nil_r b3).
  rewrite copy_at_app by done. by rewrite app_nil_r, <- app_assoc.
Qed.

(** ** Properties *)

(** The request header parser inverts the wire encoding.  Whatever bytes
    follow the header, and whether the client id is null, empty or not,
    [ParseRequestHeader] returns exactly the encoded fields. *)
Theorem ParseRequestHeader_roundtrip size key ver corr cid rest :
  in_int32 size → in_int16 key → in_int16 ver → in_int32 corr → valid_nullable cid →
  ParseRequestHeader (encode_request_header size key ver corr cid ++ rest) =
  Ok {| Size := size; APIKey := key; APIVersion := ver; CorrelationID := corr;
        ClientID := default ""%string cid |}.
Proof. intros. eapply ParseRequestHeader_at; eauto using at_pos_0. Qed.

Lemma ParseRequestHeader_roundtrip_witness :
  in_int32 30 ∧
  ParseRequestHeader
    (encode_request_header 30 APIKeyProduce 7 42 (Some "app"%string) ++ [x01]) =
  Ok {| Size := 30; APIKey := 0; APIVersion := 7; CorrelationID := 42;
        ClientID := "app" |}.
Proof.
  split; [unfold in_int32; lia|].
  apply (ParseRequestHeader_roundtrip 30 0 7 42 (Some "app"%string) [x01]);
    unfold in_int32, in_int16, valid_nullable; vm_compute; intuition discriminate.
Defined.

(** Whatever bytes a pooled buffer still holds and whatever its capacity,
    the frame [WriteFrame] returns is exactly size prefix, header and body. *)
Theorem WriteFrame_exact pooled header body :
  WriteFrame pooled header body =
  be32 (blen header + blen body) ++ header ++ body.
Proof. apply WriteFrame_eq. Qed.

(** [ParseRequestHeader] is total on arbitrary network input: it never
    indexes out of range, its only error is [ErrFrameTooShort], which it gives
    exactly for a frame shorter than the fixed header or than the client id it
    announces, and on success the body offset [14 + len(ClientID)] that the
    router slices at lies inside the frame. *)
Theorem ParseRequestHeader_total data :
  (ParseRequestHeader data = Err ErrFrameTooShort ∧
     (blen data < fixedHeaderLen ∨ client_id_cut data)) ∨
  (∃ h, ParseRequestHeader data = Ok h ∧ fixedHeaderLen + slen (ClientID h) ≤ blen data).
Proof. apply ParseRequestHeader_cases. Qed.
