(* ===== verification/RequestBody.v ===== *)
(** * Produce and Fetch request bodies ([internal/routing/data.go], parsing)

    The parsers that extract the first topic and partition of a request.
    Offsets, guards and their order are those of the Go code; a read that Go
    does not guard can yield [Panic]. *)

From S2P Require Import Prelude Bytes Protocol.

Record RoutedRequest := {
  rr_APIKey : Z;
  rr_APIVersion : Z;
  rr_ClientID : string;
  rr_TopicName : string;
  rr_PartitionID : Z
}.

(** [readString]: the length, the string and the offset after it. *)
Definition readString (data : bytes) (offset : Z) : res (Z * string * Z) :=
  check blen data <? offset + 2, Errorf "string truncated (need 2 bytes for length)";;
  length ← u16_from data offset; let length := int16 length in
  let offset := offset + 2 in
  if length <? 0 then Ok (length, ""%string, offset)
  else
    let e := offset + length in
    check blen data <? e, Errorf "string truncated: length but only n bytes left";;
    b ← slice data offset e;
    Ok (length, str b, e).

Definition parseProduceBody (body : bytes) (version : Z) : res RoutedRequest :=
  let pos := 0 in
  pos ←
    (if 3 <=? version then
       txnLen ← u16_from body pos; let txnLen := int16 txnLen in
       let pos := pos + 2 in
       Ok (if 0 <? txnLen then pos + txnLen else pos)
     else Ok pos);
  check blen body <? pos + 2, Errorf "produce body truncated at acks";;
  let pos := pos + 2 in
  check blen body <? pos + 4, Errorf "produce body truncated at timeout";;
  let pos := pos + 4 in
  check blen body <? pos + 4, Errorf "produce body truncated at topic array length";;
  topicCount ← u32_from body pos; let topicCount := int32 topicCount in
  let pos := pos + 4 in
  check topicCount =? 0, Errorf "produce request has no topics";;
  '(_, topicName, newPos) ← wrap_err "produce body: reading topic name" (readString body pos);
  let pos := newPos in
  check blen body <? pos + 4, Errorf "produce body truncated at partition array length";;
  partCount ← u32_from body pos; let partCount := int32 partCount in
  let pos := pos + 4 in
  check partCount =? 0, Errorf "produce request: topic has no partitions";;
  check blen body <? pos + 4, Errorf "produce body truncated at partition id";;
  partitionID ← u32_from body pos;
  Ok {| rr_APIKey := APIKeyProduce; rr_APIVersion := 0; rr_ClientID := "";
        rr_TopicName := topicName; rr_PartitionID := int32 partitionID |}.

Definition parseFetchBody (body : bytes) (version : Z) : res RoutedRequest :=
  let pos := 0 in
  check blen body <? pos + 4, Errorf "fetch body truncated at replica_id";;
  let pos := pos + 4 in
  check blen body <? pos + 4, Errorf "fetch body truncated at max_wait";;
  let pos := pos + 4 in
  check blen body <? pos + 4, Errorf "fetch body truncated at min_bytes";;
  let pos := pos + 4 in
  pos ← (if 3 <=? version then
           check blen body <? pos + 4, Errorf "fetch body truncated at max_bytes";;
           Ok (pos + 4)
         else Ok pos);
  pos ← (if 4 <=? version then
           check blen body <? pos + 1, Errorf "fetch body truncated at isolation_level";;
           Ok (pos + 1)
         else Ok pos);
  pos ← (if 7 <=? version then
           check blen body <? pos + 8, Errorf "fetch body truncated at session fields";;
           Ok (pos + 8)
         else Ok pos);
  check blen body <? pos + 4, Errorf "fetch body truncated at topic array length";;
  topicCount ← u32_from body pos; let topicCount := int32 topicCount in
  let pos := pos + 4 in
  check topicCount =? 0, Errorf "fetch request has no topics";;
  '(_, topicName, newPos) ← wrap_err "fetch body: reading topic name" (readString body pos);
  let pos := newPos in
  check blen body <? pos + 4, Errorf "fetch body truncated at partition array length";;
  partCount ← u32_from body pos; let partCount := int32 partCount in
  let pos := pos + 4 in
  check partCount =? 0, Errorf "fetch request: topic has no partitions";;
  check blen body <? pos + 4, Errorf "fetch body truncated at partition id";;
  partitionID ← u32_from body pos;
  Ok {| rr_APIKey := APIKeyFetch; rr_APIVersion := 0; rr_ClientID := "";
        rr_TopicName := topicName; rr_PartitionID := int32 partitionID |}.

Definition with_api (apiKey apiVersion : Z) (r : RoutedRequest) : RoutedRequest :=
  {| rr_APIKey := apiKey; rr_APIVersion := apiVersion; rr_ClientID := rr_ClientID r;
     rr_TopicName := rr_TopicName r; rr_PartitionID := rr_PartitionID r |}.

Definition ParseRequestBody (apiKey apiVersion : Z) (body : bytes) : res RoutedRequest :=
  if apiKey =? APIKeyProduce then
    req ← parseProduceBody body apiVersion; Ok (with_api apiKey apiVersion req)
  else if apiKey =? APIKeyFetch then
    req ← parseFetchBody body apiVersion; Ok (with_api apiKey apiVersion req)
  else Err (Errorf "unsupported API key for partition-aware routing").

(** ** The reference encodings *)

(** What both request kinds end with: the topic array, whose first entry is
    [topic] with [nparts] partitions starting with [pid]. *)
Definition encode_topics (ntopics : Z) (topic : string) (nparts pid : Z) : bytes :=
  be32 ntopics ++ be16 (slen topic) ++ bytes_of topic ++ be32 nparts ++ be32 pid.

Definition encode_produce (version : Z) (txn : option string) (acks timeout : Z)
    (topics : bytes) : bytes :=
  (if 3 <=? version then encode_nullable txn else [])
  ++ be16 acks ++ be32 timeout ++ topics.

Definition encode_fetch (version replica maxwait minbytes maxbytes : Z)
    (isolation : byte) (session epoch : Z) (topics : bytes) : bytes :=
  be32 replica ++ be32 maxwait ++ be32 minbytes
  ++ (if 3 <=? version then be32 maxbytes else [])
  ++ (if 4 <=? version then [isolation] else [])
  ++ (if 7 <=? version then be32 session ++ be32 epoch else [])
  ++ topics.

(** A well-formed first topic entry. *)
Definition valid_topics (ntopics : Z) (topic : string) (nparts pid : Z) : Prop :=
  in_int32 ntopics ∧ ntopics ≠ 0 ∧ slen topic < 32768 ∧
  in_int32 nparts ∧ nparts ≠ 0 ∧ in_int32 pid.

(** ** Lemmas *)

Lemma readString_at data pos s rest :
  slen s < 32768 → at_pos data pos (be16 (slen s) ++ bytes_of s ++ rest) →
  readString data pos = Ok (slen s, s, pos + 2 + slen s) ∧
  at_pos data (pos + 2 + slen s) rest.
Proof.
  intros Hs Hcur. pose proof (slen_nonneg s).
  unfold readString. rewrite u16_from_eq.
  destruct (at_pos_u16 _ _ _ _ Hcur) as [-> Hcur2].
  pose proof (at_pos_advance _ _ _ _ Hcur2) as Hcur3. rewrite blen_bytes_of in Hcur3.
  cursor_step. bind_simpl. rewrite int16_uint16, int16_small by lia.
  split; [|done]. clear Hcur Hcur3.
  cursor_step. cursor_step. cursor_step. by rewrite str_bytes_of.
Qed.

Lemma safe_readString data pos : 0 ≤ pos → safe (readString data pos).
Proof. intros. unfold readString. rewrite u16_from_eq. safe_tac. Qed.

Lemma readString_pos data pos n s e :
  readString data pos = Ok (n, s, e) → pos + 2 ≤ e ≤ blen data.
Proof.
  unfold readString. case_if; [done|]. bool_to_prop.
  intros (v & _ & H)%bind_Ok_inv. cbv zeta in H.
  destruct (int16 v <? 0) eqn:?; [simplify_eq; lia|].
  destruct (blen data <? _) eqn:?; [done|]. bool_to_prop.
  apply bind_Ok_inv in H as (b & _ & ?). simplify_eq. lia.
Qed.

(** [safe_step] for the pieces of this file. *)
Ltac body_step :=
  rewrite ?u32_from_eq, ?u16_from_eq;
  lazymatch goal with
  | |- safe (readString _ _) => learn_bounds; apply safe_readString; blia
  | H : wrap_err _ (readString _ _) = Ok (_, _, _) |- _ =>
      apply wrap_err_Ok, readString_pos in H
  | |- safe (let '(_, _) := ?x in _) => destruct x as [[? ?] ?]
  | _ => safe_step
  end.

Lemma parseProduceBody_safe_pos body v :
  ¬ (3 ≤ v ∧ blen body < 2) → safe (parseProduceBody body v).
Proof.
  intros Hv. unfold parseProduceBody. cbv zeta.
  apply (safe_bind _ _).
  - case_if; [|done]. bool_to_prop. rewrite u16_from_eq. safe_tac.
  - intros pos Hpos.
    assert (0 ≤ pos).
    { destruct (3 <=? v); [|by simplify_eq]. rewrite u16_from_eq in Hpos.
      apply bind_Ok_inv in Hpos as (n & Hn & Hpos). cbv zeta in Hpos.
      destruct (0 <? int16 n) eqn:?; bool_to_prop; simplify_eq; lia. }
    clear Hv Hpos. repeat body_step.
Qed.

Lemma parseProduceBody_short body v :
  3 ≤ v → blen body < 2 → parseProduceBody body v = Panic.
Proof.
  intros Hv Hb. unfold parseProduceBody. cbv zeta.
  rewrite (proj2 (Z.leb_le 3 v)) by done. unfold u16_from.
  destruct (slice_ok body 0 (blen body)) as (b & Hs & Hlen);
    [lia|pose proof (blen_nonneg body); lia|lia|].
  unfold slice_from. rewrite Hs. bind_simpl. by rewrite Uint16_short by lia.
Qed.

(** The Produce body parser panics on exactly one family of inputs: a
    version 3+ request whose body has fewer than the two bytes of the
    transactional id's length, which the code reads without a guard.  An
    unrecovered panic in a connection's goroutine ends the proxy process. *)
Theorem parseProduceBody_panics_iff body v :
  parseProduceBody body v = Panic ↔ 3 ≤ v ∧ blen body < 2.
Proof.
  split.
  - intros H. destruct (decide (3 ≤ v ∧ blen body < 2)) as [|Hn]; [done|].
    apply parseProduceBody_safe_pos in Hn. by rewrite H in Hn.
  - intros [Hv Hb]. by apply parseProduceBody_short.
Qed.

(** The Fetch body parser never panics, whatever the bytes and version. *)
Theorem parseFetchBody_safe body v : safe (parseFetchBody body v).
Proof.
  unfold parseFetchBody. cbv zeta.
  case_if; [done|]. case_if; [done|]. case_if; [done|]. bool_to_prop.
  apply (safe_bind _ _); [by repeat case_if|]. intros p1 H1.
  assert (0 ≤ p1) by (destruct (3 <=? v); repeat case_match; simplify_eq; lia).
  apply (safe_bind _ _); [by repeat case_if|]. intros p2 H2.
  assert (0 ≤ p2) by (destruct (4 <=? v); repeat case_match; simplify_eq; lia).
  apply (safe_bind _ _); [by repeat case_if|]. intros p3 H3.
  assert (0 ≤ p3) by (destruct (7 <=? v); repeat case_match; simplify_eq; lia).
  clear H1 H2 H3. repeat body_step.
Qed.

(** The end of both parsers, run at a cursor. *)
Ltac topics_tac :=
  rewrite ?u32_from_eq; do 2 cursor_step;
  rewrite int32_uint32, int32_id by done;
  rewrite (proj2 (Z.eqb_neq _ 0)) by done;
  match goal with
  | H : at_pos ?d ?p (be16 (slen ?s) ++ _) |- _ =>
      apply readString_at in H as [-> H]; [|done]
  end;
  bind_simpl; rewrite ?u32_from_eq; do 2 cursor_step;
  rewrite int32_uint32, int32_id by done;
  rewrite (proj2 (Z.eqb_neq _ 0)) by done;
  rewrite ?u32_from_eq; do 2 cursor_step;
  rewrite int32_uint32, int32_id by done; done.

Lemma parseProduceBody_at data v txn acks timeout nt topic np pid rest :
  valid_nullable txn → valid_topics nt topic np pid →
  at_pos data 0
    (encode_produce v txn acks timeout (encode_topics nt topic np pid) ++ rest) →
  parseProduceBody data v =
  Ok {| rr_APIKey := APIKeyProduce; rr_APIVersion := 0; rr_ClientID := "";
        rr_TopicName := topic; rr_PartitionID := pid |}.
Proof.
  intros Htxn (? & ? & ? & ? & ? & ?) Hcur. unfold parseProduceBody. cbv zeta.
  assert (∃ pos,
    at_pos data pos (be16 acks ++ be32 timeout ++ encode_topics nt topic np pid ++ rest) ∧
    (if 3 <=? v then
       txnLen ← u16_from data 0;
       Ok (if 0 <? int16 txnLen then 0 + 2 + int16 txnLen else 0 + 2)
     else Ok 0) = Ok pos) as (pos & Hcur' & ->).
  { unfold encode_produce in Hcur. destruct (3 <=? v).
    - rewrite <- !app_assoc in Hcur.
      apply at_pos_nullable in Hcur as (n & Hu & Hr & Hn & Hcur); [|done].
      rewrite u16_from_eq, Hu. bind_simpl. rewrite int16_uint16, int16_id by done.
      apply at_pos_advance in Hcur. rewrite blen_bytes_of in Hcur.
      eexists; split; [exact Hcur|]. f_equal. destruct txn as [s|]; subst n; simpl.
      + pose proof (slen_nonneg s). unfold id. case_if; bool_to_prop; lia.
      + done.
    - rewrite app_nil_l, <- !app_assoc in Hcur. eauto. }
  clear Hcur. bind_simpl. unfold encode_topics in Hcur'. rewrite <- !app_assoc in Hcur'.
  rename Hcur' into Hcur.
  assert (at_pos data (pos + 2) (be32 timeout ++ be32 nt ++ be16 (slen topic) ++
    bytes_of topic ++ be32 np ++ be32 pid ++ rest)) as Hcur1
    by exact (at_pos_advance _ _ (be16 acks) _ Hcur).
  pose proof (at_pos_advance _ _ (be32 timeout) _ Hcur1) as Hcur2.
  change (blen (be32 timeout)) with 4 in Hcur2.
  cursor_step. cursor_step. clear Hcur Hcur1. topics_tac.
Qed.

Lemma parseFetchBody_at data v rep mw mb xb iso sid ep nt topic np pid rest :
  valid_topics nt topic np pid →
  at_pos data 0
    (encode_fetch v rep mw mb xb iso sid ep (encode_topics nt topic np pid) ++ rest) →
  parseFetchBody data v =
  Ok {| rr_APIKey := APIKeyFetch; rr_APIVersion := 0; rr_ClientID := "";
        rr_TopicName := topic; rr_PartitionID := pid |}.
Proof.
  intros (? & ? & ? & ? & ? & ?) Hcur. unfold parseFetchBody. norm_offsets.
  unfold encode_fetch in Hcur. rewrite <- !app_assoc in Hcur.
  apply at_pos_advance in Hcur as Hcur1. apply at_pos_advance in Hcur1 as Hcur2.
  apply at_pos_advance in Hcur2 as Hcur3. rewrite !blen_be32 in *. norm_offsets.
  do 3 cursor_step. clear Hcur Hcur1 Hcur2. rename Hcur3 into Hcur.
  assert (∀ b e c q (f : Z → res RoutedRequest) enc tl,
    at_pos data q ((if b : bool then enc else []) ++ tl) → blen enc = c →
    (if b then check blen data <? q + c, e;; Ok (q + c) else Ok q) ≫= f =
    f (if b then q + c else q) ∧
    at_pos data (if b then q + c else q) tl) as Hopt.
  { intros b e c q f enc tl Hq <-. destruct b; [|by rewrite app_nil_l in Hq].
    split; [|by apply at_pos_advance].
    rewrite (proj2 (Z.ltb_ge (blen data) (q + blen enc))) by cursor_lia. done. }
  destruct (Hopt _ (Errorf "fetch body truncated at max_bytes") 4 _
    (λ _, Panic) _ _ Hcur eq_refl) as [_ Hcur1].
  destruct (Hopt _ (Errorf "fetch body truncated at isolation_level") 1 _
    (λ _, Panic) _ _ Hcur1 eq_refl) as [_ Hcur2].
  destruct (Hopt _ (Errorf "fetch body truncated at session fields") 8 _
    (λ _, Panic) _ _ Hcur2 eq_refl) as [_ Hcur3].
  rewrite (proj1 (Hopt _ _ 4 _ _ _ _ Hcur eq_refl)).
  rewrite (proj1 (Hopt _ _ 1 _ _ _ _ Hcur1 eq_refl)).
  rewrite (proj1 (Hopt _ _ 8 _ _ _ _ Hcur2 eq_refl)).
  clear Hopt Hcur Hcur1 Hcur2. rename Hcur3 into Hcur.
  set (pos := if 7 <=? v then _ else _) in *. clearbody pos.
  unfold encode_topics in Hcur. rewrite <- !app_assoc in Hcur. topics_tac.
Qed.

(** C29: both body parsers invert the wire encoding: for every version, with
    every optional field that version carries, whatever the values of the
    fields that are skipped and whatever follows the first partition id, the
    router sees the first topic and the first partition of the request. *)
Theorem ParseRequestBody_roundtrip v txn acks timeout rep mw mb xb iso sid ep
    nt topic np pid rest :
  valid_nullable txn → valid_topics nt topic np pid →
  ParseRequestBody APIKeyProduce v
    (encode_produce v txn acks timeout (encode_topics nt topic np pid) ++ rest) =
  Ok {| rr_APIKey := APIKeyProduce; rr_APIVersion := v; rr_ClientID := "";
        rr_TopicName := topic; rr_PartitionID := pid |} ∧
  ParseRequestBody APIKeyFetch v
    (encode_fetch v rep mw mb xb iso sid ep (encode_topics nt topic np pid) ++ rest) =
  Ok {| rr_APIKey := APIKeyFetch; rr_APIVersion := v; rr_ClientID := "";
        rr_TopicName := topic; rr_PartitionID := pid |}.
Proof.
  intros Ht Hv. split; unfold ParseRequestBody; simpl Z.eqb; cbv iota.
  - erewrite parseProduceBody_at by eauto using at_pos_0. done.
  - erewrite parseFetchBody_at by eauto using at_pos_0. done.
Qed.

Lemma ParseRequestBody_roundtrip_witness :
  ParseRequestBody APIKeyFetch 11
    (encode_fetch 11 (-1) 500 1 1048576 x00 0 (-1) (encode_topics 1 "orders" 1 3)
     ++ be32 7) =
  Ok {| rr_APIKey := APIKeyFetch; rr_APIVersion := 11; rr_ClientID := "";
        rr_TopicName := "orders"; rr_PartitionID := 3 |}.
Proof.
  apply (ParseRequestBody_roundtrip 11 None 1 30000 (-1) 500 1 1048576 x00 0 (-1)
           1 "orders" 1 3 (be32 7)).
  - exact I.
  - unfold valid_topics, in_int32. vm_compute. intuition discriminate.
Defined.
