(* ===== verification/Metadata.v ===== *)
(** * Metadata responses ([internal/routing/metadata.go])

    Parsing a MetadataResponse far enough to find its broker array, and
    rebuilding it with every broker address replaced by the proxy's.
    [parseResponseFrame] of [synthetic_metadata.go] is here too: it is the
    frame-level parser both the rewrite and the merge are specified with. *)

From S2P Require Import Prelude Bytes Protocol.

Definition ErrMetadataTooShort : error := Sentinel "metadata response too short to parse".
Definition ErrInvalidBrokerArray : error :=
  Sentinel "invalid broker array in metadata response".
Definition ErrBrokerHostTooLong : error :=
  Sentinel "broker host exceeds maximum length (32767 bytes)".
Definition ErrMetadataResponseTooLarge : error :=
  Sentinel "metadata response exceeds maximum size (100MB)".

Definition MaxMetadataResponseSize : Z := Z.shiftl 100 20.
Definition MaxStringLen : Z := 32767.

(** [fmt.Errorf("%w: ...", ErrMetadataTooShort)]. *)
Definition too_short (what : string) : error := Wrapf what ErrMetadataTooShort.

Record Broker := {
  NodeID : Z;
  Host : string;
  Port : Z;
  Rack : string;
  RackIsSet : bool
}.

Record MetadataResponse := {
  mr_CorrelationID : Z;
  mr_ThrottleTimeMs : Z;
  mr_Brokers : list Broker;
  mr_bodyBeforeBrokers : bytes;
  mr_bodyAfterBrokers : bytes
}.

(** ** Parsing *)

(** One broker entry and the number of bytes it takes. *)
Definition parseBroker (data : bytes) (version : Z) : res (Broker * Z) :=
  let pos := 0 in
  check blen data <? pos + 4, too_short "missing NodeId";;
  nodeID ← u32_at data pos;
  let pos := pos + 4 in
  check blen data <? pos + 2, too_short "missing Host length";;
  hostLen ← u16_at data pos; let hostLen := int16 hostLen in
  let pos := pos + 2 in
  check hostLen <? 0, Errorf "invalid broker Host length";;
  check MaxStringLen <? hostLen, ErrBrokerHostTooLong;;
  check blen data <? pos + hostLen, too_short "truncated Host";;
  host ← slice data pos (pos + hostLen);
  let pos := pos + hostLen in
  check blen data <? pos + 4, too_short "missing Port";;
  port ← u32_at data pos;
  let pos := pos + 4 in
  let b rack set := {| NodeID := int32 nodeID; Host := str host; Port := int32 port;
                       Rack := rack; RackIsSet := set |} in
  if 1 <=? version then
    check blen data <? pos + 2, too_short "missing Rack length";;
    rackLen ← u16_at data pos; let rackLen := int16 rackLen in
    let pos := pos + 2 in
    if rackLen =? -1 then Ok (b ""%string false, pos)
    else if rackLen =? 0 then Ok (b ""%string true, pos)
    else if 0 <? rackLen then
      check MaxStringLen <? rackLen, Errorf "broker rack exceeds maximum length";;
      check blen data <? pos + rackLen, too_short "truncated Rack";;
      rack ← slice data pos (pos + rackLen);
      Ok (b (str rack) true, pos + rackLen)
    else Err (Errorf "invalid Rack length")
  else Ok (b ""%string false, pos).

(** [for i := 0; i < brokerCount; i++]. *)
Fixpoint parseBrokers (count : nat) (data : bytes) (pos version : Z)
    : res (list Broker * Z) :=
  match count with
  | O => Ok ([], pos)
  | S count =>
      d ← slice_from data pos;
      '(b, bytesRead) ← wrap_err "broker" (parseBroker d version);
      '(bs, pos) ← parseBrokers count data (pos + bytesRead) version;
      Ok (b :: bs, pos)
  end.

Definition ParseMetadataResponseBody (data : bytes) (version : Z) : res MetadataResponse :=
  check MaxMetadataResponseSize <? blen data, ErrMetadataResponseTooLarge;;
  let pos := 0 in
  '(throttle, pos) ←
    (if 3 <=? version then
       check blen data <? pos + 4, too_short "missing ThrottleTimeMs";;
       t ← u32_at data pos; Ok (int32 t, pos + 4)
     else Ok (0, pos));
  check blen data <? pos + 4, too_short "missing broker array length";;
  let brokerArrayStart := pos in
  brokerCount ← u32_at data pos;
  let pos := pos + 4 in
  check brokerCount <? 0, Wrapf "negative broker count" ErrInvalidBrokerArray;;
  before ← slice data 0 brokerArrayStart;
  if brokerCount =? 0 then
    after ← slice_from data pos;
    Ok {| mr_CorrelationID := 0; mr_ThrottleTimeMs := throttle; mr_Brokers := [];
          mr_bodyBeforeBrokers := before; mr_bodyAfterBrokers := after |}
  else
    '(brokers, pos) ← parseBrokers (Z.to_nat brokerCount) data pos version;
    after ← slice_from data pos;
    Ok {| mr_CorrelationID := 0; mr_ThrottleTimeMs := throttle; mr_Brokers := brokers;
          mr_bodyBeforeBrokers := before; mr_bodyAfterBrokers := after |}.

Definition with_CorrelationID (id : Z) (r : MetadataResponse) : MetadataResponse :=
  {| mr_CorrelationID := id; mr_ThrottleTimeMs := mr_ThrottleTimeMs r;
     mr_Brokers := mr_Brokers r; mr_bodyBeforeBrokers := mr_bodyBeforeBrokers r;
     mr_bodyAfterBrokers := mr_bodyAfterBrokers r |}.

(** The frame checks shared by [RewriteMetadataResponse] and
    [parseResponseFrame]: the body of the frame and its correlation id. *)
Definition parseResponseFrame (raw : bytes) (version : Z) : res (MetadataResponse * Z) :=
  check MaxMetadataResponseSize <? blen raw, ErrMetadataResponseTooLarge;;
  check blen raw <? 8, too_short "response frame too short";;
  frameSize ← u32_at raw 0; let frameSize := int32 frameSize in
  correlationID ← u32_at raw 4; let correlationID := int32 correlationID in
  check frameSize <? 4, Errorf "invalid frame size (min 4 for correlation_id)";;
  let expectedLen := 4 + frameSize in
  check blen raw <? expectedLen, too_short "frame size but only n bytes available";;
  body ← slice raw 8 expectedLen;
  parsed ← ParseMetadataResponseBody body version;
  Ok (with_CorrelationID correlationID parsed, correlationID).

(** ** Rewriting *)

(** One broker entry with the proxy's host and port. *)
Definition write_broker (proxyHost : string) (proxyPort version : Z) (b : Broker) : bytes :=
  be32 (NodeID b)
  ++ be16 (int16 (slen proxyHost)) ++ bytes_of proxyHost
  ++ be32 proxyPort
  ++ (if 1 <=? version then
        if RackIsSet b then be16 (int16 (slen (Rack b))) ++ bytes_of (Rack b)
        else be16 (-1)
      else []).

(** [brokerBuf]: the array length and the rewritten entries. *)
Definition write_brokers (proxyHost : string) (proxyPort version : Z)
    (brokers : list Broker) : bytes :=
  be32 (int32 (Z.of_nat (length brokers)))
  ++ concat (map (write_broker proxyHost proxyPort version) brokers).

(** [result := make([]byte, n)] filled by successive [copy]s at [offset]. *)
Definition fill_frame (sizeFieldValue correlationID : Z) (parts : list bytes) : bytes :=
  let result := replicate (Z.to_nat (4 + sizeFieldValue)) x00 in
  let result := copy_at result 0 (be32 sizeFieldValue) in
  let result := copy_at result 4 (be32 correlationID) in
  fst (foldl (λ '(result, offset) part,
                (copy_at result offset part, offset + blen part))
             (result, 8) parts).

Definition RewriteBrokers (resp : MetadataResponse) (proxyHost : string)
    (proxyPort version : Z) : res bytes :=
  check MaxStringLen <? slen proxyHost, Wrapf "proxy host" ErrBrokerHostTooLong;;
  let brokerBuf := write_brokers proxyHost proxyPort version (mr_Brokers resp) in
  let newBodyLen := blen (mr_bodyBeforeBrokers resp) + blen brokerBuf
                    + blen (mr_bodyAfterBrokers resp) in
  let sizeFieldValue := 4 + newBodyLen in
  let newFrameLen := 4 + sizeFieldValue in
  check MaxMetadataResponseSize <? newFrameLen, ErrMetadataResponseTooLarge;;
  Ok (fill_frame sizeFieldValue (mr_CorrelationID resp)
        [mr_bodyBeforeBrokers resp; brokerBuf; mr_bodyAfterBrokers resp]).

Definition RewriteMetadataResponse (rawResponse : bytes) (proxyHost : string)
    (proxyPort version : Z) : res bytes :=
  check MaxMetadataResponseSize <? blen rawResponse, ErrMetadataResponseTooLarge;;
  check blen rawResponse <? 8, too_short "response frame too short";;
  frameSize ← u32_at rawResponse 0; let frameSize := int32 frameSize in
  correlationID ← u32_at rawResponse 4; let correlationID := int32 correlationID in
  check frameSize <? 4, Errorf "invalid frame size (min 4 for correlation_id)";;
  let expectedLen := 4 + frameSize in
  check blen rawResponse <? expectedLen, too_short "frame size but only n bytes available";;
  body ← slice rawResponse 8 expectedLen;
  resp ← wrap_err "parsing metadata body" (ParseMetadataResponseBody body version);
  RewriteBrokers (with_CorrelationID correlationID resp) proxyHost proxyPort version.

(** ** Wire form and validity *)

Definition wire_rack (b : Broker) : bytes :=
  encode_nullable (if RackIsSet b then Some (Rack b) else None).

Definition wire_broker (version : Z) (b : Broker) : bytes :=
  be32 (NodeID b) ++ be16 (slen (Host b)) ++ bytes_of (Host b) ++ be32 (Port b)
  ++ (if 1 <=? version then wire_rack b else []).

Definition wire_brokers (version : Z) (bs : list Broker) : bytes :=
  be32 (Z.of_nat (length bs)) ++ concat (map (wire_broker version) bs).

Definition wire_throttle (version throttle : Z) : bytes :=
  if 3 <=? version then be32 throttle else [].

(** What the parser can produce for one broker at this version. *)
Definition valid_broker (version : Z) (b : Broker) : Prop :=
  in_int32 (NodeID b) ∧ in_int32 (Port b) ∧
  slen (Host b) ≤ MaxStringLen ∧ slen (Rack b) ≤ MaxStringLen ∧
  (version < 1 → RackIsSet b = false) ∧ (RackIsSet b = false → Rack b = ""%string).

(** The entry as a client of the proxy sees it. *)
Definition proxied (proxyHost : string) (proxyPort : Z) (b : Broker) : Broker :=
  {| NodeID := NodeID b; Host := proxyHost; Port := proxyPort;
     Rack := Rack b; RackIsSet := RackIsSet b |}.

Definition proxied_response (proxyHost : string) (proxyPort : Z)
    (r : MetadataResponse) : MetadataResponse :=
  {| mr_CorrelationID := mr_CorrelationID r; mr_ThrottleTimeMs := mr_ThrottleTimeMs r;
     mr_Brokers := map (proxied proxyHost proxyPort) (mr_Brokers r);
     mr_bodyBeforeBrokers := mr_bodyBeforeBrokers r;
     mr_bodyAfterBrokers := mr_bodyAfterBrokers r |}.

(** A frame as the rewriter emits it. *)
Definition wire_frame (version : Z) (r : MetadataResponse) : bytes :=
  let body := mr_bodyBeforeBrokers r ++ wire_brokers version (mr_Brokers r)
              ++ mr_bodyAfterBrokers r in
  be32 (4 + blen body) ++ be32 (mr_CorrelationID r) ++ body.

Definition valid_response (version : Z) (r : MetadataResponse) : Prop :=
  in_int32 (mr_CorrelationID r) ∧ in_int32 (mr_ThrottleTimeMs r) ∧
  Forall (valid_broker version) (mr_Brokers r) ∧
  mr_bodyBeforeBrokers r = wire_throttle version (mr_ThrottleTimeMs r) ∧
  (version < 3 → mr_ThrottleTimeMs r = 0).

Lemma proxied_valid v h p b :
  valid_broker v b → slen h ≤ MaxStringLen → in_int32 p → valid_broker v (proxied h p b).
Proof. unfold valid_broker; simpl. tauto. Qed.

Lemma proxied_response_valid v h p r :
  valid_response v r → slen h ≤ MaxStringLen → in_int32 p →
  valid_response v (proxied_response h p r).
Proof.
  intros (? & ? & Hb & ? & ?) ? ?. split_and!; try done. simpl.
  apply Forall_map. revert Hb; apply Forall_impl. intros. by apply proxied_valid.
Qed.

Lemma be16_int16 z : be16 (int16 z) = be16 z.
Proof.
  unfold be16, int16, wrapS. change (2 ^ (16 - 1)) with 32768.
  change (2 ^ 16) with 65536. change (2 ^ 8) with 256.
  f_equal; [|f_equal]; apply byte_of_Z_mod; dlia.
Qed.

Lemma be32_int32 z : be32 (int32 z) = be32 z.
Proof.
  unfold be32, int32, wrapS. change (2 ^ (32 - 1)) with 2147483648.
  change (2 ^ 32) with 4294967296. change (2 ^ 24) with 16777216.
  change (2 ^ 16) with 65536. change (2 ^ 8) with 256.
  f_equal; [|f_equal; [|f_equal; [|f_equal]]]; apply byte_of_Z_mod; dlia.
Qed.

Lemma write_broker_wire h p v b : write_broker h p v b = wire_broker v (proxied h p b).
Proof.
  unfold write_broker, wire_broker, wire_rack, proxied; cbn [NodeID Host Port Rack RackIsSet].
  destruct (1 <=? v); [|by rewrite be16_int16].
  destruct (RackIsSet b); cbn [encode_nullable]; by rewrite !be16_int16.
Qed.

Lemma write_brokers_wire h p v bs :
  write_brokers h p v bs = wire_brokers v (map (proxied h p) bs).
Proof.
  unfold write_brokers, wire_brokers.
  rewrite be32_int32, length_map, map_map. do 2 f_equal.
  apply map_ext. intros. apply write_broker_wire.
Qed.

(** ** The parser on wire form *)

Lemma broker_result b rack set (n m : Z) :
  rack = Rack b → set = RackIsSet b → n = m →
  Ok ({| NodeID := NodeID b; Host := Host b; Port := Port b;
         Rack := rack; RackIsSet := set |}, n) = Ok (b, m).
Proof. destruct b; simpl. by intros -> -> ->. Qed.

Lemma parseBroker_at data v b rest :
  valid_broker v b → at_pos data 0 (wire_broker v b ++ rest) →
  parseBroker data v = Ok (b, blen (wire_broker v b)).
Proof.
  intros (? & ? & ? & ? & Hv & Hset) Hcur.
  pose proof (at_pos_advance _ _ _ _ Hcur) as Hend.
  unfold wire_broker in *. rewrite <- !app_assoc in Hcur.
  unfold MaxStringLen in *. pose proof (slen_nonneg (Host b)).
  unfold parseBroker, too_short, MaxStringLen. do 4 cursor_step.
  rewrite int16_uint16, int16_small by lia. do 6 cursor_step. norm_offsets.
  rewrite !int32_uint32, !int32_id, str_bytes_of by done.
  autorewrite with blen in *.
  destruct (1 <=? v) eqn:E; bool_to_prop.
  - unfold wire_rack in *.
    apply at_pos_nullable in Hcur as (n & Hn & ? & Hneq & Hcur);
      [|destruct (RackIsSet b); simpl; lia].
    cursor_step.
    norm_offsets. rewrite Hn. bind_simpl. rewrite int16_uint16, int16_id by done.
    destruct (RackIsSet b) eqn:Er; subst n; simpl encode_nullable.
    + pose proof (slen_nonneg (Rack b)). unfold default, id in Hcur.
      rewrite (proj2 (Z.eqb_neq _ (-1))) by lia.
      destruct (slen (Rack b) =? 0) eqn:E0; bool_to_prop.
      * apply broker_result; [|done|autorewrite with blen; lia].
        symmetry. apply bytes_of_inj, nil_length_inv. unfold slen, blen in E0. lia.
      * do 4 cursor_step. rewrite str_bytes_of.
        apply broker_result; [done|done|autorewrite with blen; lia].
    + apply broker_result; [by rewrite Hset|done|autorewrite with blen; lia].
  - rewrite <- (Hset (Hv E)) at 1. rewrite <- (Hv E).
    apply broker_result; [done|done|autorewrite with blen; lia].
Qed.

Lemma parseBrokers_at data pos v bs rest :
  Forall (valid_broker v) bs →
  at_pos data pos (concat (map (wire_broker v) bs) ++ rest) →
  parseBrokers (length bs) data pos v =
    Ok (bs, pos + blen (concat (map (wire_broker v) bs))) ∧
  at_pos data (pos + blen (concat (map (wire_broker v) bs))) rest.
Proof.
  intros Hbs. revert pos. induction Hbs as [|b bs Hb Hbs IH]; intros pos Hcur.
  - simpl in *. rewrite Z.add_0_r. done.
  - cbn [map concat length parseBrokers] in *. rewrite <- app_assoc in Hcur.
    rewrite (at_pos_slice_from _ _ _ Hcur). bind_simpl.
    erewrite parseBroker_at by eauto using at_pos_0. bind_simpl.
    apply at_pos_advance in Hcur. destruct (IH _ Hcur) as [-> Hcur'].
    bind_simpl. rewrite blen_app, Z.add_assoc. done.
Qed.

Lemma ParseMetadataResponseBody_at v throttle bs after :
  in_int32 throttle → (v < 3 → throttle = 0) →
  Forall (valid_broker v) bs → Z.of_nat (length bs) < 4294967296 →
  blen (wire_throttle v throttle ++ wire_brokers v bs ++ after) ≤ MaxMetadataResponseSize →
  ParseMetadataResponseBody (wire_throttle v throttle ++ wire_brokers v bs ++ after) v =
  Ok {| mr_CorrelationID := 0; mr_ThrottleTimeMs := throttle; mr_Brokers := bs;
        mr_bodyBeforeBrokers := wire_throttle v throttle; mr_bodyAfterBrokers := after |}.
Proof.
  intros Ht Ht0 Hbs Hn Hlen. unfold ParseMetadataResponseBody.
  rewrite (proj2 (Z.ltb_ge _ _)) by exact Hlen. clear Hlen. cbv zeta.
  set (before := wire_throttle v throttle).
  set (data := before ++ wire_brokers v bs ++ after).
  assert (Hcur : at_pos data 0 data) by apply at_pos_0.
  unfold data in Hcur at 2. clearbody data.
  assert ((if 3 <=? v then
             check blen data <? 0 + 4, too_short "missing ThrottleTimeMs";;
             t ← u32_at data 0; Ok (int32 t, 0 + 4)
           else Ok (0, 0)) = Ok (throttle, blen before)) as ->.
  { unfold before, wire_throttle in *. destruct (3 <=? v) eqn:E; bool_to_prop.
    - do 2 cursor_step. rewrite int32_uint32, int32_id by done. done.
    - by rewrite Ht0. }
  bind_simpl. destruct (at_pos_bytes _ _ _ _ Hcur) as [Hbefore Hcur'].
  clear Hcur. rename Hcur' into Hcur. rewrite Z.add_0_l in *.
  unfold wire_brokers in Hcur. rewrite <- app_assoc in Hcur.
  do 2 cursor_step. rewrite Hbefore. bind_simpl.
  unfold uint32, wrapU. rewrite Z.mod_small by lia.
  cursor_step. destruct (Z.of_nat (length bs) =? 0) eqn:E; bool_to_prop.
  - destruct bs; [|done]. rewrite app_nil_l in Hcur.
    by rewrite (at_pos_slice_from _ _ _ Hcur).
  - rewrite Nat2Z.id. destruct (parseBrokers_at _ _ _ _ _ Hbs Hcur) as [-> Hcur'].
    bind_simpl. by rewrite (at_pos_slice_from _ _ _ Hcur').
Qed.

(** ** What a successful parse guarantees *)

Lemma str_slen data lo hi b : slice data lo hi = Ok b → slen (str b) = hi - lo.
Proof. intros H. rewrite slen_str. by eapply slice_Ok_len. Qed.

Lemma parseBroker_valid data v b n :
  parseBroker data v = Ok (b, n) → valid_broker v b ∧ 0 ≤ n ≤ blen data.
Proof.
  unfold parseBroker, MaxStringLen. intros H. parse_inv H; simplify_eq;
    unfold valid_broker, MaxStringLen; cbn [NodeID Host Port Rack RackIsSet];
    repeat match goal with E : slice _ _ _ = Ok _ |- _ => apply str_slen in E end;
    split_and!; try apply int32_range; change (slen "") with 0; try done; try lia.
Qed.

Lemma parseBrokers_valid n data pos v bs e :
  0 ≤ pos → parseBrokers n data pos v = Ok (bs, e) →
  Forall (valid_broker v) bs ∧ length bs = n ∧ (pos ≤ blen data → e ≤ blen data) ∧ pos ≤ e.
Proof.
  revert pos bs e. induction n as [|n IH]; intros pos bs e Hpos H; simpl in H.
  - simplify_eq. split_and!; [constructor|done|lia..].
  - apply bind_Ok_inv in H as (d & Hd & H). apply bind_Ok_inv in H as ([b k] & Hb & H).
    apply wrap_err_Ok, parseBroker_valid in Hb as [Hb Hk].
    apply slice_from_Ok_len in Hd.
    apply bind_Ok_inv in H as ([bs' e'] & H & Heq). simplify_eq.
    apply IH in H as (? & ? & ? & ?); [|lia].
    split_and!; [by constructor|simpl; congruence|lia..].
Qed.

Lemma ParseMetadataResponseBody_valid data v r :
  ParseMetadataResponseBody data v = Ok r →
  valid_response v r ∧ Z.of_nat (length (mr_Brokers r)) < 4294967296.
Proof.
  unfold ParseMetadataResponseBody. intros H.
  destruct (MaxMetadataResponseSize <? _) eqn:?; [done|]. cbv zeta in H.
  apply bind_Ok_inv in H as ([t p] & Htp & H).
  assert (in_int32 t ∧ (v < 3 → t = 0) ∧ 0 ≤ p ∧
          ∀ b, slice data 0 p = Ok b → b = wire_throttle v t) as (? & ? & ? & Hsl).
  { destruct (3 <=? v) eqn:E; bool_to_prop.
    - parse_inv Htp. simplify_eq. split_and!; [apply int32_range|lia|lia|].
      intros b Hb. unfold wire_throttle. rewrite (proj2 (Z.leb_le 3 v)) by done.
      unfold u32_at in E0. simpl Z.add in *. rewrite Hb in E0. bind_simpl in E0.
      apply slice_Ok_len in Hb. rewrite be32_int32.
      destruct b as [|b0 [|b1 [|b2 [|b3 [|? b]]]]]; try done.
      + by apply be32_Uint32 in E0.
      + rewrite !blen_cons in Hb. pose proof (blen_nonneg b). lia.
    - simplify_eq. split_and!; [unfold in_int32; lia|done|lia|].
      intros b Hb. apply slice_Ok_len in Hb. unfold wire_throttle.
      rewrite (proj2 (Z.leb_gt 3 v)) by done. by apply nil_length_inv; unfold blen in Hb; lia. }
  parse_inv H; simplify_eq; cbn [mr_Brokers].
  - split; [|done]. split_and!; simpl; auto. unfold in_int32; lia.
  - match goal with E : parseBrokers _ _ _ _ = Ok _ |- _ =>
      apply parseBrokers_valid in E as (? & Hl & _); [|lia] end.
    learn_bounds. split; [|lia].
    split_and!; simpl; auto. unfold in_int32; lia.
Qed.

(** ** Assembling a frame *)

Lemma fill_parts pre tail parts :
  (length (concat parts) ≤ length tail)%nat →
  fst (foldl (λ '(result, offset) part,
                (copy_at result offset part, offset + blen part))
             (pre ++ tail, blen pre) parts) =
  pre ++ concat parts ++ drop (length (concat parts)) tail.
Proof.
  revert pre tail. induction parts as [|p parts IH]; intros pre tail Hlen; [done|].
  cbn [concat foldl] in *. rewrite length_app in Hlen.
  rewrite <- (take_drop (length p) tail) at 1.
  rewrite copy_at_app by (rewrite length_take; lia).
  rewrite <- blen_app, (app_assoc pre p).
  rewrite IH by (rewrite length_drop; lia).
  by rewrite drop_drop, length_app, <- !app_assoc.
Qed.

Lemma fill_frame_eq size corr parts :
  size = 4 + blen (concat parts) →
  fill_frame size corr parts = be32 size ++ be32 corr ++ concat parts.
Proof.
  intros ->. unfold fill_frame. set (hd := be32 (4 + blen (concat parts))).
  set (n := Z.to_nat _).
  assert (n = length hd + (length (be32 corr) + length (concat parts)))%nat as ->
    by (unfold n, blen; simpl; lia).
  rewrite !replicate_add.
  rewrite (copy_at_app [] (replicate _ _) (replicate _ _ ++ replicate _ _) hd
             ltac:(by rewrite length_replicate)
             : copy_at (replicate _ _ ++ replicate _ _ ++ replicate _ _) 0 hd = _).
  rewrite app_nil_l.
  rewrite (copy_at_app hd _ _ (be32 corr) ltac:(by rewrite length_replicate)
             : copy_at (hd ++ _ ++ _) 4 _ = _).
  rewrite (app_assoc hd). change 8 with (blen (hd ++ be32 corr)).
  rewrite fill_parts by (rewrite length_replicate; lia).
  rewrite drop_ge by (rewrite length_replicate; lia).
  by rewrite app_nil_r, <- app_assoc.
Qed.

Lemma RewriteBrokers_eq r h p v :
  RewriteBrokers r h p v =
  check MaxStringLen <? slen h, Wrapf "proxy host" ErrBrokerHostTooLong;;
  check MaxMetadataResponseSize <? blen (wire_frame v (proxied_response h p r)),
    ErrMetadataResponseTooLarge;;
  Ok (wire_frame v (proxied_response h p r)).
Proof.
  unfold RewriteBrokers. case_if; [done|]. cbv zeta.
  rewrite write_brokers_wire.
  assert (blen (wire_frame v (proxied_response h p r)) =
    4 + (4 + (blen (mr_bodyBeforeBrokers r) +
      blen (wire_brokers v (map (proxied h p) (mr_Brokers r))) +
      blen (mr_bodyAfterBrokers r)))) as ->
    by (unfold wire_frame; autorewrite with blen;
        cbn [proxied_response mr_bodyBeforeBrokers mr_Brokers mr_bodyAfterBrokers]; ring).
  case_if; [done|]. f_equal. rewrite fill_frame_eq.
  - unfold wire_frame. cbn [proxied_response mr_bodyBeforeBrokers mr_Brokers
      mr_bodyAfterBrokers mr_CorrelationID concat].
    rewrite app_nil_r. do 2 f_equal. autorewrite with blen. lia.
  - cbn [concat]. rewrite app_nil_r. autorewrite with blen. lia.
Qed.

(** ** Frames *)

Lemma parseResponseFrame_wire v r :
  valid_response v r → Z.of_nat (length (mr_Brokers r)) < 4294967296 →
  blen (wire_frame v r) ≤ MaxMetadataResponseSize →
  parseResponseFrame (wire_frame v r) v = Ok (r, mr_CorrelationID r).
Proof.
  intros (? & ? & ? & Hb & ?) Hn Hlen. unfold parseResponseFrame.
  rewrite (proj2 (Z.ltb_ge _ _)) by exact Hlen. revert Hlen. unfold wire_frame.
  set (body := mr_bodyBeforeBrokers r ++ _). intros Hlen.
  assert (blen body ≤ MaxMetadataResponseSize)
    by (revert Hlen; autorewrite with blen; lia).
  assert (4 + blen body < 2147483648) as Hsz.
  { revert Hlen. change MaxMetadataResponseSize with 104857600.
    autorewrite with blen. lia. }
  set (raw := be32 _ ++ be32 _ ++ _). clear Hlen.
  assert (Hcur : at_pos raw 0 (be32 (4 + blen body) ++ be32 (mr_CorrelationID r) ++ body ++ []))
    by (rewrite app_nil_r; apply at_pos_0).
  clearbody raw. pose proof (blen_nonneg body).
  do 2 cursor_step. norm_offsets. rewrite !int32_uint32, (int32_id (mr_CorrelationID r)) by done.
  rewrite (int32_small (4 + blen body)) by lia.
  cursor_step. norm_offsets. do 3 cursor_step. unfold body at 1. rewrite Hb.
  rewrite ParseMetadataResponseBody_at by (try done; by rewrite <- Hb). bind_simpl.
  f_equal. f_equal. destruct r; unfold with_CorrelationID; simpl in *; by subst.
Qed.

Lemma parseResponseFrame_valid raw v r c :
  parseResponseFrame raw v = Ok (r, c) →
  valid_response v r ∧ Z.of_nat (length (mr_Brokers r)) < 4294967296 ∧
  c = mr_CorrelationID r.
Proof.
  unfold parseResponseFrame. intros H. parse_inv H. simplify_eq.
  match goal with E : ParseMetadataResponseBody _ _ = Ok _ |- _ =>
    apply ParseMetadataResponseBody_valid in E as [(? & ? & ? & ? & ?) ?] end.
  split; [|by split]. split; [apply int32_range|by split_and!].
Qed.

Lemma RewriteMetadataResponse_parse raw h p v out :
  RewriteMetadataResponse raw h p v = Ok out ↔
  ∃ r, parseResponseFrame raw v = Ok (r, mr_CorrelationID r) ∧
       RewriteBrokers r h p v = Ok out.
Proof.
  unfold RewriteMetadataResponse, parseResponseFrame.
  repeat (case_if; [by split; [|intros (? & ? & _)]|]).
  cbv zeta. split.
  - intros (x & -> & H)%bind_Ok_inv. intros; bind_simpl.
    apply bind_Ok_inv in H as (y & -> & H). bind_simpl.
    destruct (int32 x <? 4); [done|]. destruct (blen raw <? 4 + int32 x); [done|].
    apply bind_Ok_inv in H as (body & -> & H). bind_simpl.
    apply bind_Ok_inv in H as (parsed & ->%wrap_err_Ok & H). bind_simpl.
    by exists (with_CorrelationID (int32 y) parsed).
  - intros (r & H & Hr).
    apply bind_Ok_inv in H as (x & -> & H). bind_simpl.
    apply bind_Ok_inv in H as (y & -> & H). bind_simpl.
    destruct (int32 x <? 4); [done|]. destruct (blen raw <? 4 + int32 x); [done|].
    apply bind_Ok_inv in H as (body & -> & H). bind_simpl.
    apply bind_Ok_inv in H as (parsed & -> & H). bind_simpl. by simplify_eq.
Qed.

Lemma safe_parseBroker data v : safe (parseBroker data v).
Proof.
  unfold parseBroker, MaxStringLen. cbv zeta. repeat safe_step.
Qed.

Lemma safe_parseBrokers n data pos v :
  0 ≤ pos ≤ blen data → safe (parseBrokers n data pos v).
Proof.
  revert pos. induction n as [|n IH]; intros pos Hpos; simpl; [done|].
  apply safe_bind; [apply safe_slice_from; lia|]. intros d Hd.
  apply safe_bind; [apply safe_wrap, safe_parseBroker|]. intros [b k] Hk.
  apply wrap_err_Ok, parseBroker_valid in Hk as [_ Hk].
  apply slice_from_Ok_len in Hd.
  apply safe_bind; [apply IH; lia|]. by intros [? ?] _.
Qed.

Lemma safe_ParseMetadataResponseBody data v : safe (ParseMetadataResponseBody data v).
Proof.
  unfold ParseMetadataResponseBody. cbv zeta. case_if; [done|].
  apply (safe_bind _ _); [case_if; [|done]; repeat safe_step|]. intros [t p] Hp.
  assert (0 ≤ p).
  { destruct (3 <=? v); parse_inv Hp; simplify_eq; lia. }
  clear Hp. case_if; [done|]. apply safe_bind; [safe_step|]. intros c Hc.
  case_if; [done|]. apply safe_bind; [bool_to_prop; safe_step|]. intros bef Hbef.
  bool_to_prop. case_if; [repeat safe_step|].
  apply safe_bind; [apply safe_parseBrokers; lia|]. intros [bs e] Hbs.
  apply parseBrokers_valid in Hbs; [|lia]. repeat safe_step.
Qed.

#[export] Hint Resolve safe_parseBroker safe_ParseMetadataResponseBody : go.

Lemma proxied_response_idem h p r :
  proxied_response h p (proxied_response h p r) = proxied_response h p r.
Proof. unfold proxied_response; simpl. by rewrite map_map. Qed.

Lemma RewriteMetadataResponse_wire v r h p :
  valid_response v r → Z.of_nat (length (mr_Brokers r)) < 4294967296 →
  slen h ≤ MaxStringLen →
  blen (wire_frame v r) ≤ MaxMetadataResponseSize →
  blen (wire_frame v (proxied_response h p r)) ≤ MaxMetadataResponseSize →
  RewriteMetadataResponse (wire_frame v r) h p v =
  Ok (wire_frame v (proxied_response h p r)).
Proof.
  intros Hr Hn Hh Hlen Hout. apply RewriteMetadataResponse_parse.
  exists r. split; [by apply parseResponseFrame_wire|].
  rewrite RewriteBrokers_eq.
  by rewrite !(proj2 (Z.ltb_ge _ _)) by done.
Qed.

(** A response used by the witnesses: two brokers, one with a rack. *)
Definition sample_response : MetadataResponse :=
  {| mr_CorrelationID := 9; mr_ThrottleTimeMs := 0;
     mr_Brokers := [ {| NodeID := 1; Host := "kafka1"; Port := 9092;
                        Rack := "a"; RackIsSet := true |};
                     {| NodeID := 2; Host := "kafka2"; Port := 9093;
                        Rack := ""; RackIsSet := false |} ];
     mr_bodyBeforeBrokers := []; mr_bodyAfterBrokers := [x01; x02] |}.

Lemma sample_response_valid : valid_response 1 sample_response.
Proof.
  unfold valid_response, valid_broker, in_int32, sample_response; simpl.
  repeat (constructor || split); vm_compute; intuition discriminate.
Defined.

(** ** Properties *)

(** C5: rewriting is the identity on a Metadata response except for the broker
    addresses: on every well-formed frame, at every API version, the result is
    the same frame with each broker's host and port replaced by the proxy's.
    Node ids, racks, throttle time, the correlation id and every byte after the
    broker array are preserved, and the size prefix is recomputed. *)
Theorem RewriteMetadataResponse_roundtrip v r h p :
  valid_response v r → Z.of_nat (length (mr_Brokers r)) < 4294967296 →
  slen h ≤ MaxStringLen →
  blen (wire_frame v r) ≤ MaxMetadataResponseSize →
  blen (wire_frame v (proxied_response h p r)) ≤ MaxMetadataResponseSize →
  RewriteMetadataResponse (wire_frame v r) h p v =
  Ok (wire_frame v (proxied_response h p r)).
Proof. apply RewriteMetadataResponse_wire. Qed.

(** C39: soundness on arbitrary upstream bytes.  Whenever the rewrite of any
    frame succeeds, the input was a frame that parses to some response [r], and
    the output parses, at the same version, to exactly [r] with every broker at
    the proxy's address: no upstream address reaches the client, and rewriting
    the result again changes nothing. *)
Theorem RewriteMetadataResponse_sound raw h p v out :
  in_int32 p →
  RewriteMetadataResponse raw h p v = Ok out →
  ∃ r, parseResponseFrame raw v = Ok (r, mr_CorrelationID r) ∧
       parseResponseFrame out v = Ok (proxied_response h p r, mr_CorrelationID r) ∧
       Forall (λ b, Host b = h ∧ Port b = p) (mr_Brokers (proxied_response h p r)) ∧
       RewriteMetadataResponse out h p v = Ok out.
Proof.
  intros Hp (r & Hr & H)%RewriteMetadataResponse_parse.
  rewrite RewriteBrokers_eq in H. parse_inv H. simplify_eq.
  pose proof (parseResponseFrame_valid _ _ _ _ Hr) as (Hv & Hn & _).
  assert (valid_response v (proxied_response h p r)) by by apply proxied_response_valid.
  assert (Z.of_nat (length (mr_Brokers (proxied_response h p r))) < 4294967296)
    by (simpl; by rewrite length_map).
  exists r. split_and!; [done|by apply (parseResponseFrame_wire v (proxied_response h p r))| |].
  - simpl. apply Forall_map, Forall_true. done.
  - rewrite RewriteMetadataResponse_wire; rewrite ?proxied_response_idem; done.
Qed.

(** No upstream response can crash the rewrite: for arbitrary bytes, host,
    port and version it returns a frame or an error. *)
Theorem RewriteMetadataResponse_safe raw h p v : safe (RewriteMetadataResponse raw h p v).
Proof.
  unfold RewriteMetadataResponse. cbv zeta. repeat safe_step.
  rewrite RewriteBrokers_eq. repeat safe_step.
Qed.

Lemma RewriteMetadataResponse_roundtrip_witness :
  RewriteMetadataResponse (wire_frame 1 sample_response) "proxy" 9094 1 =
  Ok (wire_frame 1 (proxied_response "proxy" 9094 sample_response)).
Proof.
  apply (RewriteMetadataResponse_roundtrip 1 sample_response "proxy" 9094);
    [exact sample_response_valid|vm_compute; intuition discriminate..].
Defined.

Lemma RewriteMetadataResponse_sound_witness :
  ∃ r, parseResponseFrame (wire_frame 1 sample_response) 1 = Ok (r, mr_CorrelationID r).
Proof.
  destruct (RewriteMetadataResponse_sound (wire_frame 1 sample_response) "proxy" 9094 1
              (wire_frame 1 (proxied_response "proxy" 9094 sample_response)))
    as (r & Hr & _).
  - unfold in_int32; lia.
  - vm_compute. reflexivity.
  - exists r. exact Hr.
Defined.
