(* ===== verification/Synthetic.v ===== *)
(** * Synthetic Metadata responses ([internal/routing/synthetic_metadata.go])

    In load_balance mode the proxy asks both clusters for metadata and merges
    the answers: brokers deduplicated by node id, topics by name, the primary
    preferred, every broker at the proxy's address. *)

From S2P Require Import Prelude Bytes Protocol Metadata.

Record topicEntry := { Name : string; RawBytes : bytes }.

(** ** Parsing topics *)

Definition skipInt32Array (data : bytes) : res Z :=
  check blen data <? 4, too_short "missing array length";;
  count ← u32_at data 0; let count := int32 count in
  check count <? 0, Errorf "negative array length";;
  let elemSize := 4 + 4 * count in
  check blen data <? elemSize, too_short "truncated array";;
  Ok elemSize.

(** [skipInt32Array(data[pos:])]. *)
Definition skip_array_at (data : bytes) (pos : Z) (what : string) : res Z :=
  d ← slice_from data pos;
  wrap_err what (skipInt32Array d).

Definition skipPartition (data : bytes) (version : Z) : res Z :=
  let pos := 0 in
  check blen data <? pos + 2, too_short "missing partition ErrorCode";;
  let pos := pos + 2 in
  check blen data <? pos + 4, too_short "missing PartitionIndex";;
  let pos := pos + 4 in
  check blen data <? pos + 4, too_short "missing LeaderId";;
  let pos := pos + 4 in
  pos ← (if 7 <=? version then
           check blen data <? pos + 4, too_short "missing LeaderEpoch";;
           Ok (pos + 4)
         else Ok pos);
  bytesRead ← skip_array_at data pos "ReplicaNodes";
  let pos := pos + bytesRead in
  bytesRead ← skip_array_at data pos "IsrNodes";
  let pos := pos + bytesRead in
  if 5 <=? version then
    bytesRead ← skip_array_at data pos "OfflineReplicas";
    Ok (pos + bytesRead)
  else Ok pos.

(** The partition loop of [parseOneTopic]: the offset after the partitions. *)
Fixpoint skipPartitions (count : nat) (data : bytes) (pos version : Z) : res Z :=
  match count with
  | O => Ok pos
  | S count =>
      d ← slice_from data pos;
      bytesRead ← wrap_err "partition" (skipPartition d version);
      skipPartitions count data (pos + bytesRead) version
  end.

Definition parseOneTopic (data : bytes) (version : Z) : res (topicEntry * Z) :=
  let pos := 0 in
  check blen data <? pos + 2, too_short "missing topic ErrorCode";;
  let pos := pos + 2 in
  check blen data <? pos + 2, too_short "missing TopicName length";;
  nameLen ← u16_at data pos; let nameLen := int16 nameLen in
  let pos := pos + 2 in
  check nameLen <? 0, Errorf "invalid TopicName length";;
  check MaxStringLen <? nameLen, Errorf "TopicName exceeds maximum length";;
  check blen data <? pos + nameLen, too_short "truncated TopicName";;
  name ← slice data pos (pos + nameLen);
  let pos := pos + nameLen in
  pos ← (if 1 <=? version then
           check blen data <? pos + 1, too_short "missing IsInternal";;
           Ok (pos + 1)
         else Ok pos);
  check blen data <? pos + 4, too_short "missing partition array length";;
  partCount ← u32_at data pos; let partCount := int32 partCount in
  let pos := pos + 4 in
  check partCount <? 0, Errorf "negative partition count";;
  pos ← skipPartitions (Z.to_nat partCount) data pos version;
  pos ← (if 8 <=? version then
           check blen data <? pos + 4, too_short "missing TopicAuthorizedOperations";;
           Ok (pos + 4)
         else Ok pos);
  raw ← slice data 0 pos;
  Ok ({| Name := str name; RawBytes := raw |}, pos).

(** The fields between the broker array and the topic array; returns the
    offset of the topic array. *)
Definition skipInterBroker (data : bytes) (version : Z) : res Z :=
  let pos := 0 in
  pos ← (if 2 <=? version then
           check blen data <? pos + 2, too_short "missing ClusterId length";;
           clusterIDLen ← u16_at data pos; let clusterIDLen := int16 clusterIDLen in
           let pos := pos + 2 in
           if 0 <=? clusterIDLen then
             check blen data <? pos + clusterIDLen, too_short "truncated ClusterId";;
             Ok (pos + clusterIDLen)
           else Ok pos
         else Ok pos);
  pos ← (if 1 <=? version then
           check blen data <? pos + 4, too_short "missing ControllerId";;
           Ok (pos + 4)
         else Ok pos);
  if 8 <=? version then
    check blen data <? pos + 4, too_short "missing ClusterAuthorizedOperations";;
    Ok (pos + 4)
  else Ok pos.

(** [for i := int32(0); i < topicCount; i++]. *)
Fixpoint parseTopics (count : nat) (data : bytes) (pos version : Z)
    : res (list topicEntry) :=
  match count with
  | O => Ok []
  | S count =>
      d ← slice_from data pos;
      '(entry, bytesRead) ← wrap_err "topic" (parseOneTopic d version);
      topics ← parseTopics count data (pos + bytesRead) version;
      Ok (entry :: topics)
  end.

(** The topics and the inter-broker bytes. *)
Definition parseTopicArray (data : bytes) (version : Z) : res (list topicEntry * bytes) :=
  pos ← skipInterBroker data version;
  interBrokerBytes ← slice data 0 pos;
  check blen data <? pos + 4, too_short "missing topic array length";;
  topicCount ← u32_at data pos; let topicCount := int32 topicCount in
  let pos := pos + 4 in
  check topicCount <? 0, Errorf "negative topic count";;
  if topicCount =? 0 then Ok ([], interBrokerBytes)
  else
    topics ← parseTopics (Z.to_nat topicCount) data pos version;
    Ok (topics, interBrokerBytes).

(** ** Merging *)

Section merge.
Context {A K : Type} `{Countable K} (key : A → K).

(** The two loops of [mergeBrokers] and [mergeTopics]; [seen] is the Go map
    from keys to [true]. *)
Definition merge_primary (primary : list A) : gset K * list A :=
  foldl (λ '(seen, merged) b, ({[ key b ]} ∪ seen, merged ++ [b])) (∅, []) primary.

Definition merge_secondary (st : gset K * list A) (secondary : list A)
    : gset K * list A :=
  foldl (λ '(seen, merged) b,
           if decide (key b ∈ seen) then (seen, merged)
           else ({[ key b ]} ∪ seen, merged ++ [b])) st secondary.

Definition merge_keyed (primary secondary : list A) : list A :=
  snd (merge_secondary (merge_primary primary) secondary).
End merge.

Definition mergeBrokers (primary secondary : list Broker) : list Broker :=
  merge_keyed NodeID primary secondary.

Definition mergeTopics (primary secondary : list topicEntry) : list topicEntry :=
  if (Nat.eqb (length primary) 0) && (Nat.eqb (length secondary) 0) then []
  else merge_keyed Name primary secondary.

(** ** Building the response *)

Definition write_topics (topics : list topicEntry) : bytes :=
  be32 (int32 (Z.of_nat (length topics))) ++ concat (map RawBytes topics).

Definition buildSyntheticResponse (correlationID : Z) (bodyBeforeBrokers : bytes)
    (primaryBrokers secondaryBrokers : list Broker) (interBrokerBytes : bytes)
    (primaryTopics secondaryTopics : list topicEntry)
    (proxyHost : string) (proxyPort version : Z) : res bytes :=
  let mergedBrokers := mergeBrokers primaryBrokers secondaryBrokers in
  let mergedTopics := mergeTopics primaryTopics secondaryTopics in
  let brokerBuf := write_brokers proxyHost proxyPort version mergedBrokers in
  let topicBuf := write_topics mergedTopics in
  let newBodyLen := blen bodyBeforeBrokers + blen brokerBuf
                    + blen interBrokerBytes + blen topicBuf in
  let sizeFieldValue := 4 + newBodyLen in
  let newFrameLen := 4 + sizeFieldValue in
  check MaxMetadataResponseSize <? newFrameLen, ErrMetadataResponseTooLarge;;
  let result := fill_frame sizeFieldValue correlationID
                  [bodyBeforeBrokers; brokerBuf; interBrokerBytes; topicBuf] in
  n ← u32_at result 0;
  check negb (int32 n =? int32 (blen result - 4)), Errorf "internal error: frame size mismatch";;
  Ok result.

(** [secondaryResp] is [None] for the Go value [nil]. *)
Definition SynthesizeMetadataResponse (primaryResp : bytes) (secondaryResp : option bytes)
    (proxyHost : string) (proxyPort apiVersion : Z) : res bytes :=
  check MaxStringLen <? slen proxyHost, Wrapf "proxy host" ErrBrokerHostTooLong;;
  '(primaryParsed, primaryCorrID) ←
    wrap_err "parsing primary metadata response" (parseResponseFrame primaryResp apiVersion);
  '(primaryTopics, interBrokerBytes) ←
    wrap_err "parsing primary topics"
      (parseTopicArray (mr_bodyAfterBrokers primaryParsed) apiVersion);
  let build secondaryBrokers secondaryTopics :=
    buildSyntheticResponse primaryCorrID (mr_bodyBeforeBrokers primaryParsed)
      (mr_Brokers primaryParsed) secondaryBrokers interBrokerBytes
      primaryTopics secondaryTopics proxyHost proxyPort apiVersion in
  match secondaryResp with
  | None => build [] []
  | Some sec =>
      match parseResponseFrame sec apiVersion with
      | Err _ => build [] []
      | Panic => Panic
      | Ok (secondaryParsed, _) =>
          match parseTopicArray (mr_bodyAfterBrokers secondaryParsed) apiVersion with
          | Err _ => build [] []
          | Panic => Panic
          | Ok (secondaryTopics, _) => build (mr_Brokers secondaryParsed) secondaryTopics
          end
      end
  end.

(** ** Locality of the topic parsers

    A parser that consumed [n] bytes depends on those bytes only, so the raw
    bytes captured for a topic stay parseable wherever they are copied. *)

Definition agree (n : Z) (d d' : bytes) : Prop :=
  0 ≤ n ≤ blen d ∧ n ≤ blen d' ∧ take (Z.to_nat n) d = take (Z.to_nat n) d'.

Definition local {A} (len : A → Z) (f : bytes → res A) : Prop :=
  ∀ d a, f d = Ok a → 0 ≤ len a ≤ blen d ∧ ∀ d', agree (len a) d d' → f d' = Ok a.

Lemma agree_slice n d d' lo hi :
  agree n d d' → hi ≤ n → slice d' lo hi = slice d lo hi.
Proof.
  intros (? & ? & Heq) ?. unfold slice.
  rewrite (proj2 (Z.leb_le hi (blen d))), (proj2 (Z.leb_le hi (blen d'))) by lia.
  destruct (0 <=? lo) eqn:?; [|done]. destruct (lo <=? hi) eqn:?; [|done]. simpl. bool_to_prop.
  f_equal. rewrite !take_drop_commute.
  replace (Z.to_nat lo + Z.to_nat (hi - lo))%nat with (Z.to_nat hi) by lia.
  f_equal. replace (Z.to_nat hi) with (Nat.min (Z.to_nat hi) (Z.to_nat n)) by lia.
  by rewrite <- !take_take, Heq.
Qed.

Lemma agree_u16 n d d' p : agree n d d' → p + 2 ≤ n → u16_at d' p = u16_at d p.
Proof. intros. unfold u16_at. by rewrite (agree_slice n d). Qed.

Lemma agree_u32 n d d' p : agree n d d' → p + 4 ≤ n → u32_at d' p = u32_at d p.
Proof. intros. unfold u32_at. by rewrite (agree_slice n d). Qed.

Lemma agree_le n m d d' : agree n d d' → 0 ≤ m ≤ n → agree m d d'.
Proof.
  intros (? & ? & Heq) ?. split_and!; [lia..|].
  replace (Z.to_nat m) with (Nat.min (Z.to_nat m) (Z.to_nat n)) by lia.
  by rewrite <- !take_take, Heq.
Qed.

Lemma agree_slice_from n d d' p e :
  agree n d d' → p ≤ n → slice_from d p = Ok e →
  ∃ e', slice_from d' p = Ok e' ∧ agree (n - p) e e'.
Proof.
  intros (? & ? & Heq) ? He. unfold slice_from in *.
  pose proof (slice_Ok_inv _ _ _ _ He) as (? & ? & _ & ->).
  destruct (slice_ok d' p (blen d')) as (e' & He' & ?); [lia..|].
  exists e'. split; [done|]. apply slice_Ok_inv in He' as (_ & _ & _ & ->).
  unfold agree, blen in *. rewrite !length_take, !length_drop. split_and!; [lia..|].
  rewrite !take_take, !take_drop_commute.
  rewrite !Nat.min_l by lia.
  by replace (Z.to_nat p + Z.to_nat (n - p))%nat with (Z.to_nat n) by lia; rewrite Heq.
Qed.

Lemma agree_app n d rest : n = blen d → agree n d (d ++ rest).
Proof.
  intros ->. pose proof (blen_nonneg d). pose proof (blen_nonneg rest).
  unfold agree. rewrite blen_app. split_and!; [lia..|].
  unfold blen. by rewrite Nat2Z.id, take_app_length, take_ge.
Qed.

Lemma agree_prefix d n raw rest : slice d 0 n = Ok raw → agree n d (raw ++ rest).
Proof.
  intros H. pose proof (slice_Ok_len _ _ _ _ H) as Hl. rewrite Z.sub_0_r in Hl.
  apply slice_Ok_inv in H as (_ & ? & ? & ->). rewrite Z.sub_0_r, drop_0 in *.
  pose proof (blen_nonneg rest). split_and!; [lia|lia|rewrite blen_app; lia|].
  rewrite take_app_le, take_take by (unfold blen in Hl; lia). f_equal. lia.
Qed.

(** Invert every successful parse among the hypotheses. *)
Ltac parse_inv_all :=
  repeat match goal with H : _ = Ok _ |- _ => progress parse_inv H end; simplify_eq.

(** Replay on [d'] the steps known to succeed on [d]. *)
Ltac local_cond c :=
  lazymatch c with
  | ?a <? ?b => first [rewrite (proj2 (Z.ltb_ge a b)) by blia | rewrite (proj2 (Z.ltb_lt a b)) by blia]
  | ?a <=? ?b => first [rewrite (proj2 (Z.leb_le a b)) by blia | rewrite (proj2 (Z.leb_gt a b)) by blia]
  | ?a =? ?b => first [rewrite (proj2 (Z.eqb_neq a b)) by blia | rewrite (proj2 (Z.eqb_eq a b)) by blia]
  end.
Ltac local_step :=
  cbv zeta; bind_simpl;
  match goal with
  | Hag : agree ?n ?d ?d' |- context [u16_at ?d' ?p] =>
      erewrite (agree_u16 n d d' p Hag) by blia;
      match goal with E : u16_at d p = Ok _ |- _ => rewrite E end
  | Hag : agree ?n ?d ?d' |- context [u32_at ?d' ?p] =>
      erewrite (agree_u32 n d d' p Hag) by blia;
      match goal with E : u32_at d p = Ok _ |- _ => rewrite E end
  | Hag : agree ?n ?d ?d' |- context [slice ?d' ?p ?q] =>
      erewrite (agree_slice n d d' p q Hag) by blia;
      match goal with E : slice d p q = Ok _ |- _ => rewrite E end
  | |- context [if ?c then _ else _] => local_cond c
  end.
Ltac local_tac := learn_bounds; repeat local_step; cbv zeta; bind_simpl.

Lemma skipInt32Array_local : local id skipInt32Array.
Proof.
  intros d n H. unfold skipInt32Array, id in *. parse_inv H. simplify_eq. learn_bounds.
  split; [blia|]. intros d' Hag. pose proof Hag as (? & ? & _). local_tac. done.
Qed.

Lemma skip_array_at_local d pos what k :
  skip_array_at d pos what = Ok k →
  0 ≤ pos ∧ 0 ≤ k ∧ pos + k ≤ blen d ∧
  ∀ n d', agree n d d' → pos + k ≤ n → skip_array_at d' pos what = Ok k.
Proof.
  unfold skip_array_at. intros (e & He & Hk%wrap_err_Ok)%bind_Ok_inv.
  pose proof (slice_from_Ok_len _ _ _ He).
  pose proof (slice_Ok_inv _ _ _ _ He) as (? & _).
  apply skipInt32Array_local in Hk as [? Hloc]. unfold id in *.
  split_and!; [lia..|]. intros n d' Hag ?.
  destruct (agree_slice_from n d d' pos e Hag ltac:(lia) He) as (e' & -> & Hag').
  bind_simpl. rewrite (Hloc e'); [done|]. apply (agree_le (n - pos)); [done|lia].
Qed.

Ltac arrays_local :=
  repeat match goal with
  | E : skip_array_at _ _ _ = Ok _ |- _ =>
      apply skip_array_at_local in E as (? & ? & ? & ?)
  end.

Lemma skipPartition_local v : local id (λ d, skipPartition d v).
Proof.
  intros d n H. unfold skipPartition, id in *.
  destruct (7 <=? v) eqn:E7, (5 <=? v) eqn:E5; parse_inv_all; arrays_local;
    (split; [blia|]; intros d' Hag; pose proof Hag as (? & ? & _); local_tac).
  all: repeat match goal with
   | Hl : ∀ n d'', agree n _ d'' → ?k ≤ n → skip_array_at d'' ?p ?w = _ |- context [skip_array_at _ ?p ?w] =>
     erewrite Hl by (first [eassumption|lia]); bind_simpl end.
  all: try done.
Qed.

(** A sub-parser applied at [pos]. *)
Lemma local_from {A} (len : A → Z) (f : bytes → res A) d pos e a :
  local len f → slice_from d pos = Ok e → f e = Ok a →
  0 ≤ pos ∧ 0 ≤ len a ∧ pos + len a ≤ blen d ∧
  ∀ n d', agree n d d' → pos + len a ≤ n →
    ∃ e', slice_from d' pos = Ok e' ∧ f e' = Ok a.
Proof.
  intros Hf He Ha. pose proof (slice_from_Ok_len _ _ _ He).
  pose proof (slice_Ok_inv _ _ _ _ He) as (? & _).
  apply Hf in Ha as [? Hloc]. split_and!; [lia..|]. intros n d' Hag ?.
  destruct (agree_slice_from n d d' pos e Hag ltac:(lia) He) as (e' & He' & Hag').
  exists e'. split; [done|]. apply Hloc, (agree_le (n - pos)); [done|lia].
Qed.

Lemma skipPartitions_local c d pos v e :
  skipPartitions c d pos v = Ok e → 0 ≤ pos ≤ blen d →
  pos ≤ e ≤ blen d ∧
  ∀ n d', agree n d d' → e ≤ n → skipPartitions c d' pos v = Ok e.
Proof.
  revert pos. induction c as [|c IH]; intros pos H Hpos; simpl in H |- *.
  - simplify_eq. split; [lia|done].
  - apply bind_Ok_inv in H as (x & Hx & H).
    apply bind_Ok_inv in H as (k & Hk%wrap_err_Ok & H).
    destruct (local_from id (λ d, skipPartition d v) _ _ _ _ (skipPartition_local v) Hx Hk)
      as (_ & ? & ? & Hloc). unfold id in *.
    apply IH in H as [? Hrest]; [|lia].
    split; [lia|]. intros n d' Hag ?.
    destruct (Hloc n d' Hag ltac:(lia)) as (e' & -> & Hk'). bind_simpl. rewrite Hk'.
    bind_simpl. by apply (Hrest n).
Qed.

Lemma parseOneTopic_local v :
  local snd (λ d, parseOneTopic d v).
Proof.
  intros d [t n] H. unfold parseOneTopic in *. cbn [snd].
  destruct (1 <=? v) eqn:E1, (8 <=? v) eqn:E8; parse_inv_all;
    (match goal with E : skipPartitions _ _ _ _ = Ok _ |- _ =>
       apply skipPartitions_local in E as [? Hloc]; [|blia] end);
    learn_bounds; (split; [blia|]); intros d' Hag; pose proof Hag as (? & ? & _);
    local_tac; (erewrite Hloc by (first [exact Hag|lia])); local_tac; done.
Qed.

(** What the parser keeps of a topic is exactly the bytes it consumed. *)
Lemma parseOneTopic_raw v d t n :
  parseOneTopic d v = Ok (t, n) → slice d 0 n = Ok (RawBytes t) ∧ 8 ≤ n.
Proof.
  intros H. unfold parseOneTopic in *.
  destruct (1 <=? v) eqn:E1, (8 <=? v) eqn:E8; parse_inv_all;
    (match goal with E : skipPartitions _ _ _ _ = Ok _ |- _ =>
       apply skipPartitions_local in E as [? _]; [|blia] end); split; [done|blia| | | | | |];
    first [done|blia].
Qed.

(** A topic as some response of this version carries it. *)
Definition valid_topic (v : Z) (t : topicEntry) : Prop :=
  ∀ rest, parseOneTopic (RawBytes t ++ rest) v = Ok (t, blen (RawBytes t)).

Lemma parseOneTopic_valid v d t n :
  parseOneTopic d v = Ok (t, n) → valid_topic v t ∧ 8 ≤ n ∧ blen (RawBytes t) = n.
Proof.
  intros H. pose proof (parseOneTopic_raw _ _ _ _ H) as [Hraw ?].
  pose proof (slice_Ok_len _ _ _ _ Hraw) as Hlen. rewrite Z.sub_0_r in Hlen.
  split; [|done]. intros rest. rewrite Hlen.
  apply parseOneTopic_local in H as [_ Hloc]. apply Hloc, agree_prefix, Hraw.
Qed.

(** The bytes between the brokers and the topics. *)
Definition valid_inter (v : Z) (ib : bytes) : Prop :=
  ∀ rest, skipInterBroker (ib ++ rest) v = Ok (blen ib).

Lemma skipInterBroker_local v : local id (λ d, skipInterBroker d v).
Proof.
  intros d n H. unfold skipInterBroker, id in *.
  destruct (2 <=? v) eqn:E2, (1 <=? v) eqn:E1, (8 <=? v) eqn:E8; parse_inv_all;
    (split; [blia|]; intros d' Hag; pose proof Hag as (? & ? & _); local_tac; first [done|lia]).
Qed.

Lemma parseTopics_valid c d pos v ts :
  parseTopics c d pos v = Ok ts → Forall (valid_topic v) ts ∧ length ts = c.
Proof.
  revert pos ts. induction c as [|c IH]; intros pos ts H; simpl in H; [by simplify_eq|].
  apply bind_Ok_inv in H as (x & Hx & H).
  apply bind_Ok_inv in H as ([t k] & Ht & H).
  apply wrap_err_Ok, parseOneTopic_valid in Ht as [? _].
  apply bind_Ok_inv in H as (ts' & Hts & ?). apply IH in Hts as [? ?]. simplify_eq.
  split; [by constructor|simpl; congruence].
Qed.

Lemma parseTopics_at d pos v ts rest :
  Forall (valid_topic v) ts → at_pos d pos (concat (map RawBytes ts) ++ rest) →
  parseTopics (length ts) d pos v = Ok ts.
Proof.
  intros Hts. revert pos. induction Hts as [|t ts Ht Hts IH]; intros pos Hcur; [done|].
  cbn [map concat length parseTopics] in *. rewrite <- app_assoc in Hcur.
  rewrite (at_pos_slice_from _ _ _ Hcur). bind_simpl. rewrite Ht. bind_simpl.
  by rewrite (IH _ (at_pos_advance d pos _ _ Hcur)).
Qed.

Lemma parseTopicArray_valid d v ts ib :
  parseTopicArray d v = Ok (ts, ib) →
  Forall (valid_topic v) ts ∧ valid_inter v ib ∧ Z.of_nat (length ts) < 2147483648.
Proof.
  unfold parseTopicArray. intros (p & Hp & H)%bind_Ok_inv.
  apply bind_Ok_inv in H as (ib' & Hib & H).
  assert (valid_inter v ib').
  { intros rest. rewrite (slice_Ok_len _ _ _ _ Hib), Z.sub_0_r.
    apply skipInterBroker_local in Hp as [_ Hloc]. apply Hloc, agree_prefix, Hib. }
  parse_inv H; simplify_eq; [done|].
  match goal with E : parseTopics _ _ _ _ = Ok _ |- _ =>
    apply parseTopics_valid in E as [? ->] end.
  split_and!; [done|done|]. pose proof (int32_range v0). unfold in_int32 in *. lia.
Qed.

Lemma parseTopicArray_at v ts ib :
  Forall (valid_topic v) ts → valid_inter v ib → Z.of_nat (length ts) < 2147483648 →
  parseTopicArray (ib ++ write_topics ts) v = Ok (ts, ib).
Proof.
  intros Hts Hib Hn. unfold parseTopicArray. rewrite Hib. bind_simpl.
  unfold write_topics. rewrite int32_small by lia.
  set (d := ib ++ _). assert (at_pos d 0 (ib ++ be32 (Z.of_nat (length ts)) ++ concat (map RawBytes ts) ++ []))
    as Hcur by (rewrite app_nil_r; apply at_pos_0). clearbody d.
  apply at_pos_bytes in Hcur as [E Hcur]. rewrite Z.add_0_l in *. rewrite E. bind_simpl.
  do 2 cursor_step. rewrite int32_uint32, int32_small by lia. cursor_step.
  destruct (Z.of_nat (length ts) =? 0) eqn:E0; bool_to_prop; [by destruct ts|].
  rewrite Nat2Z.id. by erewrite parseTopics_at.
Qed.

(** ** The merge *)

Section merge_spec.
Context {A K : Type} `{Countable K} (key : A → K).

(** The secondary's entries with a fresh key, first occurrences only. *)
Fixpoint fresh_entries (seen : gset K) (l : list A) : list A :=
  match l with
  | [] => []
  | b :: l => if decide (key b ∈ seen) then fresh_entries seen l
              else b :: fresh_entries ({[ key b ]} ∪ seen) l
  end.

Definition keys (l : list A) : gset K := list_to_set (map key l).

Lemma merge_primary_eq l : merge_primary key l = (keys l, l).
Proof.
  unfold merge_primary.
  assert (∀ s m, foldl (λ '(seen, merged) b, ({[ key b ]} ∪ seen, merged ++ [b])) (s, m) l
                 = (s ∪ keys l, m ++ l)) as ->.
  { induction l as [|b l IH]; intros s m; simpl.
    - unfold keys; simpl. rewrite app_nil_r. f_equal. set_solver.
    - rewrite IH. rewrite <- app_assoc. unfold keys; simpl. f_equal. set_solver. }
  f_equal. set_solver.
Qed.

Lemma merge_keyed_eq p s : merge_keyed key p s = p ++ fresh_entries (keys p) s.
Proof.
  unfold merge_keyed. rewrite merge_primary_eq. unfold merge_secondary.
  generalize (keys p) as seen. revert p.
  induction s as [|b s IH]; intros p seen; simpl; [by rewrite app_nil_r|].
  case_decide; [apply IH|]. by rewrite IH, <- app_assoc.
Qed.

Lemma fresh_entries_sub seen l : fresh_entries seen l `sublist_of` l.
Proof.
  revert seen. induction l as [|b l IH]; intros seen; simpl; [done|].
  case_decide; [by apply sublist_cons|by apply sublist_skip].
Qed.

Lemma fresh_entries_Forall P seen l : Forall P l → Forall P (fresh_entries seen l).
Proof.
  intros HP. revert seen. induction HP as [|b l Hb HP IH]; intros seen; cbn [fresh_entries].
  - constructor.
  - case_decide; [apply IH|]. constructor; [done|apply IH].
Qed.

Lemma fresh_entries_keys seen l :
  seen ∪ keys (fresh_entries seen l) = seen ∪ keys l.
Proof.
  revert seen. induction l as [|b l IH]; intros seen; [done|].
  cbn [fresh_entries]. case_decide; unfold keys in *; simpl.
  - rewrite IH. set_solver.
  - specialize (IH ({[ key b ]} ∪ seen)). set_solver.
Qed.

Lemma fresh_entries_fresh seen l b : b ∈ fresh_entries seen l → key b ∉ seen.
Proof.
  revert seen. induction l as [|c l IH]; intros seen; cbn [fresh_entries]; [set_solver|].
  case_decide; [apply IH|]. rewrite elem_of_cons. intros [->|?%IH]; set_solver.
Qed.

Lemma fresh_entries_nodup seen l : NoDup (map key (fresh_entries seen l)).
Proof.
  revert seen. induction l as [|b l IH]; intros seen; cbn [fresh_entries]; [constructor|].
  case_decide; [apply IH|]. cbn [map]. constructor; [|apply IH].
  intros (c & Hc & Hin)%elem_of_map. apply fresh_entries_fresh in Hin. set_solver.
Qed.

Lemma merge_keyed_keys p s : keys (merge_keyed key p s) = keys p ∪ keys s.
Proof.
  rewrite merge_keyed_eq. rewrite <- fresh_entries_keys. unfold keys.
  by rewrite map_app, list_to_set_app_L.
Qed.

Lemma merge_keyed_nodup p s :
  NoDup (map key p) → NoDup (map key (merge_keyed key p s)).
Proof.
  intros Hp. rewrite merge_keyed_eq, map_app. apply list.NoDup_app.
  split_and!; [done| |apply fresh_entries_nodup].
  intros k Hk (c & -> & Hin)%elem_of_map. apply fresh_entries_fresh in Hin.
  apply Hin. unfold keys. by apply elem_of_list_to_set.
Qed.

Lemma merge_keyed_Forall P p s : Forall P p → Forall P s → Forall P (merge_keyed key p s).
Proof. intros. rewrite merge_keyed_eq. apply Forall_app; split; [done|by apply fresh_entries_Forall]. Qed.

(** What the merge takes from the secondary, said without a loop: the entries, in
    order, whose key is neither one of the primary's nor that of an earlier entry
    of the secondary. *)
Definition only_secondary (p s : list A) : list A :=
  omap (λ i, b ← s !! i; if decide (key b ∈ map key (p ++ take i s)) then None else Some b)
       (seq 0 (length s)).

Lemma only_secondary_cons p b s :
  only_secondary p (b :: s) =
  (if decide (key b ∈ map key p) then [] else [b]) ++ only_secondary (p ++ [b]) s.
Proof.
  unfold only_secondary. cbn [length seq]. rewrite <- fmap_S_seq.
  set (f := λ i, c ← (b :: s) !! i; if decide (key c ∈ map key (p ++ take i (b :: s))) then None else Some c).
  set (g := λ i, c ← s !! i; if decide (key c ∈ map key ((p ++ [b]) ++ take i s)) then None else Some c).
  assert (∀ l : list nat, omap f (S <$> l) = omap g l) as Hl.
  { intros l. induction l as [|i l IH]; [done|].
    cbn [fmap list_fmap omap list_omap] in IH |- *. rewrite IH.
    assert (f (S i) = g i) as ->; [|done]. unfold f, g. cbn. destruct (s !! i); [|done].
    cbn. by rewrite <- app_assoc. }
  change (omap f (0%nat :: (S <$> seq 0 (length s)))) with
    (match f 0%nat with Some y => y :: omap f (S <$> seq 0 (length s)) | None => omap f (S <$> seq 0 (length s)) end).
  rewrite Hl. assert (f 0%nat = if decide (key b ∈ map key p) then None else Some b) as ->.
  { unfold f. cbn. by rewrite app_nil_r. }
  by case_decide.
Qed.

Lemma merge_keyed_spec p s : merge_keyed key p s = p ++ only_secondary p s.
Proof.
  rewrite merge_keyed_eq. f_equal.
  assert (Hseen : ∀ k, k ∈ keys p ↔ k ∈ map key p) by (intros k; apply elem_of_list_to_set).
  revert Hseen. generalize (keys p) as seen. revert p.
  induction s as [|b s IH]; intros p seen Hseen; [done|].
  rewrite only_secondary_cons. cbn [fresh_entries].
  assert (Hnext : ∀ k, k ∈ {[ key b ]} ∪ seen ↔ k ∈ map key (p ++ [b])).
  { intros k. rewrite map_app, elem_of_app, elem_of_union, Hseen. cbn [map].
    rewrite list_elem_of_singleton, elem_of_singleton. tauto. }
  destruct (decide (key b ∈ seen)) as [Hin|Hin]; destruct (decide (key b ∈ map key p)) as [Hp|Hp];
    [|by apply Hseen in Hin|by apply Hseen in Hp|].
  - cbn [app]. apply IH. intros k. rewrite <- Hnext. set_solver.
  - cbn [app]. f_equal. by apply IH.
Qed.
End merge_spec.

Lemma mergeTopics_eq p s : mergeTopics p s = merge_keyed Name p s.
Proof. unfold mergeTopics. by destruct p, s. Qed.

(** ** The synthetic response *)

(** The response a client should see: the primary's header and inter-broker
    fields, every broker at the proxy's address, the merged topics. *)
Definition merged_response (h : string) (p : Z) (r : MetadataResponse) (ib : bytes)
    (pts : list topicEntry) (sb : list Broker) (st : list topicEntry) : MetadataResponse :=
  {| mr_CorrelationID := mr_CorrelationID r; mr_ThrottleTimeMs := mr_ThrottleTimeMs r;
     mr_Brokers := map (proxied h p) (mergeBrokers (mr_Brokers r) sb);
     mr_bodyBeforeBrokers := mr_bodyBeforeBrokers r;
     mr_bodyAfterBrokers := ib ++ write_topics (mergeTopics pts st) |}.

(** What is used of the secondary's answer: nothing when it is missing or
    cannot be parsed. *)
Definition secondary_view (v : Z) (sec : option bytes) : list Broker * list topicEntry :=
  match sec with
  | Some sec =>
      match parseResponseFrame sec v with
      | Ok (r, _) =>
          match parseTopicArray (mr_bodyAfterBrokers r) v with
          | Ok (ts, _) => (mr_Brokers r, ts)
          | _ => ([], [])
          end
      | _ => ([], [])
      end
  | None => ([], [])
  end.

Lemma buildSyntheticResponse_eq r ib pts sb st h p v :
  buildSyntheticResponse (mr_CorrelationID r) (mr_bodyBeforeBrokers r) (mr_Brokers r) sb ib
    pts st h p v =
  check MaxMetadataResponseSize <? blen (wire_frame v (merged_response h p r ib pts sb st)),
    ErrMetadataResponseTooLarge;;
  Ok (wire_frame v (merged_response h p r ib pts sb st)).
Proof.
  unfold buildSyntheticResponse. cbv zeta. rewrite write_brokers_wire.
  assert (∀ f, f = wire_frame v (merged_response h p r ib pts sb st) →
    blen f = 4 + (4 + (blen (mr_bodyBeforeBrokers r) +
      blen (wire_brokers v (map (proxied h p) (mergeBrokers (mr_Brokers r) sb))) +
      blen ib + blen (write_topics (mergeTopics pts st))))) as Hlen.
  { intros f ->. unfold wire_frame. autorewrite with blen.
    cbn [merged_response mr_bodyBeforeBrokers mr_Brokers mr_bodyAfterBrokers].
    rewrite blen_app. ring. }
  rewrite <- (Hlen _ eq_refl). case_if; [done|].
  rewrite fill_frame_eq by (cbn [concat]; rewrite app_nil_r; autorewrite with blen; lia).
  match goal with |- context [u32_at ?x 0] =>
    assert (x = wire_frame v (merged_response h p r ib pts sb st)) as Hx end.
  { unfold wire_frame.
    cbn [merged_response mr_bodyBeforeBrokers mr_Brokers mr_bodyAfterBrokers
      mr_CorrelationID concat].
    rewrite app_nil_r. do 2 f_equal. autorewrite with blen. lia. }
  rewrite Hx. pose proof (Hlen _ eq_refl) as Hl. rewrite Hl.
  set (w := wire_frame _ _) in *.
  assert (Hcur : at_pos w 0 w) by apply at_pos_0. rewrite <- Hx in Hcur at 2.
  clear Hx Hlen. clearbody w. cursor_step. rewrite int32_uint32.
  rewrite (proj2 (Z.eqb_eq _ _)); [done|]. f_equal. lia.
Qed.

(** ** No panics *)

Lemma safe_skipInt32Array d : safe (skipInt32Array d).
Proof. unfold skipInt32Array. repeat safe_step. Qed.

Lemma safe_skip_array_at d pos w : 0 ≤ pos ≤ blen d → safe (skip_array_at d pos w).
Proof.
  intros. unfold skip_array_at. apply safe_bind; [apply safe_slice_from; lia|].
  intros. apply safe_wrap, safe_skipInt32Array.
Qed.

Lemma safe_skipPartition d v : safe (skipPartition d v).
Proof.
  unfold skipPartition. cbv zeta. do 3 (case_if; [done|]). bool_to_prop.
  apply safe_bind; [destruct (7 <=? v); repeat safe_step|]. intros pos Hpos.
  assert (0 ≤ pos ≤ blen d) by (destruct (7 <=? v); parse_inv Hpos; simplify_eq; lia).
  apply safe_bind; [by apply safe_skip_array_at|]. intros k Hk. arrays_local.
  apply safe_bind; [apply safe_skip_array_at; lia|]. intros k' Hk. arrays_local.
  case_if; [|done].
  apply safe_bind; [apply safe_skip_array_at; lia|done].
Qed.

Lemma safe_skipPartitions c d pos v : 0 ≤ pos ≤ blen d → safe (skipPartitions c d pos v).
Proof.
  revert pos. induction c as [|c IH]; intros pos Hpos; simpl; [done|].
  apply safe_bind; [apply safe_slice_from; lia|]. intros e He.
  apply safe_bind; [apply safe_wrap, safe_skipPartition|]. intros k Hk%wrap_err_Ok.
  apply IH. destruct (local_from id (λ d, skipPartition d v) _ _ _ _ (skipPartition_local v) He Hk)
    as (? & ? & ? & _). unfold id in *. lia.
Qed.

Lemma safe_parseOneTopic d v : safe (parseOneTopic d v).
Proof.
  unfold parseOneTopic. cbv zeta. do 2 (case_if; [done|]). bool_to_prop.
  apply safe_bind; [safe_step|]. intros nl Hnl. do 3 (case_if; [done|]). bool_to_prop.
  apply safe_bind; [safe_step|]. intros nm Hnm.
  apply safe_bind; [destruct (1 <=? v); repeat safe_step|]. intros pos Hpos.
  assert (0 ≤ pos ≤ blen d) by (destruct (1 <=? v); parse_inv Hpos; simplify_eq; lia).
  clear Hpos. case_if; [done|]. bool_to_prop.
  apply safe_bind; [safe_step|]. intros pc Hpc. case_if; [done|].
  apply safe_bind; [apply safe_skipPartitions; lia|]. intros e He.
  apply skipPartitions_local in He as [? _]; [|lia].
  apply safe_bind; [destruct (8 <=? v); repeat safe_step|]. intros pos' Hpos'.
  assert (0 ≤ pos' ≤ blen d) by (destruct (8 <=? v); parse_inv Hpos'; simplify_eq; lia).
  repeat safe_step.
Qed.

Lemma safe_parseTopics c d pos v : 0 ≤ pos ≤ blen d → safe (parseTopics c d pos v).
Proof.
  revert pos. induction c as [|c IH]; intros pos Hpos; simpl; [done|].
  apply safe_bind; [apply safe_slice_from; lia|]. intros e He.
  apply safe_bind; [apply safe_wrap, safe_parseOneTopic|]. intros [t k] Hk%wrap_err_Ok.
  destruct (local_from snd (λ d, parseOneTopic d v) _ _ _ _ (parseOneTopic_local v) He Hk)
    as (? & ? & ? & _). cbn [snd] in *.
  apply safe_bind; [apply IH; lia|done].
Qed.

Lemma safe_parseTopicArray d v : safe (parseTopicArray d v).
Proof.
  unfold parseTopicArray. apply safe_bind.
  { unfold skipInterBroker. destruct (2 <=? v), (1 <=? v), (8 <=? v);
    cbv zeta; repeat safe_step;
      repeat match goal with H : (if _ then _ else _) = Ok _ |- _ => parse_inv H; simplify_eq
             | H : mbind _ _ = Ok _ |- _ => parse_inv H; simplify_eq end;
      repeat safe_step. }
  intros pos Hpos. apply (skipInterBroker_local v) in Hpos as [Hpos _]. unfold id in Hpos.
  apply safe_bind; [apply safe_slice; lia|]. intros ib _. cbv zeta.
  case_if; [done|]. bool_to_prop. apply safe_bind; [safe_step|]. intros n Hn.
  do 2 (case_if; [done|]). apply safe_bind; [apply safe_parseTopics; lia|done].
Qed.

Lemma safe_parseResponseFrame raw v : safe (parseResponseFrame raw v).
Proof. unfold parseResponseFrame. cbv zeta. repeat safe_step. Qed.

#[export] Hint Resolve safe_parseTopicArray safe_parseResponseFrame : go.

(** ** Counts are bounded by the size limit *)

Lemma concat_length_le {A} (f : A → bytes) k l :
  Forall (λ x, k ≤ blen (f x)) l → k * Z.of_nat (length l) ≤ blen (concat (map f l)).
Proof.
  induction 1 as [|x l Hx _ IH]; simpl; [unfold blen; simpl; lia|].
  rewrite blen_app. lia.
Qed.

Lemma wire_broker_length v b : 10 ≤ blen (wire_broker v b).
Proof. unfold wire_broker. autorewrite with blen. blia. Qed.

Lemma valid_topic_length v t : valid_topic v t → 8 ≤ blen (RawBytes t).
Proof.
  intros H. specialize (H []). by apply parseOneTopic_valid in H as (_ & ? & _).
Qed.

(** ** The response in full *)

Lemma SynthesizeMetadataResponse_eq prim sec h p v r pts ib :
  parseResponseFrame prim v = Ok (r, mr_CorrelationID r) →
  parseTopicArray (mr_bodyAfterBrokers r) v = Ok (pts, ib) →
  slen h ≤ MaxStringLen →
  let '(sb, st) := secondary_view v sec in
  SynthesizeMetadataResponse prim sec h p v =
  check MaxMetadataResponseSize <? blen (wire_frame v (merged_response h p r ib pts sb st)),
    ErrMetadataResponseTooLarge;;
  Ok (wire_frame v (merged_response h p r ib pts sb st)).
Proof.
  intros Hr Ht Hh. unfold SynthesizeMetadataResponse.
  rewrite (proj2 (Z.ltb_ge _ _)) by exact Hh. rewrite Hr. bind_simpl. rewrite Ht. bind_simpl.
  unfold secondary_view. destruct sec as [s|]; [|apply buildSyntheticResponse_eq].
  pose proof (safe_parseResponseFrame s v).
  destruct (parseResponseFrame s v) as [[r' c]| |]; [|apply buildSyntheticResponse_eq|done].
  pose proof (safe_parseTopicArray (mr_bodyAfterBrokers r') v).
  destruct (parseTopicArray (mr_bodyAfterBrokers r') v) as [[ts ?]| |];
    [apply buildSyntheticResponse_eq..|done].
Qed.

Lemma secondary_view_valid v sec sb st :
  secondary_view v sec = (sb, st) → Forall (valid_broker v) sb ∧ Forall (valid_topic v) st.
Proof.
  unfold secondary_view. intros H.
  destruct sec as [s|]; [|by simplify_eq].
  destruct (parseResponseFrame s v) as [[r c]| |] eqn:Er; [|by simplify_eq..].
  destruct (parseTopicArray _ v) as [[ts ?]| |] eqn:Et; simplify_eq; [|done..].
  apply parseResponseFrame_valid in Er as [(_ & _ & ? & _) _].
  by apply parseTopicArray_valid in Et as [? _].
Qed.

(** The synthetic frame parses back to the response it stands for. *)
Lemma wire_frame_merged v h p r ib pts sb st :
  valid_response v r → Forall (valid_broker v) sb → in_int32 p → slen h ≤ MaxStringLen →
  Forall (valid_topic v) pts → Forall (valid_topic v) st → valid_inter v ib →
  blen (wire_frame v (merged_response h p r ib pts sb st)) ≤ MaxMetadataResponseSize →
  parseResponseFrame (wire_frame v (merged_response h p r ib pts sb st)) v =
    Ok (merged_response h p r ib pts sb st, mr_CorrelationID r) ∧
  parseTopicArray (ib ++ write_topics (mergeTopics pts st)) v = Ok (mergeTopics pts st, ib).
Proof.
  intros (? & ? & Hb & ? & ?) Hsb Hp Hh Hpts Hst Hib Hlen.
  set (m := merged_response h p r ib pts sb st) in *.
  assert (valid_response v m).
  { split_and!; try done. simpl. apply Forall_map.
    pose proof (merge_keyed_Forall NodeID _ _ _ Hb Hsb) as Hm. revert Hm.
    apply Forall_impl. intros. by apply proxied_valid. }
  pose proof (merge_keyed_Forall Name _ _ _ Hpts Hst) as Hmt.
  rewrite <- mergeTopics_eq in Hmt.
  pose proof (concat_length_le (wire_broker v) 10 (mr_Brokers m)
    ltac:(apply list.Forall_true; intros; apply wire_broker_length)) as Hnb.
  pose proof (concat_length_le RawBytes 8 (mergeTopics pts st)
    ltac:(revert Hmt; apply Forall_impl; intros; by eapply valid_topic_length)) as Hnt.
  assert (blen (wire_frame v m) = 12 + blen (mr_bodyBeforeBrokers m)
    + blen (concat (map (wire_broker v) (mr_Brokers m)))
    + blen ib + 4 + blen (concat (map RawBytes (mergeTopics pts st)))) as Hl.
  { unfold wire_frame, wire_brokers, write_topics, m;
    cbn [merged_response mr_bodyAfterBrokers mr_bodyBeforeBrokers mr_Brokers].
    unfold write_topics. autorewrite with blen. lia. }
  change MaxMetadataResponseSize with 104857600 in *.
  split.
  - apply (parseResponseFrame_wire v m); [done|blia|exact Hlen].
  - apply parseTopicArray_at; [done|done|blia].
Qed.

(** Two clusters' answers at version 0, sharing the topic "t". *)
Definition sample_topic (name : string) (errorCode : Z) : topicEntry :=
  {| Name := name;
     RawBytes := be16 errorCode ++ be16 (slen name) ++ bytes_of name ++ be32 0 |}.

Definition sample_cluster (node : Z) (host : string) (topics : list topicEntry) : bytes :=
  wire_frame 0
    {| mr_CorrelationID := 9; mr_ThrottleTimeMs := 0;
       mr_Brokers := [ {| NodeID := node; Host := host; Port := 9092;
                          Rack := ""; RackIsSet := false |} ];
       mr_bodyBeforeBrokers := []; mr_bodyAfterBrokers := write_topics topics |}.

Definition sample_primary : bytes :=
  sample_cluster 1 "kafka-a" [sample_topic "t" 0; sample_topic "u" 0].
Definition sample_secondary : bytes :=
  sample_cluster 2 "kafka-b" [sample_topic "t" 5; sample_topic "w" 0].

(** ** Properties *)

(** C6: load-balance metadata is the merge of the two clusters' answers.  When
    the synthesis of arbitrary upstream bytes succeeds, the primary's frame parsed
    to some response and topic list, and the frame sent to the client parses to
    the primary's correlation id and throttle time; to all of the primary's
    brokers, followed by those of the secondary whose node id neither the primary
    nor an earlier broker of the secondary has, every address replaced by the
    proxy's; to the primary's cluster id and controller bytes unchanged; and to all
    of the primary's topics, followed by those of the secondary whose name neither
    the primary nor an earlier topic of the secondary has, each with the bytes its
    cluster sent.  A secondary that is missing or does not parse contributes
    nothing and never makes the request fail. *)
Theorem SynthesizeMetadataResponse_merges prim sec h p v out :
  in_int32 p →
  SynthesizeMetadataResponse prim sec h p v = Ok out →
  ∃ r pts ib r',
    parseResponseFrame prim v = Ok (r, mr_CorrelationID r) ∧
    parseTopicArray (mr_bodyAfterBrokers r) v = Ok (pts, ib) ∧
    parseResponseFrame out v = Ok (r', mr_CorrelationID r) ∧
    mr_ThrottleTimeMs r' = mr_ThrottleTimeMs r ∧
    mr_Brokers r' =
      map (proxied h p)
        (mr_Brokers r ++ only_secondary NodeID (mr_Brokers r) (fst (secondary_view v sec))) ∧
    parseTopicArray (mr_bodyAfterBrokers r') v =
      Ok (pts ++ only_secondary Name pts (snd (secondary_view v sec)), ib).
Proof.
  intros Hp H. pose proof H as Hinv. unfold SynthesizeMetadataResponse in Hinv.
  destruct (_ <? _) eqn:Hh in Hinv; [done|]. bool_to_prop.
  apply bind_Ok_inv in Hinv as ([r c] & Hr%wrap_err_Ok & Hinv).
  apply bind_Ok_inv in Hinv as ([pts ib] & Ht%wrap_err_Ok & _).
  pose proof (parseResponseFrame_valid _ _ _ _ Hr) as (Hv & _ & ->).
  pose proof (parseTopicArray_valid _ _ _ _ Ht) as (? & ? & _).
  pose proof (SynthesizeMetadataResponse_eq prim sec h p v r pts ib Hr Ht Hh) as Heq.
  destruct (secondary_view v sec) as [sb st] eqn:Hs.
  pose proof (secondary_view_valid _ _ _ _ Hs) as [? ?].
  rewrite Heq in H. parse_inv H. simplify_eq.
  destruct (wire_frame_merged v h p r ib pts sb st) as [? ?]; try done.
  exists r, pts, ib, (merged_response h p r ib pts sb st). cbn [fst snd].
  rewrite <- !merge_keyed_spec, <- mergeTopics_eq. by split_and!.
Qed.

(** The merge prefers the primary and loses nothing.  The primary's entries
    come first and unchanged, an entry of the secondary is kept exactly when it is
    the first with its key and the primary has none, every key of either cluster
    is present, and keys that were distinct in the primary stay distinct. *)
Theorem mergeBrokers_prefers_primary (primary secondary : list Broker) :
  ∃ added,
    mergeBrokers primary secondary = primary ++ added ∧
    added `sublist_of` secondary ∧
    (∀ b, b ∈ added → NodeID b ∉ map NodeID primary) ∧
    NoDup (map NodeID added) ∧
    (∀ n, n ∈ map NodeID (mergeBrokers primary secondary) ↔
          n ∈ map NodeID primary ∨ n ∈ map NodeID secondary) ∧
    (NoDup (map NodeID primary) → NoDup (map NodeID (mergeBrokers primary secondary))).
Proof.
  exists (fresh_entries NodeID (keys NodeID primary) secondary). unfold mergeBrokers.
  split_and!.
  - apply merge_keyed_eq.
  - apply fresh_entries_sub.
  - intros b Hb%fresh_entries_fresh. unfold keys in Hb. by rewrite elem_of_list_to_set in Hb.
  - apply fresh_entries_nodup.
  - intros n. pose proof (merge_keyed_keys NodeID primary secondary) as Hk.
    rewrite set_eq in Hk. specialize (Hk n). unfold keys in Hk.
    by rewrite elem_of_union, !elem_of_list_to_set in Hk.
  - apply merge_keyed_nodup.
Qed.

(** No pair of upstream answers can crash the synthesis. *)
Theorem SynthesizeMetadataResponse_safe prim sec h p v :
  safe (SynthesizeMetadataResponse prim sec h p v).
Proof.
  unfold SynthesizeMetadataResponse. case_if; [done|]. bool_to_prop.
  destruct (parseResponseFrame prim v) as [[r c]| |] eqn:Hr; [|done|];
    [|pose proof (safe_parseResponseFrame prim v) as Hs; by rewrite Hr in Hs].
  destruct (parseTopicArray (mr_bodyAfterBrokers r) v) as [[pts ib]| |] eqn:Ht;
    bind_simpl; rewrite Ht; [|done|];
    [|pose proof (safe_parseTopicArray (mr_bodyAfterBrokers r) v) as Hs; by rewrite Ht in Hs].
  pose proof (parseResponseFrame_valid _ _ _ _ Hr) as (_ & _ & ->).
  pose proof (SynthesizeMetadataResponse_eq prim sec h p v r pts ib Hr Ht ltac:(done)) as Heq.
  destruct (secondary_view v sec). unfold SynthesizeMetadataResponse in Heq.
  rewrite (proj2 (Z.ltb_ge _ _)), Hr in Heq by done. bind_simpl in Heq.
  rewrite Ht in Heq. bind_simpl in Heq. bind_simpl. rewrite Heq. by case_if.
Qed.

Lemma SynthesizeMetadataResponse_merges_witness :
  ∃ out r' ib, SynthesizeMetadataResponse sample_primary (Some sample_secondary) "proxy" 9094 0
              = Ok out ∧
    parseResponseFrame out 0 = Ok (r', 9) ∧
    map NodeID (mr_Brokers r') = [1; 2] ∧ map Host (mr_Brokers r') = ["proxy"; "proxy"]%string ∧
    parseTopicArray (mr_bodyAfterBrokers r') 0 =
      Ok ([sample_topic "t" 0; sample_topic "u" 0; sample_topic "w" 0], ib).
Proof.
  destruct (SynthesizeMetadataResponse sample_primary (Some sample_secondary) "proxy" 9094 0)
    as [out| |] eqn:E; [|vm_compute in E; discriminate E..].
  destruct (SynthesizeMetadataResponse_merges sample_primary (Some sample_secondary)
              "proxy" 9094 0 out) as (r & pts & ib & r' & Hr & Ht & Hr' & _ & Hb & Hts).
  - unfold in_int32; lia.
  - exact E.
  - exists out, r', ib. vm_compute in Hr. injection Hr as <-. vm_compute in Ht. injection Ht as <- <-.
    split; [reflexivity|]. split; [exact Hr'|]. rewrite Hb, Hts. vm_compute. auto.
Defined.
