(* ===== verification/Config.v ===== *)
(** * Configuration ([internal/config])

    The configuration tree, its defaults and validation, the atomic reload,
    the diff between two configurations, and the debouncing of file events.
    The YAML decoder, the file system and the fsnotify watcher are parameters.

    A Go map is a [gmap]; where a loop over it can return early, the iteration
    order is a list argument, a permutation of the map's entries. *)

From Stdlib Require Import Sorting.Sorted.
From S2P Require Import Prelude.

(** ** Constants *)

Definition ModeActivePassive : string := "active_passive".
Definition ModeLoadBalance : string := "load_balance".
Definition ModeSingle : string := "single".

Definition ActivePrimary : string := "primary".
Definition ActiveSecondary : string := "secondary".

Definition defaultBindAddress : string := "0.0.0.0".
Definition defaultMaxConnectionsPerBroker : Z := 50.
Definition defaultIdleTimeout : duration := 30 * second.
Definition defaultKeepAliveInterval : duration := 30 * second.
Definition DefaultFailureThreshold : Z := 3.
Definition DefaultRecoveryThreshold : Z := 2.
Definition defaultRecoveryMinUptime : duration := 120 * second.

(** ** The tree *)

Record ConnectionPoolConfig := {
  cp_MaxConnectionsPerBroker : Z;
  cp_IdleTimeout : duration;
  cp_KeepAliveInterval : duration
}.

Record ProxyConfig := {
  px_BindAddress : string;
  px_AdvertiseHost : string;
  px_ConnectionPool : ConnectionPoolConfig;
  px_MetricsPort : Z
}.

Record ClusterEndpoint := { ep_Bootstrap : string; ep_Weight : Z }.

Record HealthCheckConfig := {
  hc_Enabled : bool;
  hc_Interval : duration;
  hc_FailureThreshold : Z;
  hc_RecoveryThreshold : Z;
  hc_RecoveryMinUptime : duration;
  hc_MinTimeBetweenFailovers : duration;
  hc_AutoFailover : bool;
  hc_AutoFailback : bool;
  hc_AutoRebalance : bool;
  hc_RequireTargetHealthy : bool;
  hc_CircuitBreakerMaxFailovers : Z;
  hc_CircuitBreakerWindow : duration;
  hc_SaslUsername : string;
  hc_SaslPassword : string
}.

Record ClusterConfig := {
  cl_Port : Z;
  cl_Mode : string;
  cl_Active : string;
  cl_Primary : ClusterEndpoint;
  cl_Secondary : ClusterEndpoint;
  cl_HealthCheck : HealthCheckConfig
}.

Record Config := { cfg_Proxy : ProxyConfig; cfg_Clusters : gmap string ClusterConfig }.

(** The Go zero values, which a map lookup returns for a missing key. *)
Definition zero_HealthCheckConfig : HealthCheckConfig :=
  {| hc_Enabled := false; hc_Interval := 0; hc_FailureThreshold := 0;
     hc_RecoveryThreshold := 0; hc_RecoveryMinUptime := 0; hc_MinTimeBetweenFailovers := 0;
     hc_AutoFailover := false; hc_AutoFailback := false; hc_AutoRebalance := false;
     hc_RequireTargetHealthy := false; hc_CircuitBreakerMaxFailovers := 0;
     hc_CircuitBreakerWindow := 0; hc_SaslUsername := ""; hc_SaslPassword := "" |}.

Definition zero_ClusterConfig : ClusterConfig :=
  {| cl_Port := 0; cl_Mode := ""; cl_Active := "";
     cl_Primary := {| ep_Bootstrap := ""; ep_Weight := 0 |};
     cl_Secondary := {| ep_Bootstrap := ""; ep_Weight := 0 |};
     cl_HealthCheck := zero_HealthCheckConfig |}.

Definition ResolvedAdvertiseHost (p : ProxyConfig) : string :=
  if negb (String.eqb (px_AdvertiseHost p) "") then px_AdvertiseHost p else "localhost".

(** ** Validation *)

(** [nil] is [None]. *)
Definition ClusterConfig_Validate (c : ClusterConfig) : option error :=
  if String.eqb (cl_Mode c) "" then Some (Errorf "mode is required")
  else if String.eqb (cl_Mode c) ModeActivePassive then
    if String.eqb (ep_Bootstrap (cl_Primary c)) "" then
      Some (Errorf "primary bootstrap is required for active_passive mode")
    else if String.eqb (ep_Bootstrap (cl_Secondary c)) "" then
      Some (Errorf "secondary bootstrap is required for active_passive mode")
    else if negb (String.eqb (cl_Active c) ActivePrimary)
            && negb (String.eqb (cl_Active c) ActiveSecondary) then
      Some (Errorf "active must be primary or secondary for active_passive mode")
    else None
  else if String.eqb (cl_Mode c) ModeLoadBalance then
    if String.eqb (ep_Bootstrap (cl_Primary c)) "" then
      Some (Errorf "primary.bootstrap is required for load_balance mode")
    else if String.eqb (ep_Bootstrap (cl_Secondary c)) "" then
      Some (Errorf "secondary.bootstrap is required for load_balance mode")
    else if negb (int64 (ep_Weight (cl_Primary c) + ep_Weight (cl_Secondary c)) =? 100) then
      Some (Errorf "load_balance weights must sum to 100")
    else None
  else if String.eqb (cl_Mode c) ModeSingle then
    if String.eqb (ep_Bootstrap (cl_Primary c)) "" then
      Some (Errorf "primary bootstrap is required for single mode")
    else None
  else Some (Errorf "unknown mode").

(** The loop of [Config.Validate] over the clusters, in iteration order. *)
Fixpoint validate_clusters (seenPorts : gmap Z string) (clusters : list (string * ClusterConfig))
    : option error :=
  match clusters with
  | [] => None
  | (name, cluster) :: clusters =>
      if cl_Port cluster <=? 0 then Some (Errorf "port is required")
      else match seenPorts !! cl_Port cluster with
      | Some _ => Some (Errorf "port is used by both")
      | None =>
          let seenPorts := <[cl_Port cluster := name]> seenPorts in
          match ClusterConfig_Validate cluster with
          | Some err => Some (Wrapf "cluster" err)
          | None => validate_clusters seenPorts clusters
          end
      end
  end.

Definition with_BindAddress (a : string) (c : Config) : Config :=
  {| cfg_Proxy :=
       {| px_BindAddress := a; px_AdvertiseHost := px_AdvertiseHost (cfg_Proxy c);
          px_ConnectionPool := px_ConnectionPool (cfg_Proxy c);
          px_MetricsPort := px_MetricsPort (cfg_Proxy c) |};
     cfg_Clusters := cfg_Clusters c |}.

(** [Validate] also fills in the bind address, so it returns the new
    configuration with the error. *)
Definition Config_Validate (order : list (string * ClusterConfig)) (c : Config)
    : Config * option error :=
  let c := if String.eqb (px_BindAddress (cfg_Proxy c)) "" then with_BindAddress "0.0.0.0" c
           else c in
  if Nat.eqb (size (cfg_Clusters c)) 0
  then (c, Some (Errorf "at least one cluster is required"))
  else (c, validate_clusters ∅ order).

(** ** Defaults *)

Definition default_Z (z d : Z) : Z := if z =? 0 then d else z.

Definition default_health (hc : HealthCheckConfig) : HealthCheckConfig :=
  {| hc_Enabled := hc_Enabled hc; hc_Interval := hc_Interval hc;
     hc_FailureThreshold := default_Z (hc_FailureThreshold hc) DefaultFailureThreshold;
     hc_RecoveryThreshold := default_Z (hc_RecoveryThreshold hc) DefaultRecoveryThreshold;
     hc_RecoveryMinUptime := default_Z (hc_RecoveryMinUptime hc) defaultRecoveryMinUptime;
     hc_MinTimeBetweenFailovers := hc_MinTimeBetweenFailovers hc;
     hc_AutoFailover := hc_AutoFailover hc; hc_AutoFailback := hc_AutoFailback hc;
     hc_AutoRebalance := hc_AutoRebalance hc;
     hc_RequireTargetHealthy := hc_RequireTargetHealthy hc;
     hc_CircuitBreakerMaxFailovers := hc_CircuitBreakerMaxFailovers hc;
     hc_CircuitBreakerWindow := hc_CircuitBreakerWindow hc;
     hc_SaslUsername := hc_SaslUsername hc; hc_SaslPassword := hc_SaslPassword hc |}.

Definition default_cluster (c : ClusterConfig) : ClusterConfig :=
  {| cl_Port := cl_Port c; cl_Mode := cl_Mode c; cl_Active := cl_Active c;
     cl_Primary := cl_Primary c; cl_Secondary := cl_Secondary c;
     cl_HealthCheck := default_health (cl_HealthCheck c) |}.

Definition applyDefaults (c : Config) : Config :=
  let p := cfg_Proxy c in
  let pool := px_ConnectionPool p in
  {| cfg_Proxy :=
       {| px_BindAddress :=
            if String.eqb (px_BindAddress p) "" then defaultBindAddress else px_BindAddress p;
          px_AdvertiseHost := px_AdvertiseHost p;
          px_ConnectionPool :=
            {| cp_MaxConnectionsPerBroker :=
                 default_Z (cp_MaxConnectionsPerBroker pool) defaultMaxConnectionsPerBroker;
               cp_IdleTimeout := default_Z (cp_IdleTimeout pool) defaultIdleTimeout;
               cp_KeepAliveInterval :=
                 default_Z (cp_KeepAliveInterval pool) defaultKeepAliveInterval |};
          px_MetricsPort := px_MetricsPort p |};
     cfg_Clusters := default_cluster <$> cfg_Clusters c |}.

Definition BuildPortMap (order : list (string * ClusterConfig)) : gmap Z string :=
  foldl (λ m '(name, cluster), <[cl_Port cluster := name]> m) ∅ order.

(** ** Loading and reloading *)

Section reload.
(** The file system and the YAML decoder. *)
Context {File : Type} (ReadFile : string → res File) (Unmarshal : File → res Config).
(** The iteration order Go picks for a map. *)
Context (range : gmap string ClusterConfig → list (string * ClusterConfig)).
(** What the registered callbacks act on. *)
Context {W : Type}.

Definition LoadConfig (path : string) : res Config :=
  data ← wrap_err "reading config file" (ReadFile path);
  cfg ← wrap_err "parsing config file" (Unmarshal data);
  let cfg := applyDefaults cfg in
  match Config_Validate (range (cfg_Clusters cfg)) cfg with
  | (_, Some err) => Err (Wrapf "validating config" err)
  | (cfg, None) => Ok cfg
  end.

Record Reloader := {
  rl_config : Config;
  rl_path : string;
  rl_onReload : list (Config → Config → W → W)
}.

Definition NewReloader (path : string) : res Reloader :=
  cfg ← wrap_err "initial config load" (LoadConfig path);
  Ok {| rl_config := cfg; rl_path := path; rl_onReload := [] |}.

Definition OnReload (fn : Config → Config → W → W) (r : Reloader) : Reloader :=
  {| rl_config := rl_config r; rl_path := rl_path r; rl_onReload := rl_onReload r ++ [fn] |}.

(** The error, the new reloader and the world after the callbacks. *)
Definition Reload (r : Reloader) (w : W) : res (option error * Reloader * W) :=
  match LoadConfig (rl_path r) with
  | Ok newCfg =>
      let oldCfg := rl_config r in
      let r := {| rl_config := newCfg; rl_path := rl_path r; rl_onReload := rl_onReload r |} in
      Ok (None, r, foldl (λ w fn, fn oldCfg newCfg w) w (rl_onReload r))
  | Err err => Ok (Some (Wrapf "reload config" err), r, w)
  | Panic => Panic
  end.
End reload.

(** ** Diffing *)

Record ClusterChange := {
  ch_Name : string;
  ch_ActiveChanged : bool;
  ch_BootstrapChanged : gset string;
  ch_ModeChanged : bool
}.

Definition bootstrap_diff (old new : ClusterConfig) : gset string :=
  (if negb (String.eqb (ep_Bootstrap (cl_Primary old)) (ep_Bootstrap (cl_Primary new)))
   then {["primary"%string]} else ∅)
  ∪ (if negb (String.eqb (ep_Bootstrap (cl_Secondary old)) (ep_Bootstrap (cl_Secondary new)))
     then {["secondary"%string]} else ∅).

(** One iteration of the first loop of [DiffClusters]. *)
Definition diff_new (oldClusters : gmap string ClusterConfig) (name : string)
    (newCluster : ClusterConfig) : list ClusterChange :=
  match oldClusters !! name with
  | None =>
      [ {| ch_Name := name; ch_ActiveChanged := true;
           ch_BootstrapChanged := {["primary"%string; "secondary"%string]};
           ch_ModeChanged := true |} ]
  | Some oldCluster =>
      let bc := bootstrap_diff oldCluster newCluster in
      let changed := negb (String.eqb (cl_Active oldCluster) (cl_Active newCluster))
                     || negb (String.eqb (cl_Mode oldCluster) (cl_Mode newCluster))
                     || negb (Nat.eqb (size bc) 0) in
      if changed then
        [ {| ch_Name := name;
             ch_ActiveChanged := negb (String.eqb (cl_Active oldCluster) (cl_Active newCluster));
             ch_BootstrapChanged := bc;
             ch_ModeChanged := negb (String.eqb (cl_Mode oldCluster) (cl_Mode newCluster)) |} ]
      else []
  end.

(** One iteration of the second loop: clusters that were removed. *)
Definition diff_removed (newClusters : gmap string ClusterConfig) (name : string)
    : list ClusterChange :=
  match newClusters !! name with
  | Some _ => []
  | None => [ {| ch_Name := name; ch_ActiveChanged := true;
                 ch_BootstrapChanged := ∅; ch_ModeChanged := false |} ]
  end.

Definition DiffClusters (newOrder oldOrder : list (string * ClusterConfig))
    (oldCfg newCfg : Config) : list ClusterChange :=
  concat (map (λ '(name, c), diff_new (cfg_Clusters oldCfg) name c) newOrder)
  ++ concat (map (λ '(name, _), diff_removed (cfg_Clusters newCfg) name) oldOrder).

(** ** File events *)

(** [os.PathSeparator]. *)
Definition PathSeparator : Ascii.ascii := Ascii.ascii_of_nat 47.

(** [dir[:i]] for the greatest [i] with [dir[i] == '/'], or ["."]: the loop
    scans backwards, [last_sep] forwards keeping the last hit. *)
Fixpoint last_sep (s : string) : option nat :=
  match s with
  | EmptyString => None
  | String c s =>
      match last_sep s with
      | Some i => Some (S i)
      | None => if Ascii.eqb c PathSeparator then Some O else None
      end
  end.

Definition parentDir (path : string) : string :=
  match last_sep path with
  | Some i => String.substring 0 i path
  | None => "."
  end.

(** An fsnotify event: its name and the operations it has. *)
Record Event := { ev_Name : string; ev_Write : bool; ev_Create : bool }.

Definition isRelevantEvent (event : Event) (configPath : string) : bool :=
  if negb (String.eqb (ev_Name event) configPath) then false
  else ev_Write event || ev_Create event.

(** The event loop of [Reloader.Watch]: its timer is the time at which the
    pending reload fires.  [watch_event] handles an event received at [now],
    [watch_due] lets a timer that has expired fire. *)
Definition debounce : duration := 200 * millisecond.

Definition watch_event (path : string) (now : time) (event : Event) (timer : option time)
    : option time :=
  if negb (isRelevantEvent event path) then timer
  else Some (now + debounce).

Definition watch_due (now : time) (timer : option time) : list time * option time :=
  match timer with
  | Some d => if d <=? now then ([d], None) else ([], Some d)
  | None => ([], None)
  end.

(** The reload times of a run: the events in time order, then quiet. *)
Fixpoint watch_run (path : string) (timer : option time) (events : list (time * Event))
    : list time :=
  match events with
  | [] => match timer with Some d => [d] | None => [] end
  | (now, event) :: events =>
      let '(fired, timer) := watch_due now timer in
      fired ++ watch_run path (watch_event path now event timer) events
  end.

(** ** What a valid configuration is *)

Definition valid_cluster (c : ClusterConfig) : Prop :=
  (cl_Mode c = ModeActivePassive ∧ ep_Bootstrap (cl_Primary c) ≠ ""%string ∧
   ep_Bootstrap (cl_Secondary c) ≠ ""%string ∧
   (cl_Active c = ActivePrimary ∨ cl_Active c = ActiveSecondary)) ∨
  (cl_Mode c = ModeLoadBalance ∧ ep_Bootstrap (cl_Primary c) ≠ ""%string ∧
   ep_Bootstrap (cl_Secondary c) ≠ ""%string ∧
   int64 (ep_Weight (cl_Primary c) + ep_Weight (cl_Secondary c)) = 100) ∨
  (cl_Mode c = ModeSingle ∧ ep_Bootstrap (cl_Primary c) ≠ ""%string).

Definition valid_config (c : Config) : Prop :=
  cfg_Clusters c ≠ ∅ ∧
  (∀ name cl, cfg_Clusters c !! name = Some cl → 0 < cl_Port cl ∧ valid_cluster cl) ∧
  (∀ n1 n2 c1 c2, cfg_Clusters c !! n1 = Some c1 → cfg_Clusters c !! n2 = Some c2 →
     cl_Port c1 = cl_Port c2 → n1 = n2).

(** Decide string comparisons by cases. *)
Ltac string_cases :=
  repeat match goal with
  | |- context [String.eqb ?a ?b] => destruct (String.eqb_spec a b); cbn [negb andb orb]
  end.

Lemma ClusterConfig_Validate_None c : ClusterConfig_Validate c = None ↔ valid_cluster c.
Proof.
  unfold ClusterConfig_Validate, valid_cluster, ModeActivePassive, ModeLoadBalance,
    ModeSingle. string_cases;
    try destruct (Z.eqb_spec (int64 (ep_Weight (cl_Primary c) + ep_Weight (cl_Secondary c))) 100);
    cbn [negb andb orb]; split; intros; try discriminate; try done;
    try tauto; repeat (destruct_or! || destruct_and!); congruence.
Qed.

Lemma validate_clusters_None seen l :
  validate_clusters seen l = None ↔
  Forall (λ '(_, c), 0 < cl_Port c ∧ valid_cluster c) l ∧
  NoDup (map (λ '(_, c), cl_Port c) l) ∧
  Forall (λ '(_, c), seen !! cl_Port c = None) l.
Proof.
  revert seen. induction l as [|[n c] l IH]; intros seen; cbn [validate_clusters map].
  { split; [|done]. intros _. split_and!; constructor. }
  rewrite !list.Forall_cons, list.NoDup_cons, <- ClusterConfig_Validate_None.
  destruct (Z.leb_spec (cl_Port c) 0); [split; [done|lia]|].
  destruct (seen !! cl_Port c) eqn:Hs; [split; [done|]; naive_solver|].
  destruct (ClusterConfig_Validate c) eqn:Hv; [split; [done|]; naive_solver|].
  rewrite IH. rewrite !list.Forall_forall.
  assert ((cl_Port c ∉ map (λ '(_, c0), cl_Port c0) l) ↔ ∀ x, x ∈ l → cl_Port (snd x) ≠ cl_Port c)
    as Hnot.
  { split.
    - intros Hn [n' c'] Hin Heq. apply Hn. apply list_elem_of_fmap.
      exists (n', c'). by rewrite <- Heq.
    - intros Hn ([n' c'] & Heq & Hin)%elem_of_map. by apply (Hn (n', c')). }
  rewrite Hnot. split.
  - intros (? & ? & Hseen). split_and!; try done.
    + intros [n' c'] Hin Heq. specialize (Hseen _ Hin). cbn in Hseen, Heq.
      rewrite Heq, lookup_insert in Hseen. case_decide; [discriminate Hseen|done].
    + intros [n' c'] Hin. specialize (Hseen _ Hin). cbn in Hseen.
      by apply lookup_insert_None in Hseen as [? _].
  - intros ((? & ?) & (Hne & ?) & (_ & Hseen)). split_and!; try done.
    intros [n' c'] Hin. cbn. apply lookup_insert_None. split; [apply (Hseen _ Hin)|].
    intros ?. by apply (Hne _ Hin).
Qed.


(** [order] lists the entries of [m] in some order, as a Go [range] does. *)
Definition ranges (m : gmap string ClusterConfig) (order : list (string * ClusterConfig)) : Prop :=
  order ≡ₚ map_to_list m.

Lemma ranges_elem m order n c : ranges m order → (n, c) ∈ order ↔ m !! n = Some c.
Proof. intros ->. apply elem_of_map_to_list. Qed.

Lemma ranges_keys m order : ranges m order → NoDup (map fst order).
Proof. intros Hr. pose proof (NoDup_fst_map_to_list m) as H. by rewrite <- Hr in H. Qed.

Lemma ranges_ports c order :
  ranges (cfg_Clusters c) order →
  (NoDup (map (λ '(_, c), cl_Port c) order) ↔
   ∀ n1 n2 c1 c2, cfg_Clusters c !! n1 = Some c1 → cfg_Clusters c !! n2 = Some c2 →
     cl_Port c1 = cl_Port c2 → n1 = n2).
Proof.
  intros Hr. split.
  - intros Hnd n1 n2 c1 c2 H1 H2 Heq.
    apply (ranges_elem _ _ _ _ Hr) in H1, H2.
    by pose proof (NoDup_map_inj _ _ _ _ Hnd H1 H2 Heq) as [= -> _].
  - intros Hinj. apply NoDup_map_2.
    + intros [n1 c1] [n2 c2] H1 H2 Heq. apply (ranges_elem _ _ _ _ Hr) in H1, H2.
      pose proof (Hinj _ _ _ _ H1 H2 Heq) as ->. congruence.
    + rewrite Hr. apply NoDup_map_to_list.
Qed.

Lemma validate_clusters_valid c order :
  ranges (cfg_Clusters c) order →
  (cfg_Clusters c ≠ ∅ ∧ validate_clusters ∅ order = None) ↔ valid_config c.
Proof.
  intros Hr. unfold valid_config. rewrite validate_clusters_None, (ranges_ports _ _ Hr).
  rewrite !list.Forall_forall. split.
  - intros (? & Hv & ? & _). split_and!; [done| |done].
    intros n cl Hn. rewrite <- (ranges_elem _ _ _ _ Hr) in Hn. apply (Hv _ Hn).
  - intros (? & Hv & ?). split_and!; [done| |done|].
    + intros [n cl] Hin. rewrite (ranges_elem _ _ _ _ Hr) in Hin. by apply (Hv n).
    + intros [n cl] _. apply lookup_empty.
Qed.

Lemma Config_Validate_None c order :
  ranges (cfg_Clusters c) order →
  snd (Config_Validate order c) = None ↔ valid_config c.
Proof.
  intros Hr. rewrite <- (validate_clusters_valid c order Hr). unfold Config_Validate.
  assert (cfg_Clusters (if String.eqb (px_BindAddress (cfg_Proxy c)) ""
                        then with_BindAddress "0.0.0.0" c else c) = cfg_Clusters c) as ->
    by (by destruct (String.eqb _ _)).
  destruct (Nat.eqb_spec (size (cfg_Clusters c)) 0) as [Hs|Hs]; cbn [snd].
  - apply map_size_empty_inv in Hs. split; [done|by intros [? _]].
  - assert (cfg_Clusters c ≠ ∅) by (intros He; apply Hs; rewrite He; apply map_size_empty).
    tauto.
Qed.

Lemma BuildPortMap_lookup order p n :
  NoDup (map (λ '(_, c), cl_Port c) order) →
  BuildPortMap order !! p = Some n ↔ ∃ c, (n, c) ∈ order ∧ cl_Port c = p.
Proof.
  unfold BuildPortMap.
  assert (∀ m : gmap Z string, NoDup (map (λ '(_, c), cl_Port c) order) →
    foldl (λ m '(name, cluster), <[cl_Port cluster:=name]> m) m order !! p = Some n ↔
    (∃ c, (n, c) ∈ order ∧ cl_Port c = p) ∨
    (m !! p = Some n ∧ p ∉ map (λ '(_, c), cl_Port c) order)) as Hgen.
  { induction order as [|[n' c'] order IH]; intros m; cbn [map foldl].
    - intros _. split; [intros ?; right; split; [done|apply not_elem_of_nil]|].
      intros [(? & ?%not_elem_of_nil & _)|[? _]]; done.
    - intros [Hn Hd]%list.NoDup_cons. rewrite IH by done.
      assert (∀ c, (n, c) ∈ order → cl_Port c ∈ map (λ '(_, c), cl_Port c) order) as Hin
        by (intros c Hc; apply list_elem_of_fmap; by exists (n, c)).
      rewrite lookup_insert, list.not_elem_of_cons. setoid_rewrite list.elem_of_cons.
      split.
      + intros [(c & ? & ?)|[Hm Hp]]; [left; eauto|]. case_decide; [left|right; eauto].
        exists c'. simplify_eq. eauto.
      + intros [(c & [?|?] & ?)|[Hm [Hne Hp]]]; [|left; eauto|].
        * simplify_eq. right. rewrite decide_True by done. done.
        * right. rewrite decide_False by done. done. }
  intros Hd. rewrite (Hgen ∅ Hd), lookup_empty. naive_solver.
Qed.

(** ** Diffing: what matters to a running connection *)

(** The fields whose change concerns the connections of a cluster. *)
Definition routing_view (c : ClusterConfig) : string * string * string * string :=
  (cl_Active c, cl_Mode c, ep_Bootstrap (cl_Primary c), ep_Bootstrap (cl_Secondary c)).

Lemma diff_new_name old n c :
  map ch_Name (diff_new old n c) =
  if decide (Some (routing_view c) = routing_view <$> old !! n) then [] else [n].
Proof.
  unfold diff_new. destruct (old !! n) as [o|]; cbn [fmap option_fmap option_map]; [|done].
  unfold bootstrap_diff, routing_view.
  string_cases; cbn [map]; case_decide; try done; try congruence.
Qed.

Lemma diff_removed_name new n :
  map ch_Name (diff_removed new n) = if decide (new !! n = None) then [n] else [].
Proof. unfold diff_removed. by destruct (new !! n). Qed.

Lemma elem_of_if_singleton {A} (P : Prop) `{Decision P} (x y : A) :
  x ∈ (if decide P then [] else [y]) ↔ ¬ P ∧ x = y.
Proof. case_decide; [|rewrite list_elem_of_singleton]; split; try set_solver; naive_solver. Qed.

Lemma name_in_new old order name :
  name ∈ map ch_Name (concat (map (λ '(n, c), diff_new old n c) order)) ↔
  ∃ c, (name, c) ∈ order ∧ Some (routing_view c) ≠ routing_view <$> old !! name.
Proof.
  split.
  - intros (ch & -> & ([n c] & Hin & Hch)%elem_of_concat_map)%elem_of_map.
    assert (ch_Name ch ∈ map ch_Name (diff_new old n c)) as Hn by (apply list_elem_of_fmap; eauto).
    rewrite diff_new_name in Hn. apply elem_of_if_singleton in Hn as [? ->]. eauto.
  - intros (c & Hin & Hne).
    assert (name ∈ map ch_Name (diff_new old name c)) as Hn
      by (rewrite diff_new_name; by apply elem_of_if_singleton).
    apply elem_of_map in Hn as (ch & -> & Hch). apply list_elem_of_fmap. exists ch.
    split; [done|]. apply elem_of_concat_map. eauto.
Qed.

Lemma name_in_removed (new : gmap string ClusterConfig) (order : list (string * ClusterConfig)) name :
  name ∈ map ch_Name (concat (map (λ '(n, _), diff_removed new n) order)) ↔
  (∃ c, (name, c) ∈ order) ∧ new !! name = None.
Proof.
  split.
  - intros (ch & -> & ([n c] & Hin & Hch)%elem_of_concat_map)%elem_of_map.
    assert (ch_Name ch ∈ map ch_Name (diff_removed new n)) as Hn
      by (apply list_elem_of_fmap; eauto).
    rewrite diff_removed_name in Hn. case_decide; [|by apply not_elem_of_nil in Hn].
    apply list_elem_of_singleton in Hn as ->. eauto.
  - intros [[c Hin] Hne].
    assert (name ∈ map ch_Name (diff_removed new name)) as Hn
      by (rewrite diff_removed_name, decide_True by done; by apply list_elem_of_singleton).
    apply elem_of_map in Hn as (ch & -> & Hch). apply list_elem_of_fmap. exists ch.
    split; [done|]. apply elem_of_concat_map. by exists (ch_Name ch, c).
Qed.

(** What each reported change says, in terms of the two maps. *)
Definition change_matches (old new : gmap string ClusterConfig) (ch : ClusterChange) : Prop :=
  (ch_ActiveChanged ch = true ↔ cl_Active <$> old !! ch_Name ch ≠ cl_Active <$> new !! ch_Name ch) ∧
  (new !! ch_Name ch ≠ None →
    (ch_ModeChanged ch = true ↔ cl_Mode <$> old !! ch_Name ch ≠ cl_Mode <$> new !! ch_Name ch) ∧
    ("primary"%string ∈ ch_BootstrapChanged ch ↔
       ep_Bootstrap ∘ cl_Primary <$> old !! ch_Name ch
       ≠ ep_Bootstrap ∘ cl_Primary <$> new !! ch_Name ch) ∧
    ("secondary"%string ∈ ch_BootstrapChanged ch ↔
       ep_Bootstrap ∘ cl_Secondary <$> old !! ch_Name ch
       ≠ ep_Bootstrap ∘ cl_Secondary <$> new !! ch_Name ch)).

Lemma neqb_Some a b : negb (String.eqb a b) = true ↔ Some a ≠ Some b.
Proof. string_cases; split; congruence. Qed.

Lemma elem_of_bootstrap_diff o c x :
  x ∈ bootstrap_diff o c ↔
  (x = "primary"%string ∧
     Some (ep_Bootstrap (cl_Primary o)) ≠ Some (ep_Bootstrap (cl_Primary c))) ∨
  (x = "secondary"%string ∧
     Some (ep_Bootstrap (cl_Secondary o)) ≠ Some (ep_Bootstrap (cl_Secondary c))).
Proof.
  unfold bootstrap_diff. rewrite <- !neqb_Some, elem_of_union.
  generalize (negb (ep_Bootstrap (cl_Primary o) =? ep_Bootstrap (cl_Primary c))%string).
  generalize (negb (ep_Bootstrap (cl_Secondary o) =? ep_Bootstrap (cl_Secondary c))%string).
  intros [] []; set_solver.
Qed.

Lemma diff_new_matches old new n c ch :
  new !! n = Some c → ch ∈ diff_new old n c → change_matches old new ch.
Proof.
  unfold diff_new, change_matches. intros Hn. destruct (old !! n) as [o|] eqn:Ho.
  - destruct (_ || _); [|intros Hin; by apply not_elem_of_nil in Hin].
    intros ->%list_elem_of_singleton. cbn [ch_Name ch_ActiveChanged
      ch_BootstrapChanged ch_ModeChanged]. rewrite Hn, Ho.
    cbn [fmap option_fmap option_map]. rewrite !neqb_Some, !elem_of_bootstrap_diff.
    unfold compose. split; [done|]. intros _. split; [done|]. split; split.
    + by intros [[_ ?]|[? _]].
    + by left.
    + by intros [[? _]|[_ ?]].
    + by right.
  - intros ->%list_elem_of_singleton. cbn [ch_Name ch_ActiveChanged
      ch_BootstrapChanged ch_ModeChanged]. rewrite Hn, Ho. split; [done|]. intros _.
    split_and!; split; try done; set_solver.
Qed.

Lemma diff_removed_matches old new n c ch :
  old !! n = Some c → ch ∈ diff_removed new n → change_matches old new ch.
Proof.
  unfold diff_removed. intros Ho. destruct (new !! n) as [o|] eqn:Hn;
    [intros Hin; by apply not_elem_of_nil in Hin|].
  intros ->%list_elem_of_singleton. unfold change_matches; cbn [ch_Name ch_ActiveChanged].
  by rewrite Hn, Ho.
Qed.

(** ** File events *)

Lemma last_sep_split s i :
  last_sep s = Some i →
  String.append (String.substring 0 i s)
    (String.append "/" (String.substring (S i) (String.length s - S i) s)) = s ∧
  last_sep (String.substring (S i) (String.length s - S i) s) = None.
Proof.
  revert i. induction s as [|c s IH]; intros i; [done|]. cbn [last_sep].
  assert (∀ t, String.substring 0 (String.length t) t = t) as Hall
    by (intros t; induction t; simpl; congruence).
  destruct (last_sep s) as [j|] eqn:E.
  - intros [= <-]. destruct (IH _ eq_refl) as [H1 H2]. split; [|exact H2].
    cbn [String.substring String.length String.append]. rewrite Nat.sub_succ.
    exact (f_equal (String c) H1).
  - destruct (Ascii.eqb_spec c PathSeparator) as [->|]; [|done]. intros [= <-].
    cbn [String.substring String.length]. rewrite Nat.sub_succ, Nat.sub_0_r, Hall.
    split; [done|exact E].
Qed.

(** [filepath.Base] of a clean path. *)
Definition base (path : string) : string :=
  match last_sep path with
  | Some i => String.substring (S i) (String.length path - S i) path
  | None => path
  end.

(** The times of the relevant events. *)
Definition relevant_times (path : string) (events : list (time * Event)) : list time :=
  map fst (filter (λ te, isRelevantEvent (snd te) path = true) events).

(** Reference: a reload [debounce] after every relevant event that no other
    relevant event follows within [debounce]. *)
Fixpoint bursts (timer : option time) (ts : list time) : list time :=
  match ts with
  | [] => option_list timer
  | t :: ts =>
      match timer with
      | Some d => if decide (d ≤ t) then d :: bursts (Some (t + debounce)) ts
                  else bursts (Some (t + debounce)) ts
      | None => bursts (Some (t + debounce)) ts
      end
  end.

Lemma bursts_due d ts :
  (∀ t, t ∈ ts → d ≤ t) → d :: bursts None ts = bursts (Some d) ts.
Proof.
  destruct ts as [|t ts]; intros Hle; cbn [bursts]; [done|].
  by rewrite decide_True by (apply Hle; by left).
Qed.

Lemma watch_run_bursts path timer events :
  StronglySorted Z.le (map fst events) →
  watch_run path timer events = bursts timer (relevant_times path events).
Proof.
  revert timer. induction events as [|[now e] events IH]; intros timer Hs; [by destruct timer|].
  cbn [map fst] in Hs. apply StronglySorted_inv in Hs as [Hs Hle].
  assert (∀ t, t ∈ relevant_times path events → now ≤ t) as Hlater.
  { intros t (te & -> & Hin)%elem_of_map. apply list_elem_of_filter in Hin as [_ Hin].
    rewrite list.Forall_forall in Hle. apply Hle, list_elem_of_fmap. eauto. }
  cbn [watch_run]. unfold watch_event, watch_due, relevant_times in *. rewrite filter_cons. cbn [snd].
  destruct (isRelevantEvent e path) eqn:Hr; cbn [negb].
  - rewrite decide_True by done. cbn [map fst bursts].
    destruct timer as [d|]; [|cbn [app]; by rewrite IH].
    destruct (Z.leb_spec d now); [rewrite decide_True by done|rewrite decide_False by lia];
      cbn [app]; by rewrite IH.
  - rewrite decide_False by done.
    destruct timer as [d|]; [|cbn [app]; by rewrite IH].
    destruct (Z.leb_spec d now); cbn [app]; rewrite IH by done; [|done].
    apply bursts_due. intros t Ht%Hlater. lia.
Qed.

(** The timer armed by [t] fires unless a later event comes first. *)
Lemma burst_head t ts d :
  StronglySorted Z.le (t :: ts) →
  (d = t + debounce ∧ (∀ t', t' ∈ ts → d ≤ t') ∨
   (∃ t1, t1 ∈ ts ∧ d = t1 + debounce ∧ ∀ t', t' ∈ ts → t' ≤ t1 ∨ d ≤ t')) ↔
  (∃ t1, t1 ∈ t :: ts ∧ d = t1 + debounce ∧ ∀ t', t' ∈ t :: ts → t' ≤ t1 ∨ d ≤ t').
Proof.
  intros [_ Hle]%StronglySorted_inv. rewrite list.Forall_forall in Hle.
  setoid_rewrite list.elem_of_cons. split.
  - intros [[-> Hl]|(t1 & Hin & -> & Hl)].
    + exists t. split_and!; [by left|done|]. intros t' [->|Hin]; [by left|right; auto].
    + exists t1. split_and!; [by right|done|]. intros t' [->|?]; [left; auto|auto].
  - intros (t1 & [->|Hin] & -> & Hl); [|right; exists t1; auto].
    destruct (decide (Forall (λ t', t + debounce ≤ t') ts)) as [Hall|Hex].
    + left. split; [done|]. by apply list.Forall_forall.
    + right. apply not_Forall_Exists, list.Exists_exists in Hex as (t' & Hin & Hlt); [|apply _].
      assert (t' = t) as -> by (specialize (Hle t' Hin); destruct (Hl t' (or_intror Hin)); simpl in *; lia).
      exists t. auto.
Qed.

Lemma bursts_spec timer ts d :
  StronglySorted Z.le ts →
  d ∈ bursts timer ts ↔
  (timer = Some d ∧ ∀ t, t ∈ ts → d ≤ t) ∨
  (∃ t, t ∈ ts ∧ d = t + debounce ∧ ∀ t', t' ∈ ts → t' ≤ t ∨ d ≤ t').
Proof.
  revert timer. induction ts as [|t ts IH]; intros timer Hs.
  - cbn [bursts]. destruct timer as [d0|]; cbn [option_list option_rect].
    + rewrite list_elem_of_singleton. split; [intros ->; left; by split; [|set_solver]|].
      intros [[[= ->] _]|(t & Hin & _)]; [done|set_solver].
    + split; [intros ?; set_solver|]. intros [[? _]|(t & ? & _)]; [done|set_solver].
  - rewrite <- burst_head by done. pose proof Hs as [Hts Hle]%StronglySorted_inv.
    rewrite list.Forall_forall in Hle. cbn [bursts].
    assert (Hrec : d ∈ bursts (Some (t + debounce)) ts ↔
      (d = t + debounce ∧ ∀ t', t' ∈ ts → d ≤ t') ∨
      (∃ t1, t1 ∈ ts ∧ d = t1 + debounce ∧ ∀ t', t' ∈ ts → t' ≤ t1 ∨ d ≤ t'))
      by (rewrite IH by done; naive_solver).
    destruct timer as [d0|]; [case_decide|]; rewrite ?list.elem_of_cons, Hrec.
    + split; [|naive_solver]. intros [->|?]; [left|by right].
      split; [done|]. intros t' [->|Hin]%list.elem_of_cons; [done|specialize (Hle _ Hin); lia].
    + split; [by right|]. intros [[[= ->] Hl]|?]; [|done].
      specialize (Hl t ltac:(by left)). lia.
    + naive_solver.
Qed.

Lemma relevant_times_sorted path events :
  StronglySorted Z.le (map fst events) → StronglySorted Z.le (relevant_times path events).
Proof.
  unfold relevant_times. induction events as [|e events IH]; [done|]. cbn [map].
  intros [Hs Hle]%StronglySorted_inv. rewrite filter_cons. case_decide; [|auto].
  cbn [map]. constructor; [auto|]. rewrite list.Forall_forall in Hle |- *.
  intros t (te & -> & [_ Hin]%list_elem_of_filter)%elem_of_map.
  apply Hle, list_elem_of_fmap. eauto.
Qed.

(** ** Loading *)

Section reload_spec.
Context {File : Type} (ReadFile : string → res File) (Unmarshal : File → res Config).
Context (range : gmap string ClusterConfig → list (string * ClusterConfig)).
Context (Hrange : ∀ m, ranges m (range m)).

Lemma LoadConfig_Ok path c :
  LoadConfig ReadFile Unmarshal range path = Ok c ↔
  ∃ data raw, ReadFile path = Ok data ∧ Unmarshal data = Ok raw ∧
              c = applyDefaults raw ∧ valid_config c.
Proof.
  unfold LoadConfig. split.
  - intros (data & Hd%wrap_err_Ok & H)%bind_Ok_inv.
    apply bind_Ok_inv in H as (raw & Hr%wrap_err_Ok & H).
    pose proof (Config_Validate_None (applyDefaults raw) _ (Hrange _)) as Hv.
    destruct (Config_Validate _ _) as [c' [e|]] eqn:E; simplify_eq. cbn [snd] in Hv.
    assert (c = applyDefaults raw) as ->; [|naive_solver].
    revert E. unfold Config_Validate, applyDefaults; cbn [cfg_Proxy px_BindAddress].
    unfold defaultBindAddress.
    destruct (String.eqb_spec (px_BindAddress (cfg_Proxy raw)) "") as [|Hne];
      cbn [String.eqb Ascii.eqb Bool.eqb];
      rewrite ?(proj2 (String.eqb_neq _ _) Hne); by case_if; intros; simplify_eq.
  - intros (data & raw & -> & Hr & -> & Hv). bind_simpl. rewrite Hr. bind_simpl.
    apply (Config_Validate_None (applyDefaults raw) _ (Hrange _)) in Hv as Hn.
    destruct (Config_Validate _ _) as [c' e] eqn:E. cbn [snd] in Hn. subst e.
    f_equal. revert E. unfold Config_Validate, applyDefaults; cbn [cfg_Proxy px_BindAddress].
    unfold defaultBindAddress.
    destruct (String.eqb_spec (px_BindAddress (cfg_Proxy raw)) "") as [|Hne];
      cbn [String.eqb Ascii.eqb Bool.eqb];
      rewrite ?(proj2 (String.eqb_neq _ _) Hne); by case_if; intros; simplify_eq.
Qed.
End reload_spec.

Definition sample_cluster_config : ClusterConfig :=
  {| cl_Port := 9092; cl_Mode := ModeActivePassive; cl_Active := ActivePrimary;
     cl_Primary := {| ep_Bootstrap := "a:9092"; ep_Weight := 0 |};
     cl_Secondary := {| ep_Bootstrap := "b:9092"; ep_Weight := 0 |};
     cl_HealthCheck := zero_HealthCheckConfig |}.

Definition sample_config : Config :=
  {| cfg_Proxy :=
       {| px_BindAddress := ""; px_AdvertiseHost := "proxy";
          px_ConnectionPool := {| cp_MaxConnectionsPerBroker := 0; cp_IdleTimeout := 0;
                                  cp_KeepAliveInterval := 0 |};
          px_MetricsPort := 0 |};
     cfg_Clusters := {[ "bu1"%string := sample_cluster_config ]} |}.

Lemma default_Z_idem z d : default_Z (default_Z z d) d = default_Z z d.
Proof. unfold default_Z. destruct (z =? 0) eqn:E; [by destruct (d =? 0)|by rewrite E]. Qed.

Lemma applyDefaults_idem c : applyDefaults (applyDefaults c) = applyDefaults c.
Proof.
  unfold applyDefaults; cbn [cfg_Proxy px_BindAddress px_AdvertiseHost px_ConnectionPool
    px_MetricsPort cfg_Clusters cp_MaxConnectionsPerBroker cp_IdleTimeout cp_KeepAliveInterval].
  rewrite !default_Z_idem, <- map_fmap_compose.
  assert (default_cluster ∘ default_cluster <$> cfg_Clusters c
          = default_cluster <$> cfg_Clusters c) as ->.
  { apply map_fmap_ext. intros _ cl _. unfold compose, default_cluster, default_health;
      cbn [cl_HealthCheck cl_Port cl_Mode cl_Active cl_Primary cl_Secondary hc_FailureThreshold
        hc_RecoveryThreshold hc_RecoveryMinUptime].
    by rewrite !default_Z_idem. }
  by destruct (String.eqb (px_BindAddress (cfg_Proxy c)) "") eqn:E; rewrite ?E.
Qed.

(** ** Properties *)

(** Validation accepts exactly the well-formed configurations, whatever
    order Go ranges over the cluster map in: at least one cluster, positive and
    pairwise distinct ports, a known mode, the bootstraps the mode needs, an
    active side for active_passive, weights that sum to 100 for load_balance. *)
Theorem Config_Validate_spec c order :
  ranges (cfg_Clusters c) order →
  snd (Config_Validate order c) = None ↔ valid_config c.
Proof. apply Config_Validate_None. Qed.

(** On a validated configuration the port table routes every listening port
    to the one cluster that declares it, and nothing else. *)
Theorem BuildPortMap_spec c order :
  ranges (cfg_Clusters c) order → valid_config c →
  ∀ port name, BuildPortMap order !! port = Some name ↔
    ∃ cl, cfg_Clusters c !! name = Some cl ∧ cl_Port cl = port.
Proof.
  intros Hr (_ & _ & Hp) port name.
  rewrite BuildPortMap_lookup by (by apply (ranges_ports c)).
  by setoid_rewrite (ranges_elem _ _ _ _ Hr).
Qed.

(** C40: a reload is atomic.  It either installs a configuration that was read
    from the watched path, is fully defaulted and valid, and calls every callback
    once, in registration order, with the old and the new configuration; or it
    fails and leaves the running configuration and the world untouched.  Hence a
    running proxy never works from an invalid configuration. *)
Theorem Reload_atomic {File W} (ReadFile : string → res File) (Unmarshal : File → res Config)
    (range : gmap string ClusterConfig → list (string * ClusterConfig)) (r : Reloader) (w : W)
    err r' w' :
  (∀ m, ranges m (range m)) →
  Reload ReadFile Unmarshal range r w = Ok (err, r', w') →
  (∃ data raw, err = None ∧
     ReadFile (rl_path r) = Ok data ∧ Unmarshal data = Ok raw ∧
     rl_config r' = applyDefaults raw ∧ applyDefaults (rl_config r') = rl_config r' ∧
     valid_config (rl_config r') ∧
     rl_path r' = rl_path r ∧ rl_onReload r' = rl_onReload r ∧
     w' = foldl (λ w fn, fn (rl_config r) (rl_config r') w) w (rl_onReload r)) ∨
  (err ≠ None ∧ r' = r ∧ w' = w).
Proof.
  intros Hr. unfold Reload.
  destruct (LoadConfig _ _ _ _) as [c| |] eqn:E; [|intros; simplify_eq; by right|done].
  intros [= <- <- <-]. left. apply LoadConfig_Ok in E as (data & raw & ? & ? & -> & ?); [|done].
  exists data, raw. cbn [rl_config rl_path rl_onReload]. split_and!; try done.
  apply applyDefaults_idem.
Qed.

(** The diff is sound and complete.  Whatever the two iteration orders, a
    cluster is reported exactly when it was added, removed, or changed its active
    side, its mode or a bootstrap address; it is reported once; and the flags of
    the report say which of those changed. *)
Theorem DiffClusters_spec oldCfg newCfg oldOrder newOrder :
  ranges (cfg_Clusters oldCfg) oldOrder → ranges (cfg_Clusters newCfg) newOrder →
  let changes := DiffClusters newOrder oldOrder oldCfg newCfg in
  NoDup (map ch_Name changes) ∧
  (∀ name, name ∈ map ch_Name changes ↔
     routing_view <$> cfg_Clusters oldCfg !! name ≠ routing_view <$> cfg_Clusters newCfg !! name) ∧
  (∀ ch, ch ∈ changes → change_matches (cfg_Clusters oldCfg) (cfg_Clusters newCfg) ch).
Proof.
  intros Ho Hn. unfold DiffClusters. split_and!.
  - rewrite map_app. apply list.NoDup_app. split_and!.
    + apply (NoDup_concat_map fst); [|by apply (ranges_keys (cfg_Clusters newCfg))].
      intros [n c]. rewrite diff_new_name. case_decide; auto.
    + intros name (c & Hin & _)%name_in_new (_ & Hnone)%name_in_removed.
      rewrite (ranges_elem _ _ _ _ Hn) in Hin. congruence.
    + apply (NoDup_concat_map fst); [|by apply (ranges_keys (cfg_Clusters oldCfg))].
      intros [n c]. rewrite diff_removed_name. case_decide; auto.
  - intros name. rewrite map_app, elem_of_app, name_in_new, name_in_removed.
    setoid_rewrite (ranges_elem _ _ _ _ Ho). setoid_rewrite (ranges_elem _ _ _ _ Hn).
    destruct (cfg_Clusters oldCfg !! name) as [o|], (cfg_Clusters newCfg !! name) as [c|];
      cbn [fmap option_fmap option_map].
    + split; [intros [(c0 & [= <-] & ?)|[_ ?]]; congruence|].
      intros. left. exists c. split; congruence.
    + split; [done|]. intros _. right. eauto.
    + split; [done|]. intros _. left. by exists c.
    + split; [|done]. by intros [(? & ? & _)|[[? ?] _]].
  - intros ch [Hin|Hin]%elem_of_app; apply elem_of_concat_map in Hin as ([n c] & Hin & Hch).
    + apply (ranges_elem _ _ _ _ Hn) in Hin. by eapply diff_new_matches.
    + apply (ranges_elem _ _ _ _ Ho) in Hin. by eapply diff_removed_matches.
Qed.

(** Debouncing.  For events delivered in time order, a reload fires at [d]
    exactly when a write or create of the config file happened 200 ms before [d]
    and no other one did in between: a burst of writes causes one reload, after
    the last of them, and no write is lost. *)
Theorem watch_run_debounces path events d :
  StronglySorted Z.le (map fst events) →
  d ∈ watch_run path None events ↔
  ∃ t, t ∈ relevant_times path events ∧ d = t + debounce ∧
       ∀ t', t' ∈ relevant_times path events → t' ≤ t ∨ d ≤ t'.
Proof.
  intros Hs. rewrite watch_run_bursts, bursts_spec by (try apply relevant_times_sorted; done).
  naive_solver.
Qed.

(** An fsnotify watch on a directory names its events
    [dir ++ "/" ++ file].  For a config path with a directory part that name is
    the path itself, so writes are seen.  For a bare file name, as the default
    [config.yaml] is, the watch is on ["."], the events are named ["./..."], and
    no write ever triggers a reload. *)
Theorem isRelevantEvent_bare_path path :
  let ev := {| ev_Name := String.append (parentDir path) (String.append "/" (base path));
               ev_Write := true; ev_Create := false |} in
  isRelevantEvent ev path = bool_decide (last_sep path ≠ None).
Proof.
  unfold isRelevantEvent, parentDir, base; cbn [ev_Name ev_Write ev_Create].
  destruct (last_sep path) as [i|] eqn:E.
  - apply last_sep_split in E as [-> _]. rewrite String.eqb_refl. by rewrite bool_decide_true.
  - rewrite bool_decide_false by (intros []; done).
    destruct (String.eqb_spec (String.append "." (String.append "/" path)) path) as [Heq|]; [|done].
    exfalso. apply (f_equal String.length) in Heq.
    change (S (S (String.length path)) = String.length path) in Heq. lia.
Qed.

Lemma Config_Validate_spec_witness :
  snd (Config_Validate (map_to_list (cfg_Clusters sample_config)) sample_config) = None ∧
  valid_config sample_config.
Proof.
  assert (ranges (cfg_Clusters sample_config) (map_to_list (cfg_Clusters sample_config)))
    as Hr by (unfold ranges; reflexivity).
  split; [reflexivity|].
  apply (Config_Validate_spec sample_config _ Hr). reflexivity.
Defined.

Lemma BuildPortMap_spec_witness :
  BuildPortMap (map_to_list (cfg_Clusters sample_config)) !! 9092 = Some "bu1"%string.
Proof.
  assert (ranges (cfg_Clusters sample_config) (map_to_list (cfg_Clusters sample_config)))
    as Hr by (unfold ranges; reflexivity).
  apply (BuildPortMap_spec sample_config _ Hr).
  - apply (Config_Validate_None sample_config _ Hr). reflexivity.
  - exists sample_cluster_config. split; reflexivity.
Defined.

(** A file system holding the sample configuration, and a callback that counts. *)
Definition sample_reloader : Reloader (W := Z) :=
  {| rl_config := sample_config; rl_path := "/etc/config.yaml";
     rl_onReload := [λ _ _ w, w + 1] |}.

Lemma Reload_atomic_witness :
  ∃ r', Reload (λ _, Ok tt) (λ _, Ok sample_config) map_to_list sample_reloader 7 = Ok (None, r', 8)
        ∧ valid_config (rl_config r').
Proof.
  set (r' := {| rl_config := applyDefaults sample_config; rl_path := "/etc/config.yaml";
                rl_onReload := rl_onReload sample_reloader |} : Reloader).
  assert (Reload (λ _, Ok tt) (λ _, Ok sample_config) map_to_list sample_reloader 7
          = Ok (None, r', 8)) as E by (vm_compute; reflexivity).
  exists r'. split; [exact E|].
  destruct (Reload_atomic (λ _, Ok tt) (λ _, Ok sample_config) map_to_list sample_reloader 7
              None r' 8 (λ m, reflexivity _) E)
    as [(data & raw & _ & _ & _ & _ & _ & Hv & _)|(Hne & _)].
  - exact Hv.
  - exfalso. apply Hne. reflexivity.
Defined.

Lemma DiffClusters_spec_witness :
  let old := sample_config in
  let new := {| cfg_Proxy := cfg_Proxy sample_config; cfg_Clusters := ∅ |} in
  "bu1"%string ∈ map ch_Name (DiffClusters [] (map_to_list (cfg_Clusters old)) old new).
Proof.
  intros old new.
  destruct (DiffClusters_spec old new (map_to_list (cfg_Clusters old)) []) as (_ & Hn & _).
  - unfold ranges; reflexivity.
  - unfold ranges; reflexivity.
  - apply Hn. discriminate.
Defined.

Lemma watch_run_debounces_witness :
  let w t := (t, {| ev_Name := "/c.yaml"; ev_Write := true; ev_Create := false |}) in
  100 * millisecond + debounce ∈
    watch_run "/c.yaml" None [w 0; w (100 * millisecond); w (900 * millisecond)].
Proof.
  intros w. apply watch_run_debounces.
  - repeat constructor; discriminate.
  - exists (100 * millisecond). split_and!.
    + apply (bool_decide_unpack _). vm_compute. exact I.
    + reflexivity.
    + intros t' Hin. unfold relevant_times in Hin.
      vm_compute in Hin. unfold debounce, millisecond.
      repeat (apply list.elem_of_cons in Hin as [->|Hin]; [first [left; discriminate|right; discriminate]|]).
      by apply not_elem_of_nil in Hin.
Defined.
