(* ===== verification/Health.v ===== *)
(** * Health checks ([internal/health])

    [HealthState] (state.go): the hysteresis that turns check results into UP
    and DOWN.  [Checker] (checker.go): which clusters are checked, how often,
    and the check itself: SASL/PLAIN authentication and a Metadata ping over a
    dedicated connection.  Dialing is a parameter: [checkEndpoint] is given the
    connection, or the dial error. *)

From S2P Require Import Prelude Bytes Conn Protocol Config.

Definition StatusHealthy : string := "healthy".
Definition StatusDegraded : string := "degraded".
Definition StatusUnreachable : string := "unreachable".

(** ** HealthState *)

Record HealthState := {
  hs_healthy : bool;
  hs_consecutiveFailures : Z;
  hs_consecutiveSuccesses : Z;
  hs_lastCheckAt : time;
  hs_lastCheckLatency : duration;
  hs_lastStatus : string;
  hs_lastError : string;
  hs_upSince : time;
  hs_bootstrap : string
}.

Definition NewHealthState (now : time) (bootstrap : string) : HealthState :=
  {| hs_healthy := true; hs_consecutiveFailures := 0; hs_consecutiveSuccesses := 0;
     hs_lastCheckAt := zero_time; hs_lastCheckLatency := 0; hs_lastStatus := "";
     hs_lastError := ""; hs_upSince := now; hs_bootstrap := bootstrap |}.

Definition RecordSuccess (now : time) (latency : duration) (status : string)
    (failureThreshold recoveryThreshold : Z) (h : HealthState) : HealthState :=
  let successes := hs_consecutiveSuccesses h + 1 in
  let up := negb (hs_healthy h) && (recoveryThreshold <=? successes) in
  {| hs_healthy := if up then true else hs_healthy h;
     hs_consecutiveFailures := 0; hs_consecutiveSuccesses := successes;
     hs_lastCheckAt := now; hs_lastCheckLatency := latency; hs_lastStatus := status;
     hs_lastError := ""; hs_upSince := if up then now else hs_upSince h;
     hs_bootstrap := hs_bootstrap h |}.

Definition RecordFailure (now : time) (latency : duration) (status errMsg : string)
    (failureThreshold : Z) (h : HealthState) : HealthState :=
  let failures := hs_consecutiveFailures h + 1 in
  let down := hs_healthy h && (failureThreshold <=? failures) in
  {| hs_healthy := if down then false else hs_healthy h;
     hs_consecutiveFailures := failures; hs_consecutiveSuccesses := 0;
     hs_lastCheckAt := now; hs_lastCheckLatency := latency; hs_lastStatus := status;
     hs_lastError := errMsg; hs_upSince := if down then zero_time else hs_upSince h;
     hs_bootstrap := hs_bootstrap h |}.

Definition IsHealthy (h : HealthState) : bool := hs_healthy h.

Record Snapshot := {
  sn_Healthy : bool;
  sn_ConsecutiveFailures : Z;
  sn_ConsecutiveSuccesses : Z;
  sn_LastCheckAt : time;
  sn_LastCheckLatency : duration;
  sn_LastStatus : string;
  sn_LastError : string;
  sn_UpSince : time;
  sn_Bootstrap : string
}.

Definition snapshot (h : HealthState) : Snapshot :=
  {| sn_Healthy := hs_healthy h; sn_ConsecutiveFailures := hs_consecutiveFailures h;
     sn_ConsecutiveSuccesses := hs_consecutiveSuccesses h; sn_LastCheckAt := hs_lastCheckAt h;
     sn_LastCheckLatency := hs_lastCheckLatency h; sn_LastStatus := hs_lastStatus h;
     sn_LastError := hs_lastError h; sn_UpSince := hs_upSince h;
     sn_Bootstrap := hs_bootstrap h |}.

(** ** Checker *)

Record clusterRunner := {
  cr_name : string;
  cr_primaryAddr : string;
  cr_secondaryAddr : string;
  cr_interval : duration;
  cr_failureThreshold : Z;
  cr_recoveryThreshold : Z;
  cr_saslUsername : string;
  cr_saslPassword : string;
  cr_primary : HealthState;
  cr_secondary : HealthState;
  cr_running : bool
}.

Record ClusterHealth := { cth_Name : string; cth_Primary : Snapshot; cth_Secondary : Snapshot }.

(** One iteration of the loop of [New]: [None] when checks are disabled. *)
Definition new_runner (now : time) (name : string) (cluster : ClusterConfig)
    : option clusterRunner :=
  let hc := cl_HealthCheck cluster in
  if negb (hc_Enabled hc) then None
  else
    let interval := if hc_Interval hc <=? 0 then 10 * second else hc_Interval hc in
    let failureThreshold := if hc_FailureThreshold hc <=? 0 then 3 else hc_FailureThreshold hc in
    let recoveryThreshold :=
      if hc_RecoveryThreshold hc <=? 0 then 2 else hc_RecoveryThreshold hc in
    Some {| cr_name := name;
            cr_primaryAddr := ep_Bootstrap (cl_Primary cluster);
            cr_secondaryAddr := ep_Bootstrap (cl_Secondary cluster);
            cr_interval := interval; cr_failureThreshold := failureThreshold;
            cr_recoveryThreshold := recoveryThreshold;
            cr_saslUsername := hc_SaslUsername hc; cr_saslPassword := hc_SaslPassword hc;
            cr_primary := NewHealthState now (ep_Bootstrap (cl_Primary cluster));
            cr_secondary := NewHealthState now (ep_Bootstrap (cl_Secondary cluster));
            cr_running := false |}.

Definition New (now : time) (clusters : gmap string ClusterConfig) : gmap string clusterRunner :=
  map_imap (new_runner now) clusters.

Definition runner_health (name : string) (r : clusterRunner) : ClusterHealth :=
  {| cth_Name := name; cth_Primary := snapshot (cr_primary r);
     cth_Secondary := snapshot (cr_secondary r) |}.

Definition Checker_Health (c : gmap string clusterRunner) : gmap string ClusterHealth :=
  map_imap (λ name r, Some (runner_health name r)) c.

Definition adaptiveFastInterval : duration := 2 * second.

Definition adaptiveInterval (r : clusterRunner) (state : HealthState) : duration :=
  let snap := snapshot state in
  if (0 <? sn_ConsecutiveFailures snap) || negb (sn_Healthy snap)
  then adaptiveFastInterval
  else cr_interval r.

(** ** The check *)

Definition KafkaMetadataAPIKey : Z := APIKeyMetadata.
Definition saslHandshakeAPIKey : Z := 17.
Definition saslAuthenticateAPIKey : Z := 36.

Definition health_clientID : string := "kafkaproxy-health".

(** [pooled] is the buffer [WriteFrame] draws from its pool. *)
Definition writeMetadataRequest (pooled : bytes) : IO conn unit :=
  let header := be16 KafkaMetadataAPIKey ++ be16 0 ++ be32 0
                ++ be16 (slen health_clientID) ++ bytes_of health_clientID in
  let body := be32 0 in
  Write (WriteFrame pooled header body).

Definition readMetadataResponse : IO conn unit :=
  sizeBuf ← wrap "read size prefix" (ReadFull 4);
  respSize ← pure (Uint32 sizeBuf);
  respBuf ← wrap "read response body" (read_make respSize);
  if blen respBuf <? 4 then fail (Errorf "response too short")
  else
    _ ← pure (Uint32 respBuf);
    mret tt.

(** The frames [saslAuth] fills in field by field at their offsets:
    [[size:4] [api_key:2] [api_version:2] [corr_id:4] [client_id_len:2]
    [client_id] body]. *)
Definition sasl_frame (apiKey corrID : Z) (body : bytes) : bytes :=
  let totalSize := 2 + 2 + 4 + 2 + slen health_clientID + blen body in
  be32 totalSize ++ be16 apiKey ++ be16 1 ++ be32 corrID
  ++ be16 (slen health_clientID) ++ bytes_of health_clientID ++ body.

(** One response of the exchange: its size prefix, body and error code. *)
Definition read_sasl_response (what : string) : IO conn unit :=
  sizeBuf ← wrap "read size" (ReadFull 4);
  respSize ← pure (Uint32 sizeBuf);
  respBuf ← wrap "read body" (read_make respSize);
  if blen respBuf <? 6 then fail (Errorf "response too short")
  else
    errorCode ← pure (u16_at respBuf 4);
    if negb (int16 errorCode =? 0) then fail (Errorf what)
    else mret tt.

Definition saslAuth (username password : string) : IO conn unit :=
  if String.eqb username "" then mret tt
  else
    let mechanism := "PLAIN"%string in
    _ ← wrap "write sasl handshake"
          (Write (sasl_frame saslHandshakeAPIKey 1 (be16 (slen mechanism) ++ bytes_of mechanism)));
    _ ← read_sasl_response "sasl handshake error code";
    let authBytes := [x00] ++ bytes_of username ++ [x00] ++ bytes_of password in
    _ ← wrap "write sasl authenticate"
          (Write (sasl_frame saslAuthenticateAPIKey 2 (be32 (blen authBytes) ++ authBytes)));
    read_sasl_response "sasl authenticate error code".

Definition AuthenticatePlain : string → string → IO conn unit := saslAuth.

(** The exchange of one check, on an open connection. *)
Definition check_exchange (pooled : bytes) (r : clusterRunner) : IO conn unit :=
  _ ← saslAuth (cr_saslUsername r) (cr_saslPassword r);
  _ ← writeMetadataRequest pooled;
  readMetadataResponse.

(** The error text is not modelled: [lastError] only tells a failed check
    from a successful one. *)
Definition checkEndpoint (pooled : bytes) (start now : time) (dialed : res conn) (r : clusterRunner)
    (addr : string) (state : HealthState) : res HealthState :=
  if String.eqb addr "" then Ok state
  else
    let latency := time_since now start in
    match dialed with
    | Panic => Panic
    | Err err => Ok (RecordFailure now latency StatusUnreachable "dial" (cr_failureThreshold r) state)
    | Ok c =>
        match fst (check_exchange pooled r c) with
        | Panic => Panic
        | Err err =>
            Ok (RecordFailure now latency StatusUnreachable "check" (cr_failureThreshold r) state)
        | Ok _ =>
            let status := if 5 * second <? latency then StatusDegraded else StatusHealthy in
            Ok (RecordSuccess now latency status (cr_failureThreshold r)
                  (cr_recoveryThreshold r) state)
        end
    end.

Definition with_states (p s : HealthState) (r : clusterRunner) : clusterRunner :=
  {| cr_name := cr_name r; cr_primaryAddr := cr_primaryAddr r;
     cr_secondaryAddr := cr_secondaryAddr r; cr_interval := cr_interval r;
     cr_failureThreshold := cr_failureThreshold r; cr_recoveryThreshold := cr_recoveryThreshold r;
     cr_saslUsername := cr_saslUsername r; cr_saslPassword := cr_saslPassword r;
     cr_primary := p; cr_secondary := s; cr_running := cr_running r |}.

(** The clock readings and the dialed connections of one round of checks. *)
Record round := {
  rd_pooled : bytes;
  rd_start1 : time; rd_end1 : time; rd_dial1 : res conn;
  rd_start2 : time; rd_end2 : time; rd_dial2 : res conn
}.

(** [checkAndReschedule]: the runner after both checks and the next delay. *)
Definition checkAndReschedule (rd : round) (r : clusterRunner)
    : res (clusterRunner * duration) :=
  p ← checkEndpoint (rd_pooled rd) (rd_start1 rd) (rd_end1 rd) (rd_dial1 rd) r (cr_primaryAddr r) (cr_primary r);
  s ← checkEndpoint (rd_pooled rd) (rd_start2 rd) (rd_end2 rd) (rd_dial2 rd) r (cr_secondaryAddr r)
        (cr_secondary r);
  let r := with_states p s r in
  let pInterval := adaptiveInterval r (cr_primary r) in
  let sInterval := adaptiveInterval r (cr_secondary r) in
  Ok (r, if pInterval <? sInterval then pInterval else sInterval).

(** ** Hysteresis

    [HealthState] and the failover controller's [clusterHealth] count in the
    same way; [hyst_step] is what they share: the flag and the two counters. *)

Definition hyst := (bool * Z * Z)%type.

Definition hyst_step (ft rt : Z) (st : hyst) (ok : bool) : hyst :=
  let '(healthy, cf, cs) := st in
  if ok then (healthy || (rt <=? cs + 1), 0, cs + 1)
  else (healthy && negb (ft <=? cf + 1), cf + 1, 0).

Definition hyst_run (ft rt : Z) (init : bool) (results : list bool) : hyst :=
  foldl (hyst_step ft rt) (init, 0, 0) results.

(** The last [n] results are all [b]. *)
Definition ends_with (b : bool) (n : Z) (results : list bool) : Prop :=
  n ≤ Z.of_nat (length results) ∧
  ∃ l, results = l ++ replicate (Z.to_nat n) b.

(** Length of the trailing run of [b]s, results most recent first. *)
Fixpoint run_length (b : bool) (rev_results : list bool) : Z :=
  match rev_results with
  | x :: l => if Bool.eqb x b then 1 + run_length b l else 0
  | [] => 0
  end.

Lemma run_length_nonneg b l : 0 ≤ run_length b l.
Proof. induction l as [|x l IH]; simpl; [lia|]. case_if; lia. Qed.

Lemma run_length_ge b n l :
  0 ≤ n → n ≤ run_length b (reverse l) ↔ ends_with b n l.
Proof.
  intros Hn. unfold ends_with. rewrite <- (Z2Nat.id n) by done.
  generalize (Z.to_nat n) as k. clear n Hn. intros k. rewrite Nat2Z.id.
  split.
  - revert k. induction l as [|x l IH] using rev_ind; intros k Hk.
    + simpl in Hk. assert (k = 0%nat) as -> by lia. split; [done|by exists []].
    + rewrite reverse_snoc in Hk. cbn [run_length] in Hk. rewrite length_app. simpl.
      destruct k as [|k]; [split; [lia|]; exists (l ++ [x]); by rewrite app_nil_r|].
      destruct (Bool.eqb_spec x b) as [->|]; [|lia].
      destruct (IH k ltac:(lia)) as [? [l' ->]]. split; [lia|].
      exists l'. by rewrite replicate_S_end, app_assoc.
  - intros [_ [l' ->]]. induction k as [|k IH].
    + pose proof (run_length_nonneg b (reverse (l' ++ replicate 0 b))). lia.
    + rewrite replicate_S_end, app_assoc, reverse_snoc. cbn [run_length].
      rewrite Bool.eqb_reflx. lia.
Qed.

Lemma hyst_run_counts ft rt init l :
  snd (fst (hyst_run ft rt init l)) = run_length false (reverse l) ∧
  snd (hyst_run ft rt init l) = run_length true (reverse l).
Proof.
  unfold hyst_run. induction l as [|x l [IH1 IH2]] using rev_ind; [done|].
  rewrite foldl_snoc, reverse_snoc. destruct (foldl _ _ l) as [[h cf] cs].
  cbn [fst snd] in *. subst. destruct x; cbn [hyst_step fst snd run_length Bool.eqb]; lia.
Qed.

(** The flag, read off the history of results. *)
Definition hyst_up (ft rt : Z) (init : bool) (l : list bool) : Prop :=
  if init then
    ∀ p, p `prefix_of` l → ends_with false ft p →
      ∃ q, p `prefix_of` q ∧ q `prefix_of` l ∧ ends_with true rt q
  else
    ∃ q, q `prefix_of` l ∧ ends_with true rt q ∧
      ∀ p, q `prefix_of` p → p `prefix_of` l → ¬ ends_with false ft p.

Lemma prefix_snoc_inv {A} (p l : list A) x :
  p `prefix_of` l ++ [x] → p = l ++ [x] ∨ p `prefix_of` l.
Proof.
  intros [k Hk]. destruct k as [|y k _] using rev_ind.
  - left. by rewrite app_nil_r in Hk.
  - right. rewrite app_assoc in Hk. apply app_inj_tail in Hk as [-> _]. by exists k.
Qed.

Lemma ends_with_snoc b n l x : 0 < n → ends_with b n (l ++ [x]) → x = b.
Proof.
  intros Hn [_ [l' H]]. replace (Z.to_nat n) with (S (Z.to_nat n - 1)) in H by lia.
  rewrite replicate_S_end, app_assoc in H. by apply app_inj_tail in H as [_ ->].
Qed.

Lemma ends_with_nil b n : 0 < n → ¬ ends_with b n [].
Proof. intros ? [? _]. simpl in *. lia. Qed.

(** A success keeps the endpoint up, or brings it up by ending a long run. *)
Lemma hyst_up_success ft rt init l :
  0 < ft → 0 < rt →
  hyst_up ft rt init l ∨ ends_with true rt (l ++ [true]) ↔ hyst_up ft rt init (l ++ [true]).
Proof.
  intros Hft Hrt. destruct init; unfold hyst_up; split.
  - intros [H|H] p Hp Hf.
    + apply prefix_snoc_inv in Hp as [->|Hp]; [by apply ends_with_snoc in Hf|].
      destruct (H p Hp Hf) as (q & ? & ? & ?). exists q. split_and!; [done| |done].
      by apply prefix_app_r.
    + exists (l ++ [true]). by split_and!.
  - intros H. destruct (decide (rt ≤ run_length true (reverse (l ++ [true])))) as [Hd|Hd];
      rewrite run_length_ge in Hd by lia; [by right|left].
    intros p Hp Hf. destruct (H p ltac:(by apply prefix_app_r) Hf) as (q & ? & Hq & ?).
    apply prefix_snoc_inv in Hq as [->|Hq]; [done|]. by exists q.
  - intros [(q & Hq & Ht & H)|H].
    + exists q. split_and!; [by apply prefix_app_r|done|]. intros p Hp Hpl Hf.
      apply prefix_snoc_inv in Hpl as [->|Hpl]; [by apply ends_with_snoc in Hf|].
      by apply (H p).
    + exists (l ++ [true]). split_and!; [done|done|]. intros p Hp1 Hp2 Hf.
      apply prefix_snoc_inv in Hp2 as [->|Hp2]; [by apply ends_with_snoc in Hf|].
      apply prefix_length in Hp1, Hp2. rewrite length_app in Hp1. simpl in Hp1. lia.
  - intros (q & Hq & Ht & H). apply prefix_snoc_inv in Hq as [->|Hq]; [by right|left].
    exists q. split_and!; [done|done|]. intros p Hp Hpl. apply H; [done|].
    by apply prefix_app_r.
Qed.

(** A failure keeps the endpoint up unless it ends a long run of failures. *)
Lemma hyst_up_failure ft rt init l :
  0 < ft → 0 < rt →
  hyst_up ft rt init l ∧ ¬ ends_with false ft (l ++ [false]) ↔ hyst_up ft rt init (l ++ [false]).
Proof.
  intros Hft Hrt. destruct init; unfold hyst_up; split.
  - intros [H Hn] p Hp Hf. apply prefix_snoc_inv in Hp as [->|Hp]; [done|].
    destruct (H p Hp Hf) as (q & ? & ? & ?). exists q. split_and!; [done| |done].
    by apply prefix_app_r.
  - intros H. split.
    + intros p Hp Hf. destruct (H p ltac:(by apply prefix_app_r) Hf) as (q & ? & Hq & Ht).
      apply prefix_snoc_inv in Hq as [->|Hq]; [by apply ends_with_snoc in Ht|]. by exists q.
    + intros Hf. destruct (H _ ltac:(done) Hf) as (q & Hq1 & Hq2 & Ht).
      apply prefix_snoc_inv in Hq2 as [->|Hq2]; [by apply ends_with_snoc in Ht|].
      apply prefix_length in Hq1, Hq2. rewrite length_app in Hq1. simpl in Hq1. lia.
  - intros [(q & Hq & Ht & H) Hn]. exists q. split_and!; [by apply prefix_app_r|done|].
    intros p Hp Hpl. apply prefix_snoc_inv in Hpl as [->|Hpl]; [done|]. by apply H.
  - intros (q & Hq & Ht & H). apply prefix_snoc_inv in Hq as [->|Hq];
      [by apply ends_with_snoc in Ht|]. split.
    + exists q. split_and!; [done|done|]. intros p Hp Hpl. apply H; [done|].
      by apply prefix_app_r.
    + apply H; [by apply prefix_app_r|done].
Qed.

Lemma hyst_run_up ft rt init l :
  0 < ft → 0 < rt → fst (fst (hyst_run ft rt init l)) = true ↔ hyst_up ft rt init l.
Proof.
  intros Hft Hrt. induction l as [|x l IH] using rev_ind.
  { destruct init; cbn; split; try done.
    - intros _ p ->%prefix_nil_inv Hp. by apply ends_with_nil in Hp.
    - intros (q & ->%prefix_nil_inv & Hq & _). by apply ends_with_nil in Hq. }
  pose proof (hyst_run_counts ft rt init l) as [Hcf Hcs].
  unfold hyst_run in *. rewrite foldl_snoc. destruct (foldl _ _ l) as [[h cf] cs] eqn:E.
  cbn [fst snd] in *. subst cf cs.
  destruct x; cbn [hyst_step fst].
  - rewrite orb_true_iff, IH, Z.leb_le, <- hyst_up_success by done.
    assert (rt ≤ run_length true (reverse l) + 1 ↔ ends_with true rt (l ++ [true])) as ->;
      [|done].
    rewrite <- run_length_ge, reverse_snoc by lia. cbn [run_length Bool.eqb]. lia.
  - rewrite andb_true_iff, IH, negb_true_iff, Z.leb_gt, <- hyst_up_failure by done.
    assert (run_length false (reverse l) + 1 < ft ↔ ¬ ends_with false ft (l ++ [false])) as ->;
      [|done].
    rewrite <- run_length_ge, reverse_snoc by lia. cbn [run_length Bool.eqb]. lia.
Qed.

(** ** Checks as a trace *)

(** A recorded check: its clock reading, latency, outcome and texts. *)
Record probe := { ck_now : time; ck_latency : duration; ck_ok : bool;
                  ck_status : string; ck_err : string }.

Definition record_probe (ft rt : Z) (h : HealthState) (k : probe) : HealthState :=
  if ck_ok k then RecordSuccess (ck_now k) (ck_latency k) (ck_status k) ft rt h
  else RecordFailure (ck_now k) (ck_latency k) (ck_status k) (ck_err k) ft h.

Definition hs_hyst (h : HealthState) : hyst :=
  (hs_healthy h, hs_consecutiveFailures h, hs_consecutiveSuccesses h).

Lemma record_probe_hyst ft rt h k :
  hs_hyst (record_probe ft rt h k) = hyst_step ft rt (hs_hyst h) (ck_ok k).
Proof.
  unfold record_probe, hs_hyst. destruct (ck_ok k), (hs_healthy h) eqn:E;
    cbn; rewrite E; cbn; try case_if; done.
Qed.

Lemma record_probes_hyst ft rt h ks :
  hs_hyst (foldl (record_probe ft rt) h ks) =
  foldl (hyst_step ft rt) (hs_hyst h) (map ck_ok ks).
Proof.
  revert h. induction ks as [|k ks IH]; intros h; [done|].
  cbn [foldl map]. by rewrite IH, record_probe_hyst.
Qed.

(** ** The SASL exchange *)

(** A response frame with an error code, as brokers send it. *)
Definition sasl_response (corr code : Z) (rest : bytes) : bytes :=
  let body := be32 corr ++ be16 code ++ rest in be32 (blen body) ++ body.

Lemma read_sasl_response_run what corr code rest tl out w :
  6 + blen rest < 4294967296 → in_int16 code →
  read_sasl_response what
    {| cn_in := sasl_response corr code rest ++ tl; cn_out := out; cn_writes := w |} =
  (if code =? 0 then Ok tt else Err (Errorf what),
   {| cn_in := tl; cn_out := out; cn_writes := w |}).
Proof.
  intros Hlen Hcode. unfold read_sasl_response, sasl_response.
  set (body := be32 corr ++ be16 code ++ rest).
  assert (blen body = 6 + blen rest) as Hb by (unfold body; autorewrite with blen; lia).
  pose proof (blen_nonneg rest). rewrite <- app_assoc.
  unfold mbind, IO_bind, wrap. rewrite ReadFull_app by apply blen_be32. cbn [wrap_err].
  rewrite <- (app_nil_r (be32 _)), Uint32_be32. unfold pure.
  unfold uint32, wrapU. rewrite Z.mod_small by lia.
  rewrite read_make_app by done. cbn [wrap_err].
  rewrite (proj2 (Z.ltb_ge _ _)) by lia.
  assert (at_pos body 4 (be16 code ++ rest)) as Hcur
    by (apply (at_pos_advance body 0 (be32 corr)), at_pos_0).
  cursor_step. unfold mbind, res_mbind, IO_bind. rewrite int16_uint16, int16_id by done.
  by destruct (code =? 0).
Qed.

(** The two requests of the exchange. *)
Definition handshake_frame : bytes :=
  sasl_frame saslHandshakeAPIKey 1 (be16 (slen "PLAIN") ++ bytes_of "PLAIN").
Definition authenticate_frame (username password : string) : bytes :=
  let authBytes := [x00] ++ bytes_of username ++ [x00] ++ bytes_of password in
  sasl_frame saslAuthenticateAPIKey 2 (be32 (blen authBytes) ++ authBytes).

(** ** Safety *)

Lemma io_safe_read_sasl_response what : io_safe (λ _, True) (read_sasl_response what).
Proof.
  unfold read_sasl_response.
  eapply io_safe_bind; [apply io_safe_wrap, (io_safe_ReadFull 4); lia|]. intros sz Hsz. cbv beta in Hsz.
  eapply io_safe_bind.
  { apply io_safe_pure. destruct (Uint32_ok sz) as (? & -> & _); [lia|done]. }
  intros n Hn. pose proof (Uint32_range _ _ Hn).
  eapply io_safe_bind; [apply io_safe_wrap, io_safe_read_make; lia|]. intros body Hbody. cbv beta in Hbody.
  case_if; [apply io_safe_fail|]. bool_to_prop.
  eapply io_safe_bind; [apply io_safe_pure, safe_u16_at; lia|]. intros code _.
  case_if; [apply io_safe_fail|by apply io_safe_ret].
Qed.

Lemma io_safe_saslAuth username password : io_safe (λ _, True) (saslAuth username password).
Proof.
  unfold saslAuth. case_if; [by apply io_safe_ret|].
  eapply io_safe_bind; [apply io_safe_wrap, io_safe_Write|]. intros _ _.
  eapply io_safe_bind; [apply io_safe_read_sasl_response|]. intros _ _.
  eapply io_safe_bind; [apply io_safe_wrap, io_safe_Write|]. intros _ _.
  apply io_safe_read_sasl_response.
Qed.

Lemma io_safe_readMetadataResponse : io_safe (λ _, True) readMetadataResponse.
Proof.
  unfold readMetadataResponse.
  eapply io_safe_bind; [apply io_safe_wrap, (io_safe_ReadFull 4); lia|]. intros sz Hsz. cbv beta in Hsz.
  eapply io_safe_bind.
  { apply io_safe_pure. destruct (Uint32_ok sz) as (? & -> & _); [lia|done]. }
  intros n Hn. pose proof (Uint32_range _ _ Hn).
  eapply io_safe_bind; [apply io_safe_wrap, io_safe_read_make; lia|]. intros body Hbody. cbv beta in Hbody.
  case_if; [apply io_safe_fail|]. bool_to_prop.
  eapply io_safe_bind.
  { apply io_safe_pure. destruct (Uint32_ok body) as (? & -> & _); [lia|done]. }
  intros _ _. by apply io_safe_ret.
Qed.

Lemma io_safe_check_exchange pooled r : io_safe (λ _, True) (check_exchange pooled r).
Proof.
  unfold check_exchange. eapply io_safe_bind; [apply io_safe_saslAuth|]. intros _ _.
  eapply io_safe_bind; [apply io_safe_Write|]. intros _ _. apply io_safe_readMetadataResponse.
Qed.

(** ** Properties *)

(** An endpoint is UP exactly when every run of [failureThreshold]
    consecutive failed checks has since been followed by [recoveryThreshold]
    consecutive successful ones; no other sequence of check results, in any
    interleaving of successes and failures, moves it. *)
Theorem HealthState_hysteresis ft rt now bootstrap ks :
  0 < ft → 0 < rt →
  IsHealthy (foldl (record_probe ft rt) (NewHealthState now bootstrap) ks) = true ↔
  ∀ p, p `prefix_of` map ck_ok ks → ends_with false ft p →
    ∃ q, p `prefix_of` q ∧ q `prefix_of` map ck_ok ks ∧ ends_with true rt q.
Proof.
  intros Hft Hrt. etransitivity; [|by apply (hyst_run_up ft rt true (map ck_ok ks))].
  unfold hyst_run. pose proof (record_probes_hyst ft rt (NewHealthState now bootstrap) ks) as H.
  unfold hs_hyst at 2 in H; cbn [hs_healthy hs_consecutiveFailures hs_consecutiveSuccesses
    NewHealthState] in H.
  rewrite <- H. done.
Qed.

(** The credentials exchange against a broker that answers with well-formed
    frames.  The handshake is always sent; the credentials are sent only after
    the handshake was accepted; the exchange succeeds exactly when both answers
    carry error code 0; and it consumes exactly the answers it needs. *)
Theorem saslAuth_exchange username password corr1 code1 rest1 corr2 code2 rest2 tl out :
  username ≠ ""%string → in_int16 code1 → in_int16 code2 →
  6 + blen rest1 < 4294967296 → 6 + blen rest2 < 4294967296 →
  saslAuth username password
    {| cn_in := sasl_response corr1 code1 rest1 ++ sasl_response corr2 code2 rest2 ++ tl;
       cn_out := out; cn_writes := None |} =
  if negb (code1 =? 0) then
    (Err (Errorf "sasl handshake error code"),
     {| cn_in := sasl_response corr2 code2 rest2 ++ tl; cn_out := out ++ handshake_frame;
        cn_writes := None |})
  else
    (if code2 =? 0 then Ok tt else Err (Errorf "sasl authenticate error code"),
     {| cn_in := tl; cn_out := out ++ handshake_frame ++ authenticate_frame username password;
        cn_writes := None |}).
Proof.
  intros Hu Hc1 Hc2 Hl1 Hl2. unfold saslAuth. rewrite (proj2 (String.eqb_neq _ _)) by done.
  unfold mbind, IO_bind, wrap, Write; cbn [cn_writes cn_in cn_out wrap_err].
  rewrite read_sasl_response_run by done. destruct (code1 =? 0); [|done].
  cbn [negb cn_writes cn_in cn_out wrap_err]. rewrite read_sasl_response_run by done.
  by rewrite <- app_assoc.
Qed.

(** No peer can crash a health check: whatever an upstream sends, or fails
    to send, the check records a success or a failure. *)
Theorem checkEndpoint_safe pooled start now dialed r addr state :
  safe dialed →
  ∃ h, checkEndpoint pooled start now dialed r addr state = Ok h ∧
       (h = state ∨
        ∃ k, h = record_probe (cr_failureThreshold r) (cr_recoveryThreshold r) state k).
Proof.
  intros Hd. unfold checkEndpoint. set (lat := time_since now start).
  case_if; [eexists; split; [done|by left]|].
  destruct dialed as [c|e|]; [| |done].
  - pose proof (io_safe_check_exchange pooled r c) as Hs.
    destruct (fst (check_exchange pooled r c)) as [[]|e|]; [| |done];
      (eexists; split; [done|right]).
    + set (status := if 5 * second <? lat then StatusDegraded else StatusHealthy).
      by exists {| ck_now := now; ck_latency := lat; ck_ok := true; ck_status := status;
                   ck_err := "" |}.
    + by exists {| ck_now := now; ck_latency := lat; ck_ok := false;
                   ck_status := StatusUnreachable; ck_err := "check" |}.
  - eexists; split; [done|right].
    by exists {| ck_now := now; ck_latency := lat; ck_ok := false;
                 ck_status := StatusUnreachable; ck_err := "dial" |}.
Qed.

(** Scheduling.  After a round of checks the next one is due in
    [adaptiveFastInterval] when both endpoints show a failure, in the shorter of
    that and the configured interval when one does, and in the configured
    interval otherwise.  So a failing pair is checked every 2 s even when the
    configured interval is shorter. *)
Theorem checkAndReschedule_interval rd r r' next :
  checkAndReschedule rd r = Ok (r', next) →
  let failing h := (0 <? hs_consecutiveFailures h) || negb (hs_healthy h) in
  cr_interval r' = cr_interval r ∧
  next = match failing (cr_primary r'), failing (cr_secondary r') with
         | true, true => adaptiveFastInterval
         | false, false => cr_interval r
         | _, _ => Z.min adaptiveFastInterval (cr_interval r)
         end.
Proof.
  unfold checkAndReschedule. intros (p & _ & H)%bind_Ok_inv.
  apply bind_Ok_inv in H as (s & _ & H). simplify_eq. split; [done|].
  unfold adaptiveInterval; cbn [with_states cr_primary cr_secondary cr_interval snapshot
    sn_ConsecutiveFailures sn_Healthy].
  destruct ((_ <? hs_consecutiveFailures p) || _), ((_ <? hs_consecutiveFailures s) || _);
    case_if; bool_to_prop; lia.
Qed.

Lemma HealthState_hysteresis_witness :
  let ck b := {| ck_now := 5; ck_latency := 1; ck_ok := b; ck_status := ""; ck_err := "" |} in
  IsHealthy (foldl (record_probe 2 1) (NewHealthState 0 "a:9092")
               (map ck [false; true; false])) = true ∧
  (∀ p, p `prefix_of` [false; true; false] → ends_with false 2 p →
    ∃ q, p `prefix_of` q ∧ q `prefix_of` [false; true; false] ∧ ends_with true 1 q).
Proof.
  intros ck. split; [reflexivity|].
  apply (HealthState_hysteresis 2 1 0 "a:9092" (map ck [false; true; false])); [lia|lia|].
  reflexivity.
Defined.

Lemma saslAuth_exchange_witness :
  fst (saslAuth "u" "p" {| cn_in := sasl_response 1 0 [] ++ sasl_response 2 0 [] ++ [];
                           cn_out := []; cn_writes := None |}) = Ok tt.
Proof.
  rewrite (saslAuth_exchange "u" "p" 1 0 [] 2 0 [] [] []);
    [reflexivity|discriminate|unfold in_int16; lia..|vm_compute; reflexivity|vm_compute; reflexivity].
Defined.

Definition sample_runner : clusterRunner :=
  {| cr_name := "bu1"; cr_primaryAddr := "a:9092"; cr_secondaryAddr := "";
     cr_interval := second; cr_failureThreshold := 3; cr_recoveryThreshold := 2;
     cr_saslUsername := ""; cr_saslPassword := "";
     cr_primary := NewHealthState 0 "a:9092"; cr_secondary := NewHealthState 0 "";
     cr_running := true |}.

Lemma checkEndpoint_safe_witness :
  ∃ h, checkEndpoint [] 0 1 (Ok {| cn_in := [x00; x00]; cn_out := []; cn_writes := None |})
         sample_runner "a:9092" (cr_primary sample_runner) = Ok h ∧ hs_consecutiveFailures h = 1.
Proof.
  destruct (checkEndpoint_safe [] 0 1 (Ok {| cn_in := [x00; x00]; cn_out := []; cn_writes := None |})
              sample_runner "a:9092" (cr_primary sample_runner) I) as (h & Hh & _).
  exists h. split; [exact Hh|]. vm_compute in Hh. injection Hh as <-. reflexivity.
Defined.

Lemma checkAndReschedule_interval_witness :
  ∃ r', checkAndReschedule
          {| rd_pooled := []; rd_start1 := 0; rd_end1 := 1; rd_dial1 := Err (Errorf "refused");
             rd_start2 := 1; rd_end2 := 2; rd_dial2 := Err (Errorf "refused") |} sample_runner
        = Ok (r', second) ∧ cr_interval r' = second.
Proof.
  destruct (checkAndReschedule _ _) as [[r' next]| |] eqn:E; [|discriminate E..].
  destruct (checkAndReschedule_interval _ _ r' next E) as [Hi Hn].
  exists r'. split; [|exact Hi].
  vm_compute in E. injection E as <- <-. reflexivity.
Defined.
