(* ===== verification/StateMachine.v ===== *)
(** * The DR state machine ([internal/failover/state.go, actions.go])

    Per-BU states, the transition graph, and the callbacks fired on a change.
    [Transition] is given twice: as the function a caller observes when nothing
    interferes, and as the sequence of lock-protected steps the code takes,
    which other goroutines interleave with.  The second refines the first, and
    the safety of the state graph is proved for the second. *)

From S2P Require Import Prelude.

(** ** States and transitions *)

Definition StatePrimary : string := "PRIMARIO".
Definition StateSecondary : string := "SECUNDARIO".
Definition StateDraining : string := "DRAINING".
Definition StateBothDown : string := "BOTH_DOWN".

Definition ReasonConfigChange : string := "config_change".
Definition ReasonHealthEvent : string := "health_event".
Definition ReasonDrainComplete : string := "drain_complete".
Definition ReasonRecovery : string := "recovery".

Definition ActionNone : string := "none".
Definition ActionFailoverToSecondary : string := "failover_to_secondary".
Definition ActionFailoverToPrimary : string := "failover_to_primary".

Record Transition := { tr_BU : string; tr_From : string; tr_To : string; tr_Reason : string }.

Definition isValidTransition (from to : string) : bool :=
  if String.eqb from StatePrimary then
    String.eqb to StateSecondary || String.eqb to StateDraining || String.eqb to StateBothDown
  else if String.eqb from StateSecondary then
    String.eqb to StatePrimary || String.eqb to StateDraining || String.eqb to StateBothDown
  else if String.eqb from StateDraining then
    String.eqb to StatePrimary || String.eqb to StateSecondary || String.eqb to StateBothDown
  else if String.eqb from StateBothDown then
    String.eqb to StatePrimary || String.eqb to StateSecondary
  else false.

(** ** The machine as its callers see it *)

Section machine.
(** What the registered callbacks act on. *)
Context {W : Type}.

Record StateMachine := {
  sm_entries : gmap string string;
  sm_callbacks : list (Transition → W → W)
}.

Definition NewStateMachine : StateMachine := {| sm_entries := ∅; sm_callbacks := [] |}.

Definition with_entries (e : gmap string string) (sm : StateMachine) : StateMachine :=
  {| sm_entries := e; sm_callbacks := sm_callbacks sm |}.

Definition Initialize (bu state : string) (sm : StateMachine) : bool * StateMachine :=
  match sm_entries sm !! bu with
  | Some _ => (false, sm)
  | None => (true, with_entries (<[bu := state]> (sm_entries sm)) sm)
  end.

Definition State (sm : StateMachine) (bu : string) : string :=
  match sm_entries sm !! bu with
  | Some s => s
  | None => StatePrimary
  end.

Definition fireCallbacks (sm : StateMachine) (t : Transition) (w : W) : W :=
  foldl (λ w fn, fn t w) w (sm_callbacks sm).

Definition SM_Transition (bu to reason : string) (sm : StateMachine) (w : W)
    : option error * StateMachine * W :=
  match sm_entries sm !! bu with
  | None =>
      let sm := with_entries (<[bu := to]> (sm_entries sm)) sm in
      (None, sm, fireCallbacks sm {| tr_BU := bu; tr_From := ""; tr_To := to;
                                     tr_Reason := reason |} w)
  | Some from =>
      if String.eqb from to then (None, sm, w)
      else if negb (isValidTransition from to) then (Some (Errorf "invalid transition"), sm, w)
      else
        let sm := with_entries (<[bu := to]> (sm_entries sm)) sm in
        (None, sm, fireCallbacks sm {| tr_BU := bu; tr_From := from; tr_To := to;
                                       tr_Reason := reason |} w)
  end.

Definition OnStateChange (fn : Transition → W → W) (sm : StateMachine) : StateMachine :=
  {| sm_entries := sm_entries sm; sm_callbacks := sm_callbacks sm ++ [fn] |}.

Definition AllStates (sm : StateMachine) : gmap string string := sm_entries sm.

Definition Remove (bu : string) (sm : StateMachine) : bool * StateMachine :=
  (bool_decide (is_Some (sm_entries sm !! bu)),
   with_entries (delete bu (sm_entries sm)) sm).
End machine.
Arguments StateMachine : clear implicits.

(** ** The steps of [Transition]

    The entries map holds pointers; a [buEntry] stays reachable from a running
    [Transition] after [Remove] has unlinked it, so entries are never freed. *)

Record shared := {
  sh_entries : gmap string nat;
  sh_heap : gmap nat string;
  sh_log : list Transition
}.

Inductive pc :=
  | PLookup
  | PCreate
  | PRead (l : nat)
  | PCommit (l : nat) (from : string)
  | PFire (t : Transition)
  | PDone (err : option error).

Record thread := { th_bu : string; th_to : string; th_reason : string; th_pc : pc }.

Definition at_pc (p : pc) (t : thread) : thread :=
  {| th_bu := th_bu t; th_to := th_to t; th_reason := th_reason t; th_pc := p |}.

(** Allocate a [buEntry] and link it. *)
Definition alloc (bu state : string) (sh : shared) : shared :=
  let l := fresh (dom (sh_heap sh)) in
  {| sh_entries := <[bu := l]> (sh_entries sh); sh_heap := <[l := state]> (sh_heap sh);
     sh_log := sh_log sh |}.

(** One critical section of a running [Transition]. *)
Definition thread_step (t : thread) (sh : shared) : thread * shared :=
  match th_pc t with
  | PLookup =>
      match sh_entries sh !! th_bu t with
      | None => (at_pc PCreate t, sh)
      | Some l => (at_pc (PRead l) t, sh)
      end
  | PCreate =>
      match sh_entries sh !! th_bu t with
      | None =>
          (at_pc (PFire {| tr_BU := th_bu t; tr_From := ""; tr_To := th_to t;
                           tr_Reason := th_reason t |}) t,
           alloc (th_bu t) (th_to t) sh)
      | Some _ => (at_pc PLookup t, sh)
      end
  | PRead l =>
      match sh_heap sh !! l with
      | None => (t, sh)
      | Some from =>
          if String.eqb from (th_to t) then (at_pc (PDone None) t, sh)
          else if negb (isValidTransition from (th_to t))
          then (at_pc (PDone (Some (Errorf "invalid transition"))) t, sh)
          else (at_pc (PCommit l from) t, sh)
      end
  | PCommit l from =>
      match sh_heap sh !! l with
      | None => (t, sh)
      | Some cur =>
          if negb (String.eqb cur from) then (at_pc (PDone None) t, sh)
          else
            (at_pc (PFire {| tr_BU := th_bu t; tr_From := from; tr_To := th_to t;
                             tr_Reason := th_reason t |}) t,
             {| sh_entries := sh_entries sh; sh_heap := <[l := th_to t]> (sh_heap sh);
                sh_log := sh_log sh |})
      end
  | PFire tr =>
      (at_pc (PDone None) t,
       {| sh_entries := sh_entries sh; sh_heap := sh_heap sh; sh_log := sh_log sh ++ [tr] |})
  | PDone _ => (t, sh)
  end.

(** Interleavings of any number of [Transition]s, calls of [Initialize] and
    [Remove], and new callers. *)
Inductive step : list thread * shared → list thread * shared → Prop :=
  | step_thread ts i t sh t' sh' :
      ts !! i = Some t → thread_step t sh = (t', sh') → step (ts, sh) (<[i := t']> ts, sh')
  | step_call ts sh bu to reason :
      step (ts, sh) (ts ++ [{| th_bu := bu; th_to := to; th_reason := reason;
                               th_pc := PLookup |}], sh)
  | step_initialize ts sh bu state :
      sh_entries sh !! bu = None → step (ts, sh) (ts, alloc bu state sh)
  | step_remove ts sh bu :
      step (ts, sh) (ts, {| sh_entries := delete bu (sh_entries sh); sh_heap := sh_heap sh;
                            sh_log := sh_log sh |}).

Definition init_config : list thread * shared :=
  ([], {| sh_entries := ∅; sh_heap := ∅; sh_log := [] |}).

Definition reachable : list thread * shared → Prop := rtc step init_config.

(** ** The graph *)

Definition known (s : string) : Prop :=
  s = StatePrimary ∨ s = StateSecondary ∨ s = StateDraining ∨ s = StateBothDown.

Lemma isValidTransition_spec from to :
  isValidTransition from to = true ↔
  known from ∧ known to ∧ from ≠ to ∧ ¬ (from = StateBothDown ∧ to = StateDraining).
Proof.
  unfold isValidTransition, known.
  destruct (String.eqb_spec from StatePrimary) as [->|];
  [|destruct (String.eqb_spec from StateSecondary) as [->|];
  [|destruct (String.eqb_spec from StateDraining) as [->|];
  [|destruct (String.eqb_spec from StateBothDown) as [->|]]]];
  rewrite ?orb_true_iff, ?String.eqb_eq; try (split; [done|tauto]);
  (split; [intros Hto; destruct_or!; subst; split_and!; auto; try discriminate;
           intros [? ?]; discriminate|]);
  intros (_ & Hto & Hne & Hbd); destruct_or!; subst; auto; try done; exfalso; by apply Hbd.
Qed.

Definition valid_edge (from to : string) : Prop := isValidTransition from to = true.

(** ** What a call does to the states *)

Lemma SM_Transition_state {W} bu to reason (sm : StateMachine W) w :
  valid_edge (State sm bu) to →
  let '(_, sm', _) := SM_Transition bu to reason sm w in State sm' bu = to.
Proof.
  unfold SM_Transition, State, valid_edge. destruct (sm_entries sm !! bu) as [s|] eqn:E.
  - intros Hv. destruct (String.eqb_spec s to) as [->|]; [by rewrite E|]. rewrite Hv.
    cbn. by rewrite lookup_insert, decide_True.
  - intros _. cbn. by rewrite lookup_insert, decide_True.
Qed.

(** Other BUs and the registered callbacks are left alone. *)
Lemma SM_Transition_frame {W} bu to reason (sm : StateMachine W) w :
  let '(_, sm', _) := SM_Transition bu to reason sm w in
  sm_callbacks sm' = sm_callbacks sm ∧
  ∀ bu', bu' ≠ bu → sm_entries sm' !! bu' = sm_entries sm !! bu'.
Proof.
  unfold SM_Transition. destruct (sm_entries sm !! bu) as [s|] eqn:E.
  - repeat case_if; split; try done. intros bu' ?. cbn. by rewrite lookup_insert_ne.
  - split; [done|]. intros bu' ?. cbn. by rewrite lookup_insert_ne.
Qed.

(** ** The invariant of the interleavings *)

Definition thread_ok (sh : shared) (t : thread) : Prop :=
  match th_pc t with
  | PRead l => is_Some (sh_heap sh !! l)
  | PCommit l from => is_Some (sh_heap sh !! l) ∧ valid_edge from (th_to t)
  | PFire tr => tr_From tr = ""%string ∨ valid_edge (tr_From tr) (tr_To tr)
  | _ => True
  end.

Definition inv (c : list thread * shared) : Prop :=
  (∀ bu l, sh_entries (snd c) !! bu = Some l → is_Some (sh_heap (snd c) !! l)) ∧
  (∀ i t, fst c !! i = Some t → thread_ok (snd c) t) ∧
  (∀ tr, tr ∈ sh_log (snd c) → tr_From tr = ""%string ∨ valid_edge (tr_From tr) (tr_To tr)).

(** Entries are only ever added or moved along an edge. *)
Definition heap_step (h h' : gmap nat string) : Prop :=
  ∀ l s, h !! l = Some s → ∃ s', h' !! l = Some s' ∧ (s' = s ∨ valid_edge s s').

Lemma thread_ok_mono sh sh' t :
  heap_step (sh_heap sh) (sh_heap sh') → thread_ok sh t → thread_ok sh' t.
Proof.
  intros Hh. assert (∀ l, is_Some (sh_heap sh !! l) → is_Some (sh_heap sh' !! l)) as Hs.
  { intros l [s Hs]. destruct (Hh l s Hs) as (s' & -> & _). eauto. }
  unfold thread_ok. destruct (th_pc t); naive_solver.
Qed.

Lemma heap_step_refl h : heap_step h h.
Proof. intros l s Hs. eauto. Qed.

Lemma alloc_heap_step bu state sh : heap_step (sh_heap sh) (sh_heap (alloc bu state sh)).
Proof.
  intros l s Hs. exists s. split; [|by left]. unfold alloc; cbn [sh_heap].
  rewrite lookup_insert_ne; [done|]. intros <-.
  apply (is_fresh (dom (sh_heap sh))). apply elem_of_dom. eauto.
Qed.

Lemma thread_step_ok t sh t' sh' :
  thread_step t sh = (t', sh') →
  (∀ bu l, sh_entries sh !! bu = Some l → is_Some (sh_heap sh !! l)) →
  thread_ok sh t →
  heap_step (sh_heap sh) (sh_heap sh') ∧ thread_ok sh' t' ∧
  (∀ bu l, sh_entries sh' !! bu = Some l → is_Some (sh_heap sh' !! l)) ∧
  (∀ tr, tr ∈ sh_log sh' → tr ∈ sh_log sh ∨ tr_From tr = ""%string ∨
                             valid_edge (tr_From tr) (tr_To tr)).
Proof.
  unfold thread_step, thread_ok. intros Hs He Hok. destruct (th_pc t) eqn:Ep.
  - destruct (sh_entries sh !! th_bu t) eqn:El; simplify_eq; cbn [at_pc th_pc];
      split_and!; eauto using heap_step_refl.
  - destruct (sh_entries sh !! th_bu t) eqn:El; simplify_eq; cbn [at_pc th_pc tr_From];
      split_and!; eauto using heap_step_refl, alloc_heap_step.
    intros bu l. unfold alloc; cbn [sh_entries sh_heap].
    rewrite lookup_insert_Some. intros [[_ <-]|[_ Hl]]; [by rewrite lookup_insert, decide_True|].
    destruct (He _ _ Hl) as [s Hs]. destruct (alloc_heap_step (th_bu t) (th_to t) sh l s Hs)
      as (s' & Hs' & _). unfold alloc in Hs'; cbn [sh_heap] in Hs'. eauto.
  - destruct (sh_heap sh !! l) as [from|] eqn:El; [|by apply is_Some_None in Hok].
    destruct (String.eqb_spec from (th_to t)); [simplify_eq; cbn [at_pc th_pc];
      split_and!; eauto using heap_step_refl|].
    destruct (isValidTransition from (th_to t)) eqn:Ev; cbn [negb] in Hs; simplify_eq;
      cbn [at_pc th_pc th_to]; split_and!; eauto using heap_step_refl.
  - destruct Hok as [[cur El] Hv]. rewrite El in Hs.
    destruct (String.eqb_spec cur from) as [Heq|Hne]; cbn [negb] in Hs; simplify_eq;
      cbn [at_pc th_pc tr_From tr_To sh_heap sh_entries sh_log]; split_and!;
      eauto using heap_step_refl.
    + intros l' s Hl'. rewrite lookup_insert. case_decide; [subst|by eauto].
      exists (th_to t). split; [done|]. right. congruence.
    + intros bu l' Hl'. rewrite lookup_insert. case_decide; [done|]. eauto.
  - simplify_eq. cbn [at_pc th_pc sh_log sh_heap sh_entries].
    split_and!; eauto using heap_step_refl.
    intros tr [?|Hin]%elem_of_app; [by left|]. apply list_elem_of_singleton in Hin as ->. by right.
  - simplify_eq. split_and!; eauto using heap_step_refl. by rewrite Ep.
Qed.

Lemma inv_init : inv init_config.
Proof.
  split_and!; cbn.
  - intros bu l. by rewrite lookup_empty.
  - done.
  - intros tr Hin. by apply not_elem_of_nil in Hin.
Qed.

Lemma step_heap c c' : inv c → step c c' → heap_step (sh_heap (snd c)) (sh_heap (snd c')).
Proof.
  intros (He & Ht & _) Hs. destruct Hs as [ts i t sh t' sh' Hi Hstep| | |]; cbn [fst snd] in *;
    eauto using heap_step_refl, alloc_heap_step.
  by apply (thread_step_ok t sh t' sh' Hstep He), (Ht i).
Qed.

Lemma inv_step c c' : inv c → step c c' → inv c'.
Proof.
  intros Hinv Hs. pose proof (step_heap _ _ Hinv Hs) as Hh. destruct Hinv as (He & Ht & Hl).
  destruct Hs as [ts i t sh t' sh' Hi Hstep|ts sh bu to reason|ts sh bu state Hnone|ts sh bu];
    unfold inv; cbn [fst snd] in *.
  - destruct (thread_step_ok t sh t' sh' Hstep He (Ht i t Hi)) as (_ & Hok & He' & Hl').
    split_and!; [done| |naive_solver].
    intros j tj. rewrite list_lookup_insert_Some.
    intros [(<- & <- & _)|(? & Hj)]; [done|]. eapply thread_ok_mono; eauto.
  - split_and!; [done| |done]. intros j tj.
    rewrite lookup_app_Some. intros [?|[_ Hj]]; [by eapply Ht|].
    destruct (j - length ts)%nat as [|n] in Hj; cbn in Hj; [by simplify_eq|].
    by destruct n.
  - split_and!; [|intros j tj Hj; eapply thread_ok_mono; eauto|done].
    intros bu' l. unfold alloc; cbn [sh_entries sh_heap].
    rewrite lookup_insert_Some. intros [[_ <-]|[_ Hl']]; [by rewrite lookup_insert, decide_True|].
    destruct (He _ _ Hl') as [s Hs]. destruct (Hh l s Hs) as (s' & Hs' & _). eauto.
  - split_and!; [|intros j tj Hj; eapply thread_ok_mono; eauto|done].
    intros bu' l Hl'. cbn [sh_entries] in Hl'. apply lookup_delete_Some in Hl' as [_ Hl']. eauto.
Qed.

Lemma reachable_inv c : reachable c → inv c.
Proof.
  intros H. unfold reachable in H. remember init_config as c0.
  assert (inv c0) by (subst; apply inv_init). clear Heqc0.
  induction H; eauto using inv_step.
Qed.

(** ** The steps, run without interference *)

(** The map of states the pointers stand for. *)
Definition view (sh : shared) : gmap string string :=
  omap (λ l, sh_heap sh !! l) (sh_entries sh).

(** Every linked entry exists and no two BUs share one. *)
Definition well_linked (sh : shared) : Prop :=
  (∀ bu l, sh_entries sh !! bu = Some l → is_Some (sh_heap sh !! l)) ∧
  (∀ b1 b2 l, sh_entries sh !! b1 = Some l → sh_entries sh !! b2 = Some l → b1 = b2).

Lemma view_lookup sh bu :
  view sh !! bu = sh_entries sh !! bu ≫= λ l, sh_heap sh !! l.
Proof. apply lookup_omap. Qed.

Lemma view_alloc sh bu state :
  well_linked sh → sh_entries sh !! bu = None →
  view (alloc bu state sh) = <[bu := state]> (view sh).
Proof.
  intros [He _] Hn. apply map_eq. intros b. rewrite view_lookup. unfold alloc;
    cbn [sh_entries sh_heap]. rewrite !lookup_insert. case_decide as Hb.
  - cbn. by rewrite lookup_insert, decide_True.
  - rewrite view_lookup. destruct (sh_entries sh !! b) as [l|] eqn:El; [|done]. cbn.
    destruct (He _ _ El) as [s Hs]. rewrite lookup_insert_ne; [done|].
    intros <-. apply (is_fresh (dom (sh_heap sh))), elem_of_dom. eauto.
Qed.

Lemma view_update sh bu l state log :
  well_linked sh → sh_entries sh !! bu = Some l →
  view {| sh_entries := sh_entries sh; sh_heap := <[l := state]> (sh_heap sh); sh_log := log |}
  = <[bu := state]> (view sh).
Proof.
  intros [_ Hinj] Hl. apply map_eq. intros b. rewrite view_lookup; cbn [sh_entries sh_heap].
  rewrite !lookup_insert. case_decide as Hb; [subst; rewrite Hl; cbn; by rewrite lookup_insert, decide_True|].
  rewrite view_lookup. destruct (sh_entries sh !! b) as [l'|] eqn:El; [|done]. cbn.
  rewrite lookup_insert_ne; [done|]. intros <-. apply Hb. by eapply Hinj.
Qed.

(** [n] steps of one thread. *)
Fixpoint solo (n : nat) (t : thread) (sh : shared) : thread * shared :=
  match n with
  | O => (t, sh)
  | S n => let '(t, sh) := thread_step t sh in solo n t sh
  end.

Ltac solo_step tac :=
  cbn [solo]; unfold thread_step at 1;
  cbn [at_pc th_pc th_bu th_to th_reason]; tac; cbn [negb at_pc th_pc th_bu th_to th_reason].

(** ** Properties *)

(** C11: no interleaving breaks the state graph.  In every reachable state of
    any number of concurrent [Transition]s with concurrent [Initialize] and
    [Remove], the next step leaves each existing entry as it is or moves it to a
    different state along an edge of the documented graph (between known states,
    and never from BOTH_DOWN to DRAINING); and every callback reports such an
    edge or the creation of an entry. *)
Theorem Transition_interleavings ts sh ts' sh' :
  reachable (ts, sh) → step (ts, sh) (ts', sh') →
  let edge from to := known from ∧ known to ∧ from ≠ to ∧
                      ¬ (from = StateBothDown ∧ to = StateDraining) in
  (∀ l s, sh_heap sh !! l = Some s →
     ∃ s', sh_heap sh' !! l = Some s' ∧ (s' = s ∨ edge s s')) ∧
  (∀ tr, tr ∈ sh_log sh' → tr_From tr = ""%string ∨ edge (tr_From tr) (tr_To tr)).
Proof.
  intros Hr Hs edge. pose proof (reachable_inv _ Hr) as Hinv. split.
  - intros l s Hl. destruct (step_heap _ _ Hinv Hs l s Hl) as (s' & ? & [?|Hv]);
      exists s'; [auto|]. apply isValidTransition_spec in Hv. auto.
  - intros tr Htr. destruct (inv_step _ _ Hinv Hs) as (_ & _ & Hl).
    destruct (Hl tr Htr) as [?|Hv]; [auto|]. apply isValidTransition_spec in Hv. auto.
Qed.

(** A [Transition] that nothing interferes with takes at most four critical
    sections and has the effect of the sequential function: the same error, the
    same states of every BU, and one callback exactly when the state changed. *)
Theorem Transition_refines bu to reason (sm : StateMachine (list Transition)) sh :
  well_linked sh → view sh = sm_entries sm → sm_callbacks sm = [λ t log, log ++ [t]] →
  let '(err, sm', log') := SM_Transition bu to reason sm (sh_log sh) in
  ∃ t' sh', solo 4 {| th_bu := bu; th_to := to; th_reason := reason; th_pc := PLookup |} sh
            = (t', sh') ∧
    th_pc t' = PDone err ∧ view sh' = sm_entries sm' ∧ sh_log sh' = log'.
Proof.
  intros Hwl Hv Hcb. unfold SM_Transition. rewrite <- Hv, view_lookup.
  destruct (sh_entries sh !! bu) as [l|] eqn:El; cbn [mbind option_bind].
  - destruct (proj1 Hwl _ _ El) as [from Hl]. rewrite Hl.
    solo_step ltac:(rewrite El). solo_step ltac:(rewrite Hl).
    destruct (String.eqb_spec from to) as [->|Hne]; [by do 2 eexists; split_and!|].
    destruct (isValidTransition from to); cbn [negb]; [|by do 2 eexists; split_and!].
    solo_step ltac:(rewrite Hl, String.eqb_refl). solo_step idtac.
    do 2 eexists. split; [done|]. cbn [at_pc th_pc sh_log].
    split_and!; [done|exact (view_update sh bu l to _ Hwl El)|].
    unfold fireCallbacks; cbn [with_entries sm_callbacks]. by rewrite Hcb.
  - solo_step ltac:(rewrite El). solo_step ltac:(rewrite El). solo_step idtac.
    do 2 eexists. split; [done|]. cbn [at_pc th_pc sh_log].
    split_and!; [done|exact (view_alloc sh bu to Hwl El)|].
    unfold fireCallbacks; cbn [with_entries sm_callbacks]. by rewrite Hcb.
Qed.

(** A BU in BOTH_DOWN with a caller about to commit a transition. *)
Lemma Transition_interleavings_witness :
  ∃ ts sh ts' sh', reachable (ts, sh) ∧ step (ts, sh) (ts', sh') ∧
    (∀ tr, tr ∈ sh_log sh' → tr_From tr = ""%string ∨
       known (tr_From tr) ∧ known (tr_To tr) ∧ tr_From tr ≠ tr_To tr ∧
       ¬ (tr_From tr = StateBothDown ∧ tr_To tr = StateDraining)).
Proof.
  set (sh0 := snd init_config).
  exists [], (alloc "bu1" StateBothDown sh0), [],
    {| sh_entries := delete "bu1"%string (sh_entries (alloc "bu1" StateBothDown sh0));
       sh_heap := sh_heap (alloc "bu1" StateBothDown sh0);
       sh_log := sh_log (alloc "bu1" StateBothDown sh0) |}.
  assert (reachable ([], alloc "bu1" StateBothDown sh0)) as Hr
    by (apply rtc_once, step_initialize; reflexivity).
  split; [exact Hr|]. split; [apply step_remove|].
  refine (proj2 (Transition_interleavings _ _ _ _ Hr (step_remove [] _ "bu1"))).
Defined.

Lemma Transition_refines_witness :
  ∃ t' sh', solo 4 {| th_bu := "bu1"; th_to := StatePrimary; th_reason := ReasonRecovery;
                      th_pc := PLookup |} (snd init_config) = (t', sh') ∧
    th_pc t' = PDone None ∧ view sh' !! "bu1"%string = Some StatePrimary.
Proof.
  destruct (Transition_refines "bu1" StatePrimary ReasonRecovery
              {| sm_entries := ∅; sm_callbacks := [λ t log, log ++ [t]] |} (snd init_config))
    as (t' & sh' & Hs & Hp & Hv & _).
  - split; cbn; intros *; rewrite lookup_empty; discriminate.
  - reflexivity.
  - reflexivity.
  - exists t', sh'. split; [exact Hs|]. split; [exact Hp|]. rewrite Hv. reflexivity.
Defined.
