(* ===== verification/Sticky.v ===== *)
(** * Sticky routing ([internal/routing/sticky.go])

    Each partition of a load_balance cluster has one owner, chosen by a hash of
    topic and partition against the primary's weight. *)

From S2P Require Import Prelude Bytes Config.

(** FNV-1a, 64 bits ([hash/fnv]). *)
Definition fnv_offset64 : Z := 14695981039346656037.
Definition fnv_prime64 : Z := 1099511628211.

Definition fnv1a (h : Z) (b : bytes) : Z :=
  foldl (λ h c, uint64 (Z.lxor h (Z_of_byte c) * fnv_prime64)) h b.

Definition StickyHash (topic : string) (partition : Z) : Z :=
  let h := fnv1a fnv_offset64 (bytes_of topic) in
  let h := fnv1a h (be32 (uint32 partition)) in
  h `mod` 100.

Definition selectClusterByWeight (cfg : ClusterConfig) (primaryW secondaryW : Z)
    (topic : string) (partition : Z) : string * string :=
  let hash := StickyHash topic partition in
  if hash <? primaryW then ("primary"%string, ep_Bootstrap (cl_Primary cfg))
  else ("secondary"%string, ep_Bootstrap (cl_Secondary cfg)).

Definition stickyHash (key : string) : Z := fnv1a fnv_offset64 (bytes_of key) `mod` 100.

Definition selectClusterByWeightLegacy (cfg : ClusterConfig) (primaryW secondaryW : Z)
    (key : string) : string * string :=
  let hash := stickyHash key in
  if hash <? primaryW then ("primary"%string, ep_Bootstrap (cl_Primary cfg))
  else ("secondary"%string, ep_Bootstrap (cl_Secondary cfg)).

Lemma StickyHash_range topic partition : 0 ≤ StickyHash topic partition < 100.
Proof. unfold StickyHash. apply Z.mod_pos_bound. lia. Qed.

(** The published FNV-1a test vectors. *)
Example fnv1a_empty : fnv1a fnv_offset64 [] = 0xcbf29ce484222325.
Proof. reflexivity. Qed.
Example fnv1a_foobar : fnv1a fnv_offset64 (bytes_of "foobar") = 0x85944171f73967e8.
Proof. vm_compute. reflexivity. Qed.

(** ** Properties *)

(** Partition ownership is consistent.  With the primary at weight 0 every
    partition belongs to the secondary, at 100 to the primary; raising the
    primary's weight moves partitions to the primary only, so a partition whose
    owner is the same at two weights keeps it at every weight in between; and the
    weight at which a partition changes hands is the one number in 1..100 that
    its hash determines. *)
Theorem selectClusterByWeight_consistent cfg topic partition :
  let owner w := fst (selectClusterByWeight cfg w (100 - w) topic partition) in
  owner 0 = "secondary"%string ∧ owner 100 = "primary"%string ∧
  (∀ w w', w ≤ w' → owner w = "primary"%string → owner w' = "primary"%string) ∧
  (∃ t, 1 ≤ t ≤ 100 ∧ ∀ w, owner w = if t <=? w then "primary"%string else "secondary"%string) ∧
  (∀ w, snd (selectClusterByWeight cfg w (100 - w) topic partition) =
     if String.eqb (owner w) "primary" then ep_Bootstrap (cl_Primary cfg)
     else ep_Bootstrap (cl_Secondary cfg)).
Proof.
  intros owner. pose proof (StickyHash_range topic partition) as Hr.
  assert (∀ w, owner w = if StickyHash topic partition + 1 <=? w then "primary"%string
                       else "secondary"%string)
    as Ho.
  { intros w. unfold owner, selectClusterByWeight.
    destruct (Z.ltb_spec (StickyHash topic partition) w),
      (Z.leb_spec (StickyHash topic partition + 1) w); done || lia. }
  split_and!.
  - rewrite Ho. destruct (Z.leb_spec (StickyHash topic partition + 1) 0); [lia|done].
  - rewrite Ho. destruct (Z.leb_spec (StickyHash topic partition + 1) 100); [done|lia].
  - intros w w' Hw. rewrite !Ho.
    destruct (Z.leb_spec (StickyHash topic partition + 1) w),
      (Z.leb_spec (StickyHash topic partition + 1) w'); done || lia.
  - exists (StickyHash topic partition + 1). split; [lia|done].
  - intros w. unfold owner, selectClusterByWeight. by case_if.
Qed.
