(* ===== verification/Cache.v ===== *)
(** * The partition-leader cache interface ([internal/routing/cache.go])

    The interface the router is written against, with the laws it relies on,
    and the flat in-memory implementation.  The laws are stated for the cluster
    names an implementation supports. *)

From Stdlib Require Import DecimalString DecimalZ.
From S2P Require Import Prelude Bytes Conn.

(** [RefreshMetadata] is given the outcome of dialling the cluster. *)
Class PartitionLeaderCache (C : Type) := {
  GetLeader : C → string → string → Z → option string;
  SetLeader : string → string → Z → string → C → C;
  Invalidate : string → C → C;
  RefreshMetadata : string → res conn → C → res unit * C
}.

Class LawfulCache (C : Type) `{PartitionLeaderCache C} (supported : string → Prop) := {
  get_set : ∀ (c : C) cluster topic partition addr, supported cluster →
    GetLeader (SetLeader cluster topic partition addr c) cluster topic partition = Some addr;
  get_set_ne : ∀ (c : C) cluster topic partition addr cluster' topic' partition',
    supported cluster → supported cluster' →
    (cluster, topic, partition) ≠ (cluster', topic', partition') →
    GetLeader (SetLeader cluster topic partition addr c) cluster' topic' partition' =
    GetLeader c cluster' topic' partition';
  get_invalidate : ∀ (c : C) cluster topic partition, supported cluster →
    GetLeader (Invalidate cluster c) cluster topic partition = None;
  get_invalidate_ne : ∀ (c : C) cluster cluster' topic partition,
    supported cluster → supported cluster' → cluster ≠ cluster' →
    GetLeader (Invalidate cluster c) cluster' topic partition =
    GetLeader c cluster' topic partition;
  refresh_safe : ∀ (c : C) cluster dialed, safe dialed →
    safe (fst (RefreshMetadata cluster dialed c));
  refresh_failed : ∀ (c : C) cluster dialed,
    is_ok (fst (RefreshMetadata cluster dialed c)) = false →
    snd (RefreshMetadata cluster dialed c) = c;
  refresh_ne : ∀ (c : C) cluster dialed cluster' topic partition,
    supported cluster → supported cluster' → cluster ≠ cluster' →
    GetLeader (snd (RefreshMetadata cluster dialed c)) cluster' topic partition =
    GetLeader c cluster' topic partition
}.

(** ** The flat map *)

(** [fmt.Sprintf("%d", z)]. *)
Definition itoa (z : Z) : string := NilZero.string_of_int (Z.to_int z).

Record MapPartitionLeaderCache := { mc_data : gmap string string }.

Definition NewMapPartitionLeaderCache : MapPartitionLeaderCache := {| mc_data := ∅ |}.

Definition key (cluster topic : string) (partition : Z) : string :=
  (cluster ++ "/" ++ topic ++ "/" ++ itoa partition)%string.

Definition Map_GetLeader (c : MapPartitionLeaderCache) (cluster topic : string) (partition : Z)
    : option string := mc_data c !! key cluster topic partition.

Definition Map_SetLeader (cluster topic : string) (partition : Z) (brokerAddr : string)
    (c : MapPartitionLeaderCache) : MapPartitionLeaderCache :=
  {| mc_data := <[key cluster topic partition := brokerAddr]> (mc_data c) |}.

Definition Map_Invalidate (cluster : string) (c : MapPartitionLeaderCache)
    : MapPartitionLeaderCache :=
  let prefix := (cluster ++ "/")%string in
  {| mc_data := filter (λ '(k, _), String.prefix prefix k = false) (mc_data c) |}.

Definition Map_RefreshMetadata (cluster : string) (dialed : res conn) (c : MapPartitionLeaderCache)
    : res unit * MapPartitionLeaderCache :=
  (Err (Errorf "metadata refresh not yet implemented for cluster"), c).

#[export] Instance map_cache : PartitionLeaderCache MapPartitionLeaderCache :=
  {| GetLeader := Map_GetLeader; SetLeader := Map_SetLeader; Invalidate := Map_Invalidate;
     RefreshMetadata := Map_RefreshMetadata |}.

(** ** Its keys *)

Definition slash : Ascii.ascii := Ascii.ascii_of_nat 47.

Fixpoint has_slash (s : string) : bool :=
  match s with
  | EmptyString => false
  | String c s => Ascii.eqb c slash || has_slash s
  end.

Lemma has_slash_app s t : has_slash (s ++ t) = has_slash s || has_slash t.
Proof. induction s as [|c s IH]; [done|].
  change (Ascii.eqb c slash || has_slash (s ++ t) = Ascii.eqb c slash || has_slash s || has_slash t).
  by rewrite IH, orb_assoc. Qed.

(** The part before the first slash... *)
Lemma first_slash_inj s s' t t' :
  has_slash s = false → has_slash s' = false →
  (s ++ "/" ++ t = s' ++ "/" ++ t')%string → s = s' ∧ t = t'.
Proof.
  revert s'. induction s as [|c s IH]; intros [|c' s'] Hs Hs'; cbn in *.
  - by intros [=].
  - intros [= <- _]. by rewrite Ascii.eqb_refl in Hs'.
  - intros [= -> _]. by rewrite Ascii.eqb_refl in Hs.
  - apply orb_false_iff in Hs as [_ Hs], Hs' as [_ Hs'].
    intros [= -> Heq]. destruct (IH s' Hs Hs' Heq) as [-> ->]. done.
Qed.

(** ... and after the last one. *)
Lemma last_slash_inj s s' t t' :
  has_slash t = false → has_slash t' = false →
  (s ++ "/" ++ t = s' ++ "/" ++ t')%string → s = s' ∧ t = t'.
Proof.
  intros Ht Ht'. revert s'. induction s as [|c s IH]; intros [|c' s']; cbn.
  - by intros [=].
  - intros H. injection H as _ H. change ("" ++ t)%string with t in H. subst t.
    by rewrite has_slash_app, orb_true_r in Ht.
  - intros H. injection H as _ H. change ("" ++ t')%string with t' in H. subst t'.
    by rewrite has_slash_app, orb_true_r in Ht'.
  - intros [= -> Heq]. destruct (IH s' Heq) as [-> ->]. done.
Qed.

Lemma uint_no_slash d : has_slash (NilEmpty.string_of_uint d) = false.
Proof. by induction d. Qed.

Lemma itoa_no_slash z : has_slash (itoa z) = false.
Proof.
  unfold itoa, NilZero.string_of_int, NilZero.string_of_uint.
  destruct (Z.to_int z) as [d|d]; destruct d; try done; cbn; apply uint_no_slash.
Qed.

Lemma itoa_roundtrip z : NilZero.int_of_string (itoa z) = Some (Z.to_int z).
Proof.
  apply NilZero.isi; destruct z as [|p|p]; cbn; try done;
    intros [= H]; by apply DecimalPos.Unsigned.to_uint_nonnil in H.
Qed.

Lemma itoa_inj z z' : itoa z = itoa z' → z = z'.
Proof.
  intros H. apply (f_equal NilZero.int_of_string) in H. rewrite !itoa_roundtrip in H.
  injection H as H. by rewrite <- (DecimalZ.of_to z), <- (DecimalZ.of_to z'), H.
Qed.

Lemma key_inj cluster cluster' topic topic' partition partition' :
  has_slash cluster = false → has_slash cluster' = false →
  key cluster topic partition = key cluster' topic' partition' →
  (cluster, topic, partition) = (cluster', topic', partition').
Proof.
  intros Hc Hc' H. apply first_slash_inj in H as [-> H]; [|done..].
  apply last_slash_inj in H as [-> H]; [|apply itoa_no_slash..].
  by apply itoa_inj in H as ->.
Qed.

Lemma prefix_spec s t : String.prefix s t = true ↔ ∃ u, t = (s ++ u)%string.
Proof.
  revert t. induction s as [|c s IH]; intros t.
  - split; [by exists t|]. by destruct t.
  - destruct t as [|c' t]; cbn [String.prefix]; [split; [done|by intros [u H]]|].
    destruct (Ascii.ascii_dec c c') as [->|Hne].
    + rewrite IH. split; intros [u H]; exists u; [by rewrite H|].
      by injection H as H.
    + split; [done|]. intros [u H]. by injection H as H _.
Qed.

Lemma string_app_assoc s t u : ((s ++ t) ++ u = s ++ t ++ u)%string.
Proof.
  induction s as [|c s IH]; [done|].
  change (String c ((s ++ t) ++ u) = String c (s ++ t ++ u))%string. by rewrite IH.
Qed.

Lemma prefix_key cluster cluster' topic partition :
  has_slash cluster = false → has_slash cluster' = false →
  String.prefix (cluster ++ "/") (key cluster' topic partition) = true ↔ cluster = cluster'.
Proof.
  intros Hc Hc'. rewrite prefix_spec. unfold key. split.
  - intros [u H]. rewrite string_app_assoc in H. by apply first_slash_inj in H as [-> _].
  - intros ->. eexists. by rewrite string_app_assoc.
Qed.

(** Bootstrap addresses are [host:port]; a name with a slash is not one. *)
#[export] Instance map_cache_lawful :
  LawfulCache MapPartitionLeaderCache (λ cluster, has_slash cluster = false).
Proof.
  split; cbn [GetLeader SetLeader Invalidate RefreshMetadata map_cache];
    unfold Map_GetLeader, Map_SetLeader, Map_Invalidate; cbn [mc_data].
  - intros. by rewrite lookup_insert, decide_True.
  - intros c cl t p addr cl' t' p' Hc Hc' Hne. rewrite lookup_insert_ne; [done|].
    intros Hk. by apply Hne, key_inj.
  - intros c cl t p Hc. apply map_lookup_filter_None. right. intros x _ Hp.
    rewrite (proj2 (prefix_key cl cl t p Hc Hc)) in Hp; done.
  - intros c cl cl' t p Hc Hc' Hne. apply option_eq. intros a.
    rewrite map_lookup_filter_Some. split; [by intros []|]. intros Ha. split; [done|].
    destruct (String.prefix _ _) eqn:E; [|done]. by apply prefix_key in E.
  - done.
  - done.
  - done.
Qed.
