(* ===== verification/LeaderCache.v ===== *)
(** * The partition-leader cache ([internal/pool/leader_cache.go])

    Leaders by cluster bootstrap, topic and partition, refreshed from the
    clusters' Metadata responses (version 0).  The dialled connection of a
    refresh is an argument; the background goroutine of a cluster is the pending
    flag of its [clusterRefresher] and the two events of [refreshLoop]. *)

From S2P Require Import Prelude Bytes Conn Config Health Cache.

Definition DefaultRefreshInterval : duration := 30 * second.
Definition MaxMetadataResponseSize : Z := Z.shiftl 10 20.
Definition KafkaMetadata : Z := 3.

Record saslCred := { sc_user : string; sc_pass : string }.

(** [rf_trigger]: whether the one-slot trigger channel is full. *)
Record clusterRefresher := { rf_trigger : bool }.

Abbreviation topic_leaders := (gmap string (gmap Z string)).

Record LeaderCache := {
  lc_leaders : gmap string topic_leaders;
  lc_refreshInterval : duration;
  lc_refreshers : gmap string clusterRefresher;
  lc_bootstrapCreds : gmap string saslCred
}.

Definition NewPartitionLeaderCache : LeaderCache :=
  {| lc_leaders := ∅; lc_refreshInterval := DefaultRefreshInterval; lc_refreshers := ∅;
     lc_bootstrapCreds := ∅ |}.

Definition with_leaders (l : gmap string topic_leaders) (c : LeaderCache) : LeaderCache :=
  {| lc_leaders := l; lc_refreshInterval := lc_refreshInterval c;
     lc_refreshers := lc_refreshers c; lc_bootstrapCreds := lc_bootstrapCreds c |}.

Definition with_refreshers (r : gmap string clusterRefresher) (c : LeaderCache) : LeaderCache :=
  {| lc_leaders := lc_leaders c; lc_refreshInterval := lc_refreshInterval c;
     lc_refreshers := r; lc_bootstrapCreds := lc_bootstrapCreds c |}.

(** ** Lookups and updates *)

Definition getLeaderLocked (c : LeaderCache) (cluster topic : string) (partition : Z)
    : option string :=
  topics ← lc_leaders c !! cluster;
  partitions ← topics !! topic;
  partitions !! partition.

Definition LC_SetLeader (cluster topic : string) (partition : Z) (brokerAddr : string)
    (c : LeaderCache) : LeaderCache :=
  let topics := default ∅ (lc_leaders c !! cluster) in
  let partitions := default ∅ (topics !! topic) in
  with_leaders (<[cluster := <[topic := <[partition := brokerAddr]> partitions]> topics]>
                  (lc_leaders c)) c.

Definition LC_Invalidate (cluster : string) (c : LeaderCache) : LeaderCache :=
  with_leaders (delete cluster (lc_leaders c)) c.

(** ** Parsing Metadata responses *)

Fixpoint parse_brokers0 (count : nat) (body : bytes) (pos : Z) (brokerMap : gmap Z string)
    : res (gmap Z string * Z) :=
  match count with
  | O => Ok (brokerMap, pos)
  | S count =>
      check blen body <? pos + 10, Errorf "truncated at broker";;
      nodeID ← u32_at body pos; let nodeID := int32 nodeID in
      let pos := pos + 4 in
      hostLen ← u16_at body pos;
      let pos := pos + 2 in
      check blen body <? pos + hostLen, Errorf "truncated at broker host";;
      host ← slice body pos (pos + hostLen);
      let pos := pos + hostLen in
      check blen body <? pos + 4, Errorf "truncated at broker port";;
      port ← u32_at body pos;
      parse_brokers0 count body (pos + 4)
        (<[nodeID := (str host ++ ":" ++ itoa port)%string]> brokerMap)
  end.

Definition parsePartitionV0 (body : bytes) (start : Z) (brokerMap : gmap Z string)
    : res (Z * string * Z) :=
  let pos := start in
  check blen body <? pos + 2, Errorf "truncated at error code";;
  partErr ← u16_at body pos; let partErr := int16 partErr in
  let pos := pos + 2 in
  check blen body <? pos + 4, Errorf "truncated at partition index";;
  partIdx ← u32_at body pos; let partIdx := int32 partIdx in
  let pos := pos + 4 in
  check blen body <? pos + 4, Errorf "truncated at leader id";;
  leaderID ← u32_at body pos; let leaderID := int32 leaderID in
  let pos := pos + 4 in
  check blen body <? pos + 4, Errorf "truncated at replica count";;
  replicaCount ← u32_at body pos;
  let pos := pos + 4 in
  check blen body <? pos + replicaCount * 4, Errorf "truncated at replica list";;
  let pos := pos + replicaCount * 4 in
  check blen body <? pos + 4, Errorf "truncated at isr count";;
  isrCount ← u32_at body pos;
  let pos := pos + 4 in
  check blen body <? pos + isrCount * 4, Errorf "truncated at isr list";;
  let pos := pos + isrCount * 4 in
  let consumed := pos - start in
  if negb (partErr =? 0) then Ok (partIdx, ""%string, consumed)
  else match brokerMap !! leaderID with
       | None => Err (Errorf "partition references unknown leader broker ID")
       | Some addr => Ok (partIdx, addr, consumed)
       end.

Definition skipPartitionV0 (body : bytes) (start : Z) : res Z :=
  let pos := start in
  check blen body <? pos + 10, Errorf "truncated at skip partition start";;
  let pos := pos + 10 in
  check blen body <? pos + 4, Errorf "truncated at skip replica count";;
  replicaCount ← u32_at body pos;
  let pos := pos + (4 + replicaCount * 4) in
  check blen body <? pos + 4, Errorf "truncated at skip isr count";;
  isrCount ← u32_at body pos;
  let pos := pos + (4 + isrCount * 4) in
  Ok (pos - start).

Fixpoint skip_partitions0 (count : nat) (body : bytes) (pos : Z) : res Z :=
  match count with
  | O => Ok pos
  | S count =>
      adv ← wrap_err "skipping partition" (skipPartitionV0 body pos);
      skip_partitions0 count body (pos + adv)
  end.

Fixpoint parse_partitions0 (count : nat) (body : bytes) (pos : Z) (brokerMap : gmap Z string)
    (partitions : gmap Z string) : res (gmap Z string * Z) :=
  match count with
  | O => Ok (partitions, pos)
  | S count =>
      '(partIdx, leaderAddr, adv) ← wrap_err "parsing partition"
                                     (parsePartitionV0 body pos brokerMap);
      parse_partitions0 count body (pos + adv) brokerMap
        (if negb (String.eqb leaderAddr "") then <[partIdx := leaderAddr]> partitions
         else partitions)
  end.

Fixpoint parse_topics0 (count : nat) (body : bytes) (pos : Z) (brokerMap : gmap Z string)
    (leaders : topic_leaders) : res topic_leaders :=
  match count with
  | O => Ok leaders
  | S count =>
      check blen body <? pos + 2, Errorf "truncated at topic error code";;
      topicErr ← u16_at body pos; let topicErr := int16 topicErr in
      let pos := pos + 2 in
      check blen body <? pos + 2, Errorf "truncated at topic name length";;
      nameLen ← u16_at body pos;
      let pos := pos + 2 in
      check blen body <? pos + nameLen, Errorf "truncated at topic name";;
      topicName ← slice body pos (pos + nameLen);
      let pos := pos + nameLen in
      check blen body <? pos + 4, Errorf "truncated at topic partition count";;
      partCount ← u32_at body pos;
      let pos := pos + 4 in
      if negb (topicErr =? 0) then
        pos ← skip_partitions0 (Z.to_nat partCount) body pos;
        parse_topics0 count body pos brokerMap leaders
      else
        '(partitions, pos) ← parse_partitions0 (Z.to_nat partCount) body pos brokerMap ∅;
        parse_topics0 count body pos brokerMap (<[str topicName := partitions]> leaders)
  end.

Definition parseMetadataResponseV0 (body : bytes) : res topic_leaders :=
  check blen body <? 4, Errorf "response body too short";;
  let pos := 0 in
  _ ← u32_at body pos;
  let pos := pos + 4 in
  check blen body <? pos + 4, Errorf "truncated at broker count";;
  brokerCount ← u32_at body pos;
  let pos := pos + 4 in
  '(brokerMap, pos) ← parse_brokers0 (Z.to_nat brokerCount) body pos ∅;
  check blen body <? pos + 4, Errorf "truncated at topic count";;
  topicCount ← u32_at body pos;
  let pos := pos + 4 in
  parse_topics0 (Z.to_nat topicCount) body pos brokerMap ∅.

(** ** Refreshing *)

Definition metadata_clientID : string := "kafkaproxy-metadata".

Definition encodeMetadataRequestV0 : bytes :=
  let totalSize := 2 + 2 + 4 + 2 + slen metadata_clientID + 4 in
  be32 totalSize ++ be16 KafkaMetadata ++ be16 0 ++ be32 1 ++
  be16 (slen metadata_clientID) ++ bytes_of metadata_clientID ++ be32 0xFFFFFFFF.

Definition readKafkaResponse (maxSize : Z) : IO conn bytes :=
  sizeBuf ← wrap "read size prefix" (ReadFull 4);
  bodySize ← pure (Uint32 sizeBuf);
  if (bodySize <? 0) || (maxSize <? bodySize)
  then fail (Errorf "response body size out of range")
  else wrap "read response body" (read_make bodySize).

Definition LC_saslAuth (c : LeaderCache) (bootstrap : string) : IO conn unit :=
  match lc_bootstrapCreds c !! bootstrap with
  | None => mret tt
  | Some cred => if String.eqb (sc_user cred) "" then mret tt
                 else AuthenticatePlain (sc_user cred) (sc_pass cred)
  end.

Definition fetchMetadata (c : LeaderCache) (bootstrap : string) (dialed : res conn)
    : res topic_leaders :=
  conn ← wrap_err "dial" dialed;
  fst ((_ ← wrap "sasl auth" (LC_saslAuth c bootstrap);
        _ ← wrap "write request" (Write encodeMetadataRequestV0);
        resp ← wrap "read response" (readKafkaResponse MaxMetadataResponseSize);
        pure (parseMetadataResponseV0 resp)) conn).

Definition Refresh (clusterBootstrap : string) (dialed : res conn) (c : LeaderCache)
    : res unit * LeaderCache :=
  match wrap_err "refresh" (fetchMetadata c clusterBootstrap dialed) with
  | Ok leaders => (Ok tt, with_leaders (<[clusterBootstrap := leaders]> (lc_leaders c)) c)
  | Err err => (Err err, c)
  | Panic => (Panic, c)
  end.

Definition LC_RefreshMetadata := Refresh.

#[export] Instance leader_cache : PartitionLeaderCache LeaderCache :=
  {| GetLeader := getLeaderLocked; SetLeader := LC_SetLeader; Invalidate := LC_Invalidate;
     RefreshMetadata := LC_RefreshMetadata |}.

Definition StartBackgroundRefresh (clusterBootstrap : string) (c : LeaderCache) : LeaderCache :=
  match lc_refreshers c !! clusterBootstrap with
  | Some _ => c
  | None => with_refreshers (<[clusterBootstrap := {| rf_trigger := false |}]> (lc_refreshers c)) c
  end.

Definition StopBackgroundRefresh (clusterBootstrap : string) (c : LeaderCache) : LeaderCache :=
  with_refreshers (delete clusterBootstrap (lc_refreshers c)) c.

Definition StopAllBackgroundRefreshes (c : LeaderCache) : LeaderCache := with_refreshers ∅ c.

Definition TriggerRefresh (clusterBootstrap : string) (c : LeaderCache) : LeaderCache :=
  match lc_refreshers c !! clusterBootstrap with
  | None => c
  | Some _ => with_refreshers (<[clusterBootstrap := {| rf_trigger := true |}]> (lc_refreshers c)) c
  end.

(** The two cases of the loop's [select] that refresh. *)
Definition refresh_tick (bootstrap : string) (dialed : res conn) (c : LeaderCache)
    : res unit * LeaderCache :=
  if bool_decide (is_Some (lc_refreshers c !! bootstrap)) then Refresh bootstrap dialed c
  else (Ok tt, c).

Definition refresh_triggered (bootstrap : string) (dialed : res conn) (c : LeaderCache)
    : res unit * LeaderCache :=
  match lc_refreshers c !! bootstrap with
  | Some {| rf_trigger := true |} =>
      Refresh bootstrap dialed
        (with_refreshers (<[bootstrap := {| rf_trigger := false |}]> (lc_refreshers c)) c)
  | _ => (Ok tt, c)
  end.

Definition ActiveClusters (c : LeaderCache) : gset string := dom (lc_refreshers c).

Definition clusterBootstraps (cfg : ClusterConfig) : list string :=
  let prim := ep_Bootstrap (cl_Primary cfg) in
  let sec := ep_Bootstrap (cl_Secondary cfg) in
  if String.eqb (cl_Mode cfg) ModeLoadBalance || String.eqb (cl_Mode cfg) ModeActivePassive then
    (if negb (String.eqb prim "") then [prim] else []) ++
    (if negb (String.eqb sec "") then [sec] else [])
  else if String.eqb (cl_Mode cfg) ModeSingle then
    if negb (String.eqb prim "") then [prim] else []
  else [].

Definition cluster_creds (cluster : ClusterConfig) (creds : gmap string saslCred)
    : gmap string saslCred :=
  let user := hc_SaslUsername (cl_HealthCheck cluster) in
  let pass := hc_SaslPassword (cl_HealthCheck cluster) in
  if String.eqb user "" then creds
  else foldl (λ creds b, if negb (String.eqb b "") then
                           <[b := {| sc_user := user; sc_pass := pass |}]> creds
                         else creds) creds (clusterBootstraps cluster).

Definition ConfigureSASL (order : list (string * ClusterConfig)) (c : LeaderCache) : LeaderCache :=
  {| lc_leaders := lc_leaders c; lc_refreshInterval := lc_refreshInterval c;
     lc_refreshers := lc_refreshers c;
     lc_bootstrapCreds := foldl (λ creds '(_, cluster), cluster_creds cluster creds) ∅ order |}.

(** ** The wire form of a version 0 response *)

Record broker0 := { b0_id : Z; b0_host : string; b0_port : Z }.
Record partition0 := {
  p0_err : Z; p0_index : Z; p0_leader : Z; p0_replicas : list Z; p0_isr : list Z
}.
Record topic0 := { t0_err : Z; t0_name : string; t0_partitions : list partition0 }.

Definition wire_string (s : string) : bytes := be16 (slen s) ++ bytes_of s.
Definition wire_array {A} (wire : A → bytes) (l : list A) : bytes :=
  be32 (Z.of_nat (length l)) ++ concat (map wire l).

Definition wire_broker0 (b : broker0) : bytes :=
  be32 (b0_id b) ++ wire_string (b0_host b) ++ be32 (b0_port b).
Definition wire_partition0 (p : partition0) : bytes :=
  be16 (p0_err p) ++ be32 (p0_index p) ++ be32 (p0_leader p) ++
  wire_array be32 (p0_replicas p) ++ wire_array be32 (p0_isr p).
Definition wire_topic0 (t : topic0) : bytes :=
  be16 (t0_err t) ++ wire_string (t0_name t) ++ wire_array wire_partition0 (t0_partitions t).
Definition wire_metadata0 (corr : Z) (brokers : list broker0) (topics : list topic0) : bytes :=
  be32 corr ++ wire_array wire_broker0 brokers ++ wire_array wire_topic0 topics.

(** ** What it says about leaders *)

Definition broker_addr (b : broker0) : string := (b0_host b ++ ":" ++ itoa (b0_port b))%string.

(** The entries of a list with a value, later ones winning. *)
Definition collect {A K V} `{Countable K} (k : A → K) (v : A → option V) (l : list A)
    (m : gmap K V) : gmap K V :=
  foldl (λ m a, match v a with Some x => <[k a := x]> m | None => m end) m l.

Definition broker_map (bs : list broker0) : gmap Z string → gmap Z string :=
  collect b0_id (λ b, Some (broker_addr b)) bs.

Definition partition_leader (brokers : gmap Z string) (p : partition0) : option string :=
  if p0_err p =? 0 then brokers !! p0_leader p else None.

Definition partition_leaders (brokers : gmap Z string) (ps : list partition0)
    : gmap Z string → gmap Z string := collect p0_index (partition_leader brokers) ps.

Definition leaders_of (brokers : gmap Z string) (ts : list topic0)
    : topic_leaders → topic_leaders :=
  collect t0_name (λ t, if t0_err t =? 0
                        then Some (partition_leaders brokers (t0_partitions t) ∅) else None) ts.

Lemma collect_Some {A K V} `{Countable K} (k : A → K) (v : A → option V) l m i x :
  NoDup (map k l) →
  collect k v l m !! i = Some x ↔
  (∃ a, a ∈ l ∧ k a = i ∧ v a = Some x) ∨
  (m !! i = Some x ∧ ∀ a, a ∈ l → k a = i → v a = None).
Proof.
  revert m. induction l as [|a l IH]; intros m Hnd.
  - cbn. split; [intros Hm; right; split; [done|]; by intros a ?%not_elem_of_nil|].
    intros [(a & []%not_elem_of_nil & _)|[? _]]; done.
  - cbn [map] in Hnd. apply list.NoDup_cons in Hnd as [Hni Hnd]. unfold collect. cbn [foldl].
    fold (collect k v l (match v a with Some x => <[k a:=x]> m | None => m end)).
    rewrite IH by done. setoid_rewrite list.elem_of_cons.
    assert (∀ a', a' ∈ l → k a' ≠ k a) as Hne.
    { intros a' Hin Heq. apply Hni. rewrite <- Heq. by apply list_elem_of_fmap_2. }
    destruct (v a) as [y|] eqn:Ev.
    + rewrite lookup_insert_Some. split.
      * intros [(a' & ? & ? & ?)|[[[<- <-]|[Hk Hm]] Hall]]; [by left; eauto|by left; eauto|].
        right. split; [done|]. intros a' [->|Hin] Hka; [done|by apply Hall].
      * intros [(a' & [->|Hin] & Hka & Hva)|[Hm Hall]].
        -- right. split; [left; split; congruence|]. intros a' Hin Hka'. subst i.
           by apply Hne in Hin.
        -- left. eauto.
        -- right. split; [|auto]. right. split; [|done]. intros Hka.
           specialize (Hall a (or_introl eq_refl) Hka). congruence.
    + split.
      * intros [(a' & ? & ? & ?)|[Hm Hall]]; [by left; eauto|]. right. split; [done|].
        intros a' [->|Hin]; [done|by apply Hall].
      * intros [(a' & [->|Hin] & Hka & Hva)|[Hm Hall]]; [congruence|by left; eauto|].
        right. split; [done|]. auto.
Qed.

Definition small {A} (l : list A) : Prop := Z.of_nat (length l) < 4294967296.

Definition valid_broker0 (b : broker0) : Prop :=
  in_int32 (b0_id b) ∧ slen (b0_host b) < 65536 ∧ 0 ≤ b0_port b < 4294967296.
Definition valid_partition0 (brokers : gmap Z string) (p : partition0) : Prop :=
  in_int16 (p0_err p) ∧ in_int32 (p0_index p) ∧ in_int32 (p0_leader p) ∧
  small (p0_replicas p) ∧ small (p0_isr p) ∧
  (p0_err p = 0 → is_Some (brokers !! p0_leader p)).
Definition valid_topic0 (brokers : gmap Z string) (t : topic0) : Prop :=
  in_int16 (t0_err t) ∧ slen (t0_name t) < 65536 ∧ small (t0_partitions t) ∧
  Forall (valid_partition0 brokers) (t0_partitions t).

(** ** Parsing it back *)

Lemma uint16_small z : 0 ≤ z < 65536 → uint16 z = z.
Proof. intros. unfold uint16, wrapU. rewrite Z.mod_small by lia. done. Qed.

Lemma blen_wire_ids l : blen (concat (map be32 l)) = Z.of_nat (length l) * 4.
Proof.
  induction l as [|z l IH]; [done|]. cbn [map concat length]. rewrite blen_app, blen_be32, IH. lia.
Qed.

Lemma broker_addr_nonempty bs m id addr :
  broker_map bs m !! id = Some addr → (∀ id addr, m !! id = Some addr → addr ≠ ""%string) →
  addr ≠ ""%string.
Proof.
  unfold broker_map, collect. revert m.
  induction bs as [|b bs IH]; intros m Hl Hm; [by eapply Hm|].
  eapply IH; [exact Hl|]. intros id' addr'. rewrite lookup_insert_Some.
  intros [[_ <-]|[_ ?]]; [|by eapply Hm]. unfold broker_addr. by destruct (b0_host b).
Qed.

Lemma parse_brokers0_at body pos bs m rest :
  Forall valid_broker0 bs → at_pos body pos (concat (map wire_broker0 bs) ++ rest) →
  parse_brokers0 (length bs) body pos m =
    Ok (broker_map bs m, pos + blen (concat (map wire_broker0 bs))) ∧
  at_pos body (pos + blen (concat (map wire_broker0 bs))) rest.
Proof.
  intros Hbs. revert pos m. induction Hbs as [|b bs (Hid & Hhost & Hport) Hbs IH];
    intros pos m Hcur.
  - simpl in *. rewrite Z.add_0_r. done.
  - unfold broker_map, collect in *. cbn [map concat length parse_brokers0 foldl] in *.
    pose proof (slen_nonneg (b0_host b)).
    assert (blen (wire_broker0 b) = 10 + slen (b0_host b)) as Hlen.
    { unfold wire_broker0, wire_string. autorewrite with blen. lia. }
    rewrite <- app_assoc in Hcur. pose proof (at_pos_advance _ _ _ _ Hcur) as Hend.
    rewrite Hlen in Hend. unfold wire_broker0, wire_string in Hcur. rewrite <- !app_assoc in Hcur.
    cbv zeta. cursor_step. do 2 cursor_step. rewrite uint16_small by lia. do 4 cursor_step.
    rewrite int32_uint32, int32_id, str_bytes_of, uint32_small by done.
    destruct (IH _ (<[b0_id b := broker_addr b]> m) Hend) as [Heq Hat].
    replace (pos + 4 + 2 + slen (b0_host b) + 4) with (pos + (10 + slen (b0_host b))) by lia.
    unfold broker_addr in Heq. rewrite Heq. rewrite blen_app, Hlen.
    replace (pos + (10 + slen (b0_host b) + blen (concat (map wire_broker0 bs))))
      with (pos + (10 + slen (b0_host b)) + blen (concat (map wire_broker0 bs))) by lia.
    done.
Qed.

Lemma at_pos_ids body pos l rest :
  at_pos body pos (concat (map be32 l) ++ rest) →
  at_pos body (pos + Z.of_nat (length l) * 4) rest.
Proof. intros H%at_pos_advance. by rewrite blen_wire_ids in H. Qed.

Lemma parsePartitionV0_at body pos brokers p rest :
  valid_partition0 brokers p → at_pos body pos (wire_partition0 p ++ rest) →
  parsePartitionV0 body pos brokers =
    Ok (p0_index p, if p0_err p =? 0 then default ""%string (brokers !! p0_leader p) else ""%string,
        blen (wire_partition0 p)).
Proof.
  intros (He & Hi & Hl & Hr & Hs & Hk) Hcur. unfold small in *.
  unfold wire_partition0, wire_array in *. rewrite <- !app_assoc in Hcur.
  autorewrite with blen. rewrite !blen_wire_ids.
  assert (pos + 18 + Z.of_nat (length (p0_replicas p)) * 4
          + Z.of_nat (length (p0_isr p)) * 4 ≤ blen body) as Hbound.
  { pose proof (at_pos_len _ _ _ Hcur) as [_ Hlen]. autorewrite with blen in Hlen.
    rewrite !blen_wire_ids in Hlen. blia. }
  unfold parsePartitionV0. do 8 cursor_step. rewrite uint32_small by lia.
  cursor_step. apply at_pos_ids in Hcur. do 2 cursor_step. rewrite uint32_small by lia. cursor_step.
  rewrite int16_uint16, !int32_uint32, int16_id, !int32_id by done.
  destruct (Z.eqb_spec (p0_err p) 0) as [E|E]; cbn [negb].
  - destruct (Hk E) as [addr ->]. cbn [default]. do 2 f_equal. lia.
  - do 2 f_equal. lia.
Qed.

Lemma skipPartitionV0_at body pos brokers p rest :
  valid_partition0 brokers p → at_pos body pos (wire_partition0 p ++ rest) →
  skipPartitionV0 body pos = Ok (blen (wire_partition0 p)).
Proof.
  intros (He & Hi & Hl & Hr & Hs & _) Hcur. unfold small in *.
  unfold wire_partition0, wire_array in *.
  rewrite <- !app_assoc in Hcur. autorewrite with blen. rewrite !blen_wire_ids.
  assert (pos + 18 + Z.of_nat (length (p0_replicas p)) * 4
          + Z.of_nat (length (p0_isr p)) * 4 ≤ blen body) as Hbound.
  { pose proof (at_pos_len _ _ _ Hcur) as [_ Hlen]. autorewrite with blen in Hlen.
    rewrite !blen_wire_ids in Hlen. blia. }
  unfold skipPartitionV0. cbv zeta. rewrite (proj2 (Z.ltb_ge _ _)) by lia.
  assert (at_pos body (pos + 10) (be32 (Z.of_nat (length (p0_replicas p))) ++
    concat (map be32 (p0_replicas p)) ++ be32 (Z.of_nat (length (p0_isr p))) ++
    concat (map be32 (p0_isr p)) ++ rest)) as Hcur'.
  { apply at_pos_advance, at_pos_advance, at_pos_advance in Hcur.
    rewrite blen_be16, !blen_be32 in Hcur. by replace (pos + 10) with (pos + 2 + 4 + 4) by lia. }
  do 2 cursor_step. rewrite uint32_small by lia. apply at_pos_ids in Hcur'.
  rewrite (Z.add_assoc (pos + 10) 4). do 2 cursor_step. rewrite uint32_small by lia.
  f_equal. lia.
Qed.

Lemma skip_partitions0_at body pos brokers ps rest :
  Forall (valid_partition0 brokers) ps →
  at_pos body pos (concat (map wire_partition0 ps) ++ rest) →
  skip_partitions0 (length ps) body pos = Ok (pos + blen (concat (map wire_partition0 ps))) ∧
  at_pos body (pos + blen (concat (map wire_partition0 ps))) rest.
Proof.
  intros Hps. revert pos. induction Hps as [|p ps Hp Hps IH]; intros pos Hcur.
  - simpl in *. rewrite Z.add_0_r. done.
  - cbn [map concat length skip_partitions0] in *. rewrite <- app_assoc in Hcur.
    rewrite (skipPartitionV0_at _ _ _ _ _ Hp Hcur). bind_simpl.
    apply at_pos_advance in Hcur. destruct (IH _ Hcur) as [-> ?].
    rewrite blen_app, Z.add_assoc. done.
Qed.

Lemma parse_partitions0_at body pos brokers ps m rest :
  (∀ id addr, brokers !! id = Some addr → addr ≠ ""%string) →
  Forall (valid_partition0 brokers) ps →
  at_pos body pos (concat (map wire_partition0 ps) ++ rest) →
  parse_partitions0 (length ps) body pos brokers m =
    Ok (partition_leaders brokers ps m, pos + blen (concat (map wire_partition0 ps))) ∧
  at_pos body (pos + blen (concat (map wire_partition0 ps))) rest.
Proof.
  intros Hne Hps. revert pos m. induction Hps as [|p ps Hp Hps IH]; intros pos m Hcur.
  - simpl in *. rewrite Z.add_0_r. done.
  - unfold partition_leaders, collect in *.
    cbn [map concat length parse_partitions0 foldl] in *.
    rewrite <- app_assoc in Hcur.
    rewrite (parsePartitionV0_at _ _ _ _ _ Hp Hcur). bind_simpl.
    apply at_pos_advance in Hcur. rewrite blen_app, Z.add_assoc.
    destruct Hp as (_ & _ & _ & _ & _ & Hk). unfold partition_leader at 2.
    destruct (Z.eqb_spec (p0_err p) 0) as [E|E].
    + destruct (Hk E) as [addr Haddr]. rewrite Haddr. change (default ""%string (Some addr)) with addr.
      rewrite (proj2 (String.eqb_neq addr "")) by (by eapply Hne). by apply IH.
    + by apply IH.
Qed.

Lemma parse_topics0_at body pos brokers ts m rest :
  (∀ id addr, brokers !! id = Some addr → addr ≠ ""%string) →
  Forall (valid_topic0 brokers) ts →
  at_pos body pos (concat (map wire_topic0 ts) ++ rest) →
  parse_topics0 (length ts) body pos brokers m = Ok (leaders_of brokers ts m).
Proof.
  intros Hne Hts. revert pos m.
  induction Hts as [|t ts (He & Hn & Hsm & Hps) Hts IH]; intros pos m Hcur; [done|].
  unfold leaders_of, collect in *.
  cbn [map concat length parse_topics0 foldl] in *. unfold small in Hsm.
  pose proof (slen_nonneg (t0_name t)).
  unfold wire_topic0 at 1, wire_string, wire_array in Hcur. rewrite <- !app_assoc in Hcur.
  cbv zeta. do 4 cursor_step. rewrite uint16_small by lia. do 4 cursor_step.
  rewrite uint32_small, Nat2Z.id, int16_uint16, int16_id, str_bytes_of by (done || lia).
  destruct (Z.eqb_spec (t0_err t) 0); cbn [negb].
  - destruct (parse_partitions0_at _ _ _ _ ∅ _ Hne Hps Hcur) as [-> Hcur']. bind_simpl.
    by apply IH.
  - destruct (skip_partitions0_at _ _ _ _ _ Hps Hcur) as [-> Hcur']. bind_simpl. by apply IH.
Qed.

Lemma parseMetadataResponseV0_at corr bs ts rest :
  Forall valid_broker0 bs → small bs → Forall (valid_topic0 (broker_map bs ∅)) ts → small ts →
  parseMetadataResponseV0 (wire_metadata0 corr bs ts ++ rest) =
  Ok (leaders_of (broker_map bs ∅) ts ∅).
Proof.
  intros Hbs Hsb Hts Hst. unfold small in *. unfold parseMetadataResponseV0.
  set (body := wire_metadata0 corr bs ts ++ rest).
  assert (at_pos body 0 body) as Hcur by apply at_pos_0.
  unfold body in Hcur at 2. clearbody body.
  unfold wire_metadata0, wire_array in Hcur. rewrite <- !app_assoc in Hcur.
  cbv zeta. do 4 cursor_step. rewrite uint32_small, Nat2Z.id by lia.
  destruct (parse_brokers0_at _ _ _ ∅ _ Hbs Hcur) as [-> Hcur']. bind_simpl. clear Hcur.
  do 2 cursor_step. rewrite uint32_small, Nat2Z.id by lia.
  eapply parse_topics0_at; [|done|exact Hcur'].
  intros id addr Hl. eapply broker_addr_nonempty; [exact Hl|]. by intros ? ?.
Qed.

(** ** Safety on arbitrary bytes *)

Lemma safe_parse_brokers0 n body pos m : 0 ≤ pos → safe (parse_brokers0 n body pos m).
Proof.
  revert pos m. induction n as [|n IH]; intros pos m Hpos; [done|]. cbn [parse_brokers0].
  safe_tac; learn_bounds; apply IH; blia.
Qed.

Lemma parse_brokers0_pos n body pos m m' p :
  0 ≤ pos → parse_brokers0 n body pos m = Ok (m', p) → 0 ≤ p.
Proof.
  revert pos m. induction n as [|n IH]; intros pos m Hpos H; cbn [parse_brokers0] in H;
    [by simplify_eq|]. parse_inv H. apply IH in H; [done|]. learn_bounds. blia.
Qed.

Lemma safe_parsePartitionV0 body pos m : 0 ≤ pos → safe (parsePartitionV0 body pos m).
Proof. intros Hpos. unfold parsePartitionV0. safe_tac. Qed.

Lemma parsePartitionV0_pos body pos m i a n :
  0 ≤ pos → parsePartitionV0 body pos m = Ok (i, a, n) → 0 ≤ n.
Proof.
  intros Hpos H. unfold parsePartitionV0 in H. parse_inv H; learn_bounds.
  - simplify_eq. blia.
  - destruct (m !! _); [|done]. simplify_eq. blia.
Qed.

Lemma safe_skipPartitionV0 body pos : 0 ≤ pos → safe (skipPartitionV0 body pos).
Proof. intros Hpos. unfold skipPartitionV0. safe_tac. Qed.

Lemma skipPartitionV0_pos body pos n : 0 ≤ pos → skipPartitionV0 body pos = Ok n → 0 ≤ n.
Proof. intros Hpos H. unfold skipPartitionV0 in H. parse_inv H. learn_bounds. simplify_eq. blia. Qed.

Lemma skip_partitions0_ok n body pos :
  0 ≤ pos → safe (skip_partitions0 n body pos) ∧
            ∀ p, skip_partitions0 n body pos = Ok p → 0 ≤ p.
Proof.
  revert pos. induction n as [|n IH]; intros pos Hpos; cbn [skip_partitions0];
    [by split; [|intros p [= <-]]|].
  pose proof (safe_skipPartitionV0 body pos Hpos) as Hs.
  destruct (skipPartitionV0 body pos) as [adv| |] eqn:E; [|done|done].
  bind_simpl. apply IH. apply skipPartitionV0_pos in E; lia.
Qed.

Lemma parse_partitions0_ok n body pos brokers m :
  0 ≤ pos → safe (parse_partitions0 n body pos brokers m) ∧
            ∀ m' p, parse_partitions0 n body pos brokers m = Ok (m', p) → 0 ≤ p.
Proof.
  revert pos m. induction n as [|n IH]; intros pos m Hpos; cbn [parse_partitions0];
    [by split; [|intros m' p [= _ <-]]|].
  pose proof (safe_parsePartitionV0 body pos brokers Hpos) as Hs.
  destruct (parsePartitionV0 body pos brokers) as [[[i a] adv]| |] eqn:E; [|done|done].
  bind_simpl. apply IH. apply parsePartitionV0_pos in E; lia.
Qed.

Lemma safe_parse_topics0 n body pos brokers m : 0 ≤ pos → safe (parse_topics0 n body pos brokers m).
Proof.
  revert pos m. induction n as [|n IH]; intros pos m Hpos; [done|]. cbn [parse_topics0].
  do 20 (lazymatch goal with
    | |- safe (skip_partitions0 _ _ _ ≫= _) => idtac
    | |- safe (parse_partitions0 _ _ _ _ _ ≫= _) => idtac
    | |- _ => safe_step end).
  - apply safe_bind; [learn_bounds; apply skip_partitions0_ok; blia|]. intros p Hp.
    apply IH. apply skip_partitions0_ok in Hp; [done|]. learn_bounds. blia.
  - apply safe_bind; [learn_bounds; apply parse_partitions0_ok; blia|]. intros [ps p] Hp.
    apply IH. apply parse_partitions0_ok in Hp; [done|]. learn_bounds. blia.
Qed.

Lemma safe_parseMetadataResponseV0 body : safe (parseMetadataResponseV0 body).
Proof.
  unfold parseMetadataResponseV0. safe_tac; [apply safe_parse_brokers0; lia|..];
    (match goal with H : parse_brokers0 _ _ _ _ = Ok _ |- _ =>
       apply parse_brokers0_pos in H; [|lia] end);
    safe_tac; apply safe_parse_topics0; blia.
Qed.

(** ** The interface's laws *)

Lemma getLeaderLocked_eq c cluster topic partition :
  getLeaderLocked c cluster topic partition =
  default ∅ (default ∅ (lc_leaders c !! cluster) !! topic) !! partition.
Proof.
  unfold getLeaderLocked. destruct (lc_leaders c !! cluster) as [ts|]; cbn; [|done].
  by destruct (ts !! topic).
Qed.

Lemma default_insert {K V} `{Countable K} (d : V) k v (m : gmap K V) :
  default d (<[k := v]> m !! k) = v.
Proof. by rewrite lookup_insert, decide_True. Qed.

(** ** Refresh *)

Lemma io_safe_readKafkaResponse n : io_safe (λ _, True) (readKafkaResponse n).
Proof.
  unfold readKafkaResponse.
  eapply io_safe_bind; [apply io_safe_wrap, io_safe_ReadFull; lia|].
  intros b Hb. cbv beta in Hb. eapply io_safe_bind.
  { apply io_safe_pure. destruct (Uint32_ok b) as (v & -> & _); [lia|done]. }
  intros z Hz. cbv beta in Hz. destruct (_ || _) eqn:E; [apply io_safe_fail|].
  bool_to_prop. apply io_safe_wrap. eapply io_safe_weaken; [by apply io_safe_read_make|done].
Qed.

Lemma safe_fetchMetadata c bootstrap dialed : safe dialed → safe (fetchMetadata c bootstrap dialed).
Proof.
  intros Hd. unfold fetchMetadata. apply safe_bind; [by apply safe_wrap|]. intros conn _.
  match goal with |- safe (fst (?m conn)) => assert (io_safe (λ _, True) m) as Hm end.
  { eapply (io_safe_bind _ _ (λ _, True)).
    { apply io_safe_wrap. unfold LC_saslAuth.
      destruct (lc_bootstrapCreds c !! bootstrap) as [cred|]; [|by apply io_safe_ret].
      destruct (String.eqb (sc_user cred) ""); [by apply io_safe_ret|].
      apply io_safe_saslAuth. }
    intros _ _. eapply io_safe_bind; [apply io_safe_wrap, io_safe_Write|]. intros _ _.
    eapply io_safe_bind; [apply io_safe_wrap, io_safe_readKafkaResponse|]. intros resp _.
    eapply io_safe_weaken; [apply io_safe_pure, safe_parseMetadataResponseV0|done]. }
  specialize (Hm conn). by destruct (fst _).
Qed.

#[export] Instance leader_cache_lawful : LawfulCache LeaderCache (λ _, True).
Proof.
  split; cbn [GetLeader SetLeader Invalidate RefreshMetadata leader_cache]; intros;
    unfold LC_RefreshMetadata, Refresh in *;
    rewrite ?getLeaderLocked_eq; unfold LC_SetLeader, LC_Invalidate;
    cbn [with_leaders lc_leaders].
  - by rewrite !default_insert, lookup_insert, decide_True.
  - destruct (decide (cluster = cluster')) as [<-|]; [|by rewrite lookup_insert_ne].
    rewrite default_insert.
    destruct (decide (topic = topic')) as [<-|]; [|by rewrite lookup_insert_ne].
    rewrite default_insert, lookup_insert_ne; [done|congruence].
  - by rewrite lookup_delete, decide_True.
  - by rewrite lookup_delete_ne.
  - pose proof (safe_fetchMetadata c cluster dialed ltac:(done)).
    by destruct (fetchMetadata c cluster dialed).
  - revert select (is_ok _ = _). by destruct (fetchMetadata c cluster dialed).
  - destruct (fetchMetadata c cluster dialed); cbn; [|done|done].
    by rewrite lookup_insert_ne.
Qed.

(** What a peer that answers with [body] makes of a refresh without
    credentials. *)
Lemma fetchMetadata_answer c bootstrap body rest out :
  lc_bootstrapCreds c !! bootstrap = None → blen body ≤ MaxMetadataResponseSize →
  fetchMetadata c bootstrap
    (Ok {| cn_in := be32 (blen body) ++ body ++ rest; cn_out := out; cn_writes := None |}) =
  parseMetadataResponseV0 body.
Proof.
  intros Hc Hlen. unfold MaxMetadataResponseSize in *.
  change (Z.shiftl 10 20) with 10485760 in *. pose proof (blen_nonneg body).
  unfold fetchMetadata, LC_saslAuth. rewrite Hc. cbn [wrap_err]. bind_simpl.
  unfold mbind at 1, IO_bind at 1. unfold wrap at 1, mret, IO_ret. cbn [wrap_err].
  unfold mbind at 1, IO_bind at 1. unfold wrap at 1, Write. cbn [cn_in cn_out cn_writes wrap_err].
  unfold mbind at 1, IO_bind at 1. unfold wrap at 1, readKafkaResponse.
  unfold mbind at 1, IO_bind at 1. unfold wrap at 1. rewrite ReadFull_app by apply blen_be32.
  cbn [wrap_err]. unfold mbind at 1, IO_bind at 1, pure at 1.
  rewrite <- (app_nil_r (be32 (blen body))), Uint32_be32.
  rewrite uint32_small by lia. unfold MaxMetadataResponseSize.
  change (Z.shiftl 10 20) with 10485760.
  rewrite (proj2 (Z.ltb_ge _ _)), (proj2 (Z.ltb_ge 10485760 _)) by lia. cbn [orb].
  unfold wrap at 1. rewrite read_make_app by done. cbn [wrap_err]. done.
Qed.

(** ** Properties *)

(** A refresh is atomic and cannot crash.  Whatever the upstream answers, or
    fails to, it either replaces the whole entry of that one bootstrap with what
    was parsed, stale leaders included, or reports an error and changes nothing. *)
Theorem Refresh_atomic bootstrap dialed c :
  safe dialed →
  let '(r, c') := Refresh bootstrap dialed c in
  (r = Ok tt ∧ ∃ leaders, fetchMetadata c bootstrap dialed = Ok leaders ∧
     ∀ cluster topic partition, GetLeader c' cluster topic partition =
       if decide (cluster = bootstrap) then default ∅ (leaders !! topic) !! partition
       else GetLeader c cluster topic partition) ∨
  ((∃ e, r = Err e) ∧ c' = c).
Proof.
  intros Hd. unfold Refresh. pose proof (safe_fetchMetadata c bootstrap dialed Hd) as Hs.
  destruct (fetchMetadata c bootstrap dialed) as [leaders|e|]; cbn [wrap_err]; [|by right; eauto|done].
  left. split; [done|]. exists leaders. split; [done|]. intros cluster topic partition.
  cbn [GetLeader leader_cache]. rewrite !getLeaderLocked_eq. cbn [with_leaders lc_leaders].
  case_decide; [subst; by rewrite lookup_insert, decide_True|by rewrite lookup_insert_ne].
Qed.

(** C26: the leaders a cluster announces are the leaders the proxy routes to.
    When the bootstrap broker answers with any well-formed version 0 response,
    the cache afterwards maps a topic and partition to an address exactly when
    the response lists that topic and that partition without an error, and the
    address is [host:port] of the broker the partition names as its leader. *)
Theorem Refresh_installs_leaders bootstrap c corr bs ts rest out :
  lc_bootstrapCreds c !! bootstrap = None →
  Forall valid_broker0 bs → small bs → Forall (valid_topic0 (broker_map bs ∅)) ts → small ts →
  NoDup (map b0_id bs) → NoDup (map t0_name ts) →
  Forall (λ t, NoDup (map p0_index (t0_partitions t))) ts →
  let body := wire_metadata0 corr bs ts in
  blen body ≤ MaxMetadataResponseSize →
  let '(r, c') := Refresh bootstrap
    (Ok {| cn_in := be32 (blen body) ++ body ++ rest; cn_out := out; cn_writes := None |}) c in
  r = Ok tt ∧
  ∀ topic partition addr, GetLeader c' bootstrap topic partition = Some addr ↔
    ∃ t p b, t ∈ ts ∧ t0_name t = topic ∧ t0_err t = 0 ∧
             p ∈ t0_partitions t ∧ p0_index p = partition ∧ p0_err p = 0 ∧
             b ∈ bs ∧ b0_id b = p0_leader p ∧ addr = broker_addr b.
Proof.
  intros Hc Hbs Hsb Hts Hst Hnb Hnt Hnp body Hlen. unfold Refresh.
  rewrite fetchMetadata_answer by done. unfold body.
  rewrite <- (app_nil_r (wire_metadata0 corr bs ts)), parseMetadataResponseV0_at by done.
  cbn [wrap_err]. split; [done|]. intros topic partition addr.
  cbn [GetLeader leader_cache]. rewrite getLeaderLocked_eq. cbn [with_leaders lc_leaders].
  rewrite lookup_insert, decide_True by done. cbn [default].
  assert (∀ id addr, broker_map bs ∅ !! id = Some addr ↔
    ∃ b, b ∈ bs ∧ b0_id b = id ∧ addr = broker_addr b) as Hb.
  { intros id a. unfold broker_map. rewrite collect_Some by done. rewrite lookup_empty. naive_solver. }
  assert (∀ ps, NoDup (map p0_index ps) →
    partition_leaders (broker_map bs ∅) ps ∅ !! partition = Some addr ↔
    ∃ p b, p ∈ ps ∧ p0_index p = partition ∧ p0_err p = 0 ∧ b ∈ bs ∧ b0_id b = p0_leader p ∧
           addr = broker_addr b) as Hp.
  { intros ps Hnd. unfold partition_leaders. rewrite collect_Some by done. rewrite lookup_empty.
    unfold partition_leader. split.
    - intros [(p & Hin & Hi & Hv)|[? _]]; [|done]. destruct (Z.eqb_spec (p0_err p) 0); [|done].
      apply Hb in Hv as (b & ? & ? & ?). exists p, b. done.
    - intros (p & b & Hin & Hi & He & Hb1 & Hb2 & Hb3). left. exists p. split_and!; [done|done|].
      rewrite (proj2 (Z.eqb_eq _ _)) by done. apply Hb. eauto. }
  unfold id.
  destruct (leaders_of (broker_map bs ∅) ts ∅ !! topic) as [pl|] eqn:El; cbn.
  - unfold leaders_of in El. apply collect_Some in El; [|done]. rewrite lookup_empty in El.
    destruct El as [(t & Hin & Hn & Hv)|[? _]]; [|done].
    destruct (Z.eqb_spec (t0_err t) 0) as [He|]; [|done]. injection Hv as <-.
    rewrite list.Forall_forall in Hnp. rewrite Hp by (by apply Hnp). split.
    + intros (p & b & H). exists t, p, b. tauto.
    + intros (t' & p & b & Hin' & Hn' & He' & H). exists p, b.
      assert (t' = t) as ->; [|tauto]. eapply (NoDup_map_inj t0_name); [done..|congruence].
  - rewrite lookup_empty. split; [done|]. intros (t & p & b & Hin & Hn & He & _).
    assert (leaders_of (broker_map bs ∅) ts ∅ !! topic =
      Some (partition_leaders (broker_map bs ∅) (t0_partitions t) ∅)) as Heq; [|congruence].
    unfold leaders_of. apply collect_Some; [done|]. left. exists t.
    by rewrite (proj2 (Z.eqb_eq _ _)).
Qed.

(** ** Witnesses *)

Definition sample_brokers : list broker0 :=
  [{| b0_id := 1; b0_host := "kafka-1"; b0_port := 9092 |};
   {| b0_id := 2; b0_host := "kafka-2"; b0_port := 9093 |}].
Definition sample_partition : partition0 :=
  {| p0_err := 0; p0_index := 0; p0_leader := 2; p0_replicas := [1; 2]; p0_isr := [2] |}.
Definition sample_topic0 : topic0 :=
  {| t0_err := 0; t0_name := "orders"; t0_partitions :=
       [sample_partition;
        {| p0_err := 5; p0_index := 1; p0_leader := -1; p0_replicas := []; p0_isr := [] |}] |}.
Definition sample_topics : list topic0 :=
  [sample_topic0; {| t0_err := 3; t0_name := "gone"; t0_partitions := [] |}].
Definition sample_peer : conn :=
  let body := wire_metadata0 7 sample_brokers sample_topics in
  {| cn_in := be32 (blen body) ++ body ++ []; cn_out := []; cn_writes := None |}.

Lemma Refresh_atomic_witness :
  snd (Refresh "b:9092" (Err (Errorf "connection refused")) NewPartitionLeaderCache)
  = NewPartitionLeaderCache.
Proof.
  destruct (Refresh_atomic "b:9092" (Err (Errorf "connection refused")) NewPartitionLeaderCache I)
    as [[H _]|[_ H]]; [discriminate H|exact H].
Defined.

Lemma sample_brokers_valid : Forall valid_broker0 sample_brokers.
Proof.
  unfold sample_brokers, valid_broker0, in_int32.
  repeat (apply list.Forall_cons; split); [..|constructor];
    cbn [b0_id b0_host b0_port]; split_and!; first [lia | reflexivity].
Qed.

Lemma sample_topics_valid : Forall (valid_topic0 (broker_map sample_brokers ∅)) sample_topics.
Proof.
  assert (Hp : Forall (valid_partition0 (broker_map sample_brokers ∅))
                 (t0_partitions sample_topic0)).
  { unfold sample_topic0; cbn [t0_partitions]. unfold valid_partition0, in_int16, in_int32.
    apply list.Forall_cons; split; [|apply list.Forall_cons; split; [|constructor]];
      cbn [p0_err p0_index p0_leader p0_replicas p0_isr sample_partition];
      (split_and!; [lia|lia|lia|lia|lia|lia|reflexivity|reflexivity|]); [|done].
    intros _. by exists "kafka-2:9093"%string. }
  unfold sample_topics. apply list.Forall_cons; split.
  - unfold valid_topic0, in_int16. split_and!; [cbn; lia..|reflexivity|reflexivity|exact Hp].
  - apply list.Forall_cons; split; [|constructor]. unfold valid_topic0, in_int16.
    split_and!; [cbn; lia..|reflexivity|reflexivity|constructor].
Qed.

Lemma Refresh_installs_leaders_witness :
  GetLeader (snd (Refresh "b:9092" (Ok sample_peer) NewPartitionLeaderCache)) "b:9092" "orders" 0
  = Some "kafka-2:9093"%string.
Proof.
  pose proof (Refresh_installs_leaders "b:9092" NewPartitionLeaderCache 7 sample_brokers
    sample_topics [] []) as H.
  refine (proj2 (proj2 (H eq_refl _ eq_refl _ eq_refl _ _ _ _) "orders"%string 0
    "kafka-2:9093"%string) _).
  - exact sample_brokers_valid.
  - exact sample_topics_valid.
  - apply (bool_decide_unpack _). vm_compute. exact I.
  - apply (bool_decide_unpack _). vm_compute. exact I.
  - apply (bool_decide_unpack _). vm_compute. exact I.
  - vm_compute. discriminate.
  - exists sample_topic0, sample_partition,
      {| b0_id := 2; b0_host := "kafka-2"; b0_port := 9093 |}.
    split; [apply list.elem_of_cons; left; reflexivity|]. split; [reflexivity|].
    split; [reflexivity|]. split; [apply list.elem_of_cons; left; reflexivity|].
    repeat (split; [reflexivity|]). split; [|split; reflexivity].
    apply list.elem_of_cons; right. apply list.elem_of_cons; left. reflexivity.
Defined.
