(* ===== verification/Sasl.v ===== *)
(** * SASL passthrough ([internal/routing/sasl.go])

    The exchange at the start of a connection, as a program over the client's
    and the upstream's connection.  One round of the loop is [sasl_round]; the
    loop runs with fuel, [None] when it runs out.  Every round that goes on
    consumes at least six bytes of the client's stream, so one more unit of
    fuel than the stream is long is always enough. *)

From S2P Require Import Prelude Bytes Conn Protocol.

Record SASLHandler := { authenticated : bool }.

Definition Authenticated (h : SASLHandler) : bool := authenticated h.

Definition is_sasl_key (apiKey : Z) : bool :=
  (apiKey =? APIKeySaslHandshake) || (apiKey =? APIKeySaslAuthenticate).

Definition IsSASLAuthenticateRequest (frame : bytes) : res bool :=
  if blen frame <? 6 then Ok false
  else (k ← u16_at frame 4; Ok (int16 k =? APIKeySaslAuthenticate)).

Definition IsSASLRequest (header : bytes) : res bool :=
  if blen header <? 6 then Ok false
  else (k ← u16_at header 4; Ok (is_sasl_key (int16 k))).

Definition PassthroughRequest (frame : bytes) : bytes := frame.

Definition PassthroughResponse (h : SASLHandler) (frame : bytes) : res (bytes * SASLHandler) :=
  if 10 <=? blen frame then
    errorCode ← u16_at frame 8;
    Ok (frame, if int16 errorCode =? 0 then {| authenticated := true |} else h)
  else Ok (frame, h).

(** ** One request and its response *)

(** The error return of a function with two results. *)
Definition or_return {S A} (handled : bool) (m : IO S A) (k : A → IO S (bool * option error))
    : IO S (bool * option error) := λ s,
  match m s with
  | (Ok a, s) => k a s
  | (Err e, s) => (Ok (handled, Some e), s)
  | (Panic, s) => (Panic, s)
  end.

Definition HandleSASLPassthrough : IO (conn * conn) (bool * option error) :=
  or_return false (on_fst (ReadFull 6)) (λ header,
  key ← pure (u16_at header 4);
  if negb (int16 key =? APIKeySaslAuthenticate) then mret (false, None)
  else
    size ← pure (u32_at header 0);
    let remaining := int32 size - 2 in
    if remaining <? 0 then mret (false, None)
    else
      or_return false (on_fst (read_make remaining)) (λ requestPayload,
      or_return true (on_snd (Write (header ++ requestPayload))) (λ _,
      or_return true (on_snd (ReadFull 8)) (λ respHeader,
      rsize ← pure (u32_at respHeader 0);
      or_return true (on_snd (read_make (int32 rsize - 4))) (λ respBody,
      or_return true (on_fst (Write (respHeader ++ respBody))) (λ _,
      mret (true, None))))))).

(** ** The exchange *)

Record SASLExchangeResult := {
  Header : bytes;
  CorrelationID : Z;
  ClientID : string
}.

(** The handler, the client's connection and the upstream's. *)
Definition sasl_state : Type := SASLHandler * (conn * conn).

Definition on_client {A} (m : IO conn A) : IO sasl_state A := on_snd (on_fst m).
Definition on_upstream {A} (m : IO conn A) : IO sasl_state A := on_snd (on_snd m).

Definition note_response (frame : bytes) : IO sasl_state unit := λ '(h, cs),
  match PassthroughResponse h frame with
  | Ok (_, h) => (Ok tt, (h, cs))
  | Err e => (Err e, (h, cs))
  | Panic => (Panic, (h, cs))
  end.

(** A frame of another API: its header, for the caller to route. *)
Definition first_other_frame (peek : bytes) : IO sasl_state SASLExchangeResult :=
  fixedRest ← wrap "reading non-SASL frame fixed header" (on_client (ReadFull 8));
  correlationID ← pure (u32_at fixedRest 2);
  idLen ← pure (u16_at fixedRest 6);
  let clientIDLen := int16 idLen in
  clientIDBytes ←
    (if 0 <? clientIDLen
     then wrap "reading client_id from non-SASL frame" (on_client (read_make clientIDLen))
     else mret []);
  let headerEnd := if 0 <? clientIDLen then 14 + clientIDLen else 14 in
  header ← pure (make_bytes headerEnd);
  mret {| Header := copy_at (copy_at (copy_at header 0 peek) 6 fixedRest) 14 clientIDBytes;
          CorrelationID := int32 correlationID;
          ClientID := str clientIDBytes |}.

(** A SASL frame and its response, forwarded as they are. *)
Definition forward_sasl (apiKey : Z) (peek : bytes) : IO sasl_state unit :=
  size ← pure (u32_at peek 0);
  let remaining := int32 size - 2 in
  if remaining <? 0 then fail (Errorf "malformed SASL frame")
  else
    payload ← wrap "reading SASL frame payload" (on_client (read_make remaining));
    _ ← wrap "forwarding SASL to upstream" (on_upstream (Write (peek ++ payload)));
    respHeader ← wrap "reading SASL response header" (on_upstream (ReadFull 8));
    rsize ← pure (u32_at respHeader 0);
    let respSize := int32 rsize in
    if respSize <? 4 then fail (Errorf "invalid SASL response size")
    else
      respBody ← wrap "reading SASL response body" (on_upstream (read_make (respSize - 4)));
      _ ← (if apiKey =? APIKeySaslAuthenticate
           then note_response (respHeader ++ respBody) else mret tt);
      wrap "forwarding SASL response to client" (on_client (Write (respHeader ++ respBody))).

(** One round: the result, or [None] to go on. *)
Definition sasl_round : IO sasl_state (option SASLExchangeResult) :=
  peek ← wrap "reading SASL frame header" (on_client (ReadFull 6));
  key ← pure (u16_at peek 4);
  let apiKey := int16 key in
  if negb (is_sasl_key apiKey)
  then (r ← first_other_frame peek; mret (Some r))
  else (_ ← forward_sasl apiKey peek; mret None).

Fixpoint sasl_loop (fuel : nat) (s : sasl_state) : option (res SASLExchangeResult * sasl_state) :=
  match fuel with
  | O => None
  | S fuel =>
      match sasl_round s with
      | (Ok (Some r), s) => Some (Ok r, s)
      | (Ok None, s) => sasl_loop fuel s
      | (Err e, s) => Some (Err e, s)
      | (Panic, s) => Some (Panic, s)
      end
  end.

Definition HandleSASLExchange (h : SASLHandler) (clientConn upstreamConn : conn)
    : option (res SASLExchangeResult * sasl_state) :=
  sasl_loop (S (length (cn_in clientConn))) (h, (clientConn, upstreamConn)).

(** ** What a program moves

    [wire s s' a b x y]: from [s] to [s'] the program consumed [a] from the
    client and [x] from the upstream, and wrote [b] to the upstream and [y] to
    the client. *)

Definition wire (s s' : sasl_state) (a b x y : bytes) : Prop :=
  let '(_, (c, u)) := s in
  let '(_, (c', u')) := s' in
  cn_in c = a ++ cn_in c' ∧ cn_out u' = cn_out u ++ b ∧
  cn_in u = x ++ cn_in u' ∧ cn_out c' = cn_out c ++ y.

Lemma wire_refl s h : wire s (h, snd s) [] [] [] [].
Proof. destruct s as [h' [c u]]. cbn. by rewrite !app_nil_r. Qed.

Lemma wire_trans s1 s2 s3 a b x y a' b' x' y' :
  wire s1 s2 a b x y → wire s2 s3 a' b' x' y' →
  wire s1 s3 (a ++ a') (b ++ b') (x ++ x') (y ++ y').
Proof.
  destruct s1 as [h1 [c1 u1]], s2 as [h2 [c2 u2]], s3 as [h3 [c3 u3]]; cbn.
  intros (-> & -> & -> & ->) (-> & -> & -> & ->). by rewrite !app_assoc.
Qed.

(** A program logic over [wire]: the postcondition speaks of the result and
    what was moved, and excludes a panic. *)
Definition moves {A} (m : IO sasl_state A)
    (Q : res A → bytes → bytes → bytes → bytes → Prop) : Prop :=
  ∀ s, ∃ a b x y, wire s (snd (m s)) a b x y ∧ Q (fst (m s)) a b x y.

Lemma moves_bind {A B} (m : IO sasl_state A) (f : A → IO sasl_state B) P Q :
  moves m P →
  (∀ v a b x y, P (Ok v) a b x y →
     moves (f v) (λ r a' b' x' y', Q r (a ++ a') (b ++ b') (x ++ x') (y ++ y'))) →
  (∀ e a b x y, P (Err e) a b x y → Q (Err e) a b x y) →
  (∀ a b x y, ¬ P Panic a b x y) →
  moves (m ≫= f) Q.
Proof.
  intros Hm Hf He Hp s. destruct (Hm s) as (a & b & x & y & Hw & HP).
  unfold mbind, IO_bind. destruct (m s) as [[v|e|] s1]; cbn in Hw, HP |- *.
  - destruct (Hf v a b x y HP s1) as (a' & b' & x' & y' & Hw' & HQ).
    exists (a ++ a'), (b ++ b'), (x ++ x'), (y ++ y'). split; [|done]. by eapply wire_trans.
  - exists a, b, x, y. split; [done|by apply He].
  - by destruct (Hp a b x y).
Qed.

Lemma moves_ret {A} (v : A) (Q : res A → bytes → bytes → bytes → bytes → Prop) :
  Q (Ok v) [] [] [] [] → moves (mret v) Q.
Proof. intros HQ [h s]. exists [], [], [], []. split; [apply wire_refl|done]. Qed.

Lemma moves_fail {A} e (Q : res A → bytes → bytes → bytes → bytes → Prop) :
  Q (Err e) [] [] [] [] → moves (fail e) Q.
Proof. intros HQ [h s]. exists [], [], [], []. split; [apply wire_refl|done]. Qed.

Lemma moves_pure {A B} (r : res A) v (f : A → IO sasl_state B) Q :
  r = Ok v → moves (f v) Q → moves (x ← pure r; f x) Q.
Proof. intros -> Hm. exact Hm. Qed.

Definition read_post (n : Z) (r : res bytes) (a : bytes) : Prop :=
  match r with Ok v => a = v ∧ blen v = n | Err _ => True | Panic => False end.

Lemma read_cases n c :
  0 ≤ n →
  ∃ a, cn_in c = a ++ cn_in (snd (ReadFull n c)) ∧ cn_out (snd (ReadFull n c)) = cn_out c ∧
       read_post n (fst (ReadFull n c)) a.
Proof.
  intros Hn. destruct (ReadFull n c) as [r c'] eqn:Hr. destruct r as [v|e|]; cbn.
  - apply ReadFull_Ok in Hr as (Hl & Hin & Hout & _); [|done]. exists v. done.
  - revert Hr. unfold ReadFull. case_if; [|done]. intros [= _ <-]. exists (cn_in c). cbn.
    by rewrite app_nil_r.
  - revert Hr. unfold ReadFull. by case_if.
Qed.

Lemma read_make_eq n c : 0 ≤ n → read_make n c = ReadFull n c.
Proof.
  intros Hn. unfold read_make, mbind, IO_bind, pure, make_bytes.
  by rewrite (proj2 (Z.ltb_ge n 0)).
Qed.

Section Primitives.

Context (msg : string) (n : Z) (Hn : 0 ≤ n).

Lemma moves_read_client (m : IO conn bytes) :
  (∀ c, m c = ReadFull n c) →
  moves (wrap msg (on_client m)) (λ r a b x y, read_post n r a ∧ b = [] ∧ x = [] ∧ y = []).
Proof.
  intros Hm [h [c u]]. destruct (read_cases n c Hn) as (a & Hin & Hout & Hp).
  exists a, [], [], []. unfold wrap, on_client, on_fst, on_snd. rewrite Hm.
  destruct (ReadFull n c) as [r c']; cbn in *. rewrite !app_nil_r. by destruct r.
Qed.

Lemma moves_read_upstream (m : IO conn bytes) :
  (∀ c, m c = ReadFull n c) →
  moves (wrap msg (on_upstream m)) (λ r a b x y, read_post n r x ∧ a = [] ∧ b = [] ∧ y = []).
Proof.
  intros Hm [h [c u]]. destruct (read_cases n u Hn) as (x & Hin & Hout & Hp).
  exists [], [], x, []. unfold wrap, on_upstream, on_snd. rewrite Hm.
  destruct (ReadFull n u) as [r u']; cbn in *. rewrite !app_nil_r. by destruct r.
Qed.

End Primitives.

Definition write_post (buf : bytes) (r : res unit) (b : bytes) : Prop :=
  match r with Ok _ => b = buf | Err _ => b = [] | Panic => False end.

Lemma moves_write_upstream msg buf :
  moves (wrap msg (on_upstream (Write buf)))
    (λ r a b x y, write_post buf r b ∧ a = [] ∧ x = [] ∧ y = []).
Proof.
  intros [h [c u]]. unfold wrap, on_upstream, on_snd, Write.
  destruct (cn_writes u) as [[|k]|]; cbn;
    [exists [], [], [], []|exists [], buf, [], []..]; cbn; by rewrite ?app_nil_r.
Qed.

Lemma moves_write_client msg buf :
  moves (wrap msg (on_client (Write buf)))
    (λ r a b x y, write_post buf r y ∧ a = [] ∧ b = [] ∧ x = []).
Proof.
  intros [h [c u]]. unfold wrap, on_client, on_fst, on_snd, Write.
  destruct (cn_writes c) as [[|k]|]; cbn;
    [exists [], [], [], []|exists [], [], [], buf..]; cbn; by rewrite ?app_nil_r.
Qed.

Lemma PassthroughResponse_ok h frame :
  ∃ h', PassthroughResponse h frame = Ok (frame, h').
Proof.
  unfold PassthroughResponse. destruct (Z.leb_spec 10 (blen frame)); [|eauto].
  destruct (u16_at_ok frame 8) as (v & -> & _); [lia..|]. bind_simpl. eauto.
Qed.

Lemma moves_note frame :
  moves (note_response frame) (λ r a b x y, r = Ok tt ∧ a = [] ∧ b = [] ∧ x = [] ∧ y = []).
Proof.
  intros [h cs]. unfold note_response.
  destruct (PassthroughResponse_ok h frame) as (h' & ->).
  exists [], [], [], []. split; [apply (wire_refl (h, cs))|done].
Qed.

(** ** Byte-for-byte *)

Definition forward_post (peek : bytes) (r : res unit) (a b x y : bytes) : Prop :=
  match r with
  | Ok _ => b = peek ++ a ∧ y = x
  | Err _ => b `prefix_of` peek ++ a ∧ y `prefix_of` x
  | Panic => False
  end.

(** After a failing step nothing of a frame was forwarded, or all of it. *)
Ltac moves_err :=
  cbn beta in *; intros; destruct_and?; subst; cbn in *; destruct_and?; subst; split;
  repeat first [apply prefix_nil | reflexivity | rewrite app_nil_r | apply prefix_app_r].

Ltac moves_step lem :=
  eapply moves_bind; [apply lem| |moves_err|by intros ???? (? & _)].

Ltac moves_val :=
  cbn beta in *; cbn [read_post write_post] in *; destruct_and?; subst; cbn [app].

Lemma forward_sasl_moves apiKey peek :
  blen peek = 6 → moves (forward_sasl apiKey peek) (forward_post peek).
Proof.
  intros Hpeek. unfold forward_sasl.
  destruct (u32_at_ok peek 0) as (size & Hsize & _); [lia..|].
  eapply moves_pure; [done|]. cbn zeta.
  destruct (Z.ltb_spec (int32 size - 2) 0) as [|Hrem]; [apply moves_fail; moves_err|].
  eapply moves_bind; [apply (moves_read_client _ _ Hrem _ (λ c, read_make_eq _ c Hrem))|
                     |moves_err|by intros ???? (? & _)].
  intros payload a b x y Hp. moves_val.
  eapply moves_bind; [apply moves_write_upstream| |moves_err|by intros ???? (? & _)].
  intros [] a b x y Hp. moves_val.
  eapply moves_bind; [apply (moves_read_upstream _ 8 ltac:(lia) _ (λ c, eq_refl))|
                     |moves_err|by intros ???? (? & _)].
  intros respHeader a b x y Hp. moves_val.
  destruct (u32_at_ok respHeader 0) as (rsize & Hrsize & _); [lia..|].
  eapply moves_pure; [done|]. cbn zeta.
  destruct (Z.ltb_spec (int32 rsize) 4) as [|Hrs]; [apply moves_fail; moves_err|].
  assert (0 ≤ int32 rsize - 4) as Hrs' by lia.
  eapply moves_bind; [apply (moves_read_upstream _ _ Hrs' _ (λ c, read_make_eq _ c Hrs'))|
                     |moves_err|by intros ???? (? & _)].
  intros respBody a b x y Hp. moves_val.
  eapply (moves_bind _ _ (λ r a b x y, r = Ok tt ∧ a = [] ∧ b = [] ∧ x = [] ∧ y = [])).
  - destruct (apiKey =? APIKeySaslAuthenticate); [apply moves_note|by apply moves_ret].
  - intros [] a b x y Hp. moves_val.
    intros s. destruct (moves_write_client "forwarding SASL response to client"
      (respHeader ++ respBody) s) as (a & b & x & y & Hw & Hp & -> & -> & ->).
    exists [], [], [], y. split; [done|].
    destruct (fst _) as [[]|e|]; cbn in Hp; [subst; cbn; by rewrite ?app_nil_r|subst; cbn|done].
    rewrite !app_nil_r. split; [done|apply prefix_nil].
  - by intros e a b x y (? & _).
  - by intros a b x y (? & _).
Qed.

Lemma copy_header peek fixedRest id :
  blen peek = 6 → blen fixedRest = 8 →
  ∀ buf, blen buf = 14 + blen id →
  copy_at (copy_at (copy_at buf 0 peek) 6 fixedRest) 14 id = peek ++ fixedRest ++ id.
Proof.
  unfold blen. intros Hp Hf buf Hb.
  change buf with ([] ++ buf). rewrite (copy_at_over [] buf peek 0) by (done || lia). cbn [app].
  rewrite (copy_at_over peek) by (rewrite ?length_drop; unfold blen; lia).
  rewrite app_assoc, (copy_at_over (peek ++ fixedRest))
    by (rewrite ?length_app, ?length_drop; unfold blen; rewrite ?length_app; lia).
  rewrite drop_ge by (rewrite !length_drop; lia). by rewrite app_nil_r, app_assoc.
Qed.

(** The header of the first other frame is what was read of it. *)
Lemma first_other_frame_moves peek :
  blen peek = 6 →
  moves (first_other_frame peek) (λ r a b x y,
    b = [] ∧ x = [] ∧ y = [] ∧
    match r with Ok res => Header res = peek ++ a | Err _ => True | Panic => False end).
Proof.
  intros Hpeek. unfold first_other_frame.
  eapply moves_bind; [apply (moves_read_client _ 8 ltac:(lia) _ (λ c, eq_refl))|
                     |by intros * (_ & -> & -> & ->)|by intros ???? (? & _)].
  intros fixedRest a b x y Hp. moves_val.
  destruct (u32_at_ok fixedRest 2) as (corr & Hcorr & _); [lia..|].
  destruct (u16_at_ok fixedRest 6) as (idLen & HidLen & _); [lia..|].
  eapply moves_pure; [done|]. eapply moves_pure; [done|]. cbn zeta.
  eapply (moves_bind _ _ (λ r a b x y, b = [] ∧ x = [] ∧ y = [] ∧
    match r with
    | Ok id => a = id ∧ blen id = (if 0 <? int16 idLen then int16 idLen else 0)
    | Err _ => True
    | Panic => False
    end)).
  - destruct (Z.ltb_spec 0 (int16 idLen)) as [Hpos|]; [|by apply moves_ret].
    assert (0 ≤ int16 idLen) as Hnn by lia.
    intros s. destruct (moves_read_client "reading client_id from non-SASL frame" _ Hnn _
      (λ c, read_make_eq _ c Hnn) s) as (a & b & x & y & Hw & Hp & -> & -> & ->).
    exists a, [], [], []. split; [done|]. by destruct (fst _).
  - intros id a b x y (-> & -> & -> & -> & Hid). cbn [app].
    eapply moves_pure.
    { unfold make_bytes. rewrite (proj2 (Z.ltb_ge _ 0)) by (destruct (Z.ltb_spec 0 (int16 idLen)); lia).
      reflexivity. }
    apply moves_ret. rewrite !app_nil_r. split_and!; [done..|]. cbn [Header].
    apply copy_header; [done..|]. unfold blen. rewrite length_replicate.
    rewrite Z2Nat.id; fold (blen id); destruct (Z.ltb_spec 0 (int16 idLen)); lia.
  - intros e a b x y (-> & -> & -> & _). done.
  - by intros a b x y (_ & _ & _ & ?).
Qed.

Definition round_post (r : res (option SASLExchangeResult)) (a b x y : bytes) : Prop :=
  match r with
  | Ok None => b = a ∧ y = x ∧ 6 ≤ blen a
  | Ok (Some res) => a = Header res ∧ b = [] ∧ x = [] ∧ y = []
  | Err _ => b `prefix_of` a ∧ y `prefix_of` x
  | Panic => False
  end.

Lemma sasl_round_moves : moves sasl_round round_post.
Proof.
  unfold sasl_round.
  eapply moves_bind; [apply (moves_read_client _ 6 ltac:(lia) _ (λ c, eq_refl))|
                     |moves_err|by intros ???? (? & _)].
  intros peek a b x y Hp. moves_val.
  destruct (u16_at_ok peek 4) as (key & Hkey & _); [lia..|].
  eapply moves_pure; [done|]. cbn zeta.
  destruct (is_sasl_key (int16 key)); cbn [negb].
  - eapply moves_bind; [by apply forward_sasl_moves| |by intros * [? ?]|by intros ???? ?].
    intros [] a b x y [-> ->]. apply moves_ret. rewrite !app_nil_r. split_and!; [done..|].
    rewrite blen_app. pose proof (blen_nonneg a). lia.
  - eapply moves_bind; [by apply first_other_frame_moves| | |by intros * (_ & _ & _ & ?)].
    + intros r a b x y (-> & -> & -> & Hh). apply moves_ret. by rewrite !app_nil_r.
    + intros e a b x y (-> & -> & -> & _). split; apply prefix_nil.
Qed.

Definition loop_post (r : res SASLExchangeResult) (a b x y : bytes) : Prop :=
  match r with
  | Ok res => a = b ++ Header res ∧ y = x
  | Err _ => b `prefix_of` a ∧ y `prefix_of` x
  | Panic => False
  end.

(** With enough fuel the loop returns. *)
Lemma sasl_loop_moves fuel s :
  (length (cn_in (fst (snd s))) < fuel)%nat →
  ∃ r s' a b x y, sasl_loop fuel s = Some (r, s') ∧ wire s s' a b x y ∧ loop_post r a b x y.
Proof.
  revert s. induction fuel as [|fuel IH]; intros s Hfuel; [lia|]. cbn [sasl_loop].
  destruct (sasl_round_moves s) as (a & b & x & y & Hw & Hp).
  destruct (sasl_round s) as [[[res|]|e|] s1]; cbn in Hw, Hp; try done.
  - destruct Hp as (-> & -> & -> & ->). exists (Ok res), s1, (Header res), [], [], []. by split_and!.
  - destruct Hp as (-> & -> & Hlen).
    destruct (IH s1) as (r & s' & a' & b' & x' & y' & Hl & Hw' & Hp').
    { destruct s as [h [c u]], s1 as [h1 [c1 u1]]. cbn in *. destruct Hw as (Hin & _).
      rewrite Hin, length_app in Hfuel. unfold blen in Hlen. lia. }
    exists r, s', (a ++ a'), (a ++ b'), (x ++ x'), (x ++ y'). split_and!; [done|by eapply wire_trans|].
    destruct r as [res|e|]; cbn in *; [|destruct Hp'; split; by apply prefix_app|done].
    destruct Hp' as [-> ->]. by rewrite app_assoc.
  - exists (Err e), s1, a, b, x, y. by split_and!.
Qed.

(** C24: Whatever the two peers send, the SASL exchange returns (the loop always
    ends), never panics, and is a byte-for-byte passthrough.  When it returns a
    result, what it wrote to the upstream is exactly what it consumed from the
    client before the returned header, and what it wrote to the client is exactly
    what it consumed from the upstream; when it fails, each side received a
    prefix of what the other sent. *)
Theorem HandleSASLExchange_transparent h c u :
  ∃ r s', HandleSASLExchange h c u = Some (r, s') ∧
  let '(_, (c', u')) := s' in
  match r with
  | Ok res => ∃ fwd resp,
      cn_in c = fwd ++ Header res ++ cn_in c' ∧ cn_out u' = cn_out u ++ fwd ∧
      cn_in u = resp ++ cn_in u' ∧ cn_out c' = cn_out c ++ resp
  | Err _ => ∃ read fwd got resp,
      cn_in c = read ++ cn_in c' ∧ cn_out u' = cn_out u ++ fwd ∧ fwd `prefix_of` read ∧
      cn_in u = got ++ cn_in u' ∧ cn_out c' = cn_out c ++ resp ∧ resp `prefix_of` got
  | Panic => False
  end.
Proof.
  unfold HandleSASLExchange.
  destruct (sasl_loop_moves (S (length (cn_in c))) (h, (c, u))) as
    (r & [h' [c' u']] & a & b & x & y & Hl & Hw & Hp); [cbn; lia|].
  exists r, (h', (c', u')). split; [done|]. cbn in Hw. destruct Hw as (Ha & Hb & Hx & Hy).
  destruct r as [res|e|]; cbn in Hp; [|destruct Hp; exists a, b, x, y; by split_and!|done].
  destruct Hp as [-> ->]. exists b, x. by rewrite app_assoc.
Qed.

(** ** A whole exchange

    A round as the two peers see it: an API key, the rest of the request after
    it, and the reply's correlation id, error code and remaining bytes (both
    SASL APIs begin their response with the error code). *)

Record round := {
  rd_key : Z;
  rd_rest : bytes;
  rd_corr : Z;
  rd_code : Z;
  rd_more : bytes
}.

Definition request_frame (r : round) : bytes :=
  be32 (2 + blen (rd_rest r)) ++ be16 (rd_key r) ++ rd_rest r.

Definition reply_frame (r : round) : bytes :=
  be32 (6 + blen (rd_more r)) ++ be32 (rd_corr r) ++ be16 (rd_code r) ++ rd_more r.

Definition round_ok (r : round) : Prop :=
  (rd_key r = APIKeySaslHandshake ∨ rd_key r = APIKeySaslAuthenticate) ∧ in_int16 (rd_code r) ∧
  2 + blen (rd_rest r) < 2147483648 ∧ 6 + blen (rd_more r) < 2147483648.

Definition round_authenticates (r : round) : bool :=
  (rd_key r =? APIKeySaslAuthenticate) && (rd_code r =? 0).

Definition peer (input output : bytes) : conn :=
  {| cn_in := input; cn_out := output; cn_writes := None |}.

Lemma int32_uint32_id z : 0 ≤ z < 2147483648 → int32 (uint32 z) = z.
Proof. intros. rewrite int32_uint32. by apply int32_small. Qed.

Lemma PassthroughResponse_reply h r :
  round_ok r →
  PassthroughResponse h (reply_frame r) =
  Ok (reply_frame r, if rd_code r =? 0 then {| authenticated := true |} else h).
Proof.
  intros (_ & Hc & _ & _). unfold PassthroughResponse.
  assert (at_pos (reply_frame r) 8 (be16 (rd_code r) ++ rd_more r)) as Hcur.
  { apply (at_pos_advance _ 4 (be32 (rd_corr r))),
      (at_pos_advance _ 0 (be32 (6 + blen (rd_more r)))), at_pos_0. }
  pose proof (at_pos_len _ _ _ Hcur) as [_ Hl]. rewrite blen_app, blen_be16 in Hl.
  pose proof (blen_nonneg (rd_more r)). rewrite (proj2 (Z.leb_le _ _)) by lia.
  apply at_pos_u16 in Hcur as [-> _]. bind_simpl. by rewrite int16_uint16, int16_id.
Qed.

Lemma on_client_eq {A} (m : IO conn A) h c u :
  on_client m (h, (c, u)) = let '(r, c') := m c in (r, (h, (c', u))).
Proof. unfold on_client, on_fst, on_snd. by destruct (m c). Qed.

Lemma on_upstream_eq {A} (m : IO conn A) h c u :
  on_upstream m (h, (c, u)) = let '(r, u') := m u in (r, (h, (c, u'))).
Proof. unfold on_upstream, on_snd. by destruct (m u). Qed.

Lemma note_response_eq h cs r :
  round_ok r →
  note_response (reply_frame r) (h, cs) =
  (Ok tt, (if rd_code r =? 0 then {| authenticated := true |} else h, cs)).
Proof. intros Hr. unfold note_response. by rewrite PassthroughResponse_reply. Qed.

Lemma forward_sasl_run h r cin cout uin uout :
  round_ok r →
  forward_sasl (rd_key r) (be32 (2 + blen (rd_rest r)) ++ be16 (rd_key r))
    (h, (peer (rd_rest r ++ cin) cout, peer (reply_frame r ++ uin) uout)) =
  (Ok tt, ({| authenticated := authenticated h || round_authenticates r |},
           (peer cin (cout ++ reply_frame r), peer uin (uout ++ request_frame r)))).
Proof.
  intros Hr. pose proof Hr as (_ & _ & Hlen & Hlen').
  pose proof (blen_nonneg (rd_rest r)). pose proof (blen_nonneg (rd_more r)).
  unfold forward_sasl, pure, mbind, IO_bind, wrap.
  pose proof (at_pos_0 (be32 (2 + blen (rd_rest r)) ++ be16 (rd_key r))) as Hcur.
  apply at_pos_u32 in Hcur as [-> _].
  rewrite int32_uint32_id, (proj2 (Z.ltb_ge _ 0)) by lia.
  rewrite on_client_eq. unfold peer at 1. rewrite read_make_app by lia. cbn [wrap_err].
  rewrite on_upstream_eq. unfold peer at 1, Write at 1. cbn [cn_writes cn_in cn_out wrap_err].
  rewrite on_upstream_eq. unfold reply_frame at 1.
  rewrite (app_assoc (be32 _)), <- (app_assoc (be32 _ ++ be32 _)).
  rewrite ReadFull_app by done. cbn [wrap_err].
  pose proof (at_pos_0 (be32 (6 + blen (rd_more r)) ++ be32 (rd_corr r))) as Hcur.
  apply at_pos_u32 in Hcur as [-> _].
  rewrite int32_uint32_id, (proj2 (Z.ltb_ge _ 4)) by lia.
  rewrite on_upstream_eq, read_make_app by (rewrite blen_app, blen_be16; lia). cbn [wrap_err].
  rewrite <- !(app_assoc (be32 _)). fold (reply_frame r).
  assert (Hh : (if rd_key r =? APIKeySaslAuthenticate then note_response (reply_frame r) else mret tt)
            (h, (peer cin cout, peer uin (uout ++ request_frame r))) =
          (Ok tt, ({| authenticated := authenticated h || round_authenticates r |},
             (peer cin cout, peer uin (uout ++ request_frame r))))).
  { unfold round_authenticates. destruct (rd_key r =? APIKeySaslAuthenticate); cbn [andb].
    - rewrite note_response_eq by done. destruct h as [[]], (rd_code r =? 0); done.
    - rewrite orb_false_r. by destruct h. }
  unfold request_frame, peer in *. rewrite Hh.
  rewrite on_client_eq. done.
Qed.

(** The header of the frame that ends the exchange. *)
Definition other_result (size key ver corr : Z) (cid : option string) : SASLExchangeResult :=
  {| Header := encode_request_header size key ver corr cid;
     CorrelationID := corr; ClientID := default ""%string cid |}.

Lemma first_other_frame_run size key ver corr cid h cin cout u :
  in_int32 corr → valid_nullable cid →
  first_other_frame (be32 size ++ be16 key)
    (h, (peer (be16 ver ++ be32 corr ++ encode_nullable cid ++ cin) cout, u)) =
  (Ok (other_result size key ver corr cid), (h, (peer cin cout, u))).
Proof.
  intros Hcorr Hcid.
  set (id := bytes_of (default ""%string cid)).
  set (n := match cid with None => -1 | Some s => slen s end).
  assert (Hn : encode_nullable cid = be16 n ++ id).
  { unfold id, n. destruct cid; cbn; [done|]. by rewrite ?app_nil_r. }
  assert (Hid : in_int16 n ∧ blen id = if 0 <? n then n else 0).
  { unfold id, n. destruct cid as [s|]; cbn [valid_nullable default] in *; [|by split].
    pose proof (slen_nonneg s). rewrite blen_bytes_of. unfold in_int16.
    split; [lia|]. unfold Datatypes.id. destruct (Z.ltb_spec 0 (slen s)); lia. }
  destruct Hid as [Hint Hid].
  unfold first_other_frame, pure, mbind, IO_bind, wrap.
  rewrite on_client_eq. unfold peer at 1.
  rewrite Hn, <- (app_assoc (be16 n)), (app_assoc (be32 corr)), (app_assoc (be16 ver)).
  rewrite ReadFull_app by done. cbn [wrap_err].
  pose proof (at_pos_0 (be16 ver ++ be32 corr ++ be16 n)) as Hcur.
  apply at_pos_u16 in Hcur as [_ Hcur].
  apply at_pos_u32 in Hcur as [Hc Hcur]. change (0 + 2) with 2 in Hc. rewrite Hc. clear Hc.
  change (0 + 2 + 4) with 6 in Hcur.
  assert (Hc : u16_at (be16 ver ++ be32 corr ++ be16 n) 6 = Ok (uint16 n)).
  { rewrite <- (app_nil_r (be16 n)) in Hcur at 2. by apply at_pos_u16 in Hcur as [Hc _]. }
  rewrite Hc.
  rewrite int16_uint16, int16_id, int32_uint32, int32_id by done.
  assert (Hread : (if 0 <? n then wrap "reading client_id from non-SASL frame"
             (on_client (read_make n)) else mret [])
           (h, ({| cn_in := id ++ cin; cn_out := cout; cn_writes := None |}, u)) =
         (Ok id, (h, (peer cin cout, u)))).
  { destruct (0 <? n) eqn:Hpos.
    - unfold wrap. rewrite on_client_eq. by rewrite read_make_app.
    - by destruct id; [|rewrite blen_cons in Hid; pose proof (blen_nonneg id); lia]. }
  unfold wrap in Hread. rewrite Hread. unfold make_bytes.
  rewrite (proj2 (Z.ltb_ge _ 0)) by (destruct (Z.ltb_spec 0 n); lia).
  cbn [mret IO_ret]. unfold other_result, encode_request_header. rewrite Hn.
  rewrite copy_header; [|done|done|].
  - unfold id. rewrite str_bytes_of. by rewrite <- !app_assoc.
  - unfold blen at 1. rewrite length_replicate.
    rewrite Z2Nat.id; destruct (Z.ltb_spec 0 n); lia.
Qed.

Lemma sasl_round_forward h r cin cout uin uout :
  round_ok r →
  sasl_round (h, (peer (request_frame r ++ cin) cout, peer (reply_frame r ++ uin) uout)) =
  (Ok None, ({| authenticated := authenticated h || round_authenticates r |},
             (peer cin (cout ++ reply_frame r), peer uin (uout ++ request_frame r)))).
Proof.
  intros Hr. unfold sasl_round, pure, mbind, IO_bind, wrap. rewrite on_client_eq.
  unfold peer at 1. unfold request_frame at 1.
  rewrite (app_assoc (be32 _)), <- (app_assoc (be32 _ ++ be16 _)).
  rewrite ReadFull_app by done. cbn [wrap_err].
  pose proof (at_pos_0 (be32 (2 + blen (rd_rest r)) ++ be16 (rd_key r) ++ [])) as Hcur.
  apply at_pos_u32 in Hcur as [_ Hcur]. apply at_pos_u16 in Hcur as [Hk _].
  rewrite app_nil_r in Hk. change (0 + 4) with 4 in Hk. rewrite Hk.
  assert (Hkey : in_int16 (rd_key r) ∧ is_sasl_key (rd_key r) = true).
  { destruct Hr as ([-> | ->] & _); split; done. }
  rewrite int16_uint16, int16_id by apply Hkey. rewrite (proj2 Hkey). cbn [negb].
  change {| cn_in := ?a; cn_out := ?b; cn_writes := None |} with (peer a b).
  by rewrite forward_sasl_run.
Qed.

Lemma sasl_round_other size key ver corr cid h cin cout u :
  in_int16 key → is_sasl_key key = false → in_int32 corr → valid_nullable cid →
  sasl_round (h, (peer (encode_request_header size key ver corr cid ++ cin) cout, u)) =
  (Ok (Some (other_result size key ver corr cid)), (h, (peer cin cout, u))).
Proof.
  intros Hkey Hns Hcorr Hcid. unfold sasl_round, pure, mbind, IO_bind, wrap.
  rewrite on_client_eq. unfold peer at 1, encode_request_header.
  rewrite (app_assoc (be32 _)), <- (app_assoc (be32 _ ++ be16 _)).
  rewrite ReadFull_app by done. cbn [wrap_err].
  pose proof (at_pos_0 (be32 size ++ be16 key ++ [])) as Hcur.
  apply at_pos_u32 in Hcur as [_ Hcur]. apply at_pos_u16 in Hcur as [Hk _].
  rewrite app_nil_r in Hk. change (0 + 4) with 4 in Hk. rewrite Hk.
  rewrite int16_uint16, int16_id, Hns by done. cbn [negb].
  change {| cn_in := ?a; cn_out := ?b; cn_writes := None |} with (peer a b).
  rewrite <- !app_assoc. by rewrite first_other_frame_run.
Qed.

Definition requests (rds : list round) : bytes := concat (map request_frame rds).
Definition replies (rds : list round) : bytes := concat (map reply_frame rds).

Lemma length_requests rds : (length rds ≤ length (requests rds))%nat.
Proof.
  induction rds as [|r rds IH]; [done|]. unfold requests in *; cbn [map concat length].
  assert (Hr : (1 ≤ length (request_frame r))%nat) by (cbn; lia).
  rewrite length_app. lia.
Qed.

Lemma exchange_run h rds size key ver corr cid cin cout uin uout :
  Forall round_ok rds →
  in_int16 key → is_sasl_key key = false → in_int32 corr → valid_nullable cid →
  HandleSASLExchange h
    (peer (requests rds ++ encode_request_header size key ver corr cid ++ cin) cout)
    (peer (replies rds ++ uin) uout) =
  Some (Ok (other_result size key ver corr cid),
        ({| authenticated := authenticated h || existsb round_authenticates rds |},
         (peer cin (cout ++ replies rds), peer uin (uout ++ requests rds)))).
Proof.
  intros Hrds Hkey Hns Hcorr Hcid. unfold HandleSASLExchange. cbn [cn_in peer].
  assert (Hf : (length rds < S (length (requests rds ++ encode_request_header size key ver corr cid ++ cin)))%nat)
    by (rewrite length_app; pose proof (length_requests rds); lia).
  revert Hf. generalize (S (length (requests rds ++ encode_request_header size key ver corr cid ++ cin))).
  intros fuel. revert h cout uout fuel.
  induction Hrds as [|r rds Hr Hrds IH]; intros h cout uout fuel Hf;
    (destruct fuel as [|fuel]; [cbn in Hf; lia|]); cbn [sasl_loop].
  - unfold requests, replies; cbn [map concat app]. rewrite sasl_round_other by done.
    rewrite orb_false_r, !app_nil_r. by destruct h.
  - unfold requests, replies; cbn [map concat]. rewrite <- !app_assoc.
    rewrite sasl_round_forward by done. cbn in Hf.
    fold (requests rds) (replies rds). rewrite IH by lia.
    cbn [authenticated existsb]. by rewrite !app_assoc, orb_assoc.
Qed.

(** C23: A well-formed exchange.  If the client sends any number of SASL requests
    and then the header of another request, and the upstream answers each SASL
    request, the exchange ends with that header (and its correlation and client
    ids), has sent the upstream exactly the SASL requests and the client exactly
    the replies, has consumed nothing beyond, and the connection is marked
    authenticated exactly when some SaslAuthenticate was answered with error
    code 0 (or it already was). *)
Theorem HandleSASLExchange_run h rds size key ver corr cid cin cout uin uout :
  Forall round_ok rds →
  in_int16 key → is_sasl_key key = false → in_int32 corr → valid_nullable cid →
  HandleSASLExchange h
    (peer (requests rds ++ encode_request_header size key ver corr cid ++ cin) cout)
    (peer (replies rds ++ uin) uout) =
  Some (Ok (other_result size key ver corr cid),
        ({| authenticated := authenticated h || existsb round_authenticates rds |},
         (peer cin (cout ++ replies rds), peer uin (uout ++ requests rds)))).
Proof. apply exchange_run. Qed.

Definition sample_rounds : list round :=
  [{| rd_key := 17; rd_rest := be16 1 ++ be32 1; rd_corr := 1; rd_code := 0; rd_more := [] |};
   {| rd_key := 36; rd_rest := be16 1 ++ be32 2; rd_corr := 2; rd_code := 0; rd_more := be16 0 |}].

Lemma sample_rounds_ok : Forall round_ok sample_rounds.
Proof.
  unfold sample_rounds, round_ok, in_int16.
  apply list.Forall_cons; split; [|apply list.Forall_cons; split; [|constructor]];
    (split_and!; [cbn; auto|cbn; lia|cbn; lia|reflexivity|reflexivity]).
Defined.

Lemma HandleSASLExchange_run_witness :
  fst <$> HandleSASLExchange {| authenticated := false |}
    (peer (requests sample_rounds ++ encode_request_header 20 3 1 7 (Some "me"%string) ++ [x00]) [])
    (peer (replies sample_rounds ++ []) []) =
  Some (Ok (other_result 20 3 1 7 (Some "me"%string))).
Proof.
  rewrite (HandleSASLExchange_run {| authenticated := false |} sample_rounds 20 3 1 7
             (Some "me"%string) [x00] [] [] []); [reflexivity|..].
  - exact sample_rounds_ok.
  - unfold in_int16; lia.
  - reflexivity.
  - unfold in_int32; lia.
  - reflexivity.
Defined.

(** [HandleSASLPassthrough] trusts the size of the upstream's reply: after a
    SaslAuthenticate request, a reply whose size field is below 4 makes it
    allocate a negative number of bytes, which panics ([HandleSASLExchange]
    checks for this and returns an error). *)
Theorem HandleSASLPassthrough_panics rest size corr cin cout uin uout :
  2 + blen rest < 2147483648 → in_int32 size → size < 4 →
  fst (HandleSASLPassthrough
    (peer (be32 (2 + blen rest) ++ be16 APIKeySaslAuthenticate ++ rest ++ cin) cout,
     peer (be32 size ++ be32 corr ++ uin) uout)) = Panic.
Proof.
  intros Hlen Hsize Hs. pose proof (blen_nonneg rest).
  unfold HandleSASLPassthrough, or_return, on_fst, pure, mbind, IO_bind, peer.
  rewrite (app_assoc (be32 _) (be16 _)). rewrite ReadFull_app by done.
  pose proof (at_pos_0 (be32 (2 + blen rest) ++ be16 APIKeySaslAuthenticate ++ [])) as Hcur.
  apply at_pos_u32 in Hcur as [Hz Hcur]. apply at_pos_u16 in Hcur as [Hk _].
  rewrite app_nil_r in Hk, Hz. change (0 + 4) with 4 in Hk. rewrite Hk, Hz.
  rewrite int32_uint32_id by lia.
  change (negb (int16 (uint16 APIKeySaslAuthenticate) =? APIKeySaslAuthenticate)) with false.
  cbn iota. rewrite (proj2 (Z.ltb_ge _ 0)) by lia. rewrite read_make_app by lia.
  cbn [on_snd Write cn_writes cn_in cn_out].
  rewrite (app_assoc (be32 _) (be32 _)), ReadFull_app by done.
  pose proof (at_pos_0 (be32 size ++ be32 corr)) as Hcur. apply at_pos_u32 in Hcur as [-> _].
  rewrite int32_uint32, int32_id by done.
  unfold read_make, mbind, IO_bind, pure, make_bytes.
  by rewrite (proj2 (Z.ltb_lt _ 0)) by lia.
Qed.

Lemma HandleSASLPassthrough_panics_witness :
  fst (HandleSASLPassthrough
    (peer (be32 (2 + blen []) ++ be16 APIKeySaslAuthenticate ++ [] ++ []) [],
     peer (be32 3 ++ be32 1 ++ []) [])) = Panic.
Proof. apply HandleSASLPassthrough_panics; [reflexivity|unfold in_int32; lia|lia]. Defined.
