(* ===== verification/Pool.v ===== *)
(** * The connection pool ([internal/pool/pool.go])

    Per-broker pools: a FIFO of idle connections and a semaphore that counts
    the connections in existence.  A connection is a handle; the handles the
    pool closes are recorded.  Each operation is the sequence of channel
    operations the code performs, run without interference, and reads the clock
    once; an operation that would block returns [None], the pool unchanged
    except for what it did before. *)

From S2P Require Import Prelude Bytes Conn Protocol Config.

Definition defaultMaxConnections : Z := 50.
Definition defaultIdleTimeout : duration := 30 * second.

Record pooledConn := { pc_conn : nat; pc_lastUsed : time }.

Record brokerPool := { bp_idle : list pooledConn; bp_sem : Z; bp_maxSize : Z }.

Record ConnectionPool := {
  cp_pools : gmap string brokerPool;
  cp_cfg : ConnectionPoolConfig;
  cp_closed : list nat
}.

Definition New (cfg : ConnectionPoolConfig) : ConnectionPool :=
  {| cp_pools := ∅; cp_cfg := cfg; cp_closed := [] |}.

Definition idleTimeout (cp : ConnectionPool) : duration :=
  let d := cp_IdleTimeout (cp_cfg cp) in
  if d <=? 0 then defaultIdleTimeout else d.

Definition isAlive (now : time) (timeout : duration) (pc : pooledConn) : bool :=
  negb ((0 <? timeout) && (timeout <? time_since now (pc_lastUsed pc))).

Definition with_pool (addr : string) (bp : brokerPool) (cp : ConnectionPool) : ConnectionPool :=
  {| cp_pools := <[addr := bp]> (cp_pools cp); cp_cfg := cp_cfg cp; cp_closed := cp_closed cp |}.

Definition close_conn (c : nat) (cp : ConnectionPool) : ConnectionPool :=
  {| cp_pools := cp_pools cp; cp_cfg := cp_cfg cp; cp_closed := cp_closed cp ++ [c] |}.

Definition getOrCreatePool (addr : string) (cp : ConnectionPool) : brokerPool :=
  match cp_pools cp !! addr with
  | Some bp => bp
  | None =>
      let maxSize := cp_MaxConnectionsPerBroker (cp_cfg cp) in
      let maxSize := if maxSize <=? 0 then defaultMaxConnections else maxSize in
      {| bp_idle := []; bp_sem := 0; bp_maxSize := maxSize |}
  end.

(** The loop of [Get]: [dialed] is the outcome of [dialTLS], a new handle. *)
Fixpoint get_loop (now : time) (timeout : duration) (dialed : res nat) (idle : list pooledConn)
    (sem maxSize : Z) (closed : list nat) : option (res nat) * brokerPool * list nat :=
  match idle with
  | pc :: idle =>
      if isAlive now timeout pc
      then (Some (Ok (pc_conn pc)),
            {| bp_idle := idle; bp_sem := sem; bp_maxSize := maxSize |}, closed)
      else if sem <=? 0
      then (None, {| bp_idle := idle; bp_sem := sem; bp_maxSize := maxSize |},
            closed ++ [pc_conn pc])
      else get_loop now timeout dialed idle (sem - 1) maxSize (closed ++ [pc_conn pc])
  | [] =>
      if sem <? maxSize then
        match dialed with
        | Ok c => (Some (Ok c), {| bp_idle := []; bp_sem := sem + 1; bp_maxSize := maxSize |}, closed)
        | Err err => (Some (Err (Wrapf "dial broker" err)),
                      {| bp_idle := []; bp_sem := sem; bp_maxSize := maxSize |}, closed)
        | Panic => (Some Panic, {| bp_idle := []; bp_sem := sem; bp_maxSize := maxSize |}, closed)
        end
      else (None, {| bp_idle := []; bp_sem := sem; bp_maxSize := maxSize |}, closed)
  end.

Definition Get (now : time) (addr : string) (dialed : res nat) (cp : ConnectionPool)
    : option (res nat) * ConnectionPool :=
  let bp := getOrCreatePool addr cp in
  let '(r, bp, closed) := get_loop now (idleTimeout cp) dialed (bp_idle bp) (bp_sem bp)
                            (bp_maxSize bp) (cp_closed cp) in
  (r, {| cp_pools := <[addr := bp]> (cp_pools cp); cp_cfg := cp_cfg cp; cp_closed := closed |}).

Definition Put (now : time) (addr : string) (conn : nat) (cp : ConnectionPool)
    : option unit * ConnectionPool :=
  match cp_pools cp !! addr with
  | None => (Some tt, close_conn conn cp)
  | Some bp =>
      if bp_maxSize bp <=? Z.of_nat (length (bp_idle bp)) then (None, cp)
      else (Some tt, with_pool addr
              {| bp_idle := bp_idle bp ++ [{| pc_conn := conn; pc_lastUsed := now |}];
                 bp_sem := bp_sem bp; bp_maxSize := bp_maxSize bp |} cp)
  end.

Definition releaseSem (addr : string) (cp : ConnectionPool) : ConnectionPool :=
  match cp_pools cp !! addr with
  | None => cp
  | Some bp =>
      if 0 <? bp_sem bp
      then with_pool addr {| bp_idle := bp_idle bp; bp_sem := bp_sem bp - 1;
                             bp_maxSize := bp_maxSize bp |} cp
      else cp
  end.

Definition expired (now : time) (timeout : duration) (pc : pooledConn) : bool :=
  timeout <? time_since now (pc_lastUsed pc).

(** The loop that empties the idle channel and puts back what is still valid:
    what stays idle, the semaphore, and what was closed. *)
Fixpoint cleanup_loop (now : time) (timeout : duration) (conns : list pooledConn) (sem : Z)
    : option (list pooledConn * Z * list nat) :=
  match conns with
  | [] => Some ([], sem, [])
  | pc :: conns =>
      if expired now timeout pc then
        if sem <=? 0 then None
        else
          match cleanup_loop now timeout conns (sem - 1) with
          | None => None
          | Some (kept, sem, dead) => Some (kept, sem, pc_conn pc :: dead)
          end
      else
        match cleanup_loop now timeout conns sem with
        | None => None
        | Some (kept, sem, dead) => Some (pc :: kept, sem, dead)
        end
  end.

Definition cleanupBrokerPool (now : time) (timeout : duration) (bp : brokerPool)
    : option (brokerPool * list nat) :=
  match cleanup_loop now timeout (bp_idle bp) (bp_sem bp) with
  | None => None
  | Some (kept, sem, dead) =>
      Some ({| bp_idle := kept; bp_sem := sem; bp_maxSize := bp_maxSize bp |}, dead)
  end.

Definition cleanup_broker (now : time) (addr : string) (cp : ConnectionPool)
    : option ConnectionPool :=
  match cp_pools cp !! addr with
  | None => Some cp
  | Some bp =>
      match cleanupBrokerPool now (idleTimeout cp) bp with
      | None => None
      | Some (bp, dead) =>
          Some {| cp_pools := <[addr := bp]> (cp_pools cp); cp_cfg := cp_cfg cp;
                  cp_closed := cp_closed cp ++ dead |}
      end
  end.

(** [order] is the order the map is ranged in. *)
Fixpoint cleanupIdleConns (now : time) (order : list string) (cp : ConnectionPool)
    : option ConnectionPool :=
  match order with
  | [] => Some cp
  | addr :: order =>
      match cleanup_broker now addr cp with
      | None => None
      | Some cp => cleanupIdleConns now order cp
      end
  end.

(** ** The health probe *)

Definition health_header : bytes :=
  let clientID := "kafkaproxy-health"%string in
  be16 APIKeyMetadata ++ be16 0 ++ be32 0 ++ be16 (slen clientID) ++ bytes_of clientID.

Definition writeMetadataRequest (pooled : bytes) : IO conn unit :=
  Write (WriteFrame pooled health_header (be32 0)).

Definition readMetadataResponse : IO conn unit :=
  sizeBuf ← wrap "read response size" (ReadFull 4);
  respSize ← pure (Uint32 sizeBuf);
  respBuf ← wrap "read response body" (read_make respSize);
  if blen respBuf <? 4 then fail (Errorf "response too short")
  else (_ ← pure (u32_at respBuf 0); mret tt).

Definition probe : IO conn unit := _ ← writeMetadataRequest []; readMetadataResponse.

(** One broker of [runHealthChecks]: [conns] is the peer behind each handle. *)
Definition health_check (now : time) (addr : string) (dialed : res nat) (conns : nat → conn)
    (cp : ConnectionPool) : option (res unit) * ConnectionPool :=
  match Get now addr dialed cp with
  | (None, cp) => (None, cp)
  | (Some (Ok c), cp) =>
      match fst (probe (conns c)) with
      | Ok _ => let '(r, cp) := Put now addr c cp in (Ok <$> r, cp)
      | Err _ => (Some (Ok tt), releaseSem addr (close_conn c cp))
      | Panic => (Some Panic, cp)
      end
  | (Some (Err _), cp) => (Some (Ok tt), cp)
  | (Some Panic, cp) => (Some Panic, cp)
  end.

Definition drainPool (bp : brokerPool) : list nat := map pc_conn (bp_idle bp).

Definition Close (order : list string) (cp : ConnectionPool) : ConnectionPool :=
  foldl (λ cp addr,
    match cp_pools cp !! addr with
    | None => cp
    | Some bp => {| cp_pools := delete addr (cp_pools cp); cp_cfg := cp_cfg cp;
                    cp_closed := cp_closed cp ++ drainPool bp |}
    end) cp order.

(** ** Connections in use

    The pool together with the handles its clients hold.  A client puts back or
    discards only a connection it holds; a discarded connection is closed and
    its slot released, as the health check does. *)

Record pool_world := {
  pw_pool : ConnectionPool;
  pw_used : gmap string (list nat);
  pw_next : nat
}.

Inductive pool_op :=
  | PGet (now : time) (addr : string) (dial_ok : bool)
  | PPut (now : time) (addr : string) (c : nat)
  | PDiscard (addr : string) (c : nat)
  | PCleanup (now : time) (order : list string)
  | PHealth (now : time) (addr : string) (dial_ok : bool) (conns : nat → conn).

Definition used_at (w : pool_world) (addr : string) : list nat := default [] (pw_used w !! addr).
Definition idle_at (w : pool_world) (addr : string) : list nat :=
  match cp_pools (pw_pool w) !! addr with Some bp => map pc_conn (bp_idle bp) | None => [] end.
Definition open_at (w : pool_world) (addr : string) : list nat := idle_at w addr ++ used_at w addr.

Definition dial_result (ok : bool) (c : nat) : res nat :=
  if ok then Ok c else Err (Sentinel "dial").

Definition capacity (cfg : ConnectionPoolConfig) : Z :=
  let maxSize := cp_MaxConnectionsPerBroker cfg in
  if maxSize <=? 0 then defaultMaxConnections else maxSize.

(** Whether the handle a [Get] returned is the one just dialed. *)
Definition next_handle (w : pool_world) (c : nat) : nat :=
  if decide (c = pw_next w) then S (pw_next w) else pw_next w.

Definition take_use (w : pool_world) (addr : string) (c : nat) (cp : ConnectionPool) : pool_world :=
  {| pw_pool := cp; pw_used := <[addr := c :: used_at w addr]> (pw_used w);
     pw_next := next_handle w c |}.

Definition end_use (w : pool_world) (addr : string) (c : nat) (cp : ConnectionPool) : pool_world :=
  {| pw_pool := cp; pw_used := <[addr := filter (λ d, d ≠ c) (used_at w addr)]> (pw_used w);
     pw_next := pw_next w |}.

Definition with_cp (w : pool_world) (cp : ConnectionPool) : pool_world :=
  {| pw_pool := cp; pw_used := pw_used w; pw_next := pw_next w |}.

Definition do_get (now : time) (addr : string) (ok : bool) (w : pool_world) : pool_world :=
  match Get now addr (dial_result ok (pw_next w)) (pw_pool w) with
  | (Some (Ok c), cp) => take_use w addr c cp
  | (_, cp) => with_cp w cp
  end.

Definition do_put (now : time) (addr : string) (c : nat) (w : pool_world) : pool_world :=
  if decide (c ∈ used_at w addr) then
    match Put now addr c (pw_pool w) with
    | (Some _, cp) => end_use w addr c cp
    | (None, cp) => with_cp w cp
    end
  else w.

Definition do_discard (addr : string) (c : nat) (w : pool_world) : pool_world :=
  if decide (c ∈ used_at w addr)
  then end_use w addr c (releaseSem addr (close_conn c (pw_pool w)))
  else w.

Definition pool_step (w : pool_world) (op : pool_op) : pool_world :=
  match op with
  | PGet now addr ok => do_get now addr ok w
  | PPut now addr c => do_put now addr c w
  | PDiscard addr c => do_discard addr c w
  | PCleanup now order =>
      match cleanupIdleConns now order (pw_pool w) with
      | Some cp => with_cp w cp
      | None => w
      end
  | PHealth now addr ok conns =>
      let '(_, cp) := health_check now addr (dial_result ok (pw_next w)) conns (pw_pool w) in
      {| pw_pool := cp; pw_used := pw_used w;
         pw_next := if ok then S (pw_next w) else pw_next w |}
  end.

Definition run_pool (ops : list pool_op) (w : pool_world) : pool_world := foldl pool_step w ops.

Definition pool_start (cfg : ConnectionPoolConfig) : pool_world :=
  {| pw_pool := New cfg; pw_used := ∅; pw_next := 0 |}.

(** ** What [Get] takes from the idle queue *)

Lemma get_loop_spec now t dialed idle sem maxSize closed r bp closed' :
  get_loop now t dialed idle sem maxSize closed = (r, bp, closed') →
  Z.of_nat (length idle) ≤ sem →
  ∃ dead rest, idle = dead ++ rest ∧ closed' = closed ++ map pc_conn dead ∧
    bp_maxSize bp = maxSize ∧
    (match rest with
     | pc :: rest =>
         isAlive now t pc = true ∧ r = Some (Ok (pc_conn pc)) ∧ bp_idle bp = rest ∧
         bp_sem bp = sem - Z.of_nat (length dead)
     | [] =>
         bp_idle bp = [] ∧
         let n := sem - Z.of_nat (length dead) in
         if n <? maxSize
         then bp_sem bp = (if is_ok dialed then n + 1 else n) ∧
              r = Some (wrap_err "dial broker" dialed)
         else bp_sem bp = n ∧ r = None
     end).
Proof.
  revert sem closed. induction idle as [|pc idle IH]; intros sem closed Hg Hs; cbn in Hg.
  - exists [], []. cbn. rewrite app_nil_r, Z.sub_0_r. destruct (sem <? maxSize).
    + destruct dialed; injection Hg as <- <- <-; done.
    + injection Hg as <- <- <-; done.
  - destruct (isAlive now t pc) eqn:Ha.
    + injection Hg as <- <- <-. exists [], (pc :: idle). cbn.
      rewrite app_nil_r, Z.sub_0_r. done.
    + cbn in Hs. rewrite (proj2 (Z.leb_gt _ _)) in Hg by lia.
      destruct (IH _ _ Hg ltac:(lia)) as (dead & rest & -> & -> & Hm & Hrest).
      exists (pc :: dead), rest. rewrite <- app_assoc. cbn. split_and!; try done.
      replace (sem - Z.of_nat (S (length dead))) with (sem - 1 - Z.of_nat (length dead)) by lia.
      done.
Qed.

Lemma cleanup_loop_spec now t conns sem :
  Z.of_nat (length conns) ≤ sem →
  cleanup_loop now t conns sem =
  Some (filter (λ pc, expired now t pc = false) conns,
        sem - Z.of_nat (length (filter (λ pc, expired now t pc = true) conns)),
        map pc_conn (filter (λ pc, expired now t pc = true) conns)).
Proof.
  revert sem. induction conns as [|pc conns IH]; intros sem Hs;
    [cbn; by rewrite Z.sub_0_r|]. cbn [cleanup_loop length] in *.
  rewrite !filter_cons. destruct (expired now t pc) eqn:He.
  - rewrite (proj2 (Z.leb_gt _ _)), IH by lia.
    rewrite decide_False, decide_True by done. cbn [length map].
    by match goal with |- Some (_, ?a, _) = Some (_, ?b, _) => replace a with b by lia end.
  - rewrite IH by lia. rewrite decide_True, decide_False by done. done.
Qed.

(** ** The invariant

    Every open connection of a broker, idle or in use, holds one slot of its
    semaphore; it is open for one broker only, is not closed, and is in one
    place. *)

Record pool_inv (w : pool_world) : Prop := {
  pi_slots : ∀ addr bp, cp_pools (pw_pool w) !! addr = Some bp →
    bp_maxSize bp = capacity (cp_cfg (pw_pool w)) ∧
    bp_sem bp = Z.of_nat (length (open_at w addr)) ∧ bp_sem bp ≤ bp_maxSize bp;
  pi_known : ∀ addr, cp_pools (pw_pool w) !! addr = None → used_at w addr = [];
  pi_nodup : ∀ addr, NoDup (open_at w addr);
  pi_single : ∀ a b c, c ∈ open_at w a → c ∈ open_at w b → a = b;
  pi_live : ∀ addr c, c ∈ open_at w addr → c ∉ cp_closed (pw_pool w);
  pi_old : ∀ addr c, c ∈ open_at w addr ∨ c ∈ cp_closed (pw_pool w) → (c < pw_next w)%nat
}.

Lemma capacity_pos cfg : 0 < capacity cfg.
Proof. unfold capacity, defaultMaxConnections. destruct (Z.leb_spec (cp_MaxConnectionsPerBroker cfg) 0); lia. Qed.

Lemma pool_inv_start cfg : pool_inv (pool_start cfg).
Proof.
  assert (Ho : ∀ addr, open_at (pool_start cfg) addr = []).
  { intros addr. unfold open_at, idle_at, used_at; cbn. by rewrite !lookup_empty. }
  split; cbn; intros *; rewrite ?Ho, ?lookup_empty;
    [done|done|constructor|intros H; by apply not_elem_of_nil in H..|].
  intros [H|H]; by apply not_elem_of_nil in H.
Qed.

(** A step that changes one broker: its open connections become a reordering of
    what was open, less what was closed, plus possibly the handle just made. *)
Section OneBroker.

Context (w w' : pool_world) (addr : string) (bp : brokerPool) (dead fresh : list nat).
Context (Hi : pool_inv w).
Context (Hp : cp_pools (pw_pool w') = <[addr := bp]> (cp_pools (pw_pool w))).
Context (Hcfg : cp_cfg (pw_pool w') = cp_cfg (pw_pool w)).
Context (Hcl : cp_closed (pw_pool w') = cp_closed (pw_pool w) ++ dead).
Context (Hu : ∀ b, b ≠ addr → used_at w' b = used_at w b).
Context (Hnext : (pw_next w ≤ pw_next w')%nat).
Context (Hfresh : ∀ c, c ∈ fresh → c = pw_next w ∧ (c < pw_next w')%nat).
Context (Hfnd : NoDup fresh).
Context (Hperm : fresh ++ open_at w addr ≡ₚ map pc_conn (bp_idle bp) ++ used_at w' addr ++ dead).

Lemma upd_same : open_at w' addr = map pc_conn (bp_idle bp) ++ used_at w' addr.
Proof. unfold open_at, idle_at. by rewrite Hp, lookup_insert, decide_True. Qed.

Lemma upd_other b : b ≠ addr → open_at w' b = open_at w b.
Proof. intros Hb. unfold open_at, idle_at. rewrite Hp, lookup_insert_ne by done. by rewrite Hu. Qed.

Lemma upd_perm : fresh ++ open_at w addr ≡ₚ open_at w' addr ++ dead.
Proof. by rewrite upd_same, <- app_assoc. Qed.

Lemma upd_old b c : c ∈ open_at w b ∨ c ∈ cp_closed (pw_pool w) → c ∉ fresh.
Proof.
  intros Hc Hf. destruct (Hfresh c Hf) as [-> _]. pose proof (pi_old w Hi b _ Hc). lia.
Qed.

Lemma upd_nodup : NoDup (open_at w' addr ++ dead).
Proof.
  rewrite <- upd_perm. apply list.NoDup_app. split_and!; [done| |apply Hi].
  intros c Hc Hc'. eapply (upd_old addr); [by left|done].
Qed.

Lemma upd_sub c : c ∈ open_at w' addr ++ dead → c ∈ fresh ∨ c ∈ open_at w addr.
Proof. rewrite <- upd_perm. apply elem_of_app. Qed.

Lemma upd_cross b c : b ≠ addr → c ∈ open_at w' addr ++ dead → c ∉ open_at w b.
Proof.
  intros Hb [Hf|Ho]%upd_sub Hc'; [eapply (upd_old b); [by left|done]|].
  apply Hb. by apply (pi_single w Hi _ _ c).
Qed.

Lemma upd_lt c : c ∈ open_at w' addr ++ dead → (c < pw_next w')%nat.
Proof.
  intros [Hf|Ho]%upd_sub; [by apply Hfresh|].
  pose proof (pi_old w Hi addr c (or_introl Ho)). lia.
Qed.

Lemma pool_inv_update :
  bp_maxSize bp = capacity (cp_cfg (pw_pool w)) →
  bp_sem bp = Z.of_nat (length (bp_idle bp)) + Z.of_nat (length (used_at w' addr)) →
  bp_sem bp ≤ bp_maxSize bp →
  pool_inv w'.
Proof.
  intros Hmax Hsem Hle.
  assert (Hl : ∀ a c, c ∈ open_at w' a → a = addr ∧ c ∈ open_at w' addr ++ dead
                      ∨ a ≠ addr ∧ c ∈ open_at w a).
  { intros a c Hc. destruct (decide (a = addr)) as [->|Ha].
    - left. split; [done|]. apply elem_of_app. by left.
    - right. by rewrite <- upd_other. }
  split.
  - intros b bp'. rewrite Hp, Hcfg. destruct (decide (b = addr)) as [->|Hb].
    + rewrite lookup_insert, decide_True by done. intros [= <-].
      rewrite upd_same, length_app, length_map. split_and!; [done|lia|done].
    + rewrite lookup_insert_ne, upd_other by done. apply Hi.
  - intros b. rewrite Hp. destruct (decide (b = addr)) as [->|Hb].
    + by rewrite lookup_insert, decide_True by done.
    + rewrite lookup_insert_ne, Hu by done. apply Hi.
  - intros b. destruct (decide (b = addr)) as [->|Hb]; [|rewrite upd_other by done; apply Hi].
    by pose proof upd_nodup as [? _]%list.NoDup_app.
  - intros a b c [[-> Ha]|[Hna Ha]]%Hl [[-> Hb]|[Hnb Hb]]%Hl; [done|..].
    + by destruct (upd_cross b c Hnb Ha).
    + by destruct (upd_cross a c Hna Hb).
    + by apply (pi_single w Hi _ _ c).
  - intros b c Hc. rewrite Hcl, elem_of_app. pose proof Hc as [[-> Ha]|[Hb Hc']]%Hl.
    + pose proof upd_nodup as (_ & Hx & _)%list.NoDup_app. intros [Hd|Hd]; [|by eapply Hx].
      apply upd_sub in Ha as [Hf|Ho]; [eapply (upd_old addr); [by right|done]|].
      by eapply (pi_live w Hi).
    + intros [Hd|Hd]; [by eapply (pi_live w Hi)|].
      eapply (upd_cross b c); [done| |done]. apply elem_of_app. by right.
  - intros b c [[[-> Hc]|[_ Hc]]%Hl|Hc]; [by apply upd_lt| |].
    + pose proof (pi_old w Hi b c (or_introl Hc)). lia.
    + rewrite Hcl, elem_of_app in Hc. destruct Hc as [Hc|Hc].
      * pose proof (pi_old w Hi b c (or_intror Hc)). lia.
      * apply upd_lt, elem_of_app. by right.
Qed.

End OneBroker.

(** ** Each operation keeps it *)

Lemma getOrCreatePool_spec w addr :
  pool_inv w →
  let bp := getOrCreatePool addr (pw_pool w) in
  map pc_conn (bp_idle bp) = idle_at w addr ∧
  bp_maxSize bp = capacity (cp_cfg (pw_pool w)) ∧
  bp_sem bp = Z.of_nat (length (bp_idle bp)) + Z.of_nat (length (used_at w addr)) ∧
  bp_sem bp ≤ bp_maxSize bp.
Proof.
  intros Hi. unfold getOrCreatePool, idle_at.
  destruct (cp_pools (pw_pool w) !! addr) as [bp|] eqn:Hl; cbn zeta.
  - destruct (pi_slots w Hi addr bp Hl) as (Hm & Hs & Hle).
    unfold open_at, idle_at in Hs. rewrite Hl, length_app, length_map in Hs.
    split_and!; [done|done|lia|done].
  - rewrite (pi_known w Hi addr Hl). cbn. split_and!; [done..|].
    pose proof (capacity_pos (cp_cfg (pw_pool w))). unfold capacity in *. lia.
Qed.

Lemma used_at_insert m l addr b cp n :
  used_at {| pw_pool := cp; pw_used := <[addr := l]> m; pw_next := n |} b =
  if decide (addr = b) then l else default [] (m !! b).
Proof. unfold used_at; cbn. rewrite lookup_insert. by case_decide. Qed.

Lemma next_fresh w b c :
  pool_inv w → c ∈ open_at w b ∨ c ∈ cp_closed (pw_pool w) → c ≠ pw_next w.
Proof. intros Hi Hc ->. specialize (pi_old w Hi b _ Hc). lia. Qed.

Lemma next_handle_old w b c : pool_inv w → c ∈ open_at w b → next_handle w c = pw_next w.
Proof.
  intros Hi Hc. unfold next_handle. rewrite decide_False; [done|].
  eapply next_fresh; [done|by left].
Qed.

Lemma next_handle_next w : next_handle w (pw_next w) = S (pw_next w).
Proof. unfold next_handle. by rewrite decide_True. Qed.

Lemma idle_not_used w addr b c :
  pool_inv w → c ∈ idle_at w addr → c ∉ used_at w b.
Proof.
  intros Hi Hc Hu.
  assert (addr = b) as <-.
  { apply (pi_single w Hi _ _ c); unfold open_at; apply elem_of_app; auto. }
  pose proof (pi_nodup w Hi addr) as Hnd. unfold open_at in Hnd.
  apply list.NoDup_app in Hnd as (_ & Hx & _). by eapply Hx.
Qed.

Definition moved (addr : string) (bp : brokerPool) (dead : list nat) (cp : ConnectionPool)
    : ConnectionPool :=
  {| cp_pools := <[addr := bp]> (cp_pools cp); cp_cfg := cp_cfg cp;
     cp_closed := cp_closed cp ++ dead |}.

(** A broker that handed nothing out. *)
Lemma pool_inv_none w addr bp dead :
  pool_inv w →
  idle_at w addr ≡ₚ map pc_conn (bp_idle bp) ++ dead →
  bp_maxSize bp = capacity (cp_cfg (pw_pool w)) →
  bp_sem bp = Z.of_nat (length (bp_idle bp)) + Z.of_nat (length (used_at w addr)) →
  bp_sem bp ≤ bp_maxSize bp →
  pool_inv (with_cp w (moved addr bp dead (pw_pool w))).
Proof.
  intros Hi Hperm Hm Hs Hle.
  eapply (pool_inv_update w _ addr bp dead []); try done.
  - intros c Hc. by apply not_elem_of_nil in Hc.
  - constructor.
  - unfold open_at. rewrite Hperm. cbn. change (used_at (with_cp _ _)) with (used_at w).
    by rewrite <- !app_assoc, (Permutation_app_comm dead).
Qed.

(** A broker that handed out the idle connection [c], or the new one. *)
Lemma pool_inv_take w addr bp dead c fresh :
  pool_inv w →
  (fresh = [] ∧ c ∈ open_at w addr ∨ fresh = [pw_next w] ∧ c = pw_next w) →
  fresh ++ idle_at w addr ≡ₚ map pc_conn (bp_idle bp) ++ c :: dead →
  bp_maxSize bp = capacity (cp_cfg (pw_pool w)) →
  bp_sem bp = Z.of_nat (length (bp_idle bp)) + 1 + Z.of_nat (length (used_at w addr)) →
  bp_sem bp ≤ bp_maxSize bp →
  pool_inv (take_use w addr c (moved addr bp dead (pw_pool w))).
Proof.
  intros Hi Hc Hperm Hm Hs Hle.
  assert (Hu : used_at (take_use w addr c (moved addr bp dead (pw_pool w))) addr
               = c :: used_at w addr).
  { unfold take_use. by rewrite used_at_insert, decide_True. }
  eapply (pool_inv_update w _ addr bp dead fresh); try done; rewrite ?Hu.
  - intros b Hb. unfold take_use. by rewrite used_at_insert, decide_False.
  - cbn. destruct Hc as [[_ Hc]|[_ ->]].
    + by rewrite (next_handle_old w addr).
    + rewrite next_handle_next. lia.
  - intros d Hd. destruct Hc as [[-> _]|[-> ->]]; [by apply not_elem_of_nil in Hd|].
    apply list_elem_of_singleton in Hd as ->. cbn. rewrite next_handle_next. split; [done|lia].
  - destruct Hc as [[-> _]|[-> _]]; [constructor|apply NoDup_singleton].
  - unfold open_at. rewrite app_assoc, Hperm, <- app_assoc. f_equiv. cbn.
    by rewrite (Permutation_app_comm dead).
  - cbn [length]. lia.
Qed.

(** What [Get] may answer. *)
Lemma Get_spec w now addr ok r cp :
  pool_inv w →
  Get now addr (dial_result ok (pw_next w)) (pw_pool w) = (r, cp) →
  (r = None ∧ Z.of_nat (length (used_at w addr)) = capacity (cp_cfg (pw_pool w)) ∧
   pool_inv (with_cp w cp)) ∨
  (∃ c, r = Some (Ok c) ∧ (∀ b, c ∉ used_at w b) ∧
        (c ∈ idle_at w addr ∨ c = pw_next w ∧ ok = true) ∧ pool_inv (take_use w addr c cp)) ∨
  (∃ e, r = Some (Err e) ∧ ok = false ∧ pool_inv (with_cp w cp)).
Proof.
  intros Hi. unfold Get.
  destruct (getOrCreatePool_spec w addr Hi) as (Hidle & Hmax & Hsem & Hle).
  destruct (get_loop _ _ _ _ _ _ _) as [[r' bp] closed'] eqn:Hg. intros [= <- <-].
  apply get_loop_spec in Hg as (dead & rest & Hsplit & -> & Hm & Hrest); [|lia].
  change {| cp_pools := _; cp_cfg := _; cp_closed := _ |}
    with (moved addr bp (map pc_conn dead) (pw_pool w)).
  rewrite Hsplit in Hidle, Hsem. rewrite map_app in Hidle. rewrite length_app in Hsem.
  destruct rest as [|pc rest].
  - destruct Hrest as [Hnil Hn]. cbn zeta in Hn. cbn in Hidle, Hsem. rewrite app_nil_r in Hidle.
    assert (Hperm : idle_at w addr ≡ₚ map pc_conn (bp_idle bp) ++ map pc_conn dead)
      by (by rewrite Hnil, Hidle).
    destruct (Z.ltb_spec (bp_sem (getOrCreatePool addr (pw_pool w)) - Z.of_nat (length dead))
                (bp_maxSize (getOrCreatePool addr (pw_pool w)))); destruct Hn as [Hs ->].
    + destruct ok; cbn in Hs |- *.
      * right; left. exists (pw_next w). split_and!; [done| |by right|].
        { intros b Hb. eapply (next_fresh w b); [done| |done]. left. apply elem_of_app. by right. }
        eapply (pool_inv_take _ _ _ _ _ [pw_next w]); rewrite ?Hnil; cbn;
          [done|by right|by rewrite Hidle|congruence|lia|lia].
      * right; right. eexists. split_and!; [done..|].
        apply pool_inv_none; rewrite ?Hnil; cbn; [done|by rewrite Hidle|congruence|lia|lia].
    + left. split_and!; [done|lia|].
      apply pool_inv_none; rewrite ?Hnil; cbn; [done|by rewrite Hidle|congruence|lia|lia].
  - destruct Hrest as (Ha & -> & Hrest & Hs). right; left. exists (pc_conn pc). cbn in Hidle, Hsem.
    assert (Hin : pc_conn pc ∈ idle_at w addr).
    { rewrite <- Hidle. apply elem_of_app. right. apply list.elem_of_cons. by left. }
    split_and!; [done|by intros b; apply (idle_not_used w addr)|by left|].
    apply (pool_inv_take _ _ _ _ _ []); rewrite ?Hrest;
      [done| |cbn; rewrite <- Hidle; by rewrite Permutation_app_comm; cbn; rewrite Permutation_middle|congruence|lia|lia].
    left. split; [done|]. apply elem_of_app. by left.
Qed.

Lemma NoDup_filter_ne (l : list nat) c :
  NoDup l → c ∈ l → l ≡ₚ c :: filter (λ d, d ≠ c) l.
Proof.
  induction l as [|d l IH]; intros Hnd Hc; [by apply not_elem_of_nil in Hc|].
  apply list.NoDup_cons in Hnd as [Hd Hnd]. rewrite filter_cons.
  destruct (decide (d = c)) as [->|Hne].
  - rewrite decide_False by naive_solver. f_equiv.
    rewrite (filter_Forall (λ d, d ≠ c)); [done|].
    apply list.Forall_forall. intros x Hx ->. done.
  - rewrite decide_True by done. apply list.elem_of_cons in Hc as [->|Hc]; [done|].
    rewrite (IH Hnd Hc) at 1. apply Permutation_swap.
Qed.

Lemma used_nodup w addr : pool_inv w → NoDup (used_at w addr).
Proof. intros Hi. pose proof (pi_nodup w Hi addr) as Hn. by apply list.NoDup_app in Hn as (_ & _ & ?). Qed.

(** A connection in use goes back to the queue ([back]) or is closed. *)
Lemma pool_inv_end w addr c cp bp dead :
  pool_inv w → c ∈ used_at w addr →
  cp_pools cp = <[addr := bp]> (cp_pools (pw_pool w)) →
  cp_cfg cp = cp_cfg (pw_pool w) →
  cp_closed cp = cp_closed (pw_pool w) ++ dead →
  map pc_conn (bp_idle bp) ++ dead ≡ₚ c :: idle_at w addr →
  bp_maxSize bp = capacity (cp_cfg (pw_pool w)) →
  bp_sem bp + 1 = Z.of_nat (length (bp_idle bp)) + Z.of_nat (length (used_at w addr)) →
  bp_sem bp ≤ bp_maxSize bp →
  pool_inv (end_use w addr c cp).
Proof.
  intros Hi Hc Hp Hcfg Hcl Hperm Hm Hs Hle.
  assert (Hu : used_at (end_use w addr c cp) addr = filter (λ d, d ≠ c) (used_at w addr)).
  { unfold end_use. by rewrite used_at_insert, decide_True. }
  pose proof (NoDup_filter_ne _ _ (used_nodup w addr Hi) Hc) as Hf.
  eapply (pool_inv_update w _ addr bp dead []); try done; rewrite ?Hu.
  - intros b Hb. unfold end_use. by rewrite used_at_insert, decide_False.
  - intros d Hd. by apply not_elem_of_nil in Hd.
  - constructor.
  - unfold open_at. cbn [app]. rewrite (Permutation_app_comm (filter _ _)), app_assoc, Hperm.
    cbn. rewrite Hf at 1. by rewrite <- Permutation_middle.
  - apply Permutation_length in Hf. cbn [length] in Hf. lia.
Qed.

Lemma used_pool w addr c :
  pool_inv w → c ∈ used_at w addr →
  ∃ bp, cp_pools (pw_pool w) !! addr = Some bp ∧ map pc_conn (bp_idle bp) = idle_at w addr ∧
    bp_maxSize bp = capacity (cp_cfg (pw_pool w)) ∧
    bp_sem bp = Z.of_nat (length (bp_idle bp)) + Z.of_nat (length (used_at w addr)) ∧
    bp_sem bp ≤ bp_maxSize bp ∧ (0 < length (used_at w addr))%nat.
Proof.
  intros Hi Hc. destruct (cp_pools (pw_pool w) !! addr) as [bp|] eqn:Hl.
  - exists bp. pose proof (getOrCreatePool_spec w addr Hi) as Hg. cbn zeta in Hg.
    unfold getOrCreatePool in Hg. rewrite Hl in Hg. destruct Hg as (? & ? & ? & ?).
    split_and!; try done. destruct (used_at w addr); [by apply not_elem_of_nil in Hc|cbn; lia].
  - rewrite (pi_known w Hi addr Hl) in Hc. by apply not_elem_of_nil in Hc.
Qed.

(** Putting back a connection in use never blocks. *)
Lemma Put_spec w now addr c :
  pool_inv w → c ∈ used_at w addr →
  ∃ cp, Put now addr c (pw_pool w) = (Some tt, cp) ∧ cp_closed cp = cp_closed (pw_pool w) ∧
    pool_inv (end_use w addr c cp).
Proof.
  intros Hi Hc. destruct (used_pool w addr c Hi Hc) as (bp & Hl & Hidle & Hm & Hs & Hle & Hpos).
  unfold Put. rewrite Hl, (proj2 (Z.leb_gt _ _)) by lia. eexists; split_and!; [done..|].
  eapply (pool_inv_end _ _ _ _ _ []); [done|done|done|done|by rewrite app_nil_r|..]; cbn;
    [|done|rewrite length_app; cbn; lia|lia].
  rewrite app_nil_r, map_app, Hidle. cbn. by rewrite Permutation_app_comm.
Qed.

Lemma releaseSem_spec w addr c :
  pool_inv w → c ∈ used_at w addr →
  pool_inv (end_use w addr c (releaseSem addr (close_conn c (pw_pool w)))).
Proof.
  intros Hi Hc. destruct (used_pool w addr c Hi Hc) as (bp & Hl & Hidle & Hm & Hs & Hle & Hpos).
  unfold releaseSem, close_conn; cbn [cp_pools]. rewrite Hl, (proj2 (Z.ltb_lt _ _)) by lia.
  eapply (pool_inv_end _ _ _ _ _ [c]); [done|done|done|done|done|..]; cbn; [|done|lia|lia].
  rewrite Hidle. by rewrite Permutation_app_comm.
Qed.

Lemma filter_split_perm {A} (f : A → bool) (l : list A) :
  l ≡ₚ filter (λ x, f x = false) l ++ filter (λ x, f x = true) l.
Proof.
  induction l as [|x l IH]; [done|]. rewrite !filter_cons. destruct (f x).
  - rewrite decide_False, decide_True by done. by rewrite <- Permutation_middle, <- IH.
  - rewrite decide_True, decide_False by done. cbn. by rewrite <- IH.
Qed.

(** The cleanup never blocks, and touches only idle connections. *)
Lemma cleanupIdleConns_spec w now order :
  pool_inv w →
  ∃ cp, cleanupIdleConns now order (pw_pool w) = Some cp ∧ pool_inv (with_cp w cp).
Proof.
  revert w. induction order as [|addr order IH]; intros w Hi; cbn.
  - exists (pw_pool w). split; [done|]. by destruct w.
  - unfold cleanup_broker. destruct (cp_pools (pw_pool w) !! addr) as [bp|] eqn:Hl; [|by apply IH].
    pose proof (getOrCreatePool_spec w addr Hi) as Hg. cbn zeta in Hg.
    unfold getOrCreatePool in Hg. rewrite Hl in Hg. destruct Hg as (Hidle & Hm & Hs & Hle).
    unfold cleanupBrokerPool. rewrite cleanup_loop_spec by lia.
    pose proof (filter_split_perm (expired now (idleTimeout (pw_pool w))) (bp_idle bp)) as Hperm.
    match goal with |- context [cleanupIdleConns _ _ ?c] => apply (IH (with_cp w c)) end.
    apply pool_inv_none; cbn; [done| |done| |lia].
    + rewrite <- map_app, <- Hperm, Hidle. done.
    + apply Permutation_length in Hperm. rewrite length_app in Hperm. lia.
Qed.

Lemma pool_inv_ext w w' :
  pool_inv w → pw_pool w' = pw_pool w → (∀ addr, used_at w' addr = used_at w addr) →
  (pw_next w ≤ pw_next w')%nat → pool_inv w'.
Proof.
  intros Hi Hp Hu Hn.
  assert (Ho : ∀ addr, open_at w' addr = open_at w addr).
  { intros addr. unfold open_at, idle_at. by rewrite Hp, Hu. }
  split; intros *; rewrite ?Hp, ?Hu, ?Ho; try apply Hi.
  intros H. pose proof (pi_old w Hi _ _ H). lia.
Qed.

Lemma io_safe_probe : io_safe (λ _, True) probe.
Proof.
  unfold probe. eapply io_safe_bind; [apply io_safe_Write|]. intros _ _.
  unfold readMetadataResponse.
  eapply io_safe_bind; [apply io_safe_wrap, io_safe_ReadFull; lia|]. intros b Hb. cbn beta in Hb.
  destruct (Uint32_ok b) as (n & Hn & Hr); [lia|].
  eapply io_safe_bind; [apply io_safe_pure; by rewrite Hn|].
  intros n' Hn'. cbn in Hn'. rewrite Hn in Hn'. injection Hn' as <-.
  eapply io_safe_bind; [apply io_safe_wrap, io_safe_read_make; lia|]. intros resp _.
  destruct (Z.ltb_spec (blen resp) 4); [apply io_safe_fail|].
  eapply io_safe_bind; [apply io_safe_pure, safe_u32_at; lia|]. intros _ _. by apply io_safe_ret.
Qed.

Lemma filter_ne_not_in (l : list nat) c : c ∉ l → filter (λ d, d ≠ c) (c :: l) = l.
Proof.
  intros Hc. rewrite filter_cons, decide_False by naive_solver.
  apply filter_Forall, list.Forall_forall. by intros x Hx ->.
Qed.

(** A health check leaves the connections in use as they were. *)
Lemma health_check_inv w now addr ok conns r cp n :
  pool_inv w → (pw_next w ≤ n)%nat → (ok = true → (pw_next w < n)%nat) →
  health_check now addr (dial_result ok (pw_next w)) conns (pw_pool w) = (r, cp) →
  r ≠ Some Panic ∧ pool_inv {| pw_pool := cp; pw_used := pw_used w; pw_next := n |}.
Proof.
  intros Hi Hn Hok. unfold health_check.
  destruct (Get _ _ _ _) as [g cp1] eqn:Hg.
  destruct (Get_spec w now addr ok g cp1 Hi Hg) as
    [(-> & _ & Hi1)|[(c & -> & Hnew & Hc & Hi1)|(e & -> & _ & Hi1)]].
  - intros [= <- <-]. split; [done|]. by eapply pool_inv_ext.
  - assert (Hu : used_at (take_use w addr c cp1) addr = c :: used_at w addr).
    { unfold take_use. by rewrite used_at_insert, decide_True. }
    assert (Hin : c ∈ used_at (take_use w addr c cp1) addr).
    { rewrite Hu. apply list.elem_of_cons. by left. }
    assert (Hback : ∀ cp2, pool_inv (end_use (take_use w addr c cp1) addr c cp2) →
              pool_inv {| pw_pool := cp2; pw_used := pw_used w; pw_next := n |}).
    { intros cp2 Hi2. eapply pool_inv_ext; [done|done| |].
      - intros b. unfold end_use. rewrite used_at_insert, Hu, filter_ne_not_in by apply Hnew.
        unfold take_use, used_at; cbn. case_decide as Hb; [by subst|].
        by rewrite lookup_insert_ne.
      - cbn. unfold next_handle. case_decide; [|done].
        destruct Hc as [Hc|[_ Ht]]; [|specialize (Hok Ht); lia].
        assert (c < pw_next w)%nat; [|lia].
        apply (pi_old w Hi addr). left. apply elem_of_app. by left. }
    pose proof (io_safe_probe (conns c)) as Hp.
    destruct (fst (probe (conns c))) as [u|e|]; [| |done].
    + destruct (Put_spec _ now addr c Hi1 Hin) as (cp2 & Hput & _ & Hi2).
      change (pw_pool (take_use w addr c cp1)) with cp1 in Hput. rewrite Hput.
      intros [= <- <-]. split; [done|by apply Hback].
    + intros [= <- <-]. split; [done|]. apply Hback. by apply (releaseSem_spec (take_use w addr c cp1)).
  - intros [= <- <-]. split; [done|]. by eapply pool_inv_ext.
Qed.

Lemma pool_step_inv w op : pool_inv w → pool_inv (pool_step w op).
Proof.
  intros Hi. destruct op as [now addr ok|now addr c|addr c|now order|now addr ok conns]; cbn.
  - unfold do_get. destruct (Get _ _ _ _) as [r cp] eqn:Hg.
    destruct (Get_spec w now addr ok r cp Hi Hg) as
      [(-> & _ & ?)|[(c & -> & _ & _ & ?)|(e & -> & _ & ?)]]; done.
  - unfold do_put. case_decide as Hc; [|done].
    by destruct (Put_spec w now addr c Hi Hc) as (cp & -> & _ & ?).
  - unfold do_discard. case_decide as Hc; [|done]. by apply releaseSem_spec.
  - by destruct (cleanupIdleConns_spec w now order Hi) as (cp & -> & ?).
  - destruct (health_check _ _ _ _ _) as [r cp] eqn:Hh.
    eapply (health_check_inv w now addr ok conns r cp); try done; destruct ok; cbn; try done; lia.
Qed.

Lemma Get_cfg now addr d cp : cp_cfg (snd (Get now addr d cp)) = cp_cfg cp.
Proof. unfold Get. by destruct (get_loop _ _ _ _ _ _ _) as [[??]?]. Qed.

Lemma Put_cfg now addr c cp : cp_cfg (snd (Put now addr c cp)) = cp_cfg cp.
Proof. unfold Put. destruct (cp_pools cp !! addr); [|done]. by destruct (_ <=? _). Qed.

Lemma releaseSem_cfg addr cp : cp_cfg (releaseSem addr cp) = cp_cfg cp.
Proof. unfold releaseSem. destruct (cp_pools cp !! addr); [|done]. by destruct (_ <? _). Qed.

Lemma cleanup_cfg now order cp cp' : cleanupIdleConns now order cp = Some cp' → cp_cfg cp' = cp_cfg cp.
Proof.
  revert cp. induction order as [|addr order IH]; intros cp; cbn; [by intros [= <-]|].
  unfold cleanup_broker. destruct (cp_pools cp !! addr) as [bp|]; [|by apply IH].
  destruct (cleanupBrokerPool _ _ bp) as [[bp' dead]|]; [|done].
  intros H. by apply IH in H.
Qed.

Lemma pool_step_cfg w op : cp_cfg (pw_pool (pool_step w op)) = cp_cfg (pw_pool w).
Proof.
  destruct op as [now addr ok|now addr c|addr c|now order|now addr ok conns]; cbn.
  - unfold do_get. pose proof (Get_cfg now addr (dial_result ok (pw_next w)) (pw_pool w)).
    by destruct (Get _ _ _ _) as [[[| |]|] cp].
  - unfold do_put. case_decide; [|done]. pose proof (Put_cfg now addr c (pw_pool w)).
    by destruct (Put _ _ _ _) as [[|] cp].
  - unfold do_discard. case_decide; [|done]. cbn. by rewrite releaseSem_cfg.
  - destruct (cleanupIdleConns _ _ _) eqn:Hc; [|done]. by apply cleanup_cfg in Hc.
  - unfold health_check.
    pose proof (Get_cfg now addr (dial_result ok (pw_next w)) (pw_pool w)).
    destruct (Get _ _ _ _) as [[[c|e|]|] cp]; try done. cbn in H.
    destruct (fst (probe (conns c))); cbn; try done.
    + pose proof (Put_cfg now addr c cp). destruct (Put _ _ _ _) as [[|] ?]; cbn in *; congruence.
    + by rewrite releaseSem_cfg.
Qed.

Lemma run_pool_inv ops cfg :
  let w := run_pool ops (pool_start cfg) in pool_inv w ∧ cp_cfg (pw_pool w) = cfg.
Proof.
  unfold run_pool. induction ops as [|op ops [IH1 IH2]] using rev_ind.
  - split; [apply pool_inv_start|done].
  - cbn zeta. rewrite foldl_app. cbn. split; [by apply pool_step_inv|by rewrite pool_step_cfg].
Qed.

(** The pool trusts what is put back.  When a client closes a connection and
    still puts it back (as the deferred [Put] of [Route] does after a failed
    exchange), and the broker has nothing else idle, the next [Get] within the
    idle timeout returns that closed connection. *)
Lemma closed_reuse now now' addr c dialed cp bp :
  cp_pools cp !! addr = Some bp → bp_idle bp = [] → 0 < bp_maxSize bp →
  now' - now ≤ idleTimeout cp → idleTimeout cp < maxDuration →
  let cp1 := snd (Put now addr c (close_conn c cp)) in
  let (r, cp2) := Get now' addr dialed cp1 in
  r = Some (Ok c) ∧ c ∈ cp_closed cp2.
Proof.
  intros Hl Hidle Hmax Hnow Ht. cbn zeta. unfold Put, close_conn; cbn [cp_pools].
  rewrite Hl, Hidle, (proj2 (Z.leb_gt _ _)) by done. cbn [snd app].
  unfold Get, getOrCreatePool, with_pool; cbn [cp_pools cp_cfg cp_closed].
  rewrite lookup_insert, decide_True by done. cbn.
  assert (Ha : isAlive now' (idleTimeout cp) {| pc_conn := c; pc_lastUsed := now |} = true).
  { unfold isAlive; cbn. rewrite (proj2 (Z.ltb_ge _ (time_since now' now))); [by rewrite andb_false_r|].
    assert (0 < idleTimeout cp) by (unfold idleTimeout, defaultIdleTimeout, second; case_if; bool_to_prop; lia).
    revert Hnow Ht H. unfold time_since, time_sub, maxDuration, minDuration. lia. }
  unfold idleTimeout in *; cbn in *. rewrite Ha. split; [done|]. apply elem_of_app. right.
  by apply list_elem_of_singleton.
Qed.

(** ** Properties *)

(** The pool under any sequence of gets, puts, discards, cleanups and health
    checks by clients that put back only connections they hold.  Per broker,
    the idle and the handed-out connections are all distinct and at most the
    configured capacity (50 when it is not positive); none of them is closed.
    [Get] never hands out a connection that anyone still holds, fails only when
    the dial fails, never panics, and waits only when every slot is handed out;
    a client's [Put] and the cleanup never block. *)
Theorem pool_discipline cfg ops :
  let w := run_pool ops (pool_start cfg) in
  (∀ addr, NoDup (open_at w addr) ∧ Z.of_nat (length (open_at w addr)) ≤ capacity cfg ∧
           (∀ c, c ∈ open_at w addr → c ∉ cp_closed (pw_pool w))) ∧
  (∀ now addr ok, match fst (Get now addr (dial_result ok (pw_next w)) (pw_pool w)) with
     | Some (Ok c) => (∀ b, c ∉ used_at w b) ∧ c ∉ cp_closed (pw_pool w)
     | Some (Err _) => ok = false
     | Some Panic => False
     | None => Z.of_nat (length (used_at w addr)) = capacity cfg
     end) ∧
  (∀ now addr c, c ∈ used_at w addr → fst (Put now addr c (pw_pool w)) = Some tt) ∧
  (∀ now order, is_Some (cleanupIdleConns now order (pw_pool w))).
Proof.
  destruct (run_pool_inv ops cfg) as [Hi Hcfg]. cbn zeta in *.
  set (w := run_pool ops (pool_start cfg)) in *. split_and!.
  - intros addr. split_and!; [apply Hi| |apply Hi].
    destruct (getOrCreatePool_spec w addr Hi) as (H1 & H2 & H3 & H4). cbn zeta in *.
    unfold open_at. rewrite length_app, <- H1, length_map, <- Hcfg. lia.
  - intros now addr ok. destruct (Get _ _ _ _) as [r cp] eqn:Hg.
    destruct (Get_spec w now addr ok r cp Hi Hg) as
      [(-> & Hu & _)|[(c & -> & Hnew & Hc & _)|(e & -> & ? & _)]]; cbn; [by rewrite <- Hcfg| |done].
    split; [done|]. destruct Hc as [Hc|[-> _]].
    + apply (pi_live w Hi addr). apply elem_of_app. by left.
    + intros Hc. eapply (next_fresh w addr); [done| |done]. by right.
  - intros now addr c Hc. by destruct (Put_spec w now addr c Hi Hc) as (cp & -> & _).
  - intros now order. destruct (cleanupIdleConns_spec w now order Hi) as (cp & -> & _). by eexists.
Qed.

Definition sample_pool_cfg : ConnectionPoolConfig :=
  {| cp_MaxConnectionsPerBroker := 1; cp_IdleTimeout := 10 * second;
     cp_KeepAliveInterval := 0 |}.

Lemma pool_discipline_witness :
  let w := run_pool [PGet 0 "b" true; PGet 0 "b" true; PPut 1 "b" 0] (pool_start sample_pool_cfg) in
  open_at w "b" = [0%nat] ∧ is_Some (cleanupIdleConns 5 ["b"] (pw_pool w)).
Proof.
  split; [vm_compute; reflexivity|].
  exact (proj2 (proj2 (proj2 (pool_discipline sample_pool_cfg
    [PGet 0 "b" true; PGet 0 "b" true; PPut 1 "b" 0]))) 5 ["b"]).
Defined.
