(* ===== verification/Stats.v ===== *)
(** * Traffic counters ([internal/routing/data.go], the stats maps)

    The process-wide counters of the dashboard: per topic the routed Produce and
    Fetch requests, per cluster three [int64] counters updated with
    [atomic.AddInt64], which wraps around. *)

From S2P Require Import Prelude.

Record TopicStats := { ts_Topic : string; ts_Produce : Z; ts_Fetch : Z }.
Record ClusterStats := { cs_Cluster : string; cs_Produce : Z; cs_Fetch : Z; cs_Records : Z }.

(** [topicStatsMap] and [clusterStatsMap]. *)
Record Stats := {
  st_topics : gmap string (Z * Z);
  st_clusters : gmap string (Z * Z * Z)
}.

Definition no_stats : Stats := {| st_topics := ∅; st_clusters := ∅ |}.

Definition with_topic (topic : string) (e : Z * Z) (s : Stats) : Stats :=
  {| st_topics := <[topic := e]> (st_topics s); st_clusters := st_clusters s |}.
Definition with_cluster (cluster : string) (e : Z * Z * Z) (s : Stats) : Stats :=
  {| st_topics := st_topics s; st_clusters := <[cluster := e]> (st_clusters s) |}.

Definition RecordTopicProduce (topic : string) (s : Stats) : Stats :=
  let '(p, f) := default (0, 0) (st_topics s !! topic) in
  with_topic topic (int64 (p + 1), f) s.

Definition RecordTopicFetch (topic : string) (s : Stats) : Stats :=
  let '(p, f) := default (0, 0) (st_topics s !! topic) in
  with_topic topic (p, int64 (f + 1)) s.

(** The snapshots list the map in the order it is ranged in. *)
Definition GetTopicStats (s : Stats) : list TopicStats :=
  map (λ '(t, (p, f)), {| ts_Topic := t; ts_Produce := p; ts_Fetch := f |})
    (map_to_list (st_topics s)).

Definition RecordClusterProduce (cluster : string) (s : Stats) : Stats :=
  let '(p, f, r) := default (0, 0, 0) (st_clusters s !! cluster) in
  with_cluster cluster (int64 (p + 1), f, int64 (r + 1)) s.

Definition RecordClusterFetch (cluster : string) (s : Stats) : Stats :=
  let '(p, f, r) := default (0, 0, 0) (st_clusters s !! cluster) in
  with_cluster cluster (p, int64 (f + 1), r) s.

Definition GetClusterStats (s : Stats) : list ClusterStats :=
  map (λ '(c, (p, f, r)), {| cs_Cluster := c; cs_Produce := p; cs_Fetch := f; cs_Records := r |})
    (map_to_list (st_clusters s)).

Definition RecordClusterProduceBytes (cluster : string) (bytes : Z) (s : Stats) : Stats :=
  if bytes <=? 0 then s
  else
    let '(p, f, r) := default (0, 0, 0) (st_clusters s !! cluster) in
    with_cluster cluster (int64 (p + bytes), f, int64 (r + 1)) s.

Definition RecordClusterFetchBytes (cluster : string) (bytes : Z) (s : Stats) : Stats :=
  if bytes <=? 0 then s
  else
    let '(p, f, r) := default (0, 0, 0) (st_clusters s !! cluster) in
    with_cluster cluster (p, int64 (f + bytes), r) s.
