(* ===== verification/Router.v ===== *)
(** * The request router ([internal/routing/data.go], [Router])

    The router against the interface of the leader cache.  [Route] is a
    state-passing program: the router, the counters, the client's connection
    and the peer behind every pooled handle.  Its environment [route_env] gives
    what the outside decides: the clock, the outcome of dialling a broker and a
    cluster, and how each direction of the final copy went until the first of the
    two ended.  The log is not modelled. *)

From stdpp Require Import functions.
From S2P Require Import Prelude Bytes Conn Protocol RequestBody Config Cache Pool Sticky Stats.

Record clusterWeights := { cw_Primary : Z; cw_Secondary : Z }.

Definition static_weights (cc : ClusterConfig) : option clusterWeights :=
  if String.eqb (cl_Mode cc) ModeLoadBalance
  then Some {| cw_Primary := ep_Weight (cl_Primary cc); cw_Secondary := ep_Weight (cl_Secondary cc) |}
  else None.

Record Router (C : Type) := {
  rt_cfg : Config;
  rt_cache : C;
  rt_pool : ConnectionPool;
  rt_effectiveWeights : gmap string clusterWeights
}.
Arguments rt_cfg {C}.
Arguments rt_cache {C}.
Arguments rt_pool {C}.
Arguments rt_effectiveWeights {C}.
Arguments Build_Router {C}.

Record route_env := {
  re_now : time;
  re_dial : string → res nat;
  re_refresh : string → res conn;
  re_upward : copying;
  re_downward : copying
}.

Section Router.

Context {C : Type} `{PartitionLeaderCache C}.

Definition with_weights (w : gmap string clusterWeights) (r : Router C) : Router C :=
  {| rt_cfg := rt_cfg r; rt_cache := rt_cache r; rt_pool := rt_pool r; rt_effectiveWeights := w |}.
Definition with_cache (c : C) (r : Router C) : Router C :=
  {| rt_cfg := rt_cfg r; rt_cache := c; rt_pool := rt_pool r;
     rt_effectiveWeights := rt_effectiveWeights r |}.
Definition with_conn_pool (p : ConnectionPool) (r : Router C) : Router C :=
  {| rt_cfg := rt_cfg r; rt_cache := rt_cache r; rt_pool := p;
     rt_effectiveWeights := rt_effectiveWeights r |}.

Definition NewRouter (cfg : Config) (cache : C) : Router C :=
  {| rt_cfg := cfg; rt_cache := cache; rt_pool := Pool.New (px_ConnectionPool (cfg_Proxy cfg));
     rt_effectiveWeights := omap static_weights (cfg_Clusters cfg) |}.

Definition SetEffectiveWeights (cluster : string) (primaryW secondaryW : Z) (r : Router C)
    : Router C :=
  with_weights (<[cluster := {| cw_Primary := primaryW; cw_Secondary := secondaryW |}]>
                  (rt_effectiveWeights r)) r.

(** The union keeps the weights already there. *)
Definition UpdateConfig (cfg : Config) (r : Router C) : Router C :=
  {| rt_cfg := cfg; rt_cache := rt_cache r; rt_pool := rt_pool r;
     rt_effectiveWeights := rt_effectiveWeights r ∪ omap static_weights (cfg_Clusters cfg) |}.

Definition GetEffectiveWeights (cluster : string) (cfg : ClusterConfig) (r : Router C) : Z * Z :=
  match rt_effectiveWeights r !! cluster with
  | Some ew => (cw_Primary ew, cw_Secondary ew)
  | None =>
      if String.eqb (cl_Mode cfg) ModeLoadBalance
      then (ep_Weight (cl_Primary cfg), ep_Weight (cl_Secondary cfg))
      else (0, 0)
  end.

Definition resolveClusterBootstrap (cfg : ClusterConfig) : string :=
  if String.eqb (cl_Mode cfg) ModeActivePassive then
    if String.eqb (cl_Active cfg) ActivePrimary then ep_Bootstrap (cl_Primary cfg)
    else if String.eqb (cl_Active cfg) ActiveSecondary then ep_Bootstrap (cl_Secondary cfg)
    else ""%string
  else if String.eqb (cl_Mode cfg) ModeLoadBalance then ep_Bootstrap (cl_Primary cfg)
  else if String.eqb (cl_Mode cfg) ModeSingle then ep_Bootstrap (cl_Primary cfg)
  else ""%string.

(** [MetadataTarget] of [metadata.go]: the active cluster's address and the
    request's correlation id. *)
Definition MetadataTarget (requestData : bytes) (clusterCfg : ClusterConfig) : res (string * Z) :=
  hdr ← wrap_err "parsing metadata request header" (ParseRequestHeader requestData);
  check negb (APIKey hdr =? APIKeyMetadata), Errorf "not a metadata request";;
  check negb (String.eqb (cl_Mode clusterCfg) ModeActivePassive)
        && negb (String.eqb (cl_Mode clusterCfg) ModeSingle),
        Errorf "metadata forwarding for mode is not implemented";;
  targetAddr ← (if String.eqb (cl_Active clusterCfg) ActivePrimary
                then Ok (ep_Bootstrap (cl_Primary clusterCfg))
                else if String.eqb (cl_Active clusterCfg) ActiveSecondary
                then Ok (ep_Bootstrap (cl_Secondary clusterCfg))
                else Err (Errorf "unknown active cluster"));
  check String.eqb targetAddr "", Errorf "active cluster has empty bootstrap address";;
  Ok (targetAddr, CorrelationID hdr).

(** Where it succeeds for an active_passive cluster, it agrees with the router. *)
Lemma MetadataTarget_resolves requestData clusterCfg addr corr :
  cl_Mode clusterCfg = ModeActivePassive →
  MetadataTarget requestData clusterCfg = Ok (addr, corr) →
  addr = resolveClusterBootstrap clusterCfg ∧ addr ≠ ""%string.
Proof.
  intros Hm. unfold MetadataTarget. intros (hdr & _ & Hok)%bind_Ok_inv.
  destruct (negb (APIKey hdr =? _)); [done|]. rewrite Hm in Hok. cbn [negb andb] in Hok.
  change (String.eqb ModeActivePassive ModeActivePassive) with true in Hok. cbn [negb andb] in Hok.
  apply bind_Ok_inv in Hok as (a & Ha & Hok). destruct (String.eqb_spec a ""); [done|].
  injection Hok as <- _. split; [|done]. unfold resolveClusterBootstrap. rewrite Hm.
  change (String.eqb ModeActivePassive ModeActivePassive) with true. cbv iota. revert Ha.
  destruct (String.eqb (cl_Active clusterCfg) ActivePrimary); [by intros [= <-]|].
  destruct (String.eqb (cl_Active clusterCfg) ActiveSecondary); [by intros [= <-]|done].
Qed.

(** ** The request frame *)

Definition read_frame : IO conn bytes :=
  sizeBuf ← wrap "reading frame size" (ReadFull 4);
  size ← pure (Uint32 sizeBuf);
  let frameSize := int32 size in
  if frameSize <=? 0 then fail (Errorf "invalid frame size")
  else
    frameData ← wrap "reading frame data" (read_make frameSize);
    buf ← pure (make_bytes (int32 (4 + frameSize)));
    mret (copy_at (copy_at buf 0 (be32 (uint32 frameSize))) 4 frameData).

(** ** Where a request goes *)

(** The leader of a partition, or the cluster's bootstrap when it is unknown,
    after asking the cache to refresh. *)
Definition leader_or_bootstrap (env : route_env) (targetBootstrap : string)
    (routed : RoutedRequest) (r : Router C) : res string * Router C :=
  match GetLeader (rt_cache r) targetBootstrap (rr_TopicName routed) (rr_PartitionID routed) with
  | Some leaderAddr => (Ok leaderAddr, r)
  | None =>
      match RefreshMetadata targetBootstrap (re_refresh env targetBootstrap) (rt_cache r) with
      | (Panic, c) => (Panic, with_cache c r)
      | (_, c) => (Ok targetBootstrap, with_cache c r)
      end
  end.

Definition record_topic (apiKey : Z) (topic : string) (st : Stats) : Stats :=
  if apiKey =? APIKeyProduce then RecordTopicProduce topic st
  else if apiKey =? APIKeyFetch then RecordTopicFetch topic st
  else st.

Definition route_partition (env : route_env) (clusterName : string) (clusterCfg : ClusterConfig)
    (routed : RoutedRequest) (r : Router C) : res string * Router C :=
  if String.eqb (cl_Mode clusterCfg) ModeActivePassive || String.eqb (cl_Mode clusterCfg) ModeSingle
  then
    let targetBootstrap := resolveClusterBootstrap clusterCfg in
    if String.eqb targetBootstrap "" then (Err (Errorf "no bootstrap address for cluster"), r)
    else leader_or_bootstrap env targetBootstrap routed r
  else if String.eqb (cl_Mode clusterCfg) ModeLoadBalance then
    let '(primW, secW) := GetEffectiveWeights clusterName clusterCfg r in
    let '(_, targetBootstrap) := selectClusterByWeight clusterCfg primW secW
                                   (rr_TopicName routed) (rr_PartitionID routed) in
    leader_or_bootstrap env targetBootstrap routed r
  else (Err (Errorf "unknown cluster mode"), r).

Definition is_data_key (apiKey : Z) : bool := (apiKey =? APIKeyProduce) || (apiKey =? APIKeyFetch).

Definition upstream_for (env : route_env) (clusterName : string) (clusterCfg : ClusterConfig)
    (header : RequestHeader) (fullFrame : bytes) (r : Router C) (st : Stats)
    : res string * Router C * Stats :=
  if is_data_key (APIKey header) then
    let bodyStart := 14 + slen (ClientID header) in
    match (body ← slice_from fullFrame bodyStart;
           wrap_err "parsing request body"
             (ParseRequestBody (APIKey header) (APIVersion header) body)) with
    | Err e => (Err e, r, st)
    | Panic => (Panic, r, st)
    | Ok routed =>
        (route_partition env clusterName clusterCfg routed r,
         record_topic (APIKey header) (rr_TopicName routed) st)
    end
  else
    let upstreamAddr := resolveClusterBootstrap clusterCfg in
    if String.eqb upstreamAddr "" then (Err (Errorf "no bootstrap address for cluster"), r, st)
    else (Ok upstreamAddr, r, st).

(** ** The exchange with the broker *)

(** [io.CopyN(dst, src, n)]: the first connection from the second. *)
Definition copy_n (n : Z) : IO (conn * conn) unit := λ '(dst, src),
  let avail := take (Z.to_nat n) (cn_in src) in
  let src' := {| cn_in := drop (Z.to_nat n) (cn_in src); cn_out := cn_out src;
                 cn_writes := cn_writes src |} in
  if blen avail =? 0 then (Err (Sentinel "EOF"), (dst, src'))
  else
    match Write avail dst with
    | (Ok _, dst) => ((if blen avail <? n then Err (Sentinel "EOF") else Ok tt), (dst, src'))
    | (Err e, dst) => (Err e, (dst, src'))
    | (Panic, dst) => (Panic, (dst, src'))
    end.

Definition forward_request (fullFrame : bytes) : IO (conn * conn) unit :=
  _ ← wrap "forwarding request to upstream" (on_snd (Write fullFrame));
  respSizeBuf ← wrap "reading response size from upstream" (on_snd (ReadFull 4));
  size ← pure (Uint32 respSizeBuf);
  let respSize := int32 size in
  if respSize <? 4 then fail (Errorf "invalid response size from upstream")
  else
    _ ← wrap "forwarding response size to client" (on_fst (Write respSizeBuf));
    wrap "streaming response from upstream" (copy_n respSize).

(** The bidirectional copy between a client and an upstream, with the bytes each
    direction wrote.  Each reads one stream and writes the other, so their
    interleaving does not matter; each is cut when the first of them ends and the
    connections are closed. *)
Definition pump (up down : copying) (cs : conn * conn) : (Z * Z) * (conn * conn) :=
  let '(c, u) := cs in
  let '(n, (u, c)) := Copy up u c in
  let '(m, (c, u)) := Copy down c u in
  ((n, m), (c, u)).

(** ** Route *)

Record route_state := {
  rs_router : Router C;
  rs_stats : Stats;
  rs_client : conn;
  rs_conns : nat → conn
}.

Definition with_client (c : conn) (s : route_state) : route_state :=
  {| rs_router := rs_router s; rs_stats := rs_stats s; rs_client := c; rs_conns := rs_conns s |}.
Definition with_router (r : Router C) (s : route_state) : route_state :=
  {| rs_router := r; rs_stats := rs_stats s; rs_client := rs_client s; rs_conns := rs_conns s |}.
Definition with_conns (c : conn) (h : nat) (u : conn) (s : route_state) : route_state :=
  {| rs_router := rs_router s; rs_stats := rs_stats s; rs_client := c;
     rs_conns := <[h := u]> (rs_conns s) |}.

(** The deferred [pool.Put]. *)
Definition put_back (env : route_env) (addr : string) (h : nat) (r : option (res unit))
    (s : route_state) : option (res unit) * route_state :=
  let '(done, pool) := Pool.Put (re_now env) addr h (rt_pool (rs_router s)) in
  (match done with Some _ => r | None => None end,
   with_router (with_conn_pool pool (rs_router s)) s).

Definition Route (env : route_env) (clusterName : string) (clusterCfg : ClusterConfig)
    (s : route_state) : option (res unit) * route_state :=
  match read_frame (rs_client s) with
  | (Err e, c) => (Some (Err e), with_client c s)
  | (Panic, c) => (Some Panic, with_client c s)
  | (Ok fullFrame, c) =>
      let s := with_client c s in
      match wrap_err "parsing request header" (ParseRequestHeader fullFrame) with
      | Err e => (Some (Err e), s)
      | Panic => (Some Panic, s)
      | Ok header =>
          let '(target, r, st) :=
            upstream_for env clusterName clusterCfg header fullFrame (rs_router s) (rs_stats s) in
          let s := {| rs_router := r; rs_stats := st; rs_client := rs_client s;
                      rs_conns := rs_conns s |} in
          match target with
          | Err e => (Some (Err e), s)
          | Panic => (Some Panic, s)
          | Ok upstreamAddr =>
              let '(got, pool) := Pool.Get (re_now env) upstreamAddr (re_dial env upstreamAddr)
                                    (rt_pool (rs_router s)) in
              let s := with_router (with_conn_pool pool (rs_router s)) s in
              match got with
              | None => (None, s)
              | Some (Err e) => (Some (Err (Wrapf "connecting to upstream" e)), s)
              | Some Panic => (Some Panic, s)
              | Some (Ok h) =>
                  let '(r, (c, u)) := forward_request fullFrame (rs_client s, rs_conns s h) in
                  match r with
                  | Panic => (Some Panic, with_conns c h u s)
                  | Err e => put_back env upstreamAddr h (Some (Err e)) (with_conns c h u s)
                  | Ok _ =>
                      let '(_, (c, u)) := pump (re_upward env) (re_downward env) (c, u) in
                      let s := with_conns c h u s in
                      let s := with_router (with_conn_pool
                                 (close_conn h (rt_pool (rs_router s))) (rs_router s)) s in
                      put_back env upstreamAddr h (Some (Ok tt)) s
                  end
              end
          end
      end
  end.

End Router.

Arguments route_state C : clear implicits.

(** The API's name, for the log. *)
Definition apiKeyName (key : Z) : string :=
  if key =? APIKeyProduce then "Produce"
  else if key =? APIKeyFetch then "Fetch"
  else if key =? APIKeyMetadata then "Metadata"
  else ("Unknown(" ++ itoa key ++ ")")%string.

(** ** Where a Produce or Fetch request goes *)

(** Frames that ask for a topic and partition, as either API, from any client. *)
Inductive asks (topic : string) (pid : Z) : bytes → Prop :=
  | asks_produce size v corr cid txn acks timeout nt np rest :
      in_int32 size → in_int16 v → in_int32 corr → valid_nullable cid → valid_nullable txn →
      valid_topics nt topic np pid →
      asks topic pid (encode_request_header size APIKeyProduce v corr cid ++
        encode_produce v txn acks timeout (encode_topics nt topic np pid) ++ rest)
  | asks_fetch size v corr cid rep mw mb xb iso sid ep nt np rest :
      in_int32 size → in_int16 v → in_int32 corr → valid_nullable cid →
      valid_topics nt topic np pid →
      asks topic pid (encode_request_header size APIKeyFetch v corr cid ++
        encode_fetch v rep mw mb xb iso sid ep (encode_topics nt topic np pid) ++ rest).

(** A cluster [Route] can find an upstream for. *)
Definition routable (cfg : ClusterConfig) : Prop :=
  cl_Mode cfg = ModeLoadBalance ∨
  cl_Mode cfg = ModeSingle ∧ ep_Bootstrap (cl_Primary cfg) ≠ ""%string ∨
  cl_Mode cfg = ModeActivePassive ∧
    (cl_Active cfg = ActivePrimary ∧ ep_Bootstrap (cl_Primary cfg) ≠ ""%string ∨
     cl_Active cfg = ActiveSecondary ∧ ep_Bootstrap (cl_Secondary cfg) ≠ ""%string).

Lemma slice_from_header size key v corr cid body :
  slice_from (encode_request_header size key v corr cid ++ body)
    (14 + slen (default ""%string cid)) = Ok body.
Proof.
  apply at_pos_slice_from.
  replace (14 + slen (default ""%string cid)) with (0 + blen (encode_request_header size key v corr cid)).
  { apply at_pos_advance, at_pos_0. }
  unfold encode_request_header. rewrite !blen_app, !blen_be32, !blen_be16.
  destruct cid as [s|]; cbn [encode_nullable default]; unfold Datatypes.id;
    rewrite ?blen_app, ?blen_be16, ?blen_bytes_of; [lia|done].
Qed.

(** What the router sees of such a frame. *)
Lemma asks_parsed topic pid frame :
  asks topic pid frame →
  ∃ header body, ParseRequestHeader frame = Ok header ∧ is_data_key (APIKey header) = true ∧
    slice_from frame (14 + slen (ClientID header)) = Ok body ∧
    ParseRequestBody (APIKey header) (APIVersion header) body =
    Ok {| rr_APIKey := APIKey header; rr_APIVersion := APIVersion header; rr_ClientID := "";
          rr_TopicName := topic; rr_PartitionID := pid |}.
Proof.
  intros Ha; destruct Ha as
    [size v corr cid txn acks timeout nt np rest Hs Hv Hc Hcid Htxn Ht
    |size v corr cid rep mw mb xb iso sid ep nt np rest Hs Hv Hc Hcid Ht].
  - eexists _, _. split_and!; [by eapply ParseRequestHeader_at, at_pos_0|done| |].
    + apply slice_from_header.
    + cbn [APIKey APIVersion]. unfold ParseRequestBody; simpl Z.eqb; cbv iota.
      by erewrite parseProduceBody_at by eauto using at_pos_0.
  - eexists _, _. split_and!; [by eapply ParseRequestHeader_at, at_pos_0|done| |].
    + apply slice_from_header.
    + cbn [APIKey APIVersion]. unfold ParseRequestBody; simpl Z.eqb; cbv iota.
      by erewrite parseFetchBody_at by eauto using at_pos_0.
Qed.

Section Ownership.

Context {C : Type} {supported : string → Prop} `{LawfulCache C supported}.

(** Which partitions belong to the primary of a load_balance cluster: those whose
    hash, the 64-bit FNV-1a of the topic's bytes and the four bytes of the
    partition modulo 100, is below the primary's weight, which is the effective
    one if there is one and the configured one otherwise. *)
Definition partition_hash (topic : string) (pid : Z) : Z :=
  foldl (λ h byte, (Z.lxor h (Z_of_byte byte) * 1099511628211) `mod` 2 ^ 64)
    14695981039346656037 (bytes_of topic ++ be32 (pid `mod` 2 ^ 32)) `mod` 100.

Definition primary_weight (clusterName : string) (cfg : ClusterConfig) (r : Router C) : Z :=
  default (ep_Weight (cl_Primary cfg)) (cw_Primary <$> rt_effectiveWeights r !! clusterName).

(** The cluster that owns a partition, as its bootstrap address. *)
Definition owner (clusterName : string) (cfg : ClusterConfig) (r : Router C)
    (topic : string) (pid : Z) : string :=
  ep_Bootstrap
    (if decide (cl_Mode cfg = ModeLoadBalance ∧ primary_weight clusterName cfg r ≤ partition_hash topic pid ∨
                cl_Mode cfg = ModeActivePassive ∧ cl_Active cfg = ActiveSecondary)
     then cl_Secondary cfg else cl_Primary cfg).

Lemma partition_hash_eq topic pid : StickyHash topic pid = partition_hash topic pid.
Proof. unfold StickyHash, partition_hash, fnv1a. by rewrite foldl_app. Qed.

Lemma owner_balanced clusterName cfg r topic pid :
  cl_Mode cfg = ModeLoadBalance →
  let '(primW, secW) := GetEffectiveWeights clusterName cfg r in
  snd (selectClusterByWeight cfg primW secW topic pid) = owner clusterName cfg r topic pid.
Proof.
  intros Hm. unfold GetEffectiveWeights, owner, primary_weight. rewrite Hm.
  change (String.eqb ModeLoadBalance ModeLoadBalance) with true. cbv iota.
  assert (∀ w v, snd (selectClusterByWeight cfg w v topic pid) =
    ep_Bootstrap (if decide (ModeLoadBalance = ModeLoadBalance ∧ w ≤ partition_hash topic pid ∨
                             ModeLoadBalance = ModeActivePassive ∧ cl_Active cfg = ActiveSecondary)
                  then cl_Secondary cfg else cl_Primary cfg)) as Hsel.
  { intros w v. unfold selectClusterByWeight. rewrite partition_hash_eq.
    destruct (Z.ltb_spec (partition_hash topic pid) w).
    - rewrite decide_False by (intros [[_ ?]|[? _]]; [lia|done]). done.
    - rewrite decide_True by auto. done. }
  destruct (rt_effectiveWeights r !! clusterName) as [ew|]; cbn [default fmap option_fmap option_map];
    apply Hsel.
Qed.

Lemma owner_configured clusterName cfg r topic pid :
  routable cfg → cl_Mode cfg ≠ ModeLoadBalance →
  resolveClusterBootstrap cfg = owner clusterName cfg r topic pid ∧
  owner clusterName cfg r topic pid ≠ ""%string ∧
  String.eqb (cl_Mode cfg) ModeActivePassive || String.eqb (cl_Mode cfg) ModeSingle = true.
Proof.
  unfold resolveClusterBootstrap, owner. intros Hr Hne.
  destruct Hr as [?|[[-> Hb]|[-> [[-> Hb]|[-> Hb]]]]]; [done|..].
  - rewrite decide_False by (by intros [[? _]|[? _]]). done.
  - rewrite decide_False by (by intros [[? _]|[_ ?]]). done.
  - rewrite decide_True by auto. done.
Qed.

Lemma leader_or_bootstrap_spec env b routed (r : Router C) :
  safe (re_refresh env b) →
  let '(a, r') := leader_or_bootstrap env b routed r in
  a = Ok (default b (GetLeader (rt_cache r) b (rr_TopicName routed) (rr_PartitionID routed))) ∧
  rt_pool r' = rt_pool r ∧ rt_effectiveWeights r' = rt_effectiveWeights r ∧
  (∀ b' topic pid, supported b → supported b' → b ≠ b' →
     GetLeader (rt_cache r') b' topic pid = GetLeader (rt_cache r) b' topic pid).
Proof.
  intros Hs. unfold leader_or_bootstrap.
  destruct (GetLeader _ _ _ _) as [a|]; [done|].
  pose proof (refresh_safe (rt_cache r) b _ Hs) as Hsafe.
  pose proof (λ b' t p, refresh_ne (rt_cache r) b (re_refresh env b) b' t p) as Hne.
  destruct (RefreshMetadata b (re_refresh env b) (rt_cache r)) as [[u|e|] c]; [done|done|].
  by cbn in Hsafe.
Qed.

Lemma route_partition_spec env clusterName cfg routed (r : Router C) :
  routable cfg → (∀ b, safe (re_refresh env b)) →
  let b := owner clusterName cfg r (rr_TopicName routed) (rr_PartitionID routed) in
  route_partition env clusterName cfg routed r = leader_or_bootstrap env b routed r.
Proof.
  intros Hr Hsafe. unfold route_partition. cbv zeta.
  destruct (decide (cl_Mode cfg = ModeLoadBalance)) as [Hm|Hm].
  - pose proof (owner_balanced clusterName cfg r (rr_TopicName routed) (rr_PartitionID routed) Hm) as Ho.
    rewrite Hm. change (String.eqb ModeLoadBalance ModeLoadBalance) with true.
    change (String.eqb ModeLoadBalance ModeActivePassive || String.eqb ModeLoadBalance ModeSingle)
      with false. cbv iota. destruct (GetEffectiveWeights _ _ _) as [pw sw].
    destruct (selectClusterByWeight _ _ _ _ _). by cbn [snd] in Ho; subst.
  - destruct (owner_configured clusterName cfg r (rr_TopicName routed) (rr_PartitionID routed) Hr Hm)
      as (-> & Hb & ->).
    by rewrite (proj2 (String.eqb_neq _ _) Hb).
Qed.

(** C15: Partition ownership.  A call of [Route] is aimed at one broker, by the
    first partition of its first request: if that is a Produce or a Fetch, whatever
    its version, client id and other fields and whoever sends it, the broker is the
    leader the cache knows for the partition in the partition's owning cluster, or
    that cluster's bootstrap address when it knows none.  The owner is the
    configured active side in active_passive mode, the primary in single mode, and
    in load_balance mode the side on which the FNV-1a hash of topic and partition
    falls with respect to the primary's effective weight.  Choosing the broker
    changes neither the weights nor the pool nor the leaders known for other
    clusters.  (Later requests of the connection are copied to the same broker,
    whatever partition they ask for: [routed_session].) *)
Theorem request_ownership env clusterName cfg (r : Router C) st topic pid frame :
  routable cfg → (∀ b, safe (re_refresh env b)) → asks topic pid frame →
  let b := owner clusterName cfg r topic pid in
  ∃ header, ParseRequestHeader frame = Ok header ∧
  let '(target, r', st') := upstream_for env clusterName cfg header frame r st in
  target = Ok (default b (GetLeader (rt_cache r) b topic pid)) ∧
  rt_effectiveWeights r' = rt_effectiveWeights r ∧ rt_pool r' = rt_pool r ∧
  (∀ b' topic' pid', supported b → supported b' → b ≠ b' →
     GetLeader (rt_cache r') b' topic' pid' = GetLeader (rt_cache r) b' topic' pid') ∧
  st' = record_topic (APIKey header) topic st.
Proof.
  intros Hr Hsafe Ha b. destruct (asks_parsed topic pid frame Ha) as (hd & body & Hh & Hk & Hsl & Hb).
  exists hd. split; [done|]. unfold upstream_for. rewrite Hk, Hsl. bind_simpl.
  rewrite Hb. cbn [wrap_err rr_TopicName].
  rewrite route_partition_spec by done. cbn [rr_TopicName rr_PartitionID]. fold b.
  match goal with |- context [leader_or_bootstrap env b ?rr r] =>
    pose proof (leader_or_bootstrap_spec env b rr r (Hsafe b)) as Hl;
    destruct (leader_or_bootstrap env b rr r) as [a r'] end.
  cbn [rr_TopicName rr_PartitionID] in Hl. destruct Hl as (? & ? & ? & ?). by split_and!.
Qed.

End Ownership.

(** ** What [Route] moves *)

Lemma be32_take4 b v : blen b = 4 → Uint32 b = Ok v → be32 v = b.
Proof.
  intros Hb Hv. destruct b as [|b0 [|b1 [|b2 [|b3 [|b4 b]]]]]; try done.
  - by apply be32_Uint32.
  - unfold blen in Hb. cbn [length] in Hb. lia.
Qed.

(** A size prefix is the encoding of the size it stands for. *)
Lemma size_prefix sz size :
  blen sz = 4 → Uint32 sz = Ok size → be32 (uint32 (int32 size)) = sz.
Proof.
  intros Hl Hsize. destruct (Uint32_ok sz) as (v & Hv & Hr); [lia|].
  rewrite Hsize in Hv. injection Hv as <-. rewrite int32_cases by done.
  rewrite <- (be32_take4 sz size Hl Hsize). unfold be32, uint32, wrapU. change (2 ^ 32) with 4294967296.
  destruct (Z.ltb_spec size 2147483648); [by rewrite Z.mod_small by lia|].
  replace (size - 4294967296) with (size + -1 * 4294967296) by lia.
  by rewrite Z.mod_add, Z.mod_small by lia.
Qed.

Lemma copy_frame n sz data :
  blen sz = 4 → blen data = n →
  copy_at (copy_at (replicate (Z.to_nat (4 + n)) x00) 0 sz) 4 data = sz ++ data.
Proof.
  intros Hs Hd. pose proof (blen_nonneg data).
  rewrite (copy_at_over [] (replicate _ _) sz 0 eq_refl
    : _ → copy_at (replicate _ _) 0 sz = _)
    by (rewrite length_replicate; unfold blen in *; lia).
  cbn [app].
  rewrite (copy_at_over sz) by (rewrite ?length_drop, ?length_replicate; unfold blen in *; lia).
  rewrite drop_ge by (rewrite length_drop, length_replicate; unfold blen in *; lia).
  by rewrite app_nil_r.
Qed.

(** [read_frame] returns the frame it consumed. *)
Lemma read_frame_Ok c f c' :
  read_frame c = (Ok f, c') →
  cn_in c = f ++ cn_in c' ∧ cn_out c' = cn_out c ∧ cn_writes c' = cn_writes c ∧
  ∃ data, f = be32 (blen data) ++ data ∧ 0 < blen data.
Proof.
  unfold read_frame. intros (sz & c1 & H1 & Hrest)%io_bind_Ok.
  rewrite wrap_Ok in H1. apply ReadFull_Ok in H1 as (Hl & Hin & Hout & Hw); [|lia].
  apply io_bind_Ok in Hrest as (size & c2 & [Hsize ->]%pure_Ok & Hrest).
  destruct (Z.leb_spec (int32 size) 0) as [|Hpos]; [done|].
  apply io_bind_Ok in Hrest as (data & c3 & Hd & Hrest).
  rewrite wrap_Ok in Hd. apply read_make_Ok in Hd as (_ & Hdl & Hin2 & Hout2 & Hw2).
  apply io_bind_Ok in Hrest as (buf & c4 & [Hbuf ->]%pure_Ok & Hrest).
  unfold mret, IO_ret in Hrest. injection Hrest as <- <-.
  pose proof (size_prefix sz size Hl Hsize) as Hsz.
  revert Hbuf. unfold make_bytes. destruct (Z.ltb_spec (int32 (4 + int32 size)) 0); [done|].
  intros [= <-].
  assert (Hfit : int32 (4 + int32 size) = 4 + int32 size).
  { pose proof (int32_range size) as Hi. unfold in_int32 in Hi.
    destruct (Z.ltb_spec (4 + int32 size) 2147483648); [apply int32_small; lia|].
    exfalso. revert H. rewrite <- (int32_uint32 (4 + int32 size)).
    unfold uint32, wrapU. rewrite Z.mod_small by (change (2 ^ 32) with 4294967296; lia).
    rewrite int32_cases by lia. rewrite (proj2 (Z.ltb_ge _ _)) by lia. lia. }
  rewrite Hsz, Hfit. rewrite copy_frame by done.
  split_and!; [by rewrite Hin, Hin2, app_assoc|congruence|congruence|].
  exists data. split; [|lia]. rewrite <- Hsz, Hdl, uint32_small; [done|].
  pose proof (int32_range size). unfold in_int32 in *. lia.
Qed.

Lemma read_frame_run data rest out w :
  0 < blen data < 2147483644 →
  read_frame {| cn_in := be32 (blen data) ++ data ++ rest; cn_out := out; cn_writes := w |} =
  (Ok (be32 (blen data) ++ data), {| cn_in := rest; cn_out := out; cn_writes := w |}).
Proof.
  intros Hl. unfold read_frame, mbind, IO_bind, wrap, pure.
  rewrite ReadFull_app by apply blen_be32. cbn [wrap_err].
  rewrite <- (app_nil_r (be32 (blen data))), Uint32_be32, app_nil_r.
  rewrite int32_uint32, int32_small by lia.
  rewrite (proj2 (Z.leb_gt _ _)) by lia. rewrite read_make_app by done. cbn [wrap_err].
  unfold make_bytes. rewrite int32_small by lia. rewrite (proj2 (Z.ltb_ge _ _)) by lia.
  unfold mret, IO_ret. rewrite copy_frame; [|apply blen_be32|done].
  unfold uint32, wrapU. by rewrite Z.mod_small by lia.
Qed.

Lemma forward_request_Ok frame c u c' u' :
  forward_request frame (c, u) = (Ok tt, (c', u')) →
  ∃ reply, cn_in u = be32 (blen reply) ++ reply ++ cn_in u' ∧
    cn_out c' = cn_out c ++ be32 (blen reply) ++ reply ∧
    cn_out u' = cn_out u ++ frame ∧ cn_in c' = cn_in c ∧ 4 ≤ blen reply ∧
    (cn_writes u = None → cn_writes u' = None) ∧ (cn_writes c = None → cn_writes c' = None).
Proof.
  unfold forward_request. intros ([] & [c1 u1] & H1 & Hrest)%io_bind_Ok.
  rewrite wrap_Ok in H1. unfold on_snd in H1.
  destruct (Write frame u) as [r u2] eqn:Hw. injection H1 as -> <- <-.
  pose proof (Write_Ok _ _ _ _ Hw) as [Hin1 Hout1].
  apply io_bind_Ok in Hrest as (sz & [c2 u2'] & H2 & Hrest).
  rewrite wrap_Ok in H2. unfold on_snd in H2.
  destruct (ReadFull 4 u2) as [r u3] eqn:Hr. injection H2 as -> <- <-.
  apply ReadFull_Ok in Hr as (Hl & Hin2 & Hout2 & Hw2); [|lia].
  apply io_bind_Ok in Hrest as (size & cu & [Hsize ->]%pure_Ok & Hrest).
  destruct (Z.ltb_spec (int32 size) 4) as [|Hs]; [done|].
  apply io_bind_Ok in Hrest as ([] & [c3 u4] & H3 & Hrest).
  rewrite wrap_Ok in H3. unfold on_fst in H3.
  destruct (Write sz c) as [r c4] eqn:Hwc. injection H3 as -> <- <-.
  pose proof (Write_Ok _ _ _ _ Hwc) as [Hcin Hcout].
  rewrite wrap_Ok in Hrest. unfold copy_n in Hrest.
  set (avail := take (Z.to_nat (int32 size)) (cn_in u3)) in *.
  destruct (blen avail =? 0); [done|].
  destruct (Write avail c4) as [[[]|e|] c5] eqn:Hwa; [|done|done].
  pose proof (Write_Ok _ _ _ _ Hwa) as [Hcin2 Hcout2].
  destruct (Z.ltb_spec (blen avail) (int32 size)); [done|]. injection Hrest as <- <-.
  assert (Hav : blen avail = int32 size) by (unfold avail, blen in *; rewrite length_take in *; lia).
  pose proof (size_prefix sz size Hl Hsize) as Hsz. rewrite <- Hav, uint32_small in Hsz
    by (pose proof (int32_range size); unfold in_int32 in *; lia).
  exists avail. cbn [cn_in cn_out cn_writes]. rewrite Hsz.
  rewrite <- (take_drop (Z.to_nat (int32 size)) (cn_in u3)) in Hin2. fold avail in Hin2.
  split_and!; try congruence; try lia.
  - by rewrite Hcout2, Hcout, app_assoc.
  - intros Hn. rewrite Hw2. by eapply Write_reliable.
  - intros Hn. eapply Write_reliable; [exact Hwa|]. by eapply Write_reliable.
Qed.

(** The final copy, either way. *)
Lemma pump_spec up down c u :
  let '(_, (c', u')) := pump up down (c, u) in
  ∃ fwd lost back dropped,
    cn_in c = fwd ++ lost ++ cn_in c' ∧ cn_out u' = cn_out u ++ fwd ∧
    cn_in u = back ++ dropped ++ cn_in u' ∧ cn_out c' = cn_out c ++ back ∧
    (cn_writes u = None → cy_cut up = O → lost = []) ∧
    (cn_writes c = None → cy_cut down = O → dropped = []).
Proof.
  unfold pump. pose proof (Copy_spec up u c) as H1. destruct (Copy up u c) as [n [u1 c1]].
  destruct H1 as (fwd & lost & Hin & Ho & Hw & Hi & Hout & _ & Hl).
  pose proof (Copy_spec down c1 u1) as H2. destruct (Copy down c1 u1) as [m [c2 u2]].
  destruct H2 as (back & dropped & Hin2 & Ho2 & Hw2 & Hi2 & Hout2 & _ & Hl2).
  exists fwd, lost, back, dropped. split_and!; try congruence.
  - intros Hn. by apply Hl.
  - intros Hn. by apply Hl2; rewrite Hw.
Qed.

Lemma pump_reliable up down cin cout uin uout :
  pump up down ({| cn_in := cin; cn_out := cout; cn_writes := None |},
                {| cn_in := uin; cn_out := uout; cn_writes := None |}) =
  ((blen (take (copied up) cin), blen (take (copied down) uin)),
   ({| cn_in := drop (consumed up) cin; cn_out := cout ++ take (copied down) uin; cn_writes := None |},
    {| cn_in := drop (consumed down) uin; cn_out := uout ++ take (copied up) cin; cn_writes := None |})).
Proof. unfold pump. by rewrite !Copy_reliable. Qed.

Section Routing.

Context {C : Type} `{PartitionLeaderCache C}.

(** What a successful [Route] did. *)
Record routed_as (env : route_env) (clusterName : string) (cfg : ClusterConfig)
    (s s' : route_state C) (request : bytes) (header : RequestHeader) (addr : string) (h : nat)
    (reply fwd lost back dropped : bytes) : Prop := {
  ra_frame : cn_in (rs_client s) = be32 (blen request) ++ request ++ fwd ++ lost ++ cn_in (rs_client s');
  ra_request_size : 0 < blen request;
  ra_header : ParseRequestHeader (be32 (blen request) ++ request) = Ok header;
  ra_target :
    fst (fst (upstream_for env clusterName cfg header (be32 (blen request) ++ request)
                (rs_router s) (rs_stats s))) = Ok addr;
  ra_handle : ∃ pool,
    Pool.Get (re_now env) addr (re_dial env addr)
      (rt_pool (snd (fst (upstream_for env clusterName cfg header (be32 (blen request) ++ request)
                            (rs_router s) (rs_stats s)))))
    = (Some (Ok h), pool) ∧
    rt_pool (rs_router s') = snd (Pool.Put (re_now env) addr h (close_conn h pool));
  ra_request : cn_out (rs_conns s' h) = cn_out (rs_conns s h) ++ be32 (blen request) ++ request ++ fwd;
  ra_reply : cn_in (rs_conns s h) = be32 (blen reply) ++ reply ++ back ++ dropped ++ cn_in (rs_conns s' h);
  ra_reply_size : 4 ≤ blen reply;
  ra_client : cn_out (rs_client s') = cn_out (rs_client s) ++ be32 (blen reply) ++ reply ++ back;
  ra_lost : cn_writes (rs_conns s h) = None → cy_cut (re_upward env) = O → lost = [];
  ra_dropped : cn_writes (rs_client s) = None → cy_cut (re_downward env) = O → dropped = [];
  ra_others : ∀ h', h' ≠ h → rs_conns s' h' = rs_conns s h'
}.

Lemma Route_Ok env clusterName cfg (s s' : route_state C) :
  Route env clusterName cfg s = (Some (Ok tt), s') →
  ∃ request header addr h reply fwd lost back dropped,
    routed_as env clusterName cfg s s' request header addr h reply fwd lost back dropped.
Proof.
  unfold Route. destruct (read_frame (rs_client s)) as [[frame|e|] c] eqn:Hf; [|done|done].
  apply read_frame_Ok in Hf as (Hin & Hout & Hcw & request & -> & Hrq).
  destruct (ParseRequestHeader _) as [header|e|] eqn:Hh; [|done|done]. cbn [wrap_err].
  cbn [with_client rs_router rs_stats rs_client rs_conns].
  destruct (upstream_for _ _ _ _ _ _ _) as [[[addr|e|] r] st] eqn:Hu; [|done|done].
  cbn [rs_router rs_client rs_conns rs_stats].
  destruct (Pool.Get _ _ _ _) as [[[h|e|]|] pool] eqn:Hg; [|done|done|done].
  cbn [with_router rs_router rs_client rs_conns rs_stats].
  destruct (forward_request _ _) as [[[]|e|] [c1 u1]] eqn:Hfw; [| |done].
  2:{ unfold put_back. by destruct (Pool.Put _ _ _ _) as [[[]|] ?]. }
  apply forward_request_Ok in Hfw as (reply & Hr1 & Hr2 & Hr3 & Hr4 & Hr5 & Hwu & Hwc).
  pose proof (pump_spec (re_upward env) (re_downward env) c1 u1) as Hp.
  destruct (pump _ _ _) as [n [c2 u2]]. destruct Hp as (fwd & lost & back & dropped & P1 & P2 & P3 & P4 & P5 & P6).
  unfold put_back. cbn [with_conns with_router rs_router rt_pool with_conn_pool].
  destruct (Pool.Put _ _ _ _) as [[[]|] pool'] eqn:Hp; [|done]. intros [= <-].
  exists request, header, addr, h, reply, fwd, lost, back, dropped.
  split; cbn [rs_client rs_conns rs_router rt_pool with_conns with_router with_conn_pool];
    rewrite ?fn_lookup_insert.
  - by rewrite Hin, <- Hr4, P1, <- app_assoc.
  - done.
  - done.
  - by rewrite Hu.
  - exists pool. rewrite Hu. split; [done|]. by rewrite Hp.
  - by rewrite P2, Hr3, <- !app_assoc.
  - by rewrite Hr1, P3.
  - done.
  - by rewrite P4, Hr2, Hout, <- !app_assoc.
  - auto.
  - rewrite <- Hcw. auto.
  - intros h' Hne. by rewrite fn_lookup_insert_ne.
Qed.

(** C35: Routing is transparent.  When [Route] succeeds, it has read one request
    frame from the client and one response frame from the broker it chose, and has
    passed both on exactly.  Of what it read after them, each side received a
    prefix, in order; a direction loses bytes only if a write to its receiver
    failed or if the other direction ended between its last read and write.  No
    other connection was touched. *)
Theorem Route_transparent env clusterName cfg (s s' : route_state C) :
  Route env clusterName cfg s = (Some (Ok tt), s') →
  ∃ request header addr h reply fwd lost back dropped,
    let frame := be32 (blen request) ++ request in
    ParseRequestHeader frame = Ok header ∧ 4 ≤ blen reply ∧
    fst (fst (upstream_for env clusterName cfg header frame (rs_router s) (rs_stats s))) = Ok addr ∧
    cn_in (rs_client s) = frame ++ fwd ++ lost ++ cn_in (rs_client s') ∧
    cn_out (rs_conns s' h) = cn_out (rs_conns s h) ++ frame ++ fwd ∧
    cn_in (rs_conns s h) = be32 (blen reply) ++ reply ++ back ++ dropped ++ cn_in (rs_conns s' h) ∧
    cn_out (rs_client s') = cn_out (rs_client s) ++ be32 (blen reply) ++ reply ++ back ∧
    (cn_writes (rs_conns s h) = None → cy_cut (re_upward env) = O → lost = []) ∧
    (cn_writes (rs_client s) = None → cy_cut (re_downward env) = O → dropped = []) ∧
    (∀ h', h' ≠ h → rs_conns s' h' = rs_conns s h').
Proof.
  intros (request & header & addr & h & reply & fwd & lost & back & dropped & Hr)%Route_Ok. destruct Hr.
  exists request, header, addr, h, reply, fwd, lost, back, dropped. intros frame.
  unfold frame. rewrite <- !app_assoc. by split_and!.
Qed.

Lemma leader_or_bootstrap_pool env b routed (r : Router C) :
  rt_pool (snd (leader_or_bootstrap env b routed r)) = rt_pool r.
Proof.
  unfold leader_or_bootstrap. destruct (GetLeader _ _ _ _); [done|].
  by destruct (RefreshMetadata _ _ _) as [[u|e|] c].
Qed.

Lemma upstream_for_pool env clusterName cfg header frame (r : Router C) st :
  rt_pool (snd (fst (upstream_for env clusterName cfg header frame r st))) = rt_pool r.
Proof.
  unfold upstream_for. destruct (is_data_key _).
  - destruct (slice_from _ _ ≫= _) as [routed|e|]; [|done|done]. cbn [fst].
    unfold route_partition.
    repeat first [apply leader_or_bootstrap_pool | reflexivity
      | match goal with
        | |- context [GetEffectiveWeights ?a ?b ?c] => destruct (GetEffectiveWeights a b c)
        | |- context [selectClusterByWeight ?a ?b ?c ?d ?e] => destruct (selectClusterByWeight a b c d e)
        | |- context [if ?b then _ else _] => destruct b
        end].
  - by destruct (String.eqb _ _).
Qed.

(** The pool is given back closed connections.  [Route] ends by closing the
    broker's connection, and its deferred [Put] still returns it to the pool:
    after the first request to a broker succeeds, the next [Get] for that broker
    within the idle timeout hands out that closed connection. *)
Theorem Route_returns_closed env clusterName cfg (s s' : route_state C) :
  Route env clusterName cfg s = (Some (Ok tt), s') →
  cp_pools (rt_pool (rs_router s)) = ∅ →
  ∃ addr h, h ∈ cp_closed (rt_pool (rs_router s')) ∧
    ∀ now' dialed, now' - re_now env ≤ idleTimeout (rt_pool (rs_router s)) →
      idleTimeout (rt_pool (rs_router s)) < maxDuration →
      fst (Pool.Get now' addr dialed (rt_pool (rs_router s'))) = Some (Ok h).
Proof.
  intros (frame & header & addr & h & reply & fwd & lost & back & dropped & Hr)%Route_Ok Hempty.
  destruct Hr as [_ _ _ _ (pool & Hg & Hp) _ _ _ _ _ _ _]. rewrite upstream_for_pool in Hg.
  assert (Hfirst : ∃ bp, cp_pools pool !! addr = Some bp ∧ bp_idle bp = [] ∧ 0 < bp_maxSize bp ∧
                         cp_cfg pool = cp_cfg (rt_pool (rs_router s))).
  { revert Hg. unfold Pool.Get, getOrCreatePool. rewrite Hempty, lookup_empty. cbn.
    pose proof (capacity_pos (cp_cfg (rt_pool (rs_router s)))) as Hc. unfold capacity in Hc.
    destruct (0 <? _); [|done]. destruct (re_dial env addr); [|done|done].
    intros [= <- <-]. eexists. cbn. rewrite lookup_insert, decide_True by done. done. }
  destruct Hfirst as (bp & Hl & Hidle & Hmax & Hcfg).
  assert (Ht : idleTimeout pool = idleTimeout (rt_pool (rs_router s)))
    by (unfold idleTimeout; by rewrite Hcfg).
  exists addr, h. rewrite Hp. split.
  - unfold Pool.Put, close_conn; cbn [cp_pools]. rewrite Hl, Hidle.
    rewrite (proj2 (Z.leb_gt _ _)) by done. cbn. apply elem_of_app. right.
    by apply list_elem_of_singleton.
  - intros now' dialed Hnow Hmaxd. rewrite <- Ht in *.
    pose proof (closed_reuse (re_now env) now' addr h dialed pool bp Hl Hidle Hmax Hnow Hmaxd) as Hc.
    cbn zeta in Hc. match goal with |- fst ?x = _ => destruct x as [g2 cp2] end. apply Hc.
Qed.

(** A Produce request of version 3 or later whose body is shorter than two bytes
    makes [Route] panic, for every configuration and router state. *)
Lemma Route_short_produce env clusterName cfg (s : route_state C) v corr cid body rest :
  in_int16 v → 3 ≤ v → in_int32 corr → valid_nullable cid → blen body < 2 →
  let data := be16 APIKeyProduce ++ be16 v ++ be32 corr ++ encode_nullable cid ++ body in
  cn_in (rs_client s) = be32 (blen data) ++ data ++ rest →
  fst (Route env clusterName cfg s) = Some Panic.
Proof.
  intros Hv Hv3 Hcorr Hcid Hb data Hin. pose proof (blen_nonneg body).
  assert (Hlen : 10 ≤ blen data < 32768 + 20).
  { unfold data. rewrite !blen_app, !blen_be16, blen_be32. unfold encode_nullable.
    destruct cid as [id|]; cbn [valid_nullable] in Hcid; rewrite ?blen_app, blen_be16, ?blen_bytes_of;
      [pose proof (slen_nonneg id)|]; lia. }
  unfold Route. destruct (rs_client s) as [cin cout cw] eqn:Hcl. cbn [cn_in] in Hin. subst cin.
  rewrite read_frame_run by lia.
  assert (Hf : be32 (blen data) ++ data =
               encode_request_header (blen data) APIKeyProduce v corr cid ++ body).
  { unfold data, encode_request_header. by rewrite <- !app_assoc. }
  rewrite Hf, (ParseRequestHeader_at _ (blen data) APIKeyProduce v corr cid body);
    [|unfold in_int32; lia|done|done|done|done|apply at_pos_0].
  cbn [wrap_err]. unfold upstream_for. cbn [APIKey APIVersion ClientID].
  change (is_data_key APIKeyProduce) with true. cbv iota.
  rewrite slice_from_header. bind_simpl.
  unfold ParseRequestBody. change (APIKeyProduce =? APIKeyProduce) with true. cbv iota.
  by rewrite parseProduceBody_short.
Qed.

End Routing.

(** ** Witnesses *)

Definition sample_lb : ClusterConfig :=
  {| cl_Port := 9093; cl_Mode := ModeLoadBalance; cl_Active := "";
     cl_Primary := {| ep_Bootstrap := "a:9092"; ep_Weight := 50 |};
     cl_Secondary := {| ep_Bootstrap := "b:9092"; ep_Weight := 50 |};
     cl_HealthCheck := zero_HealthCheckConfig |}.

Definition sample_router : Router MapPartitionLeaderCache :=
  NewRouter sample_config NewMapPartitionLeaderCache.

Definition sample_env : route_env :=
  {| re_now := 0; re_dial := λ _, Ok 7%nat; re_refresh := λ _, Err (Sentinel "refused");
     re_upward := {| cy_chunks := []; cy_cut := 0 |}; re_downward := {| cy_chunks := []; cy_cut := 0 |} |}.

Definition sample_request : bytes :=
  let body := encode_produce 7 None 1 1000 (encode_topics 1 "t" 1 0) in
  encode_request_header (10 + blen body) APIKeyProduce 7 1 None ++ body.

Lemma sample_asks : asks "t" 0 sample_request.
Proof.
  unfold sample_request. cbn zeta.
  rewrite <- (app_nil_r (encode_produce 7 None 1 1000 (encode_topics 1 "t" 1 0))) at 2.
  apply asks_produce; try exact I;
    unfold valid_topics, in_int32, in_int16; vm_compute; intuition discriminate.
Qed.

Lemma request_ownership_witness :
  ∃ header, ParseRequestHeader sample_request = Ok header ∧
  fst (fst (upstream_for sample_env "bu1" sample_lb header sample_request sample_router no_stats))
  = Ok (owner "bu1" sample_lb sample_router "t" 0).
Proof.
  destruct (request_ownership (supported := λ cluster, has_slash cluster = false)
    sample_env "bu1" sample_lb sample_router no_stats "t" 0 sample_request) as (h & Hh & Hu).
  - left. reflexivity.
  - intros b. exact I.
  - apply sample_asks.
  - exists h. split; [exact Hh|].
    destruct (upstream_for _ _ _ _ _ _ _) as [[t r'] st']. destruct Hu as [-> _]. reflexivity.
Defined.

Definition sample_state (request reply : bytes) : route_state MapPartitionLeaderCache :=
  {| rs_router := sample_router; rs_stats := no_stats;
     rs_client := {| cn_in := request; cn_out := []; cn_writes := None |};
     rs_conns := λ _, {| cn_in := reply; cn_out := []; cn_writes := None |} |}.

Definition sample_routed : route_state MapPartitionLeaderCache :=
  snd (Route sample_env "bu1" sample_cluster_config (sample_state sample_request (be32 4 ++ be32 1))).

(** The final copy is cut when one more byte has been passed on and the next read. *)
Definition cut_env : route_env :=
  {| re_now := 0; re_dial := re_dial sample_env; re_refresh := re_refresh sample_env;
     re_upward := {| cy_chunks := [1%nat]; cy_cut := 1 |};
     re_downward := {| cy_chunks := [1%nat]; cy_cut := 0 |} |}.

Lemma Route_transparent_witness :
  let s := sample_state (sample_request ++ [x07; x08; x09]) (be32 4 ++ be32 1 ++ [x0a; x0b]) in
  ∃ s' h frame fwd lost, Route cut_env "bu1" sample_cluster_config s = (Some (Ok tt), s') ∧
    cn_in (rs_client s) = frame ++ fwd ++ lost ++ cn_in (rs_client s') ∧
    cn_out (rs_conns s' h) = frame ++ fwd ∧ cn_in (rs_client s') = [x09] ∧
    cn_out (rs_client s') = be32 4 ++ be32 1 ++ [x0a].
Proof.
  intros s. set (s' := snd (Route cut_env "bu1" sample_cluster_config s)).
  assert (Hrun : Route cut_env "bu1" sample_cluster_config s = (Some (Ok tt), s')) by (vm_compute; reflexivity).
  destruct (Route_transparent cut_env "bu1" sample_cluster_config s s' Hrun) as
    (request & header & addr & h & reply & fwd & lost & back & dropped & _ & _ & _ & Hin & Hout & _).
  exists s', h, (be32 (blen request) ++ request), fwd, lost. split; [exact Hrun|]. split; [exact Hin|].
  split; [exact Hout|]. split; vm_compute; reflexivity.
Defined.

Lemma Route_returns_closed_witness :
  ∃ addr h, h ∈ cp_closed (rt_pool (rs_router sample_routed)) ∧
    fst (Pool.Get second addr (Ok 8%nat) (rt_pool (rs_router sample_routed))) = Some (Ok h).
Proof.
  destruct (Route_returns_closed sample_env "bu1" sample_cluster_config
    (sample_state sample_request (be32 4 ++ be32 1)) sample_routed) as (addr & h & Hc & Hg).
  - vm_compute. reflexivity.
  - reflexivity.
  - exists addr, h. split; [exact Hc|]. apply Hg; vm_compute; [discriminate|reflexivity].
Defined.
