(* ===== verification/AutoRebalance.v ===== *)
(** * Automatic weights for load_balance clusters ([internal/routing/rebalance.go])

    The rebalancer that polls the health checker and shifts the router's
    effective weights.  A [tick] reads the clock as [now] and the health map in
    the order Go ranges over it; the goroutine of [loop] is a sequence of ticks.
    The state is the rebalancer and the router it shares. *)

From S2P Require Import Prelude Config Health Cache Router.

Record perClusterPrev := { primaryHealthy : bool; secondaryHealthy : bool }.

Record AutoRebalancer := {
  ar_cfg : Config;
  ar_original : gmap string clusterWeights;
  ar_primaryRecovering : gmap string bool;
  ar_prevHealthy : gmap string perClusterPrev
}.

Definition NewAutoRebalancer (cfg : Config) : AutoRebalancer :=
  {| ar_cfg := cfg; ar_original := omap static_weights (cfg_Clusters cfg);
     ar_primaryRecovering := ∅; ar_prevHealthy := ∅ |}.

Definition set_recovering (name : string) (b : bool) (r : AutoRebalancer) : AutoRebalancer :=
  {| ar_cfg := ar_cfg r; ar_original := ar_original r;
     ar_primaryRecovering := <[name := b]> (ar_primaryRecovering r);
     ar_prevHealthy := ar_prevHealthy r |}.

Definition set_prev (name : string) (p : perClusterPrev) (r : AutoRebalancer) : AutoRebalancer :=
  {| ar_cfg := ar_cfg r; ar_original := ar_original r;
     ar_primaryRecovering := ar_primaryRecovering r;
     ar_prevHealthy := <[name := p]> (ar_prevHealthy r) |}.

Definition recovering (name : string) (r : AutoRebalancer) : bool :=
  default false (ar_primaryRecovering r !! name).

(** The cluster's configuration, if it is a load_balance one. *)
Definition lb_config (name : string) (r : AutoRebalancer) : option ClusterConfig :=
  match cfg_Clusters (ar_cfg r) !! name with
  | Some cc => if String.eqb (cl_Mode cc) ModeLoadBalance then Some cc else None
  | None => None
  end.

Definition recovery_min_uptime (cc : ClusterConfig) : duration :=
  let d := hc_RecoveryMinUptime (cl_HealthCheck cc) in
  if d <=? 0 then 120 * second else d.

(** [if b { f() }]. *)
Definition when {A} (b : bool) (f : A → A) (a : A) : A := if b then f a else a.

Section AutoRebalance.

Context {C : Type}.

Definition rebalance_state : Type := AutoRebalancer * Router C.

Definition handleDown (name : string) (primaryDown secondaryDown : bool) (s : rebalance_state)
    : rebalance_state :=
  let '(r, router) := s in
  match lb_config name r with
  | None => s
  | Some _ =>
      if negb primaryDown && negb secondaryDown then s
      else
        let '(newPrimW, newSecW) := if primaryDown then (0, 100) else (100, 0) in
        (r, SetEffectiveWeights name newPrimW newSecW router)
  end.

Definition restore (name : string) (orig : clusterWeights) (router : Router C) : Router C :=
  SetEffectiveWeights name (cw_Primary orig) (cw_Secondary orig) router.

Definition handleSecondaryUp (name : string) (s : rebalance_state) : rebalance_state :=
  let '(r, router) := s in
  match ar_original r !! name with
  | None => s
  | Some orig => (r, restore name orig router)
  end.

Definition handlePrimaryUp (now : time) (name : string) (upSince : time) (s : rebalance_state)
    : rebalance_state :=
  let '(r, router) := s in
  match lb_config name r with
  | None => s
  | Some cc =>
      let elapsed := time_since now upSince in
      if recovery_min_uptime cc <=? elapsed then
        match ar_original r !! name with
        | None => s
        | Some orig => (set_recovering name false r, restore name orig router)
        end
      else (set_recovering name true r, router)
  end.

Definition checkPrimaryRecovery (now : time) (name : string) (upSince : time)
    (s : rebalance_state) : rebalance_state :=
  let '(r, router) := s in
  match lb_config name r with
  | None => (set_recovering name false r, router)
  | Some cc =>
      if recovery_min_uptime cc <=? time_since now upSince then
        match ar_original r !! name with
        | None => (set_recovering name false r, router)
        | Some orig => (set_recovering name false r, restore name orig router)
        end
      else s
  end.

(** The body of the loop of [tick]. *)
Definition tick_cluster (now : time) (s : rebalance_state) (entry : string * ClusterHealth)
    : rebalance_state :=
  let '(name, ch) := entry in
  match lb_config name (fst s) with
  | None => s
  | Some cc =>
      if negb (hc_AutoRebalance (cl_HealthCheck cc)) then s
      else
        let nowHealthy := {| primaryHealthy := sn_Healthy (cth_Primary ch);
                             secondaryHealthy := sn_Healthy (cth_Secondary ch) |} in
        match ar_prevHealthy (fst s) !! name with
        | None => (set_prev name nowHealthy (fst s), snd s)
        | Some prev =>
            let primaryWentDown := primaryHealthy prev && negb (primaryHealthy nowHealthy) in
            let secondaryWentDown := secondaryHealthy prev && negb (secondaryHealthy nowHealthy) in
            let primaryCameUp := negb (primaryHealthy prev) && primaryHealthy nowHealthy in
            let secondaryCameUp := negb (secondaryHealthy prev) && secondaryHealthy nowHealthy in
            let s := when (primaryWentDown || secondaryWentDown)
                       (handleDown name primaryWentDown secondaryWentDown) s in
            let s := when secondaryCameUp (handleSecondaryUp name) s in
            let s := when primaryCameUp (handlePrimaryUp now name (sn_UpSince (cth_Primary ch))) s in
            let s := when (recovering name (fst s))
                       (checkPrimaryRecovery now name (sn_UpSince (cth_Primary ch))) s in
            (set_prev name nowHealthy (fst s), snd s)
        end
  end.

(** [None] is the nil map. *)
Definition tick (now : time) (healthMap : option (list (string * ClusterHealth)))
    (s : rebalance_state) : rebalance_state :=
  match healthMap with
  | None => s
  | Some order => foldl (tick_cluster now) s order
  end.

(** The union gives the new configuration's weights precedence. *)
Definition AutoRebalancer_UpdateConfig (cfg : Config) (r : AutoRebalancer) : AutoRebalancer :=
  {| ar_cfg := cfg; ar_original := omap static_weights (cfg_Clusters cfg) ∪ ar_original r;
     ar_primaryRecovering := ar_primaryRecovering r; ar_prevHealthy := ar_prevHealthy r |}.

(** [order] is the order [original] is ranged in. *)
Definition ResetWeights (order : list (string * clusterWeights)) (s : rebalance_state)
    : rebalance_state :=
  foldl (λ s '(name, orig), (set_recovering name false (fst s), restore name orig (snd s))) s order.

(** ** One cluster at a time

    What the rebalancer and the router hold for one cluster. *)

Record cluster_view := {
  v_weights : option clusterWeights;
  v_recovering : bool;
  v_prev : option perClusterPrev
}.

Definition view (name : string) (s : rebalance_state) : cluster_view :=
  {| v_weights := rt_effectiveWeights (snd s) !! name;
     v_recovering := recovering name (fst s);
     v_prev := ar_prevHealthy (fst s) !! name |}.

(** What a health snapshot says of a cluster. *)
Record observation := {
  o_now : time;
  o_primary : bool;
  o_secondary : bool;
  o_upSince : time
}.

Definition observe (now : time) (ch : ClusterHealth) : observation :=
  {| o_now := now; o_primary := sn_Healthy (cth_Primary ch);
     o_secondary := sn_Healthy (cth_Secondary ch); o_upSince := sn_UpSince (cth_Primary ch) |}.

(** The step of a rebalanced cluster, as a function of its own view alone:
    its configured weights, its minimum uptime and the observation. *)
Definition view_step (orig : clusterWeights) (min_uptime : duration) (v : cluster_view)
    (o : observation) : cluster_view :=
  let seen := {| primaryHealthy := o_primary o; secondaryHealthy := o_secondary o |} in
  match v_prev v with
  | None => {| v_weights := v_weights v; v_recovering := v_recovering v; v_prev := Some seen |}
  | Some prev =>
      let ripe := min_uptime <=? time_since (o_now o) (o_upSince o) in
      let p_down := primaryHealthy prev && negb (o_primary o) in
      let s_down := secondaryHealthy prev && negb (o_secondary o) in
      let p_up := negb (primaryHealthy prev) && o_primary o in
      let s_up := negb (secondaryHealthy prev) && o_secondary o in
      let waiting := if p_up then negb ripe else v_recovering v in
      let w := if p_down then Some {| cw_Primary := 0; cw_Secondary := 100 |}
               else if s_down then Some {| cw_Primary := 100; cw_Secondary := 0 |}
               else v_weights v in
      let w := if s_up || (p_up || v_recovering v) && ripe then Some orig else w in
      {| v_weights := w; v_recovering := waiting && negb ripe; v_prev := Some seen |}
  end.

End AutoRebalance.

Arguments rebalance_state C : clear implicits.

Section AutoRebalanceProofs.

Context {C : Type}.

Implicit Types s : rebalance_state C.

(** The cluster is rebalanced: load_balance, auto_rebalance, weights captured. *)
Definition rebalanced (name : string) (orig : clusterWeights) (min_uptime : duration)
    (s : rebalance_state C) : Prop :=
  ∃ cc, lb_config name (fst s) = Some cc ∧ hc_AutoRebalance (cl_HealthCheck cc) = true ∧
    ar_original (fst s) !! name = Some orig ∧ recovery_min_uptime cc = min_uptime.

Definition same_config (s s' : rebalance_state C) : Prop :=
  ar_cfg (fst s') = ar_cfg (fst s) ∧ ar_original (fst s') = ar_original (fst s).

(** [s'] differs from [s] at [name] only. *)
Definition only_at (name : string) (s s' : rebalance_state C) : Prop :=
  same_config s s' ∧ ∀ other, other ≠ name → view other s' = view other s.

Lemma only_at_refl name s : only_at name s s.
Proof. done. Qed.

Lemma only_at_trans name s1 s2 s3 : only_at name s1 s2 → only_at name s2 s3 → only_at name s1 s3.
Proof.
  intros [[H1 H2] H3] [[H4 H5] H6]. split; [split; congruence|].
  intros other Hne. by rewrite H6, H3.
Qed.

Lemma only_at_weights name p q r router :
  only_at name (r, router) (r, SetEffectiveWeights name p q router).
Proof.
  split; [done|]. intros other Hne. unfold view; cbn [fst snd].
  unfold SetEffectiveWeights, with_weights; cbn [rt_effectiveWeights].
  by rewrite lookup_insert_ne.
Qed.

Lemma only_at_recovering name b r (router : Router C) :
  only_at name (r, router) (set_recovering name b r, router).
Proof.
  split; [done|]. intros other Hne. unfold view, recovering; cbn.
  by rewrite lookup_insert_ne.
Qed.

Lemma only_at_prev name p s : only_at name s (set_prev name p (fst s), snd s).
Proof.
  destruct s as [r router]. split; [done|]. intros other Hne. unfold view; cbn.
  by rewrite lookup_insert_ne.
Qed.

Hint Resolve only_at_refl only_at_weights only_at_recovering only_at_prev : core.

Lemma handleDown_only name a b s : only_at name s (handleDown name a b s).
Proof.
  destruct s as [r router]. unfold handleDown. destruct (lb_config name r); [|done].
  destruct (negb a && negb b); [done|]. destruct a; auto.
Qed.

Lemma handleSecondaryUp_only name s : only_at name s (handleSecondaryUp name s).
Proof. destruct s as [r router]. unfold handleSecondaryUp. destruct (_ !! _); [|done]. apply only_at_weights. Qed.

Lemma restore_only name orig b r (router : Router C) :
  only_at name (r, router) (set_recovering name b r, restore name orig router).
Proof. eapply only_at_trans; [apply only_at_weights|apply only_at_recovering]. Qed.

Lemma handlePrimaryUp_only now name u s : only_at name s (handlePrimaryUp now name u s).
Proof.
  destruct s as [r router]. unfold handlePrimaryUp. destruct (lb_config name r); [|done].
  destruct (_ <=? _); [|auto]. destruct (_ !! _); [apply restore_only|done].
Qed.

Lemma checkPrimaryRecovery_only now name u s : only_at name s (checkPrimaryRecovery now name u s).
Proof.
  destruct s as [r router]. unfold checkPrimaryRecovery. destruct (lb_config name r); [|auto].
  destruct (_ <=? _); [|done]. destruct (_ !! _); [apply restore_only|auto].
Qed.

Lemma only_at_when name b f s0 s :
  only_at name s0 s → (∀ s, only_at name s (f s)) → only_at name s0 (when b f s).
Proof. intros H Hf. destruct b; [by eapply only_at_trans|done]. Qed.

Lemma tick_cluster_only now name ch s : only_at name s (tick_cluster now s (name, ch)).
Proof.
  unfold tick_cluster. destruct (lb_config name (fst s)); [|done].
  destruct (negb _); [done|]. destruct (ar_prevHealthy (fst s) !! name); [|auto]. cbv zeta.
  eapply only_at_trans; [|apply only_at_prev].
  repeat (apply only_at_when;
    [|intros; first [apply handleDown_only|apply handleSecondaryUp_only
                    |apply handlePrimaryUp_only|apply checkPrimaryRecovery_only]]).
  done.
Qed.

(** ** The effect of a step on its own cluster *)

Lemma view_set_weights name p q r (router : Router C) :
  view name (r, SetEffectiveWeights name p q router) =
  {| v_weights := Some {| cw_Primary := p; cw_Secondary := q |};
     v_recovering := recovering name r; v_prev := ar_prevHealthy r !! name |}.
Proof. unfold view; cbn. by rewrite lookup_insert, decide_True. Qed.

Lemma recovering_set name b r : recovering name (set_recovering name b r) = b.
Proof. unfold recovering; cbn. by rewrite lookup_insert, decide_True. Qed.

Lemma weights_eta w : {| cw_Primary := cw_Primary w; cw_Secondary := cw_Secondary w |} = w.
Proof. by destruct w. Qed.

(** [f] acts on the cluster's view as [F]. *)
Definition acts (name : string) (orig : clusterWeights) (m : duration)
    (f : rebalance_state C → rebalance_state C) (F : cluster_view → cluster_view) : Prop :=
  ∀ s, rebalanced name orig m s → rebalanced name orig m (f s) ∧ view name (f s) = F (view name s).

Lemma rebalanced_same name orig m s s' : same_config s s' → rebalanced name orig m s → rebalanced name orig m s'.
Proof.
  intros [Hc Ho] (cc & Hcc & ? & Horig & ?). exists cc. unfold lb_config in *.
  rewrite Hc, Ho. done.
Qed.

Definition v_set_weights (w : clusterWeights) (v : cluster_view) : cluster_view :=
  {| v_weights := Some w; v_recovering := v_recovering v; v_prev := v_prev v |}.
Definition v_set_recovering (b : bool) (v : cluster_view) : cluster_view :=
  {| v_weights := v_weights v; v_recovering := b; v_prev := v_prev v |}.

Section OneCluster.

Context (name : string) (orig : clusterWeights) (m : duration).

Lemma acts_when b f F : acts name orig m f F → acts name orig m (when b f) (when b F).
Proof. intros Hf s Hs. destruct b; [by apply Hf|done]. Qed.

Lemma acts_handleDown a b :
  a || b = true →
  acts name orig m (handleDown name a b)
    (v_set_weights (if a then {| cw_Primary := 0; cw_Secondary := 100 |}
                    else {| cw_Primary := 100; cw_Secondary := 0 |})).
Proof.
  intros Hab s Hs. split; [eapply rebalanced_same; [apply handleDown_only|done]|].
  destruct s as [r router], Hs as (cc & Hcc & _). unfold handleDown. cbn [fst] in Hcc. rewrite Hcc.
  rewrite <- negb_orb, Hab. cbn [negb]. destruct a; apply view_set_weights.
Qed.

Lemma acts_handleSecondaryUp : acts name orig m (handleSecondaryUp name) (v_set_weights orig).
Proof.
  intros s Hs. split; [eapply rebalanced_same; [apply handleSecondaryUp_only|done]|].
  destruct s as [r router], Hs as (cc & _ & _ & Ho & _). unfold handleSecondaryUp. cbn [fst] in Ho.
  rewrite Ho. unfold restore. rewrite view_set_weights. by rewrite weights_eta.
Qed.

Lemma view_restored r (router : Router C) :
  view name (set_recovering name false r, restore name orig router) =
  v_set_weights orig (v_set_recovering false (view name (r, router))).
Proof.
  unfold restore. rewrite view_set_weights, recovering_set, weights_eta. done.
Qed.

Lemma view_recovering b r (router : Router C) :
  view name (set_recovering name b r, router) = v_set_recovering b (view name (r, router)).
Proof. unfold view; cbn [fst snd]. by rewrite recovering_set. Qed.

Lemma acts_handlePrimaryUp now u :
  acts name orig m (handlePrimaryUp now name u)
    (λ v, if m <=? time_since now u then v_set_weights orig (v_set_recovering false v)
          else v_set_recovering true v).
Proof.
  intros s Hs. split; [eapply rebalanced_same; [apply handlePrimaryUp_only|done]|].
  destruct s as [r router], Hs as (cc & Hcc & _ & Ho & <-). unfold handlePrimaryUp.
  cbn [fst] in Hcc, Ho. rewrite Hcc, Ho.
  destruct (_ <=? _); [apply view_restored|apply view_recovering].
Qed.

Lemma acts_checkPrimaryRecovery now u :
  acts name orig m (checkPrimaryRecovery now name u)
    (λ v, if m <=? time_since now u then v_set_weights orig (v_set_recovering false v) else v).
Proof.
  intros s Hs. split; [eapply rebalanced_same; [apply checkPrimaryRecovery_only|done]|].
  destruct s as [r router], Hs as (cc & Hcc & _ & Ho & <-). unfold checkPrimaryRecovery.
  cbn [fst] in Hcc, Ho. rewrite Hcc, Ho. by destruct (_ <=? _); [apply view_restored|].
Qed.

Lemma view_prev q s :
  view name (set_prev name q (fst s), snd s) =
  {| v_weights := v_weights (view name s); v_recovering := v_recovering (view name s);
     v_prev := Some q |}.
Proof. unfold view; cbn. by rewrite lookup_insert, decide_True. Qed.

Lemma acts_down a b :
  acts name orig m (when (a || b) (handleDown name a b))
    (when (a || b) (v_set_weights (if a then {| cw_Primary := 0; cw_Secondary := 100 |}
                                   else {| cw_Primary := 100; cw_Secondary := 0 |}))).
Proof. destruct (a || b) eqn:E; [by apply acts_handleDown|done]. Qed.

Lemma tick_cluster_view now ch s :
  rebalanced name orig m s →
  view name (tick_cluster now s (name, ch)) = view_step orig m (view name s) (observe now ch).
Proof.
  intros Hs. pose proof Hs as (cc & Hcc & Hauto & _ & _).
  unfold tick_cluster. rewrite Hcc, Hauto. cbn [negb]. unfold view_step.
  change (ar_prevHealthy (fst s) !! name) with (v_prev (view name s)).
  destruct (v_prev (view name s)) as [[pp ps]|]; [|apply view_prev].
  cbv zeta. cbn [primaryHealthy secondaryHealthy observe o_now o_primary o_secondary o_upSince].
  set (hp := sn_Healthy (cth_Primary ch)). set (hs := sn_Healthy (cth_Secondary ch)).
  set (u := sn_UpSince (cth_Primary ch)).
  destruct (acts_down (pp && negb hp) (ps && negb hs) s Hs) as [Hs1 Hv1].
  set (s1 := when _ (handleDown _ _ _) s) in *.
  destruct (acts_when (negb ps && hs) _ _ acts_handleSecondaryUp s1 Hs1) as [Hs2 Hv2].
  set (s2 := when _ (handleSecondaryUp _) s1) in *.
  destruct (acts_when (negb pp && hp) _ _ (acts_handlePrimaryUp now u) s2 Hs2) as [Hs3 Hv3].
  set (s3 := when _ (handlePrimaryUp _ _ _) s2) in *.
  destruct (acts_when (recovering name (fst s3)) _ _ (acts_checkPrimaryRecovery now u) s3 Hs3)
    as [_ Hv4].
  rewrite view_prev, Hv4. change (recovering name (fst s3)) with (v_recovering (view name s3)).
  rewrite Hv3, Hv2, Hv1. clear.
  destruct (m <=? time_since now u), pp, ps, hp, hs, (view name s) as [w [] pr]; reflexivity.
Qed.

End OneCluster.

(** ** Ticks *)

Lemma foldl_other now name order s :
  (∀ ch, (name, ch) ∉ order) →
  same_config s (foldl (tick_cluster now) s order) ∧
  view name (foldl (tick_cluster now) s order) = view name s.
Proof.
  revert s. induction order as [|[other ch] order IH]; intros s Hn; [done|]. cbn [foldl].
  destruct (tick_cluster_only now other ch s) as [[Hc Ho] Hv].
  destruct (IH (tick_cluster now s (other, ch))) as [[Hc' Ho'] Hv'].
  { intros ch' Hin. apply (Hn ch'). apply list.elem_of_cons. by right. }
  split; [split; congruence|]. rewrite Hv', Hv; [done|].
  intros ->. apply (Hn ch). apply list.elem_of_cons. by left.
Qed.

(** A tick acts on each cluster by its own entry, in whatever order the map is
    ranged. *)
Lemma tick_view name orig m now order ch s :
  rebalanced name orig m s → NoDup (map fst order) → (name, ch) ∈ order →
  rebalanced name orig m (tick now (Some order) s) ∧
  view name (tick now (Some order) s) = view_step orig m (view name s) (observe now ch).
Proof.
  intros Hs Hnd Hin. cbn [tick].
  apply list_elem_of_split in Hin as (l1 & l2 & ->). rewrite map_app in Hnd. cbn in Hnd.
  apply list.NoDup_app in Hnd as (_ & Hd & Hnd2). apply list.NoDup_cons in Hnd2 as [Hn2 _].
  assert (Hl1 : ∀ ch', (name, ch') ∉ l1).
  { intros ch' Hc. apply (Hd name); [by apply (list_elem_of_fmap_2 fst _ (name, ch'))|].
    apply list.elem_of_cons. by left. }
  assert (Hl2 : ∀ ch', (name, ch') ∉ l2).
  { intros ch' Hc. apply Hn2. by apply (list_elem_of_fmap_2 fst _ (name, ch')). }
  rewrite foldl_app. cbn [foldl].
  destruct (foldl_other now name l1 s Hl1) as [Hc1 Hv1].
  set (s1 := foldl (tick_cluster now) s l1) in *.
  assert (Hs1 : rebalanced name orig m s1) by (by eapply rebalanced_same).
  destruct (foldl_other now name l2 (tick_cluster now s1 (name, ch)) Hl2) as [Hc2 Hv2].
  split.
  - eapply rebalanced_same; [exact Hc2|]. eapply rebalanced_same; [apply tick_cluster_only|done].
  - by rewrite Hv2, (tick_cluster_view name orig m) , Hv1.
Qed.

End AutoRebalanceProofs.

(** ** Runs *)

Section AutoRebalanceRuns.

Context {C : Type} (cache : C) (cfg : Config) (name : string) (cc : ClusterConfig).
Context (Hname : cfg_Clusters cfg !! name = Some cc).
Context (Hmode : cl_Mode cc = ModeLoadBalance).
Context (Hauto : hc_AutoRebalance (cl_HealthCheck cc) = true).

Definition run_ticks (ticks : list (time * list (string * ClusterHealth)))
    (s : rebalance_state C) : rebalance_state C :=
  foldl (λ s '(now, order), tick now (Some order) s) s ticks.

(** What a run of ticks sees of the cluster, which the health map always has. *)
Definition sees (ticks : list (time * list (string * ClusterHealth))) (obs : list observation)
    : Prop :=
  Forall2 (λ t o, NoDup (map fst (snd t)) ∧
                  ∃ ch, (name, ch) ∈ snd t ∧ o = observe (fst t) ch) ticks obs.

Definition configured : clusterWeights :=
  {| cw_Primary := ep_Weight (cl_Primary cc); cw_Secondary := ep_Weight (cl_Secondary cc) |}.

Definition rebalance_start : rebalance_state C := (NewAutoRebalancer cfg, NewRouter cfg cache).
Definition view_start : cluster_view :=
  {| v_weights := Some configured; v_recovering := false; v_prev := None |}.

Definition view_after (obs : list observation) : cluster_view :=
  foldl (view_step configured (recovery_min_uptime cc)) view_start obs.

Lemma start_view :
  rebalanced name configured (recovery_min_uptime cc) rebalance_start ∧
  view name rebalance_start = view_start.
Proof.
  assert (Hw : static_weights cc = Some configured).
  { unfold static_weights. by rewrite Hmode. }
  split.
  - exists cc. unfold lb_config; cbn [rebalance_start fst NewAutoRebalancer ar_cfg ar_original].
    rewrite Hname, Hmode, lookup_omap, Hname. done.
  - unfold view, view_start, recovering; cbn. rewrite lookup_omap, Hname. cbn.
    by rewrite Hw, !lookup_empty.
Qed.

Lemma run_view ticks obs :
  sees ticks obs → view name (run_ticks ticks rebalance_start) = view_after obs.
Proof.
  intros Hsees. destruct start_view as [Hr Hv]. unfold view_after. rewrite <- Hv. clear Hv.
  revert Hr. generalize rebalance_start as s. induction Hsees as [|[now order] o ticks obs Ho _ IH];
    intros s Hr; [done|].
  destruct Ho as (Hnd & ch & Hin & ->). cbn [fst snd] in *. cbn [run_ticks foldl].
  destruct (tick_view name configured (recovery_min_uptime cc) now order ch s Hr Hnd Hin) as [Hr' Hv'].
  rewrite <- Hv'. by apply IH.
Qed.

Lemma run_weights ticks obs w :
  sees ticks obs → v_weights (view_after obs) = Some w →
  GetEffectiveWeights name cc (snd (run_ticks ticks rebalance_start)) = (cw_Primary w, cw_Secondary w).
Proof.
  intros Hs Hw. rewrite <- (run_view ticks obs Hs) in Hw. cbn [view v_weights] in Hw.
  unfold GetEffectiveWeights. by rewrite Hw.
Qed.

(** ** Weights *)

Definition weights_ok (v : cluster_view) : Prop :=
  ∃ w, v_weights v = Some w ∧
    (w = configured ∨ w = {| cw_Primary := 0; cw_Secondary := 100 |}
     ∨ w = {| cw_Primary := 100; cw_Secondary := 0 |}).

Lemma view_step_ok v o :
  weights_ok v → weights_ok (view_step configured (recovery_min_uptime cc) v o).
Proof.
  intros Hv. unfold view_step. destruct (v_prev v) as [prev|]; [|done]. unfold weights_ok. cbn.
  repeat case_if; eauto 6.
Qed.

Lemma view_after_ok obs : weights_ok (view_after obs).
Proof.
  unfold view_after. assert (Hs : weights_ok view_start) by (exists configured; auto).
  revert Hs. generalize view_start as v. induction obs as [|o obs IH]; intros v Hv; [done|].
  apply IH. by apply view_step_ok.
Qed.

(** Under any sequence of ticks, in whatever order each ranges over the
    health map and whatever it reports of the other clusters, a rebalanced
    cluster's weights stay a split of 100 in non-negative parts: the configured
    one or all of the traffic on one side. *)
Theorem weights_split ticks obs :
  sees ticks obs →
  0 ≤ ep_Weight (cl_Primary cc) → 0 ≤ ep_Weight (cl_Secondary cc) →
  ep_Weight (cl_Primary cc) + ep_Weight (cl_Secondary cc) = 100 →
  let (p, s) := GetEffectiveWeights name cc (snd (run_ticks ticks rebalance_start)) in
  0 ≤ p ≤ 100 ∧ 0 ≤ s ≤ 100 ∧ p + s = 100.
Proof.
  intros Hs H1 H2 H3. destruct (view_after_ok obs) as (w & Hw & Hcase).
  rewrite (run_weights ticks obs w Hs Hw).
  destruct Hcase as [-> | [-> | ->]]; cbn; lia.
Qed.

(** C30: What a tick does to a cluster depends on that cluster alone: after any
    run, its weights and its recovery are those of the single-cluster step run on
    its own health, whatever else the maps hold and in whatever order they are
    ranged. *)
Theorem ticks_refine ticks obs :
  sees ticks obs → view name (run_ticks ticks rebalance_start) = view_after obs.
Proof. apply run_view. Qed.

(** ** An outage of the primary *)

Definition all_up (o : observation) : Prop := o_primary o = true ∧ o_secondary o = true.
Definition primary_down (o : observation) : Prop := o_primary o = false ∧ o_secondary o = true.
Definition ripe (o : observation) : Prop :=
  recovery_min_uptime cc ≤ time_since (o_now o) (o_upSince o).

#[export] Instance ripe_dec o : Decision (ripe o).
Proof. unfold ripe. apply _. Defined.

Definition shifted : clusterWeights := {| cw_Primary := 0; cw_Secondary := 100 |}.

Abbreviation vstep := (view_step configured (recovery_min_uptime cc)).

Lemma down_view v down :
  v_recovering v = false → v_prev v = Some {| primaryHealthy := true; secondaryHealthy := true |} →
  down ≠ [] → Forall primary_down down →
  foldl vstep v down =
  {| v_weights := Some shifted; v_recovering := false;
     v_prev := Some {| primaryHealthy := false; secondaryHealthy := true |} |}.
Proof.
  intros Hr Hp Hne Hd. destruct Hd as [|o down [Hop Hos] Hd]; [done|]. cbn [foldl].
  assert (Hstep : vstep v o = {| v_weights := Some shifted; v_recovering := false;
     v_prev := Some {| primaryHealthy := false; secondaryHealthy := true |} |}).
  { unfold view_step. rewrite Hp, Hr, Hop, Hos. done. }
  rewrite Hstep. clear -Hd. induction Hd as [|o down [Hop Hos] _ IH]; [done|]. cbn [foldl].
  rewrite <- IH at 2. f_equal. unfold view_step; cbn. by rewrite Hop, Hos.
Qed.

(** While the primary has not been up long enough. *)
Lemma up_unripe_view w up b :
  up ≠ [] → Forall all_up up → Forall (λ o, ¬ ripe o) up →
  foldl vstep {| v_weights := Some w; v_recovering := b;
                 v_prev := Some {| primaryHealthy := b; secondaryHealthy := true |} |} up =
  {| v_weights := Some w; v_recovering := true;
     v_prev := Some {| primaryHealthy := true; secondaryHealthy := true |} |}.
Proof.
  intros Hne Hup Hr. destruct up as [|o up]; [done|]. clear Hne.
  revert b o Hup Hr. induction up as [|o' up IH]; intros b o Hup Hr.
  - apply list.Forall_cons in Hup as [[Hp Hs] _]. apply list.Forall_cons in Hr as [Hr _].
    cbn [foldl]. unfold view_step; cbn. unfold ripe in Hr.
    rewrite Hp, Hs, (proj2 (Z.leb_gt _ _)) by lia. by destruct b.
  - apply list.Forall_cons in Hup as [[Hp Hs] Hup]. apply list.Forall_cons in Hr as [Hr0 Hr].
    cbn [foldl] in *. rewrite <- (IH true o' Hup Hr). do 2 f_equal.
    unfold view_step; cbn. unfold ripe in Hr0.
    rewrite Hp, Hs, (proj2 (Z.leb_gt _ _)) by lia. by destruct b.
Qed.

(** Once restored, the weights stay while both are up. *)
Lemma up_settled_view up :
  Forall all_up up →
  foldl vstep {| v_weights := Some configured; v_recovering := false;
                 v_prev := Some {| primaryHealthy := true; secondaryHealthy := true |} |} up =
  {| v_weights := Some configured; v_recovering := false;
     v_prev := Some {| primaryHealthy := true; secondaryHealthy := true |} |}.
Proof.
  intros Hup. induction Hup as [|o up [Hp Hs] _ IH]; [done|]. cbn [foldl].
  rewrite <- IH at 2. f_equal. unfold view_step; cbn. by rewrite Hp, Hs.
Qed.

Lemma ripe_step w b o :
  all_up o → ripe o →
  vstep {| v_weights := Some w; v_recovering := b;
           v_prev := Some {| primaryHealthy := b; secondaryHealthy := true |} |} o =
  {| v_weights := Some configured; v_recovering := false;
     v_prev := Some {| primaryHealthy := true; secondaryHealthy := true |} |}.
Proof.
  intros [Hp Hs] Hr. unfold view_step; cbn. unfold ripe in Hr.
  rewrite Hp, Hs, (proj2 (Z.leb_le _ _)) by done. by destruct b.
Qed.

Lemma up_view up :
  up ≠ [] → Forall all_up up →
  v_weights (foldl vstep {| v_weights := Some shifted; v_recovering := false;
                 v_prev := Some {| primaryHealthy := false; secondaryHealthy := true |} |} up) =
  Some (if bool_decide (Exists ripe up) then configured else shifted).
Proof.
  intros Hne Hup.
  assert (Hgen : ∀ up w b, up ≠ [] → Forall all_up up →
    foldl vstep {| v_weights := Some w; v_recovering := b;
                   v_prev := Some {| primaryHealthy := b; secondaryHealthy := true |} |} up =
    if bool_decide (Exists ripe up)
    then {| v_weights := Some configured; v_recovering := false;
            v_prev := Some {| primaryHealthy := true; secondaryHealthy := true |} |}
    else {| v_weights := Some w; v_recovering := true;
            v_prev := Some {| primaryHealthy := true; secondaryHealthy := true |} |}).
  { clear. induction up as [|o up IH]; intros w b Hne Hup; [done|].
    destruct (decide (Exists ripe (o :: up))) as [He|He].
    - rewrite bool_decide_true by done. apply list.Forall_cons in Hup as [Ho Hup].
      destruct (decide (ripe o)) as [Hr|Hr].
      + cbn [foldl]. rewrite ripe_step by done. by apply up_settled_view.
      + apply List.Exists_cons in He as [?|He]; [done|].
        assert (up ≠ []) as Hne' by (intros ->; inversion He).
        cbn [foldl]. pose proof (up_unripe_view w [o] b ltac:(done)) as Hu. cbn [foldl] in Hu.
        rewrite Hu by (apply list.Forall_cons; done).
        rewrite (IH w true Hne' Hup). by rewrite bool_decide_true.
    - rewrite bool_decide_false by done. apply up_unripe_view; [done|done|].
      by apply Forall_Exists_neg. }
  rewrite Hgen by done. by destruct (bool_decide _).
Qed.

(** C31: One outage of the primary, the secondary healthy throughout.  From the
    first tick that sees the primary down all the traffic is the secondary's; it
    stays there while the primary is down and after it is back, until some tick
    finds the primary up for [recovery_min_uptime] (120 s when it is not set);
    then the configured weights are back, and stay. *)
Theorem primary_outage ticks seed down up :
  sees ticks (seed :: down ++ up) →
  all_up seed → down ≠ [] → Forall primary_down down → Forall all_up up →
  GetEffectiveWeights name cc (snd (run_ticks ticks rebalance_start)) =
  if bool_decide (Exists ripe up)
  then (ep_Weight (cl_Primary cc), ep_Weight (cl_Secondary cc)) else (0, 100).
Proof.
  intros Hs Hseed Hne Hdown Hup.
  assert (Hv : v_weights (view_after (seed :: down ++ up)) =
               Some (if bool_decide (Exists ripe up) then configured else shifted)).
  { unfold view_after. cbn [foldl]. rewrite foldl_app.
    rewrite (down_view (vstep view_start seed) down); [|reflexivity| |done|done].
    - destruct up as [|o up]; [done|]. by apply up_view.
    - unfold view_step; cbn. by destruct Hseed as [-> ->]. }
  rewrite (run_weights ticks _ _ Hs Hv). by destruct (bool_decide _).
Qed.

(** A primary that fails again while it is still recovering gets its traffic
    back at once.  [handleDown] leaves [primaryRecovering] set, and the same tick
    then reads the zero [UpSince] of the unhealthy endpoint as an uptime beyond
    any minimum: the configured weights are restored to the dead primary. *)
Theorem relapse_restores_dead_primary ticks seed down up o :
  sees ticks (seed :: down ++ up ++ [o]) →
  all_up seed → down ≠ [] → Forall primary_down down →
  up ≠ [] → Forall all_up up → Forall (λ o, ¬ ripe o) up →
  primary_down o → o_upSince o = zero_time → maxDuration ≤ o_now o →
  recovery_min_uptime cc ≤ maxDuration →
  GetEffectiveWeights name cc (snd (run_ticks ticks rebalance_start)) =
  (ep_Weight (cl_Primary cc), ep_Weight (cl_Secondary cc)).
Proof.
  intros Hs Hseed Hne Hdown Hune Hup Hunripe [Hop Hos] Hzero Hnow Hmin.
  assert (Hv : v_weights (view_after (seed :: down ++ up ++ [o])) = Some configured).
  { unfold view_after. cbn [foldl]. rewrite !foldl_app.
    rewrite (down_view (vstep view_start seed) down); [|reflexivity| |done|done].
    - rewrite (up_unripe_view shifted up false) by done. cbn [foldl]. unfold view_step; cbn.
      rewrite Hop, Hos, Hzero. rewrite (proj2 (Z.leb_le _ _)); [done|].
      revert Hnow Hmin. unfold time_since, time_sub, zero_time, maxDuration, minDuration. lia.
    - unfold view_step; cbn. by destruct Hseed as [-> ->]. }
  by rewrite (run_weights ticks _ _ Hs Hv).
Qed.

End AutoRebalanceRuns.

(** ** Witnesses *)

Definition auto_cluster : ClusterConfig :=
  {| cl_Port := 9093; cl_Mode := ModeLoadBalance; cl_Active := "";
     cl_Primary := {| ep_Bootstrap := "a:9092"; ep_Weight := 70 |};
     cl_Secondary := {| ep_Bootstrap := "b:9092"; ep_Weight := 30 |};
     cl_HealthCheck :=
       {| hc_Enabled := true; hc_Interval := 0; hc_FailureThreshold := 0;
          hc_RecoveryThreshold := 0; hc_RecoveryMinUptime := 60 * second;
          hc_MinTimeBetweenFailovers := 0; hc_AutoFailover := false; hc_AutoFailback := false;
          hc_AutoRebalance := true; hc_RequireTargetHealthy := false;
          hc_CircuitBreakerMaxFailovers := 0; hc_CircuitBreakerWindow := 0;
          hc_SaslUsername := ""; hc_SaslPassword := "" |} |}.

Definition auto_config : Config :=
  {| cfg_Proxy := cfg_Proxy sample_config; cfg_Clusters := {[ "bu1"%string := auto_cluster ]} |}.

Definition sample_snapshot (up : bool) (upSince : time) : Snapshot :=
  {| sn_Healthy := up; sn_ConsecutiveFailures := 0; sn_ConsecutiveSuccesses := 0;
     sn_LastCheckAt := 0; sn_LastCheckLatency := 0; sn_LastStatus := ""; sn_LastError := "";
     sn_UpSince := upSince; sn_Bootstrap := "" |}.

Definition sample_health (p : bool) (upSince : time) : ClusterHealth :=
  {| cth_Name := "bu1"; cth_Primary := sample_snapshot p upSince;
     cth_Secondary := sample_snapshot true 0 |}.

(** A clock after 1970, as time since year 1. *)
Definition epoch : time := 2 ^ 65.

Definition sample_tick (at_ : duration) (p : bool) (upSince : time)
    : time * list (string * ClusterHealth) :=
  (epoch + at_, [("bu1"%string, sample_health p upSince)]).
Definition sample_obs (at_ : duration) (p : bool) (upSince : time) : observation :=
  observe (epoch + at_) (sample_health p upSince).

Lemma sample_sees (l : list (duration * bool * time)) :
  sees "bu1" (map (λ '(t, p, u), sample_tick t p u) l) (map (λ '(t, p, u), sample_obs t p u) l).
Proof.
  induction l as [|[[t p] u] l IH]; constructor; [|exact IH].
  split; [apply (bool_decide_unpack _); vm_compute; exact I|].
  exists (sample_health p u). split; [|done]. apply list.elem_of_cons. by left.
Qed.

Definition outage : list (duration * bool * time) :=
  [(0, true, epoch); (1 * second, false, zero_time); (2 * second, true, epoch + 2 * second);
   (3 * second, false, zero_time)].

Lemma weights_split_witness :
  let (p, s) := GetEffectiveWeights "bu1" auto_cluster
    (snd (run_ticks (map (λ '(t, p, u), sample_tick t p u) outage)
            (rebalance_start NewMapPartitionLeaderCache auto_config))) in
  0 ≤ p ≤ 100 ∧ 0 ≤ s ≤ 100 ∧ p + s = 100.
Proof.
  apply (weights_split NewMapPartitionLeaderCache auto_config "bu1" auto_cluster
    eq_refl eq_refl eq_refl _ (map (λ '(t, p, u), sample_obs t p u) outage)); cbn;
    [apply (sample_sees outage)|lia|lia|lia].
Defined.

Lemma ticks_refine_witness :
  view "bu1" (run_ticks (map (λ '(t, p, u), sample_tick t p u) outage)
    (rebalance_start NewMapPartitionLeaderCache auto_config)) =
  view_after auto_cluster (map (λ '(t, p, u), sample_obs t p u) outage).
Proof.
  apply (ticks_refine NewMapPartitionLeaderCache auto_config "bu1" auto_cluster
    eq_refl eq_refl eq_refl). apply sample_sees.
Defined.

Lemma primary_outage_witness :
  GetEffectiveWeights "bu1" auto_cluster
    (snd (run_ticks [sample_tick 0 true epoch; sample_tick second false zero_time;
                     sample_tick (2 * second) true (epoch + 2 * second)]
            (rebalance_start NewMapPartitionLeaderCache auto_config))) = (0, 100).
Proof.
  rewrite (primary_outage NewMapPartitionLeaderCache auto_config "bu1" auto_cluster
    eq_refl eq_refl eq_refl _ (sample_obs 0 true epoch) [sample_obs second false zero_time]
    [sample_obs (2 * second) true (epoch + 2 * second)]).
  - vm_compute. reflexivity.
  - apply (sample_sees [(0, true, epoch); (second, false, zero_time);
                        (2 * second, true, epoch + 2 * second)]).
  - split; reflexivity.
  - discriminate.
  - repeat constructor.
  - repeat constructor.
Defined.

Lemma relapse_restores_dead_primary_witness :
  GetEffectiveWeights "bu1" auto_cluster
    (snd (run_ticks (map (λ '(t, p, u), sample_tick t p u) outage)
            (rebalance_start NewMapPartitionLeaderCache auto_config))) = (70, 30).
Proof.
  apply (relapse_restores_dead_primary NewMapPartitionLeaderCache auto_config "bu1" auto_cluster
    eq_refl eq_refl eq_refl _ (sample_obs 0 true epoch) [sample_obs second false zero_time]
    [sample_obs (2 * second) true (epoch + 2 * second)] (sample_obs (3 * second) false zero_time)).
  - apply (sample_sees outage).
  - split; reflexivity.
  - discriminate.
  - repeat constructor.
  - discriminate.
  - repeat constructor.
  - constructor; [|constructor]. unfold ripe. vm_compute. intros H. apply H. reflexivity.
  - split; reflexivity.
  - reflexivity.
  - vm_compute. discriminate.
  - vm_compute. discriminate.
Defined.
