(* ===== verification/Rebalancer.v ===== *)
(** * Asymmetric recovery for load balancing ([internal/failover/rebalance.go])

    The health-weighted selector of a load_balance cluster: fast failover, slow
    failback, a cooldown against ping-pong and a sliding-window breaker.  Every
    operation reads the clock as [now]. *)

From S2P Require Import Prelude Config Health.

Definition StatusUp : string := "up".
Definition StatusDown : string := "down".
Definition StatusRecovering : string := "recovering".

Definition defaultFailureThreshold : Z := 3.
Definition defaultRecoveryThreshold : Z := 5.
Definition defaultRecoveryMinUptime : duration := 120 * second.

Record endpointState := {
  es_addr : string;
  es_status : string;
  es_upSince : time;
  es_consecutiveSuccess : Z;
  es_consecutiveFailure : Z;
  es_originalWeight : Z;
  es_effectiveWeight : Z
}.

Record Rebalancer := {
  rb_primary : endpointState;
  rb_secondary : endpointState;
  rb_origPrimaryWeight : Z;
  rb_origSecondaryWeight : Z;
  rb_failureThreshold : Z;
  rb_recoveryThreshold : Z;
  rb_recoveryMinUptime : duration;
  rb_minTimeBetweenFailovers : duration;
  rb_circuitBreakerMaxFailovers : Z;
  rb_circuitBreakerWindow : duration;
  rb_failoverHistory : list time;
  rb_lastFailoverAt : gmap string time
}.

Definition up_endpoint (now : time) (ep : ClusterEndpoint) : endpointState :=
  {| es_addr := ep_Bootstrap ep; es_status := StatusUp; es_upSince := now;
     es_consecutiveSuccess := 0; es_consecutiveFailure := 0;
     es_originalWeight := ep_Weight ep; es_effectiveWeight := ep_Weight ep |}.

Definition NewRebalancer (now : time) (cfg : ClusterConfig) : Rebalancer :=
  let hc := cl_HealthCheck cfg in
  let ft := if hc_FailureThreshold hc <=? 0 then defaultFailureThreshold
            else hc_FailureThreshold hc in
  let rt := if hc_RecoveryThreshold hc <=? 0 then defaultRecoveryThreshold
            else hc_RecoveryThreshold hc in
  let rmu := if hc_RecoveryMinUptime hc <=? 0 then defaultRecoveryMinUptime
             else hc_RecoveryMinUptime hc in
  {| rb_primary := up_endpoint now (cl_Primary cfg);
     rb_secondary := up_endpoint now (cl_Secondary cfg);
     rb_origPrimaryWeight := ep_Weight (cl_Primary cfg);
     rb_origSecondaryWeight := ep_Weight (cl_Secondary cfg);
     rb_failureThreshold := ft; rb_recoveryThreshold := rt; rb_recoveryMinUptime := rmu;
     rb_minTimeBetweenFailovers := hc_MinTimeBetweenFailovers hc;
     rb_circuitBreakerMaxFailovers := hc_CircuitBreakerMaxFailovers hc;
     rb_circuitBreakerWindow := hc_CircuitBreakerWindow hc;
     rb_failoverHistory := []; rb_lastFailoverAt := ∅ |}.

(** The endpoint a pointer of [endpointFor] leads to. *)
Inductive side := Primary | Secondary.

#[export] Instance side_eq_dec : EqDecision side.
Proof. solve_decision. Defined.

Definition endpoint (s : side) (r : Rebalancer) : endpointState :=
  match s with Primary => rb_primary r | Secondary => rb_secondary r end.

Definition set_endpoint (s : side) (ep : endpointState) (r : Rebalancer) : Rebalancer :=
  {| rb_primary := match s with Primary => ep | Secondary => rb_primary r end;
     rb_secondary := match s with Primary => rb_secondary r | Secondary => ep end;
     rb_origPrimaryWeight := rb_origPrimaryWeight r;
     rb_origSecondaryWeight := rb_origSecondaryWeight r;
     rb_failureThreshold := rb_failureThreshold r;
     rb_recoveryThreshold := rb_recoveryThreshold r;
     rb_recoveryMinUptime := rb_recoveryMinUptime r;
     rb_minTimeBetweenFailovers := rb_minTimeBetweenFailovers r;
     rb_circuitBreakerMaxFailovers := rb_circuitBreakerMaxFailovers r;
     rb_circuitBreakerWindow := rb_circuitBreakerWindow r;
     rb_failoverHistory := rb_failoverHistory r; rb_lastFailoverAt := rb_lastFailoverAt r |}.

Definition with_history (h : list time) (l : gmap string time) (r : Rebalancer) : Rebalancer :=
  {| rb_primary := rb_primary r; rb_secondary := rb_secondary r;
     rb_origPrimaryWeight := rb_origPrimaryWeight r;
     rb_origSecondaryWeight := rb_origSecondaryWeight r;
     rb_failureThreshold := rb_failureThreshold r;
     rb_recoveryThreshold := rb_recoveryThreshold r;
     rb_recoveryMinUptime := rb_recoveryMinUptime r;
     rb_minTimeBetweenFailovers := rb_minTimeBetweenFailovers r;
     rb_circuitBreakerMaxFailovers := rb_circuitBreakerMaxFailovers r;
     rb_circuitBreakerWindow := rb_circuitBreakerWindow r;
     rb_failoverHistory := h; rb_lastFailoverAt := l |}.

Definition endpointFor (addr : string) (r : Rebalancer) : option side :=
  if String.eqb (es_addr (rb_primary r)) addr then Some Primary
  else if String.eqb (es_addr (rb_secondary r)) addr then Some Secondary
  else None.

(** [rand.Intn] panics on a total that is not positive; [roll] is its result. *)
Definition SelectTarget (roll : Z) (r : Rebalancer) : res string :=
  let pw := es_effectiveWeight (rb_primary r) in
  let sw := es_effectiveWeight (rb_secondary r) in
  let '(pw, sw) :=
    if (pw =? 0) && (sw =? 0)
    then (es_originalWeight (rb_primary r), es_originalWeight (rb_secondary r)) else (pw, sw) in
  let total := pw + sw in
  if total =? 0 then Ok (es_addr (rb_primary r))
  else if total <? 0 then Panic
  else if roll <? pw then Ok (es_addr (rb_primary r))
  else Ok (es_addr (rb_secondary r)).

Definition pruneFailoverHistory (now : time) (r : Rebalancer) : Rebalancer :=
  let cutoff := now - rb_circuitBreakerWindow r in
  with_history (filter (λ t, cutoff < t) (rb_failoverHistory r)) (rb_lastFailoverAt r) r.

Definition with_status (status : string) (upSince : time) (cs cf weight : Z)
    (ep : endpointState) : endpointState :=
  {| es_addr := es_addr ep; es_status := status; es_upSince := upSince;
     es_consecutiveSuccess := cs; es_consecutiveFailure := cf;
     es_originalWeight := es_originalWeight ep; es_effectiveWeight := weight |}.

(** Whether the cooldown defers the promotion of an endpoint. *)
Definition cooldown_active (now : time) (addr : string) (r : Rebalancer) : bool :=
  if 0 <? rb_minTimeBetweenFailovers r then
    match rb_lastFailoverAt r !! addr with
    | Some last => time_since now last <? rb_minTimeBetweenFailovers r
    | None => false
    end
  else false.

Definition promoteToUp (now : time) (s : side) (r : Rebalancer) : Rebalancer :=
  let ep := endpoint s r in
  if cooldown_active now (es_addr ep) r then r
  else
    let checked := (0 <? rb_circuitBreakerMaxFailovers r) && (0 <? rb_circuitBreakerWindow r) in
    let r := if checked then pruneFailoverHistory now r else r in
    if checked && (rb_circuitBreakerMaxFailovers r <=? Z.of_nat (length (rb_failoverHistory r)))
    then r
    else set_endpoint s (with_status StatusUp (es_upSince ep) 0 0 (es_originalWeight ep) ep) r.

Definition RecordSuccess (now : time) (addr : string) (r : Rebalancer) : Rebalancer :=
  match endpointFor addr r with
  | None => r
  | Some s =>
      let ep := endpoint s r in
      let ep := with_status (es_status ep) (es_upSince ep) (es_consecutiveSuccess ep + 1) 0
                  (es_effectiveWeight ep) ep in
      if String.eqb (es_status ep) StatusDown then
        set_endpoint s (with_status StatusRecovering now 1 0 (es_effectiveWeight ep) ep) r
      else if String.eqb (es_status ep) StatusRecovering then
        let uptime := time_since now (es_upSince ep) in
        let r := set_endpoint s ep r in
        if (rb_recoveryThreshold r <=? es_consecutiveSuccess ep)
           && (rb_recoveryMinUptime r <=? uptime)
        then promoteToUp now s r
        else r
      else set_endpoint s ep r
  end.

Definition demoteToDown (now : time) (s : side) (r : Rebalancer) : Rebalancer :=
  let ep := endpoint s r in
  let r := set_endpoint s (with_status StatusDown (es_upSince ep) 0
                             (es_consecutiveFailure ep) 0 ep) r in
  with_history
    (if 0 <? rb_circuitBreakerMaxFailovers r then rb_failoverHistory r ++ [now]
     else rb_failoverHistory r)
    (<[es_addr ep := now]> (rb_lastFailoverAt r)) r.

Definition RecordFailure (now : time) (addr : string) (r : Rebalancer) : Rebalancer :=
  match endpointFor addr r with
  | None => r
  | Some s =>
      let ep := endpoint s r in
      let ep := with_status (es_status ep) (es_upSince ep) 0 (es_consecutiveFailure ep + 1)
                  (es_effectiveWeight ep) ep in
      let r := set_endpoint s ep r in
      if String.eqb (es_status ep) StatusUp then
        if rb_failureThreshold r <=? es_consecutiveFailure ep then demoteToDown now s r else r
      else if String.eqb (es_status ep) StatusRecovering then
        set_endpoint s (with_status StatusDown (es_upSince ep) 0 1 0 ep) r
      else if String.eqb (es_status ep) StatusDown then
        set_endpoint s (with_status StatusDown (es_upSince ep) 0 1 (es_effectiveWeight ep) ep) r
      else r
  end.

Definition GetEffectiveWeight (name : string) (r : Rebalancer) : Z :=
  if String.eqb name ActivePrimary then es_effectiveWeight (rb_primary r)
  else if String.eqb name ActiveSecondary then es_effectiveWeight (rb_secondary r)
  else -1.

Definition Rebalancer_Status (name : string) (r : Rebalancer) : string :=
  if String.eqb name ActivePrimary then es_status (rb_primary r)
  else if String.eqb name ActiveSecondary then es_status (rb_secondary r)
  else "".

Definition PrimaryAddr (r : Rebalancer) : string := es_addr (rb_primary r).
Definition SecondaryAddr (r : Rebalancer) : string := es_addr (rb_secondary r).

(** ** Endpoints *)

Lemma endpoint_set s ep r : endpoint s (set_endpoint s ep r) = ep.
Proof. by destruct s. Qed.

Lemma endpoint_set_ne s s' ep r : s' ≠ s → endpoint s' (set_endpoint s ep r) = endpoint s' r.
Proof. by destruct s, s'. Qed.

Lemma endpointFor_addr addr s r : endpointFor addr r = Some s → es_addr (endpoint s r) = addr.
Proof.
  unfold endpointFor. destruct (String.eqb_spec (es_addr (rb_primary r)) addr) as [<-|];
    [by intros [= <-]|].
  destruct (String.eqb_spec (es_addr (rb_secondary r)) addr) as [<-|]; [by intros [= <-]|done].
Qed.

(** What the operations never change. *)
Definition same_config (r r' : Rebalancer) : Prop :=
  rb_failureThreshold r' = rb_failureThreshold r ∧
  rb_recoveryThreshold r' = rb_recoveryThreshold r ∧
  rb_recoveryMinUptime r' = rb_recoveryMinUptime r ∧
  rb_minTimeBetweenFailovers r' = rb_minTimeBetweenFailovers r ∧
  rb_circuitBreakerMaxFailovers r' = rb_circuitBreakerMaxFailovers r ∧
  rb_circuitBreakerWindow r' = rb_circuitBreakerWindow r ∧
  ∀ s, es_addr (endpoint s r') = es_addr (endpoint s r) ∧
       es_originalWeight (endpoint s r') = es_originalWeight (endpoint s r).

Lemma same_config_refl r : same_config r r.
Proof. done. Qed.

(** A request outcome, observed at a time. *)
Record outcome := { oc_now : time; oc_addr : string; oc_ok : bool }.

Definition record_outcome (r : Rebalancer) (o : outcome) : Rebalancer :=
  if oc_ok o then RecordSuccess (oc_now o) (oc_addr o) r
  else RecordFailure (oc_now o) (oc_addr o) r.

(** The promotion conditions, for an endpoint at address [addr]. *)
Definition cooled_down (now : time) (addr : string) (r : Rebalancer) : Prop :=
  0 < rb_minTimeBetweenFailovers r → ∀ last, rb_lastFailoverAt r !! addr = Some last →
  rb_minTimeBetweenFailovers r ≤ now - last.
Definition breaker_closed (now : time) (r : Rebalancer) : Prop :=
  0 < rb_circuitBreakerMaxFailovers r → 0 < rb_circuitBreakerWindow r →
  Z.of_nat (length (filter (λ t, now - rb_circuitBreakerWindow r < t) (rb_failoverHistory r)))
    < rb_circuitBreakerMaxFailovers r.

(** Durations are 64-bit in Go. *)
Definition durations_ok (r : Rebalancer) : Prop :=
  minDuration < rb_recoveryMinUptime r ≤ maxDuration ∧
  minDuration < rb_minTimeBetweenFailovers r ≤ maxDuration.

Lemma cooldown_active_spec now addr r :
  durations_ok r → cooldown_active now addr r = false ↔ cooled_down now addr r.
Proof.
  intros [_ Hd]. unfold cooldown_active, cooled_down.
  destruct (Z.ltb_spec 0 (rb_minTimeBetweenFailovers r)); [|split; [lia|done]].
  destruct (rb_lastFailoverAt r !! addr) as [last|]; [|done].
  rewrite Z.ltb_ge, time_since_ge_iff by done. split; [by intros ? _ ? [= <-]|auto].
Qed.

Lemma promoteToUp_spec now s r :
  durations_ok r →
  let ep := endpoint s r in
  same_config r (promoteToUp now s r) ∧
  (∀ s', s' ≠ s → endpoint s' (promoteToUp now s r) = endpoint s' r) ∧
  (cooled_down now (es_addr ep) r ∧ breaker_closed now r ∧
   endpoint s (promoteToUp now s r)
   = with_status StatusUp (es_upSince ep) 0 0 (es_originalWeight ep) ep
   ∨ ¬ (cooled_down now (es_addr ep) r ∧ breaker_closed now r) ∧
     endpoint s (promoteToUp now s r) = ep).
Proof.
  intros Hd ep. unfold promoteToUp. fold ep.
  pose proof (cooldown_active_spec now (es_addr ep) r Hd) as Hc.
  destruct (cooldown_active now (es_addr ep) r).
  { split; [done|]. split; [done|]. right. split; [|done].
    intros [Hcd _]. by apply Hc in Hcd. }
  set (chk := (0 <? rb_circuitBreakerMaxFailovers r) && (0 <? rb_circuitBreakerWindow r)).
  set (r1 := if chk then pruneFailoverHistory now r else r).
  assert (same_config r r1 ∧ ∀ s', endpoint s' r1 = endpoint s' r) as [Hs1 He1].
  { unfold r1. destruct chk; [|done]. split; [|by intros []]. done. }
  assert (breaker_closed now r ↔
    chk && (rb_circuitBreakerMaxFailovers r <=? Z.of_nat (length (rb_failoverHistory r1))) = false)
    as Hb.
  { unfold breaker_closed, r1, chk.
    destruct (Z.ltb_spec 0 (rb_circuitBreakerMaxFailovers r)); [|split; [done|lia]].
    destruct (Z.ltb_spec 0 (rb_circuitBreakerWindow r)); [|split; [done|lia]].
    cbn [andb pruneFailoverHistory with_history rb_failoverHistory]. rewrite Z.leb_gt. tauto. }
  assert (rb_circuitBreakerMaxFailovers r1 = rb_circuitBreakerMaxFailovers r) as ->
    by (by unfold r1; destruct chk).
  destruct (chk && _).
  - split; [done|]. split; [auto|]. right. split; [|by rewrite He1].
    intros [_ Hbc]. by apply Hb in Hbc.
  - split; [|split; [|left; split_and!; [by apply Hc|by apply Hb|by rewrite endpoint_set]]].
    + destruct Hs1 as (?&?&?&?&?&?&Hs1). split_and!; try done. intros s'.
      destruct (decide (s' = s)) as [->|]; [by rewrite endpoint_set|].
      rewrite endpoint_set_ne by done. apply Hs1.
    + intros s' ?. by rewrite endpoint_set_ne, He1.
Qed.

Lemma same_config_trans r1 r2 r3 : same_config r1 r2 → same_config r2 r3 → same_config r1 r3.
Proof.
  intros (?&?&?&?&?&?&Ha) (?&?&?&?&?&?&Hb). split_and!; try congruence.
  intros s. destruct (Ha s), (Hb s). split; congruence.
Qed.

Lemma same_config_set s ep r :
  es_addr ep = es_addr (endpoint s r) → es_originalWeight ep = es_originalWeight (endpoint s r) →
  same_config r (set_endpoint s ep r).
Proof. intros Ha Hw. split_and!; try done. intros s'. by destruct s, s'. Qed.

Lemma same_config_endpointFor addr r r' :
  same_config r r' → endpointFor addr r' = endpointFor addr r.
Proof.
  intros (_&_&_&_&_&_&H). unfold endpointFor. destruct (H Primary) as [Hp _], (H Secondary) as [Hs _].
  cbn in Hp, Hs. by rewrite Hp, Hs.
Qed.

Lemma same_config_durations r r' : same_config r r' → durations_ok r → durations_ok r'.
Proof. intros (_&_&H1&H2&_) [? ?]. unfold durations_ok. by rewrite H1, H2. Qed.

(** The promotion conditions only read what a change of endpoint keeps. *)
Lemma set_endpoint_promotion now addr s ep r :
  (cooled_down now addr (set_endpoint s ep r) ↔ cooled_down now addr r) ∧
  (breaker_closed now (set_endpoint s ep r) ↔ breaker_closed now r).
Proof. done. Qed.

(** What an outcome does to the endpoint it is about. *)
Inductive endpoint_step (now : time) (r : Rebalancer) (ep : endpointState)
    : bool → endpointState → Prop :=
  | step_up_success :
      es_status ep = StatusUp →
      endpoint_step now r ep true
        (with_status StatusUp (es_upSince ep) (es_consecutiveSuccess ep + 1) 0
           (es_effectiveWeight ep) ep)
  | step_down_success :
      es_status ep = StatusDown →
      endpoint_step now r ep true (with_status StatusRecovering now 1 0 (es_effectiveWeight ep) ep)
  | step_recovering_waits :
      es_status ep = StatusRecovering →
      ¬ (rb_recoveryThreshold r ≤ es_consecutiveSuccess ep + 1 ∧
         rb_recoveryMinUptime r ≤ now - es_upSince ep ∧
         cooled_down now (es_addr ep) r ∧ breaker_closed now r) →
      endpoint_step now r ep true
        (with_status StatusRecovering (es_upSince ep) (es_consecutiveSuccess ep + 1) 0
           (es_effectiveWeight ep) ep)
  | step_recovering_promoted :
      es_status ep = StatusRecovering →
      rb_recoveryThreshold r ≤ es_consecutiveSuccess ep + 1 →
      rb_recoveryMinUptime r ≤ now - es_upSince ep →
      cooled_down now (es_addr ep) r → breaker_closed now r →
      endpoint_step now r ep true
        (with_status StatusUp (es_upSince ep) 0 0 (es_originalWeight ep) ep)
  | step_up_failure :
      es_status ep = StatusUp → es_consecutiveFailure ep + 1 < rb_failureThreshold r →
      endpoint_step now r ep false
        (with_status StatusUp (es_upSince ep) 0 (es_consecutiveFailure ep + 1)
           (es_effectiveWeight ep) ep)
  | step_up_demoted :
      es_status ep = StatusUp → rb_failureThreshold r ≤ es_consecutiveFailure ep + 1 →
      endpoint_step now r ep false
        (with_status StatusDown (es_upSince ep) 0 (es_consecutiveFailure ep + 1) 0 ep)
  | step_recovering_failure :
      es_status ep = StatusRecovering →
      endpoint_step now r ep false (with_status StatusDown (es_upSince ep) 0 1 0 ep)
  | step_down_failure :
      es_status ep = StatusDown →
      endpoint_step now r ep false
        (with_status StatusDown (es_upSince ep) 0 1 (es_effectiveWeight ep) ep).

Lemma RecordSuccess_step now addr s r :
  durations_ok r → endpointFor addr r = Some s →
  es_status (endpoint s r) ∈ [StatusUp; StatusDown; StatusRecovering] →
  same_config r (RecordSuccess now addr r) ∧
  (∀ s', s' ≠ s → endpoint s' (RecordSuccess now addr r) = endpoint s' r) ∧
  endpoint_step now r (endpoint s r) true (endpoint s (RecordSuccess now addr r)).
Proof.
  intros Hd Hf Hst. unfold RecordSuccess. rewrite Hf.
  set (ep := endpoint s r) in *. cbn [with_status es_status es_upSince es_consecutiveSuccess
    es_effectiveWeight].
  rewrite !list.elem_of_cons in Hst. destruct Hst as [Hst|[Hst|[Hst|[]%not_elem_of_nil]]];
    rewrite Hst.
  - change (String.eqb StatusUp StatusDown) with false.
    change (String.eqb StatusUp StatusRecovering) with false.
    split; [by apply same_config_set|]. split; [intros; by rewrite endpoint_set_ne|].
    rewrite endpoint_set. by constructor.
  - rewrite String.eqb_refl. split; [by apply same_config_set|]. split; [intros; by rewrite endpoint_set_ne|].
    rewrite endpoint_set. by apply (step_down_success now r ep).
  - replace (String.eqb StatusRecovering StatusDown) with false by done.
    rewrite String.eqb_refl.
    set (r1 := set_endpoint s _ r).
    assert (same_config r r1) as Hsc by by apply same_config_set.
    change (rb_recoveryThreshold r1) with (rb_recoveryThreshold r).
    change (rb_recoveryMinUptime r1) with (rb_recoveryMinUptime r).
    set (rt := rb_recoveryThreshold r). set (rmu := rb_recoveryMinUptime r).
    destruct ((rt <=? es_consecutiveSuccess ep + 1) && (rmu <=? time_since now (es_upSince ep)))
      eqn:Hcond.
    + apply andb_true_iff in Hcond as [H1%Z.leb_le H2%Z.leb_le].
      apply time_since_ge_iff in H2; [|apply Hd].
      destruct (promoteToUp_spec now s r1) as (Hs2 & Hother & Hp);
        [by apply (same_config_durations r)|].
      assert (endpoint s r1 = with_status StatusRecovering (es_upSince ep)
        (es_consecutiveSuccess ep + 1) 0 (es_effectiveWeight ep) ep) as Hep
        by (unfold r1; by rewrite endpoint_set).
      rewrite Hep in Hp. cbn [es_addr with_status es_upSince es_originalWeight] in Hp.
      split; [by eapply same_config_trans|]. split.
      { intros s' ?. rewrite Hother by done. unfold r1. by rewrite endpoint_set_ne. }
      destruct Hp as [(? & ? & ->)|(Hn & ->)].
      * by apply (step_recovering_promoted now r ep).
      * apply step_recovering_waits; [done|]. intros (_ & _ & ? & ?). by apply Hn.
    + split; [done|]. split; [intros s' ?; unfold r1; by rewrite endpoint_set_ne|].
      unfold r1. rewrite endpoint_set. apply step_recovering_waits; [done|].
      intros (H1 & H2 & _). apply andb_false_iff in Hcond as [Hc%Z.leb_gt|Hc%Z.leb_gt].
      * subst rt. lia.
      * apply (time_since_ge_iff now (es_upSince ep)) in H2; [|apply Hd]. subst rmu. lia.
Qed.

Lemma RecordFailure_step now addr s r :
  endpointFor addr r = Some s →
  es_status (endpoint s r) ∈ [StatusUp; StatusDown; StatusRecovering] →
  same_config r (RecordFailure now addr r) ∧
  (∀ s', s' ≠ s → endpoint s' (RecordFailure now addr r) = endpoint s' r) ∧
  endpoint_step now r (endpoint s r) false (endpoint s (RecordFailure now addr r)).
Proof.
  intros Hf Hst. unfold RecordFailure. rewrite Hf.
  set (ep := endpoint s r) in *. cbn [with_status es_status es_upSince es_consecutiveFailure
    es_effectiveWeight].
  set (ep1 := with_status (es_status ep) _ _ _ _ ep).
  assert (∀ ep2, es_addr ep2 = es_addr ep → es_originalWeight ep2 = es_originalWeight ep →
    same_config r (set_endpoint s ep2 (set_endpoint s ep1 r))) as Hsc.
  { intros ep2 ? ?. eapply same_config_trans; apply same_config_set; try done;
      by rewrite endpoint_set. }
  rewrite !list.elem_of_cons in Hst. destruct Hst as [Hst|[Hst|[Hst|[]%not_elem_of_nil]]];
    rewrite Hst.
  - rewrite String.eqb_refl. replace (rb_failureThreshold (set_endpoint s ep1 r))
      with (rb_failureThreshold r) by done.
    destruct (Z.leb_spec (rb_failureThreshold r) (es_consecutiveFailure ep + 1)).
    + unfold demoteToDown. rewrite endpoint_set. split; [apply Hsc; done|]. split.
      * intros s' ?. change (endpoint s' (with_history ?h ?l ?x)) with (endpoint s' x).
        by rewrite !endpoint_set_ne.
      * change (endpoint s (with_history ?h ?l ?x)) with (endpoint s x). rewrite endpoint_set.
        by apply (step_up_demoted now r ep).
    + split; [by apply same_config_set|]. split; [intros; by rewrite endpoint_set_ne|].
      rewrite endpoint_set. unfold ep1. rewrite Hst. by apply step_up_failure.
  - replace (String.eqb StatusDown StatusUp) with false by done.
    replace (String.eqb StatusDown StatusRecovering) with false by done. rewrite String.eqb_refl.
    split; [by apply Hsc|]. split; [intros; by rewrite !endpoint_set_ne|].
    rewrite endpoint_set. by apply (step_down_failure now r ep).
  - replace (String.eqb StatusRecovering StatusUp) with false by done. rewrite String.eqb_refl.
    split; [by apply Hsc|]. split; [intros; by rewrite !endpoint_set_ne|].
    rewrite endpoint_set. by apply (step_recovering_failure now r ep).
Qed.

(** ** Runs *)

Definition rb_run (r : Rebalancer) (os : list outcome) : Rebalancer := foldl record_outcome r os.

(** The outcomes counted for a side. *)
Definition about (r : Rebalancer) (s : side) (os : list outcome) : list outcome :=
  filter (λ o, endpointFor (oc_addr o) r = Some s) os.

(** The run of successes that ends a history, most recent first. *)
Fixpoint take_ok (rev_os : list outcome) : list outcome :=
  match rev_os with
  | o :: l => if oc_ok o then o :: take_ok l else []
  | [] => []
  end.
Definition successes (os : list outcome) : list outcome := take_ok (reverse os).

Lemma successes_snoc os o : successes (os ++ [o]) = if oc_ok o then o :: successes os else [].
Proof. unfold successes. by rewrite reverse_snoc. Qed.

Lemma status_distinct :
  StatusUp ≠ StatusDown ∧ StatusUp ≠ StatusRecovering ∧ StatusDown ≠ StatusRecovering.
Proof. done. Qed.

(** What an endpoint's state says of its outcomes. *)
Definition endpoint_inv (os : list outcome) (ep : endpointState) : Prop :=
  (es_status ep = StatusUp ∧ es_effectiveWeight ep = es_originalWeight ep ∧
   es_consecutiveFailure ep = run_length false (reverse (map oc_ok os))) ∨
  (es_status ep = StatusRecovering ∧ es_effectiveWeight ep = 0 ∧
   es_consecutiveSuccess ep = Z.of_nat (length (successes os)) ∧
   ∃ first, list.last (successes os) = Some first ∧ es_upSince ep = oc_now first) ∨
  (es_status ep = StatusDown ∧ es_effectiveWeight ep = 0 ∧ successes os = []).

Lemma endpoint_inv_status os ep :
  endpoint_inv os ep → es_status ep ∈ [StatusUp; StatusDown; StatusRecovering].
Proof.
  rewrite !list.elem_of_cons. unfold endpoint_inv. tauto.
Qed.

Lemma endpoint_step_inv r os o ep ep' :
  endpoint_inv os ep → endpoint_step (oc_now o) r ep (oc_ok o) ep' →
  endpoint_inv (os ++ [o]) ep'.
Proof.
  destruct status_distinct as (Hne1 & Hne2 & Hne3).
  intros Hinv Hstep. unfold endpoint_inv. rewrite map_app, reverse_app, successes_snoc.
  change (reverse (map oc_ok [o])) with [oc_ok o]. cbn [app].
  inversion Hstep as [Ho|Ho|Ho|Ho|Ho|Ho|Ho|Ho];
    cbn [with_status es_status es_effectiveWeight es_originalWeight es_consecutiveFailure
         es_consecutiveSuccess es_upSince run_length Bool.eqb];
    destruct Hinv as [(Hs & Hw & Hc)|[(Hs & Hw & Hc & first & Hl & Hu)|(Hs & Hw & Hr)]];
    try congruence.
  - left. auto.
  - right; left. rewrite Hr. split_and!; [done|done|done|]. by exists o.
  - right; left. rewrite Hc, Hu. split_and!; [done|done|cbn [length]; lia|].
    exists first. split; [|done]. by destruct (successes os).
  - left. auto.
  - left. rewrite Hc. split_and!; [done|done|lia].
  - right; right. auto.
  - right; right. auto.
  - right; right. auto.
Qed.

Lemma record_outcome_inv r0 r o os :
  durations_ok r → same_config r0 r → (∀ s, endpoint_inv (about r0 s os) (endpoint s r)) →
  same_config r0 (record_outcome r o) ∧
  ∀ s, endpoint_inv (about r0 s (os ++ [o])) (endpoint s (record_outcome r o)) ∧
       (endpointFor (oc_addr o) r0 ≠ Some s → endpoint s (record_outcome r o) = endpoint s r) ∧
       (endpointFor (oc_addr o) r0 = Some s →
          endpoint_step (oc_now o) r (endpoint s r) (oc_ok o) (endpoint s (record_outcome r o))).
Proof.
  intros Hd Hsc Hinv. pose proof (same_config_endpointFor (oc_addr o) r0 r Hsc) as Hf.
  destruct (endpointFor (oc_addr o) r0) as [s0|] eqn:Hs0.
  - assert (same_config r (record_outcome r o) ∧
      (∀ s', s' ≠ s0 → endpoint s' (record_outcome r o) = endpoint s' r) ∧
      endpoint_step (oc_now o) r (endpoint s0 r) (oc_ok o) (endpoint s0 (record_outcome r o)))
      as (Hsc' & Hother & Hstep).
    { unfold record_outcome. pose proof (endpoint_inv_status _ _ (Hinv s0)). destruct (oc_ok o).
      - by apply RecordSuccess_step. - by apply RecordFailure_step. }
    split; [by eapply same_config_trans|]. intros s. unfold about. rewrite list.filter_app.
    destruct (decide (s = s0)) as [->|Hne].
    + rewrite (filter_Forall _ [o]) by (by repeat constructor).
      split; [by apply (endpoint_step_inv r _ o (endpoint s0 r)); [apply Hinv|]|].
      split; [congruence|done].
    + rewrite (filter_none _ [o]) by (repeat constructor; congruence). rewrite app_nil_r, Hother by done.
      split; [apply Hinv|]. split; [done|congruence].
  - assert (record_outcome r o = r) as ->.
    { unfold record_outcome, RecordSuccess, RecordFailure. rewrite Hf. by destruct (oc_ok o). }
    split; [done|]. intros s. unfold about. rewrite list.filter_app.
    rewrite (filter_none _ [o]) by (repeat constructor; congruence). rewrite app_nil_r.
    split; [apply Hinv|]. split; [done|congruence].
Qed.

Lemma rb_run_inv now cfg os :
  let r0 := NewRebalancer now cfg in
  durations_ok r0 →
  same_config r0 (rb_run r0 os) ∧ ∀ s, endpoint_inv (about r0 s os) (endpoint s (rb_run r0 os)).
Proof.
  intros r0 Hd. induction os as [|o os [Hsc Hinv]] using rev_ind.
  - split; [apply same_config_refl|]. intros []; left; done.
  - unfold rb_run in *. rewrite foldl_snoc.
    destruct (record_outcome_inv r0 (foldl record_outcome r0 os) o os) as [? Hall];
      [by eapply same_config_durations|done|done|]. split; [done|]. intros s. apply Hall.
Qed.

(** ** Properties *)

(** Fast failover.  Over any history of request outcomes, an UP endpoint is
    taken out, its weight dropping to zero, by exactly the failure that completes
    a run of [failureThreshold] consecutive failures on its address, however the
    outcomes of the other endpoint are interleaved; an UP endpoint always has its
    full configured weight and any other endpoint weight zero. *)
Theorem failover_is_fast now cfg os o s :
  let r0 := NewRebalancer now cfg in
  let r := rb_run r0 os in
  let r' := record_outcome r o in
  durations_ok r0 → es_status (endpoint s r) = StatusUp →
  endpointFor (oc_addr o) r0 = Some s →
  (es_status (endpoint s r') = StatusDown ↔
   ends_with false (rb_failureThreshold r0) (map oc_ok (about r0 s (os ++ [o])))) ∧
  (es_status (endpoint s r') = StatusUp ∨ es_status (endpoint s r') = StatusDown) ∧
  es_effectiveWeight (endpoint s r') =
    if String.eqb (es_status (endpoint s r')) StatusUp then es_originalWeight (endpoint s r0) else 0.
Proof.
  destruct status_distinct as (Hne1 & Hne2 & Hne3).
  intros r0 r r' Hd Hup Hf. destruct (rb_run_inv now cfg os Hd) as [Hsc Hinv].
  fold r0 r in Hsc, Hinv.
  assert (0 < rb_failureThreshold r0) as Hft.
  { cbn. unfold defaultFailureThreshold. case_if; bool_to_prop; lia. }
  destruct (record_outcome_inv r0 r o os) as [Hsc' Hall];
    [by eapply same_config_durations|done|done|].
  destruct (Hall s) as (Hinv' & _ & Hstep). specialize (Hstep Hf). fold r' in Hsc', Hinv', Hstep.
  destruct Hsc' as (_&_&_&_&_&_&Hw). destruct (Hw s) as [_ <-].
  destruct Hsc as (Hft' & _). rewrite <- run_length_ge by lia.
  unfold about in *. rewrite list.filter_app, (filter_Forall _ [o]) in * by (by repeat constructor).
  rewrite map_app, reverse_app. cbn [map].
  set (l := reverse (map oc_ok _)).
  change (reverse [oc_ok o] ++ l) with (oc_ok o :: l).
  destruct (Hinv s) as [(_ & Hweight & Hc)|[(? & _)|(? & _)]]; [|congruence..]. fold l in Hc.
  destruct (endpoint s r') eqn:Eep. inversion Hstep; try congruence; simplify_eq; cbn [es_status
    run_length Bool.eqb es_effectiveWeight es_originalWeight].
  - split; [split; [done|lia]|]. split; [by left|]. by rewrite String.eqb_refl.
  - rewrite <- Hft', <- Hc. split; [split; [done|lia]|]. split; [by left|]. by rewrite String.eqb_refl.
  - rewrite <- Hft', <- Hc. split; [split; [intros; lia|done]|]. split; [by right|done].
Qed.

(** C25: slow failback.  Over any history of request outcomes, an endpoint comes
    back only on a success that ends a run of at least [recoveryThreshold]
    successes on its address with no failure among them, the first of them at
    least [recoveryMinUptime] earlier, when its last failover is at least
    [minTimeBetweenFailovers] old and the breaker window has room; and when all
    of these hold it does come back, at its full configured weight.  So the
    breaker delays a recovery until the window has moved on; it does not lock
    the endpoint until an operator intervenes. *)
Theorem failback_is_slow now cfg os o s :
  let r0 := NewRebalancer now cfg in
  let r := rb_run r0 os in
  let r' := record_outcome r o in
  durations_ok r0 → es_status (endpoint s r) ≠ StatusUp →
  endpointFor (oc_addr o) r0 = Some s →
  let run := successes (about r0 s (os ++ [o])) in
  (es_status (endpoint s r') = StatusUp ↔
   2 ≤ Z.of_nat (length run) ∧ rb_recoveryThreshold r0 ≤ Z.of_nat (length run) ∧
   (∃ first, list.last run = Some first ∧
             rb_recoveryMinUptime r0 ≤ oc_now o - oc_now first) ∧
   cooled_down (oc_now o) (oc_addr o) r ∧ breaker_closed (oc_now o) r) ∧
  (es_status (endpoint s r') = StatusUp →
     es_effectiveWeight (endpoint s r') = es_originalWeight (endpoint s r0)).
Proof.
  destruct status_distinct as (Hne1 & Hne2 & Hne3).
  intros r0 r r' Hd Hup Hf run. destruct (rb_run_inv now cfg os Hd) as [Hsc Hinv].
  fold r0 r in Hsc, Hinv.
  destruct (record_outcome_inv r0 r o os) as [Hsc' Hall];
    [by eapply same_config_durations|done|done|].
  destruct (Hall s) as (_ & _ & Hstep). specialize (Hstep Hf). fold r' in Hsc', Hstep.
  pose proof (endpointFor_addr _ _ _ Hf) as Haddr.
  destruct Hsc as (_ & Hrt & Hru & _ & _ & _ & Hw). destruct (Hw s) as [Ha Hw'].
  rewrite Haddr in Ha.
  assert (run = if oc_ok o then o :: successes (about r0 s os) else []) as Hrun.
  { unfold run, about. rewrite list.filter_app, (filter_Forall _ [o]) by (by repeat constructor).
    apply successes_snoc. }
  rewrite Hrun. destruct (Hinv s) as [(? & _)|[(Hs & _ & Hc & first & Hl & Hu)|(Hs & _ & Hr)]];
    [done|..].
  - assert (∀ y, list.last (o :: successes (about r0 s os)) = Some y ↔ y = first) as Hlast.
    { intros y. destruct (successes (about r0 s os)) as [|o1 l]; [done|].
      change (list.last (o :: o1 :: l)) with (list.last (o1 :: l)). rewrite Hl.
      split; [by intros [=]|by intros ->]. }
    destruct (endpoint s r') as [? st ? ? ? ? w] eqn:Eep. cbn [es_status es_effectiveWeight].
    inversion Hstep as [Hok|Hok|Hok Hno|Hok Hr1 Hr2 Hr3 Hr4|Hok|Hok|Hok|Hok]; try congruence;
      simplify_eq.
    + split; [|done]. split; [done|]. intros (_ & Hi1 & (y & ->%Hlast & Hi2) & Hi3 & Hi4).
      exfalso. apply Hno. rewrite Hrt, Hru, Hc, Hu, Ha. cbn [length] in Hi1. split_and!; try done; lia.
    + split; [|done]. split; [intros _|done]. rewrite Hrt, Hru, Hc, Hu, Ha in *. cbn [length].
      assert (Z.of_nat (length (successes (about r0 s os))) ≠ 0)
        by (by destruct (successes (about r0 s os))).
      split_and!; [lia|lia| |done|done]. exists first. split; [by apply Hlast|done].
    + split; [|done]. split; [done|]. cbn. lia.
  - destruct (endpoint s r') as [? st ? ? ? ? w] eqn:Eep. cbn [es_status es_effectiveWeight].
    rewrite Hr. inversion Hstep; try congruence; simplify_eq; (split; [|done]);
      (split; [done|]); cbn; lia.
Qed.

(** The weights a selection draws with. *)
Definition draw_weights (r : Rebalancer) : Z * Z :=
  let pw := es_effectiveWeight (rb_primary r) in
  let sw := es_effectiveWeight (rb_secondary r) in
  if (pw =? 0) && (sw =? 0)
  then (es_originalWeight (rb_primary r), es_originalWeight (rb_secondary r)) else (pw, sw).

Lemma SelectTarget_draw roll r :
  let '(pw, sw) := draw_weights r in
  0 ≤ sw → 0 ≤ roll < pw + sw →
  SelectTarget roll r = Ok (es_addr (endpoint (if roll <? pw then Primary else Secondary) r)).
Proof.
  unfold SelectTarget, draw_weights. case_if; intros Hs Hroll;
    (rewrite (proj2 (Z.eqb_neq _ 0)) by lia); (rewrite (proj2 (Z.ltb_ge _ 0)) by lia);
    by case_if.
Qed.

(** Traffic goes where the cluster is healthy.  After any history, with
    configured weights that are not negative and not both zero, a draw never
    panics, and it picks an UP endpoint of positive weight unless there is none;
    only then are the configured weights of the two endpoints used.  With both
    endpoints UP the primary gets exactly its configured share of the draws. *)
Theorem SelectTarget_healthy now cfg os roll :
  let r0 := NewRebalancer now cfg in
  let r := rb_run r0 os in
  let '(pw, sw) := draw_weights r in
  durations_ok r0 →
  (∀ s, 0 ≤ es_originalWeight (endpoint s r0)) →
  0 < es_originalWeight (rb_primary r0) + es_originalWeight (rb_secondary r0) →
  0 ≤ roll < pw + sw →
  (∃ s, SelectTarget roll r = Ok (es_addr (endpoint s r0)) ∧
     0 < es_originalWeight (endpoint s r0) ∧
     (es_status (endpoint s r) = StatusUp ∨
      ∀ s', es_status (endpoint s' r) = StatusUp → es_originalWeight (endpoint s' r0) = 0)) ∧
  ((∀ s, es_status (endpoint s r) = StatusUp) →
     SelectTarget roll r = Ok (if roll <? es_originalWeight (rb_primary r0)
                               then es_addr (rb_primary r0) else es_addr (rb_secondary r0))).
Proof.
  intros r0 r. destruct (draw_weights r) as [pw sw] eqn:Hdraw. intros Hd Hnn Hpos Hroll.
  destruct (rb_run_inv now cfg os Hd) as [(_&_&_&_&_&_&Hw) Hinv]. fold r0 r in Hw, Hinv.
  clearbody r. clearbody r0.
  assert (∀ s, es_effectiveWeight (endpoint s r) =
    if String.eqb (es_status (endpoint s r)) StatusUp then es_originalWeight (endpoint s r0) else 0)
    as Heff.
  { intros s. destruct (Hw s) as [_ <-].
    destruct (Hinv s) as [(-> & -> & _)|[(-> & -> & _)|(-> & -> & _)]]; done. }
  pose proof (Heff Primary) as Hp. pose proof (Heff Secondary) as Hs. cbn [endpoint] in Hp, Hs.
  pose proof (Hw Primary) as [HaP HwP]. pose proof (Hw Secondary) as [HaS HwS].
  pose proof (Hnn Primary) as HnP. pose proof (Hnn Secondary) as HnS. cbn [endpoint] in *.
  assert (0 ≤ pw ∧ 0 ≤ sw ∧ (∀ s, 0 < match s with Primary => pw | Secondary => sw end →
      0 < es_originalWeight (endpoint s r0) ∧
      (es_status (endpoint s r) = StatusUp ∨
       ∀ s', es_status (endpoint s' r) = StatusUp → es_originalWeight (endpoint s' r0) = 0)))
    as (Hpw & Hsw & Hchosen).
  { unfold draw_weights in Hdraw. rewrite Hp, Hs, HwP, HwS in Hdraw. revert Hdraw.
    destruct (String.eqb_spec (es_status (rb_primary r)) StatusUp) as [HuP|HuP],
      (String.eqb_spec (es_status (rb_secondary r)) StatusUp) as [HuS|HuS];
    destruct (Z.eqb_spec (es_originalWeight (rb_primary r0)) 0) as [HzP|HzP];
    destruct (Z.eqb_spec (es_originalWeight (rb_secondary r0)) 0) as [HzS|HzS];
    cbn; intros Hdraw; injection Hdraw as <- <-;
    (split; [lia|]); (split; [lia|]);
    intros [] ?; cbn [endpoint]; (split; [lia|]);
    first [by left|right; intros []; cbn [endpoint]; (done || lia)]. }
  pose proof (SelectTarget_draw roll r) as Hsel. rewrite Hdraw in Hsel.
  rewrite (Hsel Hsw Hroll). split.
  - exists (if roll <? pw then Primary else Secondary). destruct (Hw (if roll <? pw then Primary
      else Secondary)) as [-> _]. split; [done|]. apply Hchosen. case_if; bool_to_prop; lia.
  - intros Hall. unfold draw_weights in Hdraw.
    rewrite Hp, Hs, (Hall Primary : es_status (rb_primary r) = _),
      (Hall Secondary : es_status (rb_secondary r) = _), String.eqb_refl, HwP, HwS in Hdraw.
    assert (pw = es_originalWeight (rb_primary r0)) as ->
      by (destruct (_ && _); by injection Hdraw).
    case_if; cbn [endpoint]; congruence.
Qed.

(** ** Witnesses *)

Definition lb_cluster : ClusterConfig :=
  {| cl_Port := 9092; cl_Mode := ModeLoadBalance; cl_Active := "";
     cl_Primary := {| ep_Bootstrap := "a:9092"; ep_Weight := 80 |};
     cl_Secondary := {| ep_Bootstrap := "b:9092"; ep_Weight := 20 |};
     cl_HealthCheck :=
       {| hc_Enabled := true; hc_Interval := second; hc_FailureThreshold := 2;
          hc_RecoveryThreshold := 2; hc_RecoveryMinUptime := 10 * second;
          hc_MinTimeBetweenFailovers := 5 * second; hc_AutoFailover := true;
          hc_AutoFailback := false; hc_AutoRebalance := true; hc_RequireTargetHealthy := false;
          hc_CircuitBreakerMaxFailovers := 3; hc_CircuitBreakerWindow := 60 * second;
          hc_SaslUsername := ""; hc_SaslPassword := "" |} |}.

Definition at_a (t : Z) (ok : bool) : outcome :=
  {| oc_now := t * second; oc_addr := "a:9092"; oc_ok := ok |}.

Lemma lb_durations : durations_ok (NewRebalancer 0 lb_cluster).
Proof. split; split; done. Qed.

(** The second failure in a row takes the primary out. *)
Lemma failover_is_fast_witness :
  es_status (endpoint Primary (record_outcome
    (rb_run (NewRebalancer 0 lb_cluster) [at_a 1 true; at_a 2 false]) (at_a 3 false))) = StatusDown.
Proof.
  refine (proj2 (proj1 (failover_is_fast 0 lb_cluster [at_a 1 true; at_a 2 false] (at_a 3 false)
    Primary lb_durations eq_refl eq_refl)) _).
  split; [done|]. by exists [true].
Defined.

(** It comes back on the first success at least 10 s into its recovery. *)
Lemma failback_is_slow_witness :
  es_status (endpoint Primary (record_outcome
    (rb_run (NewRebalancer 0 lb_cluster) [at_a 2 false; at_a 3 false; at_a 4 true; at_a 9 true])
    (at_a 14 true))) = StatusUp.
Proof.
  refine (proj2 (proj1 (failback_is_slow 0 lb_cluster
    [at_a 2 false; at_a 3 false; at_a 4 true; at_a 9 true] (at_a 14 true)
    Primary lb_durations ltac:(done) eq_refl)) _).
  split; [done|]. split; [done|]. split; [by exists (at_a 4 true)|]. split.
  - intros _ last Hl. vm_compute in Hl. by injection Hl as <-.
  - by intros _ _.
Defined.

Lemma SelectTarget_healthy_witness :
  SelectTarget 0 (rb_run (NewRebalancer 0 lb_cluster) [at_a 2 false; at_a 3 false])
  = Ok "b:9092"%string ∧
  SelectTarget 79 (NewRebalancer 0 lb_cluster) = Ok "a:9092"%string.
Proof.
  split.
  - destruct (SelectTarget_healthy 0 lb_cluster [at_a 2 false; at_a 3 false] 0 lb_durations
      ltac:(by intros []) ltac:(done) ltac:(done)) as [(s & -> & _ & Hs) _].
    destruct s; [|reflexivity]. destruct Hs as [Hs|Hs]; [discriminate Hs|].
    discriminate (Hs Secondary eq_refl).
  - exact (proj2 (SelectTarget_healthy 0 lb_cluster [] 79 lb_durations
      ltac:(by intros []) ltac:(done) ltac:(done)) ltac:(by intros [])).
Defined.
