(* ===== verification/Drain.v ===== *)
(** * Connection draining ([internal/proxy/drain.go])

    The tracker of active connections per business unit, and the drains that
    force-close the connections still on the old cluster when their timer fires.

    A [net.Conn] is a handle.  The timer of a drain is the deadline stored in
    its [buDrain]; [time.AfterFunc]'s closure is [forceCloseOld] on the same
    cluster and side.  The callbacks of [OnDrainComplete] are an argument of
    [fireDrainComplete], since they act on more than this component. *)

From S2P Require Import Prelude Config.

Record trackedConn := { tc_id : Z; tc_conn : nat; tc_target : string }.

Record buConnTracker := {
  bt_count : Z;
  bt_conns : gmap Z trackedConn;
  bt_nextID : Z
}.

Record buDrain := {
  bd_OldActive : string;
  bd_NewActive : string;
  bd_StartedAt : time;
  bd_timer : time
}.

Record DrainManager := {
  dm_buConns : gmap string buConnTracker;
  dm_drains : gmap string buDrain;
  dm_DefaultDrainTimeout : duration
}.

Definition NewDrainManager (defaultTimeout : duration) : DrainManager :=
  {| dm_buConns := ∅; dm_drains := ∅; dm_DefaultDrainTimeout := defaultTimeout |}.

Definition with_tracker (name : string) (t : buConnTracker) (dm : DrainManager) : DrainManager :=
  {| dm_buConns := <[name := t]> (dm_buConns dm); dm_drains := dm_drains dm;
     dm_DefaultDrainTimeout := dm_DefaultDrainTimeout dm |}.

Definition with_drains (d : gmap string buDrain) (dm : DrainManager) : DrainManager :=
  {| dm_buConns := dm_buConns dm; dm_drains := d;
     dm_DefaultDrainTimeout := dm_DefaultDrainTimeout dm |}.

(** ** Tracking *)

Definition new_tracker : buConnTracker := {| bt_count := 0; bt_conns := ∅; bt_nextID := 0 |}.

Definition Register (clusterName : string) (conn : nat) (targetCluster : string)
    (dm : DrainManager) : Z * DrainManager :=
  let tracker := default new_tracker (dm_buConns dm !! clusterName) in
  let id := uint64 (bt_nextID tracker + 1) in
  let tc := {| tc_id := id; tc_conn := conn; tc_target := targetCluster |} in
  (id, with_tracker clusterName
         {| bt_count := bt_count tracker + 1; bt_conns := <[id := tc]> (bt_conns tracker);
            bt_nextID := id |} dm).

Definition Unregister (clusterName : string) (id : Z) (dm : DrainManager) : DrainManager :=
  match dm_buConns dm !! clusterName with
  | None => dm
  | Some tracker =>
      match bt_conns tracker !! id with
      | None => dm
      | Some _ =>
          with_tracker clusterName
            {| bt_count := bt_count tracker - 1; bt_conns := delete id (bt_conns tracker);
               bt_nextID := bt_nextID tracker |} dm
      end
  end.

Definition ActiveConnections (clusterName : string) (dm : DrainManager) : Z :=
  match dm_buConns dm !! clusterName with
  | None => 0
  | Some tracker => bt_count tracker
  end.

Definition TotalActiveConnections (dm : DrainManager) : Z :=
  map_fold (λ _ tracker total, total + bt_count tracker) 0 (dm_buConns dm).

(** [WaitIdle] polls every 100 ms: [polls] are the managers it sees, with the
    clock at each poll; the result is whether it returned on an idle proxy. *)
Fixpoint WaitIdle (deadline : time) (polls : list (time * DrainManager)) : bool :=
  match polls with
  | [] => false
  | (now, dm) :: polls =>
      if now <? deadline then
        if TotalActiveConnections dm =? 0 then true else WaitIdle deadline polls
      else false
  end.

(** ** Draining *)

Definition StartDrain (now : time) (clusterName oldActive newActive : string)
    (timeout : duration) (dm : DrainManager) : DrainManager :=
  let timeout := if timeout <=? 0 then dm_DefaultDrainTimeout dm else timeout in
  let drain := {| bd_OldActive := oldActive; bd_NewActive := newActive; bd_StartedAt := now;
                  bd_timer := now + timeout |} in
  (* the timer of a drain it replaces is stopped with the entry *)
  with_drains (<[clusterName := drain]> (dm_drains dm)) dm.

Definition IsDraining (clusterName : string) (dm : DrainManager) : bool :=
  bool_decide (is_Some (dm_drains dm !! clusterName)).

Definition DrainState (clusterName : string) (dm : DrainManager) : option buDrain :=
  dm_drains dm !! clusterName.

(** The connections closed, the drain that ended, and the manager. *)
Definition forceCloseOld (clusterName oldActive : string) (dm : DrainManager)
    : list nat * option buDrain * DrainManager :=
  match dm_buConns dm !! clusterName with
  | None =>
      let oldDrain := dm_drains dm !! clusterName in
      ([], oldDrain, with_drains (delete clusterName (dm_drains dm)) dm)
  | Some tracker =>
      let toClose := map snd (map_to_list
                       (filter (λ '(_, tc), tc_target tc = oldActive) (bt_conns tracker))) in
      let kept := foldr delete (bt_conns tracker) (map tc_id toClose) in
      let closed := map tc_conn toClose in
      let dm := with_tracker clusterName
                  {| bt_count := bt_count tracker - Z.of_nat (length closed);
                     bt_conns := kept; bt_nextID := bt_nextID tracker |} dm in
      let oldDrain := dm_drains dm !! clusterName in
      (closed, oldDrain, with_drains (delete clusterName (dm_drains dm)) dm)
  end.

Definition fireDrainComplete {S} (callbacks : list (string → string → string → S → S))
    (clusterName oldActive : string) (drain : option buDrain) (s : S) : S :=
  let newActive := match drain with Some d => bd_NewActive d | None => ""%string end in
  foldl (λ s fn, fn clusterName oldActive newActive s) s callbacks.

(** The drain callback of [ConfigChangeHandler]; [changes] is [DiffClusters]. *)
Definition ConfigChangeHandler (now : time) (changes : list ClusterChange)
    (oldCfg newCfg : Config) (dm : DrainManager) : DrainManager :=
  foldl (λ dm ch,
    if ch_ActiveChanged ch then
      let oldCluster := default zero_ClusterConfig (cfg_Clusters oldCfg !! ch_Name ch) in
      let newCluster := default zero_ClusterConfig (cfg_Clusters newCfg !! ch_Name ch) in
      if String.eqb (cl_Mode newCluster) ModeActivePassive
      then StartDrain now (ch_Name ch) (cl_Active oldCluster) (cl_Active newCluster) 0 dm
      else dm
    else dm) dm changes.

(** ** The tracker's invariant *)

Definition tracker_ok (t : buConnTracker) : Prop :=
  bt_count t = Z.of_nat (size (bt_conns t)) ∧
  0 ≤ bt_nextID t ∧
  (∀ id tc, bt_conns t !! id = Some tc → tc_id tc = id ∧ 0 < id ≤ bt_nextID t).

Definition dm_ok (dm : DrainManager) : Prop :=
  ∀ name t, dm_buConns dm !! name = Some t → tracker_ok t.

Lemma new_tracker_ok : tracker_ok new_tracker.
Proof. split_and!; [done|done|]. intros id tc. cbn. by rewrite lookup_empty. Qed.

Lemma with_tracker_ok name t dm : dm_ok dm → tracker_ok t → dm_ok (with_tracker name t dm).
Proof.
  intros Hdm Ht n t'. cbn. rewrite lookup_insert_Some. naive_solver.
Qed.

Lemma with_drains_ok d dm : dm_ok dm → dm_ok (with_drains d dm).
Proof. done. Qed.

Lemma default_tracker_ok name dm :
  dm_ok dm → tracker_ok (default new_tracker (dm_buConns dm !! name)).
Proof.
  intros Hdm. destruct (dm_buConns dm !! name) as [t|] eqn:E; cbn; [by eapply Hdm|].
  apply new_tracker_ok.
Qed.

Lemma Register_ok name c target dm :
  dm_ok dm → bt_nextID (default new_tracker (dm_buConns dm !! name)) + 1 < 2 ^ 64 →
  dm_ok (snd (Register name c target dm)).
Proof.
  intros Hdm Hid. pose proof (default_tracker_ok name dm Hdm) as Ht. unfold Register.
  cbn [snd]. destruct (default new_tracker _) as [count conns next]. cbn in *.
  destruct Ht as (Hc & Hn & Hids). cbn in *. apply with_tracker_ok; [done|].
  unfold uint64, wrapU. rewrite Z.mod_small by lia.
  assert (conns !! (next + 1) = None) as Hfresh.
  { destruct (conns !! (next + 1)) as [tc|] eqn:E; [|done]. apply Hids in E. lia. }
  split_and!; cbn; [|lia|].
  - rewrite map_size_insert_None by done. lia.
  - intros id tc. rewrite lookup_insert_Some. intros [[<- <-]|[_ Hl]]; [cbn; lia|].
    apply Hids in Hl. lia.
Qed.

Lemma Unregister_ok name id dm : dm_ok dm → dm_ok (Unregister name id dm).
Proof.
  intros Hdm. unfold Unregister. destruct (dm_buConns dm !! name) as [t|] eqn:E; [|done].
  destruct (bt_conns t !! id) as [tc|] eqn:Ec; [|done].
  destruct (Hdm _ _ E) as (Hc & Hn & Hids). apply with_tracker_ok; [done|].
  split_and!; cbn; [|done|].
  - rewrite map_size_delete_Some by eauto. assert (size (bt_conns t) ≠ 0%nat); [|lia].
    apply map_size_ne_0_lookup. eauto.
  - intros id' tc' [_ Hl]%lookup_delete_Some. by apply Hids.
Qed.

(** Where ids are keys, the loop over [toClose] keeps exactly the connections on
    the other side. *)
Lemma kept_filter (conns : gmap Z trackedConn) old :
  (∀ id tc, conns !! id = Some tc → tc_id tc = id) →
  foldr delete conns (map tc_id (map snd (map_to_list
    (filter (λ '(_, tc), tc_target tc = old) conns)))) =
  filter (λ '(_, tc), tc_target tc ≠ old) conns.
Proof.
  intros Hids. apply map_eq. intros id. apply option_eq. intros tc.
  rewrite lookup_foldr_delete_Some, map_lookup_filter_Some, map_map. split.
  - intros [Hnin Hl]. split; [done|]. intros Ht. apply Hnin, list_elem_of_fmap.
    exists (id, tc). split; [symmetry; by apply Hids|].
    by apply elem_of_map_to_list, map_lookup_filter_Some.
  - intros [Hl Hne]. split; [|done]. intros ([id' tc'] & Heq & Hin)%elem_of_map. cbn in Heq.
    apply elem_of_map_to_list, map_lookup_filter_Some in Hin as [Hl' Ht].
    pose proof (Hids _ _ Hl') as <-. rewrite <- Heq in Hl'. congruence.
Qed.

Lemma kept_eq t old :
  tracker_ok t →
  foldr delete (bt_conns t) (map tc_id (map snd (map_to_list
    (filter (λ '(_, tc), tc_target tc = old) (bt_conns t))))) =
  filter (λ '(_, tc), tc_target tc ≠ old) (bt_conns t).
Proof. intros (_ & _ & Hids). apply kept_filter. intros id tc Hl. by apply Hids. Qed.

Lemma size_partition {A} (P : Z * A → Prop) `{∀ x, Decision (P x)} (m : gmap Z A) :
  size m = (size (filter P m) + size (filter (λ x, ¬ P x) m))%nat.
Proof.
  rewrite <- (map_filter_union_complement P m) at 1.
  apply map_size_disj_union, map_disjoint_filter_complement.
Qed.

Lemma forceCloseOld_ok name old dm : dm_ok dm → dm_ok (snd (forceCloseOld name old dm)).
Proof.
  intros Hdm. unfold forceCloseOld. destruct (dm_buConns dm !! name) as [t|] eqn:E; [|done].
  pose proof (Hdm _ _ E) as Hok. destruct Hok as (Hc & Hn & Hids). cbn [snd].
  apply with_drains_ok, with_tracker_ok; [done|]. rewrite (kept_eq t old (Hdm _ _ E)).
  split_and!; cbn; [|done|].
  - rewrite !length_map, length_map_to_list, Hc.
    rewrite (size_partition (λ '(_, tc), tc_target tc = old) (bt_conns t)).
    assert (filter (λ '(_, tc), tc_target tc ≠ old) (bt_conns t) =
            filter (λ x, ¬ (let '(_, tc) := x in tc_target tc = old)) (bt_conns t)) as ->; [|lia].
    apply map_filter_ext. by intros id [].
  - intros id tc [Hl _]%map_lookup_filter_Some. by apply Hids.
Qed.

Lemma StartDrain_ok now name old new timeout dm :
  dm_ok dm → dm_ok (StartDrain now name old new timeout dm).
Proof. done. Qed.

(** ** Sequences of operations *)

Inductive op :=
  | OpRegister (name : string) (conn : nat) (target : string)
  | OpUnregister (name : string) (id : Z)
  | OpStartDrain (now : time) (name old new : string) (timeout : duration)
  | OpForceClose (name old : string).

Definition run_op (dm : DrainManager) (o : op) : DrainManager :=
  match o with
  | OpRegister name conn target => snd (Register name conn target dm)
  | OpUnregister name id => Unregister name id dm
  | OpStartDrain now name old new timeout => StartDrain now name old new timeout dm
  | OpForceClose name old => snd (forceCloseOld name old dm)
  end.

(** Ids handed out so far. *)
Definition ids_below (n : Z) (dm : DrainManager) : Prop :=
  ∀ name t, dm_buConns dm !! name = Some t → bt_nextID t ≤ n.

Lemma run_op_ids n dm o :
  0 ≤ n → n + 1 < 2 ^ 64 → dm_ok dm → ids_below n dm → ids_below (n + 1) (run_op dm o).
Proof.
  intros Hn Hn' Hok Hids. destruct o as [name c target|name id|now name old new timeout|name old];
    cbn [run_op].
  - unfold Register; cbn [snd]. intros m t. cbn. rewrite lookup_insert_Some.
    intros [[_ <-]|[_ Hl]]; [|apply Hids in Hl; lia]. cbn.
    destruct (dm_buConns dm !! name) as [t'|] eqn:E; cbn.
    + pose proof (Hids _ _ E). destruct (Hok _ _ E) as (_ & ? & _).
      unfold uint64, wrapU. rewrite Z.mod_small; lia.
    + change (uint64 (0 + 1)) with 1. lia.
  - unfold Unregister. destruct (dm_buConns dm !! name) as [t|] eqn:E;
      [|intros m t' Hl; apply Hids in Hl; lia].
    destruct (bt_conns t !! id); [|intros m t' Hl; apply Hids in Hl; lia].
    intros m t'. cbn. rewrite lookup_insert_Some.
    intros [[_ <-]|[_ Hl]]; [cbn; apply Hids in E; lia|apply Hids in Hl; lia].
  - intros m t Hl. apply Hids in Hl. lia.
  - unfold forceCloseOld. destruct (dm_buConns dm !! name) as [t|] eqn:E; cbn [snd];
      [|intros m t Hl; apply Hids in Hl; lia].
    intros m t'. cbn. rewrite lookup_insert_Some.
    intros [[_ <-]|[_ Hl]]; [cbn; apply Hids in E; lia|apply Hids in Hl; lia].
Qed.

Lemma run_op_ok n dm o :
  0 ≤ n → n + 1 < 2 ^ 64 → dm_ok dm → ids_below n dm → dm_ok (run_op dm o).
Proof.
  intros Hn Hn' Hok Hids. destruct o as [name c target|name id|now name old new timeout|name old];
    cbn [run_op].
  - apply Register_ok; [done|]. destruct (dm_buConns dm !! name) as [t|] eqn:E; cbn.
    + apply Hids in E. lia.
    + lia.
  - by apply Unregister_ok.
  - by apply StartDrain_ok.
  - by apply forceCloseOld_ok.
Qed.

Lemma run_ops_ok ops timeout :
  Z.of_nat (length ops) < 2 ^ 64 →
  dm_ok (foldl run_op (NewDrainManager timeout) ops) ∧
  ids_below (Z.of_nat (length ops)) (foldl run_op (NewDrainManager timeout) ops).
Proof.
  induction ops as [|o ops IH] using rev_ind; intros Hlen.
  - split; intros name t; cbn; by rewrite lookup_empty.
  - rewrite length_app in *. simpl in Hlen |- *. rewrite foldl_snoc.
    destruct IH as [Hok Hids]; [lia|]. split.
    + apply (run_op_ok (Z.of_nat (length ops))); [lia..|done|done].
    + replace (Z.of_nat (length ops + 1)) with (Z.of_nat (length ops) + 1) by lia.
      apply run_op_ids; [lia..|done|done].
Qed.

(** The live connections of a BU. *)
Definition live (name : string) (dm : DrainManager) : gmap Z trackedConn :=
  default ∅ (bt_conns <$> dm_buConns dm !! name).

Lemma ActiveConnections_live name dm :
  dm_ok dm → ActiveConnections name dm = Z.of_nat (size (live name dm)).
Proof.
  intros Hok. unfold ActiveConnections, live.
  destruct (dm_buConns dm !! name) as [t|] eqn:E; cbn.
  - by destruct (Hok _ _ E) as (-> & _).
  - by rewrite map_size_empty.
Qed.

Lemma forceCloseOld_spec name old dm :
  dm_ok dm →
  let '(closed, drain, dm') := forceCloseOld name old dm in
  (∀ c, c ∈ closed ↔ ∃ id tc, live name dm !! id = Some tc ∧ tc_target tc = old ∧ tc_conn tc = c) ∧
  live name dm' = filter (λ '(_, tc), tc_target tc ≠ old) (live name dm) ∧
  drain = dm_drains dm !! name ∧ dm_drains dm' = delete name (dm_drains dm) ∧
  (∀ name', name' ≠ name → dm_buConns dm' !! name' = dm_buConns dm !! name') ∧
  dm_DefaultDrainTimeout dm' = dm_DefaultDrainTimeout dm.
Proof.
  intros Hok. unfold forceCloseOld, live. destruct (dm_buConns dm !! name) as [t|] eqn:Ht.
  - cbn. split; [|split].
    + intros c. rewrite map_map. split.
      * intros ([id tc] & -> & Hin)%elem_of_map.
        apply elem_of_map_to_list, map_lookup_filter_Some in Hin as [? ?]. eauto.
      * intros (id & tc & Hl & Ho & <-). apply list_elem_of_fmap. exists (id, tc).
        split; [done|]. by apply elem_of_map_to_list, map_lookup_filter_Some.
    + rewrite lookup_insert, decide_True by done. cbn. by apply kept_eq, (Hok name).
    + split_and!; try done. intros name' Hne. by rewrite lookup_insert_ne.
  - cbn. rewrite Ht. cbn. split; [|split_and!; try done].
    + intros c. split; [by intros ?%not_elem_of_nil|]. intros (? & ? & Hl & _).
      by rewrite lookup_empty in Hl.
Qed.

(** A registration undone leaves the live connections as they were. *)
Lemma Unregister_Register name c target dm :
  dm_ok dm → bt_nextID (default new_tracker (dm_buConns dm !! name)) + 1 < 2 ^ 64 →
  let '(id, dm1) := Register name c target dm in
  let dm2 := Unregister name id dm1 in
  ActiveConnections name dm1 = ActiveConnections name dm + 1 ∧
  dm_drains dm2 = dm_drains dm ∧
  ∀ name', live name' dm2 = live name' dm ∧ ActiveConnections name' dm2 = ActiveConnections name' dm.
Proof.
  intros Hdm Hid. pose proof (default_tracker_ok name dm Hdm) as (_ & Hn & Hids).
  unfold Register, Unregister. cbn [with_tracker dm_buConns].
  rewrite lookup_insert, decide_True by done. cbn [bt_conns bt_count bt_nextID].
  rewrite lookup_insert, decide_True by done.
  assert (Hfresh : bt_conns (default new_tracker (dm_buConns dm !! name))
                     !! uint64 (bt_nextID (default new_tracker (dm_buConns dm !! name)) + 1) = None).
  { unfold uint64, wrapU. rewrite Z.mod_small by lia.
    destruct (bt_conns _ !! _) as [tc|] eqn:E; [|done]. apply Hids in E. lia. }
  split; [|split; [done|]].
  - unfold ActiveConnections. cbn. rewrite lookup_insert, decide_True by done. cbn.
    by destruct (dm_buConns dm !! name).
  - intros name'. unfold live, ActiveConnections. cbn.
    destruct (decide (name = name')) as [<-|Hne];
      [|by rewrite !lookup_insert_ne by done].
    rewrite lookup_insert, decide_True by done. cbn. rewrite delete_insert_id by done.
    destruct (dm_buConns dm !! name) as [t|]; cbn; [split; [done|lia]|done].
Qed.

(** Traffic (connections opened and closed) leaves the drains alone. *)
Definition traffic (o : op) : Prop :=
  match o with OpRegister _ _ _ | OpUnregister _ _ => True | _ => False end.

Lemma run_traffic n dm ops :
  0 ≤ n → n + Z.of_nat (length ops) < 2 ^ 64 → dm_ok dm → ids_below n dm → Forall traffic ops →
  dm_ok (foldl run_op dm ops) ∧ dm_drains (foldl run_op dm ops) = dm_drains dm.
Proof.
  revert n dm. induction ops as [|o ops IH]; intros n dm Hn Hlen Hok Hids Hops; [done|].
  cbn [foldl length] in *. apply list.Forall_cons in Hops as [Ho Hops].
  destruct (IH (n + 1) (run_op dm o)) as [Hok' ->]; [lia..| | |done|].
  - apply (run_op_ok n); [lia..|done|done].
  - apply run_op_ids; [lia..|done|done].
  - split; [done|]. destruct o as [name c target|name id| |]; try done; cbn [run_op].
    unfold Unregister. destruct (dm_buConns dm !! name); [|done].
    by destruct (bt_conns _ !! id).
Qed.

(** ** Properties *)

(** Connection accounting.  After any sequence of registrations,
    (possibly repeated) unregistrations, drains and force-closes, the active
    count of every BU is the number of its live connections, so it is never
    negative, and the ids of live connections are distinct and positive. *)
Theorem drain_accounting ops timeout name :
  Z.of_nat (length ops) < 2 ^ 64 →
  let dm := foldl run_op (NewDrainManager timeout) ops in
  ActiveConnections name dm = Z.of_nat (size (live name dm)) ∧
  (∀ id tc, live name dm !! id = Some tc → tc_id tc = id ∧ 0 < id) ∧
  (∀ id, Unregister name id (Unregister name id dm) = Unregister name id dm) ∧
  (∀ id, live name dm !! id ≠ None →
     ActiveConnections name (Unregister name id dm) = ActiveConnections name dm - 1).
Proof.
  intros Hlen dm. destruct (run_ops_ok ops timeout Hlen) as [Hok _]. fold dm in Hok.
  split; [by apply ActiveConnections_live|]. split; [|split].
  - intros id tc. unfold live. destruct (dm_buConns dm !! name) as [t|] eqn:E; cbn;
      [|by rewrite lookup_empty].
    intros Hl. destruct (Hok _ _ E) as (_ & _ & Hids). apply Hids in Hl. lia.
  - intros id. unfold Unregister at 2 3. destruct (dm_buConns dm !! name) as [t|] eqn:E;
      [|unfold Unregister; by rewrite E].
    destruct (bt_conns t !! id) eqn:Ei; [|unfold Unregister; by rewrite E, Ei].
    unfold Unregister. cbn. rewrite lookup_insert, decide_True by done. cbn.
    by rewrite lookup_delete, decide_True.
  - intros id. unfold live, ActiveConnections, Unregister.
    destruct (dm_buConns dm !! name) as [t|] eqn:E; cbn; [|by rewrite lookup_empty].
    destruct (bt_conns t !! id) eqn:Ei; [|done]. intros _. cbn.
    by rewrite lookup_insert, decide_True.
Qed.

(** A drain timeout closes exactly the connections still on the old side.
    The connections of the BU on any other side stay open and counted, its drain
    is over, and no other BU is touched. *)
Theorem forceCloseOld_exact name old dm :
  dm_ok dm →
  let '(closed, drain, dm') := forceCloseOld name old dm in
  (∀ c, c ∈ closed ↔ ∃ id tc, live name dm !! id = Some tc ∧ tc_target tc = old ∧ tc_conn tc = c) ∧
  live name dm' = filter (λ '(_, tc), tc_target tc ≠ old) (live name dm) ∧
  ActiveConnections name dm' = ActiveConnections name dm - Z.of_nat (length closed) ∧
  drain = dm_drains dm !! name ∧ dm_drains dm' = delete name (dm_drains dm) ∧
  (∀ name', name' ≠ name → dm_buConns dm' !! name' = dm_buConns dm !! name').
Proof.
  intros Hok. pose proof (forceCloseOld_spec name old dm Hok) as H.
  destruct (forceCloseOld name old dm) as [[closed drain] dm'] eqn:E.
  destruct H as (? & ? & ? & ? & ? & _). do 2 (split; [done|]). split; [|done].
  unfold forceCloseOld in E. unfold ActiveConnections.
  destruct (dm_buConns dm !! name) as [t|] eqn:Ht; simplify_eq; cbn; [|by rewrite Ht].
  by rewrite lookup_insert, decide_True by done.
Qed.

Lemma drain_accounting_witness :
  let dm := foldl run_op (NewDrainManager 30)
              [OpRegister "bu1" 7%nat "primary"; OpRegister "bu1" 8%nat "secondary";
               OpUnregister "bu1" 1; OpUnregister "bu1" 1] in
  ActiveConnections "bu1" dm = 1 ∧ ActiveConnections "bu1" dm = Z.of_nat (size (live "bu1" dm)).
Proof.
  intros dm. split; [reflexivity|].
  refine (proj1 (drain_accounting
    [OpRegister "bu1" 7%nat "primary"; OpRegister "bu1" 8%nat "secondary";
     OpUnregister "bu1" 1; OpUnregister "bu1" 1] 30 "bu1" _)).
  reflexivity.
Defined.

Lemma forceCloseOld_exact_witness :
  let dm := foldl run_op (NewDrainManager 30)
              [OpRegister "bu1" 7%nat "primary"; OpRegister "bu1" 8%nat "secondary"] in
  7%nat ∈ fst (fst (forceCloseOld "bu1" "primary" dm)).
Proof.
  set (ops := [OpRegister "bu1" 7%nat "primary"; OpRegister "bu1" 8%nat "secondary"]).
  intros dm. destruct (run_ops_ok ops 30 eq_refl) as [Hok _].
  pose proof (forceCloseOld_exact "bu1" "primary" dm Hok) as H.
  destruct (forceCloseOld "bu1" "primary" dm) as [[closed drain] dm'].
  apply (proj1 H 7%nat). exists 1, {| tc_id := 1; tc_conn := 7; tc_target := "primary" |}.
  split; [reflexivity|]. split; reflexivity.
Defined.
