(* ===== verification/Controller.v ===== *)
(** * Autonomous failover ([internal/failover/controller.go])

    One [Controller] per business unit: health tracking with thresholds, the
    failover decision, the cooldown, the sliding window and its circuit breaker,
    and the BOTH_DOWN memory.  The shared state machine is threaded through
    [Evaluate]; every call reads the clock once, as [now]. *)

From Stdlib Require Import Sorting.Sorted.
From S2P Require Import Prelude Config Health StateMachine.

Record clusterHealth := {
  ch_healthy : bool;
  ch_consecutiveFailures : Z;
  ch_consecutiveSuccesses : Z;
  ch_lastCheckAt : time;
  ch_lastCheckLatency : duration;
  ch_upSince : time
}.

Definition zero_clusterHealth : clusterHealth :=
  {| ch_healthy := false; ch_consecutiveFailures := 0; ch_consecutiveSuccesses := 0;
     ch_lastCheckAt := zero_time; ch_lastCheckLatency := 0; ch_upSince := zero_time |}.

(** The anti-flap state: the cooldown, the window and the circuit breaker. *)
Record breaker := {
  br_lastFailoverAt : time;
  br_failoverTimestamps : list time;
  br_circuitBroken : bool;
  br_circuitBrokenAt : time;
  br_failoverCount : Z;
  br_circuitBreakCount : Z
}.

Record Controller := {
  c_buName : string;
  c_hcCfg : HealthCheckConfig;
  c_mode : string;
  c_active : string;
  c_primaryHealth : clusterHealth;
  c_secondaryHealth : clusterHealth;
  c_breaker : breaker;
  c_lastActiveBeforeAmbos : string;
  c_ambosDownCount : Z
}.

Definition NewController (buName active mode : string) (hcCfg : HealthCheckConfig) : Controller :=
  {| c_buName := buName; c_hcCfg := hcCfg; c_mode := mode; c_active := active;
     c_primaryHealth := zero_clusterHealth; c_secondaryHealth := zero_clusterHealth;
     c_breaker := {| br_lastFailoverAt := zero_time; br_failoverTimestamps := [];
                     br_circuitBroken := false; br_circuitBrokenAt := zero_time;
                     br_failoverCount := 0; br_circuitBreakCount := 0 |};
     c_lastActiveBeforeAmbos := ""; c_ambosDownCount := 0 |}.

Definition with_breaker (b : breaker) (c : Controller) : Controller :=
  {| c_buName := c_buName c; c_hcCfg := c_hcCfg c; c_mode := c_mode c; c_active := c_active c;
     c_primaryHealth := c_primaryHealth c; c_secondaryHealth := c_secondaryHealth c;
     c_breaker := b; c_lastActiveBeforeAmbos := c_lastActiveBeforeAmbos c;
     c_ambosDownCount := c_ambosDownCount c |}.

Definition with_health (p s : clusterHealth) (c : Controller) : Controller :=
  {| c_buName := c_buName c; c_hcCfg := c_hcCfg c; c_mode := c_mode c; c_active := c_active c;
     c_primaryHealth := p; c_secondaryHealth := s; c_breaker := c_breaker c;
     c_lastActiveBeforeAmbos := c_lastActiveBeforeAmbos c;
     c_ambosDownCount := c_ambosDownCount c |}.

Definition with_ambos (last : string) (count : Z) (c : Controller) : Controller :=
  {| c_buName := c_buName c; c_hcCfg := c_hcCfg c; c_mode := c_mode c; c_active := c_active c;
     c_primaryHealth := c_primaryHealth c; c_secondaryHealth := c_secondaryHealth c;
     c_breaker := c_breaker c; c_lastActiveBeforeAmbos := last; c_ambosDownCount := count |}.

(** ** Health tracking *)

Definition healthFor (cluster : string) (c : Controller) : option clusterHealth :=
  if String.eqb cluster "primary" then Some (c_primaryHealth c)
  else if String.eqb cluster "secondary" then Some (c_secondaryHealth c)
  else None.

Definition setHealthFor (cluster : string) (ch : clusterHealth) (c : Controller) : Controller :=
  if String.eqb cluster "primary" then with_health ch (c_secondaryHealth c) c
  else if String.eqb cluster "secondary" then with_health (c_primaryHealth c) ch c
  else c.

Definition failure_threshold (hc : HealthCheckConfig) : Z :=
  if hc_FailureThreshold hc <=? 0 then DefaultFailureThreshold else hc_FailureThreshold hc.
Definition recovery_threshold (hc : HealthCheckConfig) : Z :=
  if hc_RecoveryThreshold hc <=? 0 then DefaultRecoveryThreshold else hc_RecoveryThreshold hc.

(** The update of one [clusterHealth]. *)
Definition record_health (now : time) (ft rt : Z) (healthy : bool) (latency : duration)
    (ch : clusterHealth) : clusterHealth :=
  if healthy then
    let successes := ch_consecutiveSuccesses ch + 1 in
    let up := (rt <=? successes) && negb (ch_healthy ch) in
    {| ch_healthy := if up then true else ch_healthy ch;
       ch_consecutiveFailures := 0; ch_consecutiveSuccesses := successes;
       ch_lastCheckAt := now; ch_lastCheckLatency := latency;
       ch_upSince := if up then now else ch_upSince ch |}
  else
    let failures := ch_consecutiveFailures ch + 1 in
    let down := (ft <=? failures) && ch_healthy ch in
    {| ch_healthy := if down then false else ch_healthy ch;
       ch_consecutiveFailures := failures; ch_consecutiveSuccesses := 0;
       ch_lastCheckAt := now; ch_lastCheckLatency := latency;
       ch_upSince := if down then zero_time else ch_upSince ch |}.

(** [healthFor] returns [nil] for an unknown cluster, which is dereferenced. *)
Definition RecordHealthResult (now : time) (cluster : string) (healthy : bool)
    (latency : duration) (c : Controller) : res Controller :=
  match healthFor cluster c with
  | None => Panic
  | Some ch =>
      let ft := failure_threshold (c_hcCfg c) in
      let rt := recovery_threshold (c_hcCfg c) in
      Ok (setHealthFor cluster (record_health now ft rt healthy latency ch) c)
  end.

(** ** Cooldown, window, breaker *)

(** The timestamps from the first one after [now - window] on. *)
Fixpoint prune (cutoff : time) (timestamps : list time) : list time :=
  match timestamps with
  | [] => []
  | ts :: rest => if cutoff <? ts then timestamps else prune cutoff rest
  end.

Definition with_timestamps (l : list time) (b : breaker) : breaker :=
  {| br_lastFailoverAt := br_lastFailoverAt b; br_failoverTimestamps := l;
     br_circuitBroken := br_circuitBroken b; br_circuitBrokenAt := br_circuitBrokenAt b;
     br_failoverCount := br_failoverCount b; br_circuitBreakCount := br_circuitBreakCount b |}.

Definition pruneFailoverTimestampsLocked (now : time) (window : duration) (b : breaker) : breaker :=
  with_timestamps (prune (now - window) (br_failoverTimestamps b)) b.

Definition canFailoverLocked (now : time) (hc : HealthCheckConfig) (b : breaker) : bool * breaker :=
  let cooldown := hc_MinTimeBetweenFailovers hc in
  if (0 <? cooldown) && (time_since now (br_lastFailoverAt b) <? cooldown) then (false, b)
  else
    let windowDur := hc_CircuitBreakerWindow hc in
    let maxFO := hc_CircuitBreakerMaxFailovers hc in
    if (0 <? maxFO) && (0 <? windowDur) then
      let b := pruneFailoverTimestampsLocked now windowDur b in
      if maxFO <=? Z.of_nat (length (br_failoverTimestamps b)) then (false, b) else (true, b)
    else (true, b).

(** The bookkeeping of [triggerFailoverLocked] before its transition... *)
Definition note_failover (now : time) (b : breaker) : breaker :=
  {| br_lastFailoverAt := now; br_failoverTimestamps := br_failoverTimestamps b ++ [now];
     br_circuitBroken := br_circuitBroken b; br_circuitBrokenAt := br_circuitBrokenAt b;
     br_failoverCount := br_failoverCount b + 1;
     br_circuitBreakCount := br_circuitBreakCount b |}.

(** ... and after it: the sliding-window check that trips the breaker. *)
Definition trip_breaker (now : time) (hc : HealthCheckConfig) (b : breaker) : breaker :=
  let maxFO := hc_CircuitBreakerMaxFailovers hc in
  let windowDur := hc_CircuitBreakerWindow hc in
  if (0 <? maxFO) && (0 <? windowDur) then
    let b := pruneFailoverTimestampsLocked now windowDur b in
    if maxFO <=? Z.of_nat (length (br_failoverTimestamps b)) then
      {| br_lastFailoverAt := br_lastFailoverAt b;
         br_failoverTimestamps := br_failoverTimestamps b;
         br_circuitBroken := true; br_circuitBrokenAt := now;
         br_failoverCount := br_failoverCount b;
         br_circuitBreakCount := br_circuitBreakCount b + 1 |}
    else b
  else b.

Definition IsCircuitBroken (c : Controller) : bool := br_circuitBroken (c_breaker c).
Definition CircuitBreakCount (c : Controller) : Z := br_circuitBreakCount (c_breaker c).
Definition FailoverCount (c : Controller) : Z := br_failoverCount (c_breaker c).
Definition BothDownCount (c : Controller) : Z := c_ambosDownCount c.
Definition PrimaryHealthy (c : Controller) : bool := ch_healthy (c_primaryHealth c).
Definition SecondaryHealthy (c : Controller) : bool := ch_healthy (c_secondaryHealth c).

Definition FailoverWindowCount (now : time) (c : Controller) : Z * Controller :=
  let windowDur := hc_CircuitBreakerWindow (c_hcCfg c) in
  let c := if 0 <? windowDur
           then with_breaker (pruneFailoverTimestampsLocked now windowDur (c_breaker c)) c
           else c in
  (Z.of_nat (length (br_failoverTimestamps (c_breaker c))), c).

Definition ResetCircuitBreaker (c : Controller) : Controller :=
  let b := c_breaker c in
  with_breaker {| br_lastFailoverAt := br_lastFailoverAt b; br_failoverTimestamps := [];
                  br_circuitBroken := false; br_circuitBrokenAt := zero_time;
                  br_failoverCount := br_failoverCount b;
                  br_circuitBreakCount := br_circuitBreakCount b |} c.

Definition BothDownActiveCluster (c : Controller) : string :=
  if String.eqb (c_lastActiveBeforeAmbos c) "" then c_active c else c_lastActiveBeforeAmbos c.

(** ** The decision *)

Section evaluate.
Context {W : Type}.

Definition enterBothDownLocked (from : string) (c : Controller) (sm : StateMachine W) (w : W)
    : Controller * StateMachine W * W :=
  let '(_, sm, w) := SM_Transition (c_buName c) StateBothDown ReasonHealthEvent sm w in
  let activeBefore :=
    if String.eqb from StateDraining then
      if String.eqb (c_active c) ActivePrimary then StateSecondary else StatePrimary
    else if negb (String.eqb from "") then from
    else StatePrimary in
  (with_ambos activeBefore (c_ambosDownCount c + 1) c, sm, w).

Definition triggerFailoverLocked (now : time) (from to : string) (c : Controller)
    (sm : StateMachine W) (w : W) : string * Controller * StateMachine W * W :=
  if br_circuitBroken (c_breaker c) then (ActionNone, c, sm, w)
  else
    let b := note_failover now (c_breaker c) in
    let '(_, sm, w) := SM_Transition (c_buName c) StateDraining ReasonHealthEvent sm w in
    let b := trip_breaker now (c_hcCfg c) b in
    let action := if String.eqb from StateSecondary then ActionFailoverToPrimary
                  else ActionFailoverToSecondary in
    (action, with_breaker b c, sm, w).

Definition evaluateLocked (now : time) (c : Controller) (sm : StateMachine W) (w : W)
    : string * Controller * StateMachine W * W :=
  if br_circuitBroken (c_breaker c) then (ActionNone, c, sm, w)
  else
    let primHealthy := ch_healthy (c_primaryHealth c) in
    let secHealthy := ch_healthy (c_secondaryHealth c) in
    if negb primHealthy && negb secHealthy then
      let current := State sm (c_buName c) in
      if negb (String.eqb current StateBothDown) then
        let '(c, sm, w) := enterBothDownLocked current c sm w in (ActionNone, c, sm, w)
      else (ActionNone, c, sm, w)
    else
      let current := State sm (c_buName c) in
      if String.eqb current StateBothDown then
        if primHealthy then
          let '(_, sm, w) := SM_Transition (c_buName c) StatePrimary ReasonRecovery sm w in
          (ActionNone, c, sm, w)
        else if secHealthy then
          let '(_, sm, w) := SM_Transition (c_buName c) StateSecondary ReasonRecovery sm w in
          (ActionNone, c, sm, w)
        else (ActionNone, c, sm, w)
      else if String.eqb (c_mode c) ModeActivePassive then
        if String.eqb current StatePrimary && negb primHealthy && secHealthy then
          let '(can, b) := canFailoverLocked now (c_hcCfg c) (c_breaker c) in
          let c := with_breaker b c in
          if can then
            if hc_RequireTargetHealthy (c_hcCfg c) && negb secHealthy
            then (ActionNone, c, sm, w)
            else triggerFailoverLocked now StatePrimary StateSecondary c sm w
          else (ActionNone, c, sm, w)
        else if String.eqb current StateSecondary && primHealthy
                && hc_AutoFailback (c_hcCfg c) then
          let '(can, b) := canFailoverLocked now (c_hcCfg c) (c_breaker c) in
          let c := with_breaker b c in
          if can then triggerFailoverLocked now StateSecondary StatePrimary c sm w
          else (ActionNone, c, sm, w)
        else if String.eqb current StateDraining && primHealthy && negb secHealthy then
          let '(_, sm, w) := SM_Transition (c_buName c) StatePrimary ReasonRecovery sm w in
          (ActionNone, c, sm, w)
        else if String.eqb current StateDraining && negb primHealthy && secHealthy then
          let '(_, sm, w) := SM_Transition (c_buName c) StateSecondary ReasonRecovery sm w in
          (ActionNone, c, sm, w)
        else (ActionNone, c, sm, w)
      else (ActionNone, c, sm, w).

Definition Evaluate := evaluateLocked.
End evaluate.

(** ** Health tracking is hysteresis, starting DOWN *)

Definition ch_hyst (ch : clusterHealth) : hyst :=
  (ch_healthy ch, ch_consecutiveFailures ch, ch_consecutiveSuccesses ch).

Lemma record_health_hyst now ft rt ok latency ch :
  ch_hyst (record_health now ft rt ok latency ch) = hyst_step ft rt (ch_hyst ch) ok.
Proof.
  unfold record_health, ch_hyst. destruct ok, (ch_healthy ch) eqn:E; cbn; rewrite ?E;
    rewrite ?andb_true_r, ?andb_false_r; cbn; try case_if; done.
Qed.

Lemma record_health_run ft rt ch results :
  ch_hyst (foldl (λ ch '(now, ok, latency), record_health now ft rt ok latency ch) ch results)
  = foldl (hyst_step ft rt) (ch_hyst ch) (map (λ '(_, ok, _), ok) results).
Proof.
  revert ch. induction results as [|[[now ok] latency] results IH]; intros ch; [done|].
  cbn [foldl map]. by rewrite IH, record_health_hyst.
Qed.

Lemma failure_threshold_pos hc : 0 < failure_threshold hc.
Proof. unfold failure_threshold, DefaultFailureThreshold. case_if; bool_to_prop; lia. Qed.

Lemma recovery_threshold_pos hc : 0 < recovery_threshold hc.
Proof. unfold recovery_threshold, DefaultRecoveryThreshold. case_if; bool_to_prop; lia. Qed.

(** ** The window *)

Lemma prune_filter cutoff l :
  StronglySorted Z.le l → prune cutoff l = filter (λ u, cutoff < u) l.
Proof.
  induction l as [|t l IH]; [done|]. intros [Hs Hle]%StronglySorted_inv. cbn [prune].
  rewrite filter_cons. destruct (Z.ltb_spec cutoff t); [|by rewrite decide_False by lia; auto].
  rewrite decide_True by done. f_equal. symmetry. apply filter_Forall.
  eapply list.Forall_impl; [exact Hle|]. cbn. intros u Hu. lia.
Qed.

(** What [canFailoverLocked] decides, declaratively. *)
Definition cooled (hc : HealthCheckConfig) (now last : time) : Prop :=
  0 < hc_MinTimeBetweenFailovers hc → hc_MinTimeBetweenFailovers hc ≤ now - last.

Definition windowed (hc : HealthCheckConfig) : Prop :=
  0 < hc_CircuitBreakerMaxFailovers hc ∧ 0 < hc_CircuitBreakerWindow hc.

#[export] Instance windowed_dec hc : Decision (windowed hc).
Proof. unfold windowed. apply _. Defined.

Definition recent (hc : HealthCheckConfig) (now : time) (l : list time) : list time :=
  filter (λ u, now - hc_CircuitBreakerWindow hc < u) l.

Definition room (hc : HealthCheckConfig) (now : time) (l : list time) : Prop :=
  windowed hc → Z.of_nat (length (recent hc now l)) < hc_CircuitBreakerMaxFailovers hc.

(** Durations are 64-bit in Go. *)
Definition hc_int64 (hc : HealthCheckConfig) : Prop :=
  hc_MinTimeBetweenFailovers hc ≤ maxDuration.

Lemma canFailoverLocked_spec now hc b :
  hc_int64 hc → StronglySorted Z.le (br_failoverTimestamps b) →
  let '(can, b') := canFailoverLocked now hc b in
  (can = true ↔ cooled hc now (br_lastFailoverAt b) ∧ room hc now (br_failoverTimestamps b)) ∧
  (b' = b ∧ (can = true → ¬ windowed hc) ∨
   windowed hc ∧ b' = with_timestamps (recent hc now (br_failoverTimestamps b)) b).
Proof.
  intros Hd Hs. unfold canFailoverLocked.
  pose proof (time_since_lt_iff now (br_lastFailoverAt b) (hc_MinTimeBetweenFailovers hc)) as Ht.
  destruct (_ && (time_since _ _ <? _)) eqn:Ec; bool_to_prop.
  { split; [|by left]. split; [done|]. intros [Hcd _]. unfold cooled, hc_int64, minDuration in *. lia. }
  assert (cooled hc now (br_lastFailoverAt b)) as Hcd.
  { unfold cooled, hc_int64, minDuration in *. apply andb_false_iff in Ec as [Ec|Ec];
      bool_to_prop; lia. }
  destruct ((0 <? hc_CircuitBreakerMaxFailovers hc) && (0 <? hc_CircuitBreakerWindow hc)) eqn:Ew.
  - bool_to_prop. assert (windowed hc) as Hw by done.
    unfold pruneFailoverTimestampsLocked. cbn [with_timestamps br_failoverTimestamps].
    rewrite prune_filter by done. fold (recent hc now (br_failoverTimestamps b)).
    unfold room. case_if; bool_to_prop; (split; [|by right]).
    + split; [done|]. intros [_ Hr]. specialize (Hr Hw). lia.
    + split; [|done]. intros _. split; [done|]. lia.
  - assert (¬ windowed hc) by (intros [? ?]; apply andb_false_iff in Ew as [?|?]; bool_to_prop; lia).
    split; [|by left]. unfold room. split; [by split|done].
Qed.

(** ** The decision table *)

Inductive decision := Hold | ToBothDown | Recover (to : string) | Failover (from : string).

(** What to do, from the state of the BU and the health of its clusters. *)
Definition decide_failover (mode : string) (autoFailback : bool) (s : string) (p q : bool)
    : decision :=
  if negb p && negb q then if String.eqb s StateBothDown then Hold else ToBothDown
  else if String.eqb s StateBothDown then Recover (if p then StatePrimary else StateSecondary)
  else if String.eqb mode ModeActivePassive then
    if String.eqb s StatePrimary && negb p then Failover StatePrimary
    else if String.eqb s StateSecondary && p && autoFailback then Failover StateSecondary
    else if String.eqb s StateDraining && xorb p q
    then Recover (if p then StatePrimary else StateSecondary)
    else Hold
  else Hold.

Section evaluate_spec.
Context {W : Type}.

Definition c_decision (c : Controller) (sm : StateMachine W) : decision :=
  decide_failover (c_mode c) (hc_AutoFailback (c_hcCfg c)) (State sm (c_buName c))
    (PrimaryHealthy c) (SecondaryHealthy c).

(** [evaluateLocked] is the table, guarded by the breaker, with the failovers
    subject to [canFailoverLocked]. *)
Lemma evaluate_decide now c (sm : StateMachine W) w :
  Evaluate now c sm w =
  if br_circuitBroken (c_breaker c) then (ActionNone, c, sm, w)
  else match c_decision c sm with
  | Hold => (ActionNone, c, sm, w)
  | ToBothDown =>
      let '(c, sm, w) := enterBothDownLocked (State sm (c_buName c)) c sm w in
      (ActionNone, c, sm, w)
  | Recover to =>
      let '(_, sm, w) := SM_Transition (c_buName c) to ReasonRecovery sm w in
      (ActionNone, c, sm, w)
  | Failover from =>
      let '(can, b) := canFailoverLocked now (c_hcCfg c) (c_breaker c) in
      if can then
        triggerFailoverLocked now from
          (if String.eqb from StateSecondary then StatePrimary else StateSecondary)
          (with_breaker b c) sm w
      else (ActionNone, with_breaker b c, sm, w)
  end.
Proof.
  unfold Evaluate, evaluateLocked, c_decision, decide_failover, PrimaryHealthy, SecondaryHealthy.
  destruct (br_circuitBroken _); [done|].
  destruct (ch_healthy (c_primaryHealth c)), (ch_healthy (c_secondaryHealth c));
    cbn [negb andb xorb];
    destruct (String.eqb (State sm (c_buName c)) StateBothDown); cbn [negb]; try done;
    destruct (String.eqb (c_mode c) ModeActivePassive); try done;
    destruct (String.eqb (State sm (c_buName c)) StatePrimary),
      (String.eqb (State sm (c_buName c)) StateSecondary),
      (String.eqb (State sm (c_buName c)) StateDraining), (hc_AutoFailback (c_hcCfg c));
    cbn [andb]; try done;
    destruct (canFailoverLocked _ _ _) as [[] ?]; rewrite ?andb_false_r; done.
Qed.
End evaluate_spec.

(** ** The breaker over a run *)

Lemma trip_breaker_timestamps now hc b :
  StronglySorted Z.le (br_failoverTimestamps b) →
  br_lastFailoverAt (trip_breaker now hc b) = br_lastFailoverAt b ∧
  (windowed hc →
     br_failoverTimestamps (trip_breaker now hc b) = recent hc now (br_failoverTimestamps b) ∧
     (br_circuitBroken (trip_breaker now hc b) = false →
        br_circuitBroken b = false ∧
        Z.of_nat (length (recent hc now (br_failoverTimestamps b)))
          < hc_CircuitBreakerMaxFailovers hc)) ∧
  (¬ windowed hc → trip_breaker now hc b = b).
Proof.
  intros Hs. unfold trip_breaker, windowed, pruneFailoverTimestampsLocked.
  destruct (Z.ltb_spec 0 (hc_CircuitBreakerMaxFailovers hc)),
    (Z.ltb_spec 0 (hc_CircuitBreakerWindow hc)); cbn [andb];
    try (split_and!; [done|lia|done]).
  cbn [with_timestamps br_failoverTimestamps]. rewrite prune_filter by done.
  unfold recent. case_if; bool_to_prop;
    cbn [with_timestamps br_failoverTimestamps br_lastFailoverAt br_circuitBroken];
    (split_and!; [done|done|lia]).
Qed.

(** One call of [Evaluate] as the breaker sees it: the clock, the outcome and
    the breaker before and after. *)
Section calls.
Context {W : Type} (hc : HealthCheckConfig).

Definition call (now : time) (b : breaker) (action : string) (b' : breaker) : Prop :=
  ∃ (c c' : Controller) (sm sm' : StateMachine W) (w w' : W),
    c_hcCfg c = hc ∧ c_breaker c = b ∧ c_breaker c' = b' ∧
    Evaluate now c sm w = (action, c', sm', w').

(** A run: the calls in time order, with any health results, state machine
    activity and drains in between; [fos] are the times of its failovers. *)
Inductive run : time → breaker → list time → Prop :=
  | run_init now c :
      c_hcCfg c = hc → br_failoverTimestamps (c_breaker c) = [] →
      br_circuitBroken (c_breaker c) = false → br_lastFailoverAt (c_breaker c) = zero_time →
      run now (c_breaker c) []
  | run_call now b fos now' action b' :
      run now b fos → now ≤ now' → call now' b action b' →
      run now' b' (if String.eqb action ActionNone then fos else fos ++ [now']).

Hypothesis Hint : hc_int64 hc.

Lemma call_breaker now b action b' :
  StronglySorted Z.le (br_failoverTimestamps b) → call now b action b' →
  (action = ActionNone ∧
   (b' = b ∨ windowed hc ∧ b' = with_timestamps (recent hc now (br_failoverTimestamps b)) b)) ∨
  (action ≠ ActionNone ∧ br_circuitBroken b = false ∧ cooled hc now (br_lastFailoverAt b) ∧
   room hc now (br_failoverTimestamps b) ∧
   ∃ l, (l = br_failoverTimestamps b ∧ ¬ windowed hc ∨
         windowed hc ∧ l = recent hc now (br_failoverTimestamps b)) ∧
        b' = trip_breaker now hc (note_failover now (with_timestamps l b))).
Proof.
  intros Hs (c & c' & sm & sm' & w & w' & <- & <- & <- & H). rewrite evaluate_decide in H.
  destruct (br_circuitBroken (c_breaker c)) eqn:Hbr; [simplify_eq; left; eauto|].
  destruct (c_decision c sm); [simplify_eq; left; eauto| | |].
  - unfold enterBothDownLocked in H. destruct (SM_Transition _ _ _ _ _) as [[? ?] ?].
    simplify_eq. left. eauto.
  - destruct (SM_Transition _ _ _ _ _) as [[? ?] ?]. simplify_eq. left. eauto.
  - pose proof (canFailoverLocked_spec now _ _ Hint Hs) as Hcan.
    destruct (canFailoverLocked _ _ _) as [can b1]. destruct Hcan as [Hc Hb].
    destruct can; [|simplify_eq; left; split; [done|]; naive_solver].
    right. destruct (proj1 Hc eq_refl) as [Hcool Hroom].
    unfold triggerFailoverLocked in H. cbn [with_breaker c_breaker c_hcCfg] in H.
    assert (br_circuitBroken b1 = false) as Hb1 by (destruct Hb as [[-> _]|[_ ->]]; done).
    rewrite Hb1 in H. destruct (SM_Transition _ _ _ _ _) as [[? ?] ?]. simplify_eq.
    split_and!; [by case_if|done|done|done|].
    destruct Hb as [[-> Hnw]|[Hw ->]].
    + exists (br_failoverTimestamps (c_breaker c)). split; [left; auto|].
      by destruct (c_breaker c).
    + exists (recent (c_hcCfg c) now (br_failoverTimestamps (c_breaker c))). auto.
Qed.

(** [fos] read up to the failover at [t]: those within the window before it. *)
Definition window_count (fos : list time) (t : time) : Z :=
  Z.of_nat (length (recent hc t fos)).

(** What a run guarantees about its failovers. *)
Definition fos_ok (fos : list time) : Prop :=
  ∀ pre t post, fos = pre ++ t :: post →
    (∀ t0, list.last pre = Some t0 → cooled hc t t0) ∧
    (windowed hc → window_count (pre ++ [t]) t ≤ hc_CircuitBreakerMaxFailovers hc ∧
      (window_count (pre ++ [t]) t = hc_CircuitBreakerMaxFailovers hc → post = [])).

Definition run_inv (now : time) (b : breaker) (fos : list time) : Prop :=
  StronglySorted Z.le fos ∧ Forall (λ t, t ≤ now) fos ∧ fos_ok fos ∧
  (∀ t0, list.last fos = Some t0 → br_lastFailoverAt b = t0) ∧
  (windowed hc → ∃ k, k ≤ now - hc_CircuitBreakerWindow hc ∧
     br_failoverTimestamps b = filter (λ u, k < u) fos) ∧
  (¬ windowed hc → br_failoverTimestamps b = fos) ∧
  (br_circuitBroken b = false → windowed hc → ∀ pre t, fos = pre ++ [t] →
     window_count fos t < hc_CircuitBreakerMaxFailovers hc).

Lemma recent_filter now k fos :
  k ≤ now - hc_CircuitBreakerWindow hc →
  recent hc now (filter (λ u, k < u) fos) = recent hc now fos.
Proof.
  intros. unfold recent. rewrite list_filter_filter. apply list_filter_iff. intros u. lia.
Qed.

Lemma recent_snoc now fos :
  windowed hc → recent hc now (fos ++ [now]) = recent hc now fos ++ [now].
Proof.
  intros [_ Hw]. unfold recent. rewrite list.filter_app, filter_cons, decide_True by lia. done.
Qed.

Lemma filter_sorted (P : Z → Prop) `{∀ x, Decision (P x)} l :
  StronglySorted Z.le l → StronglySorted Z.le (filter P l).
Proof.
  induction 1 as [|x l Hs IH Hle]; [constructor|]. rewrite filter_cons.
  case_decide; [|done]. constructor; [done|]. rewrite list.Forall_forall in Hle |- *.
  intros y [_ Hy]%list_elem_of_filter. auto.
Qed.

Lemma sorted_snoc l t :
  StronglySorted Z.le l → Forall (λ u, u ≤ t) l → StronglySorted Z.le (l ++ [t]).
Proof.
  induction 1 as [|x l Hs IH Hle]; cbn; [by repeat constructor|].
  intros [? ?]%list.Forall_cons. constructor; [auto|]. apply list.Forall_app. auto.
Qed.

Lemma timestamps_sorted now b fos :
  run_inv now b fos → StronglySorted Z.le (br_failoverTimestamps b).
Proof.
  intros (Hs & _ & _ & _ & Hw & Hnw & _). destruct (decide (windowed hc)) as [H|H].
  - destruct (Hw H) as (k & _ & ->). by apply filter_sorted.
  - by rewrite (Hnw H).
Qed.

Lemma timestamps_recent now b fos now' :
  run_inv now b fos → now ≤ now' → windowed hc →
  recent hc now' (br_failoverTimestamps b) = recent hc now' fos.
Proof.
  intros (_ & _ & _ & _ & Hw & _) Hle H. destruct (Hw H) as (k & Hk & ->).
  apply recent_filter. lia.
Qed.

Lemma fos_ok_snoc b now now' fos :
  run_inv now b fos → now ≤ now' → br_circuitBroken b = false →
  cooled hc now' (br_lastFailoverAt b) → room hc now' (br_failoverTimestamps b) →
  fos_ok (fos ++ [now']).
Proof.
  intros Hinv Hle Hbr Hcool Hroom.
  pose proof Hinv as (_ & _ & Hok & Hlast & _ & _ & Hlatch). intros pre t post Heq.
  destruct post as [|x post _] using rev_ind.
  - apply app_inj_tail in Heq as [<- <-]. split.
    + intros t0 Ht0. by rewrite <- (Hlast t0 Ht0).
    + intros Hw. split; [|done]. unfold window_count. rewrite recent_snoc, length_app by done.
      specialize (Hroom Hw). rewrite (timestamps_recent now b fos) in Hroom by done. simpl. lia.
  - rewrite app_comm_cons, app_assoc in Heq. apply app_inj_tail in Heq as [-> <-].
    destruct (Hok pre t post eq_refl) as [Hc Hwin]. split; [done|]. intros Hw.
    destruct (Hwin Hw) as [? Hfull]. split; [done|]. intros Hmax.
    specialize (Hfull Hmax) as ->. specialize (Hlatch Hbr Hw pre t eq_refl). lia.
Qed.

Lemma run_inv_failover b now now' fos l :
  run_inv now b fos → now ≤ now' → br_circuitBroken b = false →
  cooled hc now' (br_lastFailoverAt b) → room hc now' (br_failoverTimestamps b) →
  (l = br_failoverTimestamps b ∧ ¬ windowed hc ∨
   windowed hc ∧ l = recent hc now' (br_failoverTimestamps b)) →
  run_inv now' (trip_breaker now' hc (note_failover now' (with_timestamps l b))) (fos ++ [now']).
Proof.
  intros Hinv Hle Hbr Hcool Hroom Hl.
  pose proof (fos_ok_snoc _ _ _ _ Hinv Hle Hbr Hcool Hroom) as Hok.
  pose proof Hinv as (Hs & Hnow & _ & _ & _ & Hnw & _).
  assert (Forall (λ t, t ≤ now') fos) as Hnow'
    by (eapply list.Forall_impl; [exact Hnow|cbn; lia]).
  assert (Hsl : StronglySorted Z.le l ∧ Forall (λ t, t ≤ now') l).
  { destruct Hl as [[-> H]|[H ->]]; [by rewrite (Hnw H)|].
    rewrite (timestamps_recent now b fos) by done. split; [by apply filter_sorted|].
    by apply Forall_filter_2. }
  set (b1 := note_failover now' (with_timestamps l b)).
  assert (StronglySorted Z.le (br_failoverTimestamps b1)) as Hs1
    by (apply sorted_snoc; apply Hsl).
  destruct (trip_breaker_timestamps now' hc b1 Hs1) as (Hlast1 & Hw1 & Hnw1).
  assert (windowed hc → recent hc now' (br_failoverTimestamps b1)
                        = recent hc now' (fos ++ [now'])) as Hrec.
  { intros H. unfold b1; cbn [note_failover br_failoverTimestamps with_timestamps].
    rewrite !recent_snoc by done. f_equal.
    destruct Hl as [[_ Hn]|[_ ->]]; [by destruct Hn|].
    rewrite (timestamps_recent now b fos) by done. apply (recent_filter now' (now' - _)). lia. }
  split_and!.
  - by apply sorted_snoc.
  - apply list.Forall_app. split; [done|]. by repeat constructor.
  - done.
  - intros t0. rewrite last_snoc. intros [= <-]. by rewrite Hlast1.
  - intros H. exists (now' - hc_CircuitBreakerWindow hc). split; [lia|].
    by rewrite (proj1 (Hw1 H)), Hrec.
  - intros H. rewrite (Hnw1 H). unfold b1; cbn. f_equal.
    destruct Hl as [[-> _]|[? _]]; [by apply Hnw|done].
  - intros Hnb H pre t [-> <-]%app_inj_tail. unfold window_count. rewrite <- Hrec by done.
    by apply (Hw1 H).
Qed.

Lemma run_inv_run now b fos : run now b fos → run_inv now b fos.
Proof.
  induction 1 as [now c Hc Ht Hb Hl|now b fos now' action b' Hr IH Hle Hcall].
  - split; [constructor|]. split; [constructor|].
    split; [intros pre t post Heq; by destruct pre|]. split; [done|].
    split; [intros _; exists (now - hc_CircuitBreakerWindow hc); by rewrite Ht|].
    split; [by rewrite Ht|]. intros _ _ pre t Heq. by destruct pre.
  - pose proof (timestamps_sorted _ _ _ IH) as Hs.
    destruct (call_breaker _ _ _ _ Hs Hcall) as [[-> Hb]|(Hne & Hbr & Hc & Hroom & l & Hl & ->)].
    + rewrite String.eqb_refl.
      destruct IH as (H1 & H2 & H3 & H4 & H5 & H6 & H7). split_and!; try done.
      * eapply list.Forall_impl; [exact H2|cbn; lia].
      * intros t0 Ht0. destruct Hb as [->|[_ ->]]; by apply H4.
      * intros Hw. destruct (H5 Hw) as (k & Hk & Htk). destruct Hb as [->|[_ ->]].
        -- exists k. split; [lia|done].
        -- exists (now' - hc_CircuitBreakerWindow hc). split; [lia|].
           cbn [with_timestamps br_failoverTimestamps]. rewrite Htk. apply recent_filter. lia.
      * intros Hnw. destruct Hb as [->|[? _]]; [by apply H6|done].
      * intros Hnb. apply H7. destruct Hb as [->|[_ ->]]; exact Hnb.
    + rewrite (proj2 (String.eqb_neq _ _)) by done. by eapply run_inv_failover.
Qed.
End calls.

Lemma decision_spec {W} c (sm : StateMachine W) :
  (c_decision c sm = Failover StatePrimary ↔
     c_mode c = ModeActivePassive ∧ State sm (c_buName c) = StatePrimary ∧
     PrimaryHealthy c = false ∧ SecondaryHealthy c = true) ∧
  (c_decision c sm = Failover StateSecondary ↔
     c_mode c = ModeActivePassive ∧ State sm (c_buName c) = StateSecondary ∧
     PrimaryHealthy c = true ∧ hc_AutoFailback (c_hcCfg c) = true) ∧
  (∀ from, c_decision c sm = Failover from → from = StatePrimary ∨ from = StateSecondary).
Proof.
  unfold c_decision, decide_failover.
  destruct (String.eqb_spec (State sm (c_buName c)) StateBothDown) as [->|];
  destruct (String.eqb_spec (c_mode c) ModeActivePassive) as [->|];
  try (destruct (String.eqb_spec (State sm (c_buName c)) StatePrimary) as [->|];
  [|destruct (String.eqb_spec (State sm (c_buName c)) StateSecondary) as [->|];
  [|destruct (String.eqb_spec (State sm (c_buName c)) StateDraining) as [->|]]]);
  destruct (PrimaryHealthy c), (SecondaryHealthy c), (hc_AutoFailback (c_hcCfg c));
  cbn; split_and!; try (split; [done|]); try (intros from [= <-]); auto; try done;
  intros; destruct_and?; done.
Qed.

Lemma no_action (P Q S : Prop) :
  ¬ P → ¬ Q →
  (ActionNone = ActionFailoverToSecondary ↔ P) ∧ (ActionNone = ActionFailoverToPrimary ↔ Q) ∧
  (ActionNone ≠ ActionNone → S).
Proof. intros. split_and!; [split; [done|tauto]..|done]. Qed.

(** ** Properties *)

Ltac not_decided HF1 HF2 :=
  destruct HF1 as [_ HF1]; destruct HF2 as [_ HF2];
  apply no_action; intros ((_ & ? & _) & ? & ? & ?);
  [discriminate HF1; by split_and!|discriminate HF2; by split_and!].

(** C10: when the controller fails over.  [Evaluate] starts a failover to the
    secondary exactly when the breaker is closed, the BU is active_passive in
    PRIMARIO, the primary is down and the secondary up, the cooldown has elapsed
    and the sliding window has room; it starts a failback exactly when the BU is
    in SECUNDARIO, the primary is up, failback is enabled and the same limits
    allow it.  Whenever it acts, the BU is left DRAINING. *)
Theorem Evaluate_fails_over_iff {W} now c (sm : StateMachine W) w :
  hc_int64 (c_hcCfg c) → StronglySorted Z.le (br_failoverTimestamps (c_breaker c)) →
  let '(action, _, sm', _) := Evaluate now c sm w in
  let allowed := br_circuitBroken (c_breaker c) = false ∧ c_mode c = ModeActivePassive ∧
                 cooled (c_hcCfg c) now (br_lastFailoverAt (c_breaker c)) ∧
                 room (c_hcCfg c) now (br_failoverTimestamps (c_breaker c)) in
  (action = ActionFailoverToSecondary ↔
     allowed ∧ State sm (c_buName c) = StatePrimary ∧
     PrimaryHealthy c = false ∧ SecondaryHealthy c = true) ∧
  (action = ActionFailoverToPrimary ↔
     allowed ∧ State sm (c_buName c) = StateSecondary ∧
     PrimaryHealthy c = true ∧ hc_AutoFailback (c_hcCfg c) = true) ∧
  (action ≠ ActionNone → State sm' (c_buName c) = StateDraining).
Proof.
  intros Hd Hs. rewrite evaluate_decide.
  pose proof (decision_spec c sm) as (HF1 & HF2 & Hfrom).
  destruct (br_circuitBroken (c_breaker c)) eqn:Hb; [by apply no_action; intros [[? _] _]|].
  destruct (c_decision c sm) as [| |to|from]; cbn iota beta.
  - not_decided HF1 HF2.
  - unfold enterBothDownLocked. destruct (SM_Transition _ _ _ _ _) as [[? ?] ?].
    not_decided HF1 HF2.
  - destruct (SM_Transition _ _ _ _ _) as [[? ?] ?].
    not_decided HF1 HF2.
  - pose proof (canFailoverLocked_spec now _ _ Hd Hs) as Hcan.
    destruct (canFailoverLocked _ _ _) as [can b1]. destruct Hcan as [Hc Hb1].
    destruct can; [|by apply no_action; intros ((_ & _ & Hcr) & _); apply Hc in Hcr].
    unfold triggerFailoverLocked. cbn [with_breaker c_breaker c_hcCfg c_buName].
    assert (br_circuitBroken b1 = false) as -> by (destruct Hb1 as [[-> _]|[_ ->]]; done).
    pose proof (SM_Transition_state (c_buName c) StateDraining ReasonHealthEvent sm w) as Hst.
    destruct (SM_Transition _ _ _ _ _) as [[? sm'] w'].
    destruct (proj1 Hc eq_refl).
    destruct (Hfrom from eq_refl) as [->| ->].
    + destruct (proj1 HF1 eq_refl) as (? & Hp & ? & ?).
      split; [split; [intros _; by split_and!|done]|]. split; [|intros _; apply Hst; by rewrite Hp].
      split; [done|]. intros (_ & Hp' & _). by rewrite Hp in Hp'.
    + destruct (proj1 HF2 eq_refl) as (? & Hp & ? & ?).
      split; [|split; [split; [intros _; by split_and!|done]|intros _; apply Hst; by rewrite Hp]].
      split; [done|]. intros (_ & Hp' & _). by rewrite Hp in Hp'.
Qed.

(** C12: the anti-flap guarantees.  Over any run of [Evaluate] calls in time
    order, with arbitrary health results, drains and operator transitions in
    between and no breaker reset: two consecutive failovers are at least
    [min_time_between_failovers] apart; no window of [circuit_breaker_window]
    holds more than [circuit_breaker_max_failovers] of them; and the failover
    that fills a window is the last one, since it trips the breaker. *)
Theorem Evaluate_rate_limited {W} hc now b fos :
  hc_int64 hc → run (W:=W) hc now b fos →
  ∀ pre t post, fos = pre ++ t :: post →
    (∀ t0, list.last pre = Some t0 → 0 < hc_MinTimeBetweenFailovers hc →
       hc_MinTimeBetweenFailovers hc ≤ t - t0) ∧
    (windowed hc →
       window_count hc (pre ++ [t]) t ≤ hc_CircuitBreakerMaxFailovers hc ∧
       (window_count hc (pre ++ [t]) t = hc_CircuitBreakerMaxFailovers hc → post = [])).
Proof.
  intros Hd Hr. destruct (run_inv_run hc Hd now b fos Hr) as (_ & _ & Hok & _). exact Hok.
Qed.

(** While both clusters are down nothing flaps.  Entering BOTH_DOWN from a
    routing state records that state as the cluster to keep routing to; further
    evaluations with both clusters down change nothing; and the first cluster to
    recover gets the traffic, the primary first. *)
Theorem Evaluate_both_down {W} now now' now'' c (sm : StateMachine W) w p' q' :
  br_circuitBroken (c_breaker c) = false →
  PrimaryHealthy c = false → SecondaryHealthy c = false →
  (State sm (c_buName c) = StatePrimary ∨ State sm (c_buName c) = StateSecondary) →
  let '(a1, c1, sm1, w1) := Evaluate now c sm w in
  a1 = ActionNone ∧ State sm1 (c_buName c1) = StateBothDown ∧
  BothDownActiveCluster c1 = State sm (c_buName c) ∧ BothDownCount c1 = BothDownCount c + 1 ∧
  Evaluate now' c1 sm1 w1 = (ActionNone, c1, sm1, w1) ∧
  (ch_healthy p' || ch_healthy q' = true →
   let '(a2, c2, sm2, _) := Evaluate now'' (with_health p' q' c1) sm1 w1 in
   a2 = ActionNone ∧
   State sm2 (c_buName c) = if ch_healthy p' then StatePrimary else StateSecondary).
Proof.
  intros Hb Hp Hq Hs. rewrite evaluate_decide, Hb.
  assert (c_decision c sm = ToBothDown) as ->.
  { unfold c_decision, decide_failover. rewrite Hp, Hq. cbn. by destruct Hs as [-> | ->]. }
  unfold enterBothDownLocked.
  pose proof (SM_Transition_state (c_buName c) StateBothDown ReasonHealthEvent sm w
    ltac:(by destruct Hs as [-> | ->])) as Hst.
  destruct (SM_Transition _ _ _ _ _) as [[? sm1] w1]. cbn [with_ambos c_buName].
  set (last := if String.eqb (State sm (c_buName c)) StateDraining then _ else _).
  assert (last = State sm (c_buName c)) as -> by (unfold last; by destruct Hs as [-> | ->]).
  split; [done|]. split; [done|]. split; [by destruct Hs as [-> | ->]|]. split; [done|].
  set (c1 := with_ambos _ _ c). split.
  - rewrite evaluate_decide. change (c_breaker c1) with (c_breaker c). rewrite Hb.
    unfold c_decision, decide_failover. change (PrimaryHealthy c1) with (PrimaryHealthy c).
    change (SecondaryHealthy c1) with (SecondaryHealthy c).
    change (c_buName c1) with (c_buName c). by rewrite Hp, Hq, Hst.
  - intros Hup. rewrite evaluate_decide.
    change (c_breaker (with_health p' q' c1)) with (c_breaker c). rewrite Hb.
    unfold c_decision, decide_failover. unfold PrimaryHealthy, SecondaryHealthy;
      cbn [with_health c_primaryHealth c_secondaryHealth c1 with_ambos c_buName c_mode c_hcCfg].
    rewrite Hst. cbn [String.eqb].
    assert (negb (ch_healthy p') && negb (ch_healthy q') = false) as ->
      by (by rewrite <- negb_orb, Hup).
    rewrite String.eqb_refl. set (to := if ch_healthy p' then _ else _).
    pose proof (SM_Transition_state (c_buName c) to ReasonRecovery sm1 w1
      ltac:(rewrite Hst; unfold to; by destruct (ch_healthy p'))) as Hst2.
    by destruct (SM_Transition _ _ _ _ _) as [[? sm2] w2].
Qed.

(** The controller believes a cluster UP only on evidence: it starts DOWN,
    and is UP exactly when some run of [recovery_threshold] consecutive
    successes has been seen and no run of [failure_threshold] consecutive
    failures since. *)
Theorem record_health_hysteresis hc results :
  let ft := failure_threshold hc in
  let rt := recovery_threshold hc in
  let oks := map (λ '(_, ok, _), ok) results in
  ch_healthy (foldl (λ ch '(now, ok, latency), record_health now ft rt ok latency ch)
                zero_clusterHealth results) = true ↔
  ∃ q, q `prefix_of` oks ∧ ends_with true rt q ∧
       ∀ p, q `prefix_of` p → p `prefix_of` oks → ¬ ends_with false ft p.
Proof.
  intros ft rt oks.
  etransitivity; [|apply (hyst_run_up ft rt false oks);
                   [apply failure_threshold_pos|apply recovery_threshold_pos]].
  unfold hyst_run, oks. change (false, 0, 0) with (ch_hyst zero_clusterHealth).
  by rewrite <- record_health_run.
Qed.

Definition sample_hc : HealthCheckConfig :=
  {| hc_Enabled := true; hc_Interval := second; hc_FailureThreshold := 1;
     hc_RecoveryThreshold := 1; hc_RecoveryMinUptime := 0;
     hc_MinTimeBetweenFailovers := 60 * second; hc_AutoFailover := true;
     hc_AutoFailback := true; hc_AutoRebalance := false; hc_RequireTargetHealthy := true;
     hc_CircuitBreakerMaxFailovers := 2; hc_CircuitBreakerWindow := 600 * second;
     hc_SaslUsername := ""; hc_SaslPassword := "" |}.

Definition up_health : clusterHealth := record_health 0 1 1 true 0 zero_clusterHealth.

(** A BU on its primary, with the primary down and the secondary up. *)
Definition sample_controller : Controller :=
  with_health zero_clusterHealth up_health
    (NewController "bu1" ActivePrimary ModeActivePassive sample_hc).
Definition sample_machine : StateMachine unit :=
  {| sm_entries := {[ "bu1"%string := StatePrimary ]}; sm_callbacks := [] |}.

Lemma Evaluate_fails_over_iff_witness :
  let '(action, _, sm', _) := Evaluate (1000 * second) sample_controller sample_machine tt in
  action = ActionFailoverToSecondary ∧ State sm' "bu1" = StateDraining.
Proof.
  pose proof (Evaluate_fails_over_iff (1000 * second) sample_controller sample_machine tt) as H.
  destruct (Evaluate (1000 * second) sample_controller sample_machine tt)
    as [[[action c'] sm'] w'] eqn:E.
  destruct H as (_ & _ & Hd).
  - discriminate.
  - constructor.
  - vm_compute in E. injection E as <- <- <- <-. split; [reflexivity|].
    apply Hd. discriminate.
Defined.

Lemma Evaluate_rate_limited_witness :
  ∃ now b fos, run (W:=unit) sample_hc now b fos ∧ fos = [1000 * second] ∧
    ∀ pre t post, fos = pre ++ t :: post → windowed sample_hc →
      window_count sample_hc (pre ++ [t]) t ≤ 2.
Proof.
  destruct (Evaluate (1000 * second) sample_controller sample_machine tt)
    as [[[action c'] sm'] w'] eqn:E.
  assert (run (W:=unit) sample_hc (1000 * second) (c_breaker c')
            (if String.eqb action ActionNone then [] else [] ++ [1000 * second])) as Hr.
  { apply (run_call sample_hc 0 (c_breaker sample_controller)).
    - apply (run_init sample_hc 0 sample_controller); reflexivity.
    - discriminate.
    - exists sample_controller, c', sample_machine, sm', tt, w'.
      split_and!; try reflexivity. exact E. }
  exists (1000 * second), (c_breaker c'), (if String.eqb action ActionNone then [] else [] ++ [1000 * second]).
  split; [exact Hr|]. split; [vm_compute in E; injection E as <- <- <- <-; reflexivity|].
  intros pre t post Heq Hw.
  refine (proj1 (proj2 (Evaluate_rate_limited sample_hc _ _ _ _ Hr pre t post Heq) Hw)).
  discriminate.
Defined.

Lemma Evaluate_both_down_witness :
  let c := NewController "bu1" ActivePrimary ModeActivePassive sample_hc in
  let '(a1, c1, sm1, _) := Evaluate 5 c sample_machine tt in
  a1 = ActionNone ∧ State sm1 "bu1" = StateBothDown ∧ BothDownActiveCluster c1 = StatePrimary.
Proof.
  intros c. pose proof (Evaluate_both_down 5 6 7 c sample_machine tt up_health up_health
    eq_refl eq_refl eq_refl (or_introl eq_refl)) as H.
  destruct (Evaluate 5 c sample_machine tt) as [[[a1 c1] sm1] w1] eqn:E.
  destruct H as (H1 & H2 & H3 & _). vm_compute in E. injection E as <- <- <- <-.
  split; [exact H1|]. split; [exact H2|exact H3].
Defined.
