(* ===== verification/DRCoordinator.v ===== *)
(** * The DR coordinator ([internal/proxy/dr_coordinator.go])

    The callbacks that tie the state machine to the drain manager: entering
    DRAINING starts a drain, the end of a drain moves the state on.  The state
    machine's callbacks act on a [World]: the drain manager, the clock they
    read, and the connections closed so far. *)

From S2P Require Import Prelude Config StateMachine Drain Controller.

Record World := { w_now : time; w_dm : DrainManager; w_closed : list nat }.

Definition with_dm (dm : DrainManager) (w : World) : World :=
  {| w_now := w_now w; w_dm := dm; w_closed := w_closed w |}.

Definition at_time (now : time) (w : World) : World :=
  {| w_now := now; w_dm := w_dm w; w_closed := w_closed w |}.

Definition System := (StateMachine World * World)%type.

Definition stateToTarget (state : string) : string :=
  if String.eqb state StatePrimary then ActivePrimary
  else if String.eqb state StateSecondary then ActiveSecondary
  else if String.eqb state StateDraining then ActivePrimary
  else if String.eqb state StateBothDown then ActivePrimary
  else ActivePrimary.

(** The state-machine callback registered by [Wire]. *)
Definition on_state_change (t : Transition) (w : World) : World :=
  if negb (String.eqb (tr_To t) StateDraining) then w
  else
    let oldTarget := stateToTarget (tr_From t) in
    let newTarget := stateToTarget (tr_To t) in
    let newTarget :=
      if String.eqb (tr_From t) StatePrimary then ActiveSecondary
      else if String.eqb (tr_From t) StateSecondary then ActivePrimary
      else newTarget in
    with_dm (StartDrain (w_now w) (tr_BU t) oldTarget newTarget 0 (w_dm w)) w.

(** The drain-complete callback registered by [Wire]. *)
Definition on_drain_complete (clusterName oldActive newActive : string) (s : System) : System :=
  let '(sm, w) := s in
  let current := State sm clusterName in
  if negb (String.eqb current StateDraining) then (sm, w)
  else
    let targetState :=
      if String.eqb newActive ActivePrimary then Some StatePrimary
      else if String.eqb newActive ActiveSecondary then Some StateSecondary
      else None in
    match targetState with
    | None => (sm, w)
    | Some target =>
        let '(_, sm, w) := SM_Transition clusterName target ReasonDrainComplete sm w in (sm, w)
    end.

(** The state machine's side of [Wire]; the drain manager's side is the list
    [[on_drain_complete]] given to [fireDrainComplete]. *)
Definition Wire (sm : StateMachine World) : StateMachine World := OnStateChange on_state_change sm.

(** The timer of a drain fires: [forceCloseOld] and its callbacks. *)
Definition drain_timer (clusterName oldActive : string) (s : System) : System :=
  let '(sm, w) := s in
  let '(closed, drain, dm) := forceCloseOld clusterName oldActive (w_dm w) in
  fireDrainComplete [on_drain_complete] clusterName oldActive drain
    (sm, {| w_now := w_now w; w_dm := dm; w_closed := w_closed w ++ closed |}).

Definition DrainNewActive (dm : DrainManager) (bu : string) : option string :=
  bd_NewActive <$> DrainState bu dm.

(** [ctrlLookup] is [None] before [SetControllerLookup], and may find no
    controller for a BU. *)
Definition TargetForRouting (ctrlLookup : option (string → option Controller)) (s : System)
    (bu : string) : string * bool :=
  let '(sm, w) := s in
  let state := State sm bu in
  if String.eqb state StatePrimary then (ActivePrimary, true)
  else if String.eqb state StateSecondary then (ActiveSecondary, true)
  else if String.eqb state StateDraining then
    match DrainState bu (w_dm w) with
    | None => (ActivePrimary, true)
    | Some d => (bd_NewActive d, true)
    end
  else if String.eqb state StateBothDown then
    match ctrlLookup with
    | Some lookup =>
        match lookup bu with
        | Some ctrl =>
            if String.eqb (BothDownActiveCluster ctrl) StatePrimary then (ActivePrimary, true)
            else if String.eqb (BothDownActiveCluster ctrl) StateSecondary
            then (ActiveSecondary, true)
            else (ActivePrimary, true)
        | None => (ActivePrimary, true)
        end
    | None => (ActivePrimary, true)
    end
  else (ActivePrimary, true).

(** ** The workflow *)

(** A wired system: [Wire] was called and nothing else registered. *)
Definition wired (sm : StateMachine World) : Prop := sm_callbacks sm = [on_state_change].

(** The two routing states and their opposites. *)
Definition routing_state (s : string) : Prop := s = StatePrimary ∨ s = StateSecondary.
Definition opposite (s : string) : string :=
  if String.eqb s StatePrimary then StateSecondary else StatePrimary.

Lemma opposite_routing s : routing_state (opposite s).
Proof. unfold opposite, routing_state. case_if; auto. Qed.

Lemma TargetForRouting_state lookup sm w bu s :
  routing_state s → State sm bu = s → TargetForRouting lookup (sm, w) bu = (stateToTarget s, true).
Proof. intros [-> | ->] Hs; unfold TargetForRouting; by rewrite Hs. Qed.

(** Entering DRAINING from a routing state. *)
Lemma enter_draining bu reason sm w s :
  wired sm → sm_entries sm !! bu = Some s → routing_state s →
  SM_Transition bu StateDraining reason sm w =
  (None, with_entries (<[bu := StateDraining]> (sm_entries sm)) sm,
   with_dm (StartDrain (w_now w) bu (stateToTarget s) (stateToTarget (opposite s)) 0 (w_dm w)) w).
Proof.
  intros Hw Hs Hr. unfold SM_Transition. rewrite Hs. unfold wired in Hw.
  unfold fireCallbacks; cbn [with_entries sm_callbacks]. rewrite Hw.
  by destruct Hr as [-> | ->].
Qed.

(** Leaving DRAINING for a routing state starts nothing. *)
Lemma leave_draining bu reason sm w s :
  wired sm → sm_entries sm !! bu = Some StateDraining → routing_state s →
  SM_Transition bu s reason sm w =
  (None, with_entries (<[bu := s]> (sm_entries sm)) sm, w).
Proof.
  intros Hw Hs Hr. unfold SM_Transition. rewrite Hs.
  unfold fireCallbacks; cbn [with_entries sm_callbacks]. rewrite Hw.
  by destruct Hr as [-> | ->].
Qed.

Lemma State_insert {W} bu s (sm : StateMachine W) :
  State (with_entries (<[bu := s]> (sm_entries sm)) sm) bu = s.
Proof. unfold State; cbn. by rewrite lookup_insert, decide_True. Qed.

(** A drain ends while the BU is still DRAINING. *)
Lemma drain_timer_draining bu sm w d s :
  wired sm → sm_entries sm !! bu = Some StateDraining →
  dm_ok (w_dm w) → dm_drains (w_dm w) !! bu = Some d → bd_NewActive d = stateToTarget s → routing_state s →
  let '(closed, _, dm) := forceCloseOld bu (bd_OldActive d) (w_dm w) in
  drain_timer bu (bd_OldActive d) (sm, w) =
  (with_entries (<[bu := s]> (sm_entries sm)) sm,
   {| w_now := w_now w; w_dm := dm; w_closed := w_closed w ++ closed |}).
Proof.
  intros Hw Hs Hok Hd Hnew Hr. unfold drain_timer.
  pose proof (forceCloseOld_spec bu (bd_OldActive d) _ Hok) as H.
  destruct (forceCloseOld bu (bd_OldActive d) (w_dm w)) as [[closed drain] dm].
  destruct H as (_ & _ & -> & _). rewrite Hd. unfold fireDrainComplete; cbn [foldl].
  unfold on_drain_complete, State. rewrite Hs, Hnew. cbn [String.eqb].
  rewrite String.eqb_refl. cbn [negb].
  assert ((if String.eqb (stateToTarget s) ActivePrimary then Some StatePrimary
           else if String.eqb (stateToTarget s) ActiveSecondary then Some StateSecondary
           else None) = Some s) as -> by (by destruct Hr as [-> | ->]).
  by rewrite leave_draining.
Qed.

(** Traffic between two events of the workflow: [w'] is [w] some time later. *)
Definition traffic_step (w w' : World) : Prop :=
  w_closed w' = w_closed w ∧
  ∃ n ops, 0 ≤ n ∧ n + Z.of_nat (length ops) < 2 ^ 64 ∧ ids_below n (w_dm w) ∧
    Forall traffic ops ∧ w_dm w' = foldl run_op (w_dm w) ops.

Lemma traffic_step_dm w w' :
  dm_ok (w_dm w) → traffic_step w w' →
  dm_ok (w_dm w') ∧ dm_drains (w_dm w') = dm_drains (w_dm w) ∧ w_closed w' = w_closed w.
Proof.
  intros Hok (Hc & n & ops & Hn & Hlen & Hids & Hops & ->).
  destruct (run_traffic n (w_dm w) ops) as [? ?]; done.
Qed.

Lemma State_insert_ne {W} bu bu' s (sm : StateMachine W) :
  bu' ≠ bu → State (with_entries (<[bu := s]> (sm_entries sm)) sm) bu' = State sm bu'.
Proof. intros Hne. unfold State; cbn. by rewrite lookup_insert_ne. Qed.

Lemma StartDrain_drains now bu old new dm :
  dm_drains (StartDrain now bu old new 0 dm) =
  <[bu := {| bd_OldActive := old; bd_NewActive := new; bd_StartedAt := now;
             bd_timer := now + dm_DefaultDrainTimeout dm |}]> (dm_drains dm).
Proof. done. Qed.

Lemma stateToTarget_inj s s' :
  routing_state s → routing_state s' → stateToTarget s = stateToTarget s' → s = s'.
Proof. by intros [-> | ->] [-> | ->]. Qed.

Lemma opposite_ne s : routing_state s → opposite s ≠ s.
Proof. by intros [-> | ->]. Qed.

(** The drain's timer fires when the BU has left DRAINING. *)
Lemma drain_timer_moved_on bu old sm w :
  State sm bu ≠ StateDraining →
  drain_timer bu old (sm, w) =
  (sm, {| w_now := w_now w; w_dm := snd (forceCloseOld bu old (w_dm w));
          w_closed := w_closed w ++ fst (fst (forceCloseOld bu old (w_dm w))) |}).
Proof.
  intros Hs. unfold drain_timer. destruct (forceCloseOld bu old (w_dm w)) as [[closed drain] dm].
  unfold fireDrainComplete; cbn. destruct (String.eqb_spec (State sm bu) StateDraining); done.
Qed.

(** ** Properties *)

(** C1: the disaster-recovery workflow.  When a BU in a routing state moves to
    DRAINING, new connections are routed to the other cluster at once, the drain
    is due one default timeout later, and nobody is disconnected.  When the
    timer fires, after any traffic in between, the BU settles on the other side,
    exactly the connections still on the old side are closed, the drain is over,
    and no other BU's state, drain or connections change. *)
Theorem dr_workflow lookup bu reason sm w s :
  wired sm → sm_entries sm !! bu = Some s → routing_state s → dm_ok (w_dm w) →
  let old := stateToTarget s in
  let new := stateToTarget (opposite s) in
  let '(err, sm1, w1) := SM_Transition bu StateDraining reason sm w in
  err = None ∧ State sm1 bu = StateDraining ∧
  TargetForRouting lookup (sm1, w1) bu = (new, true) ∧
  w_closed w1 = w_closed w ∧
  bd_timer <$> DrainState bu (w_dm w1) = Some (w_now w + dm_DefaultDrainTimeout (w_dm w)) ∧
  ∀ w2, traffic_step w1 w2 →
    TargetForRouting lookup (sm1, w2) bu = (new, true) ∧
    let '(sm3, w3) := drain_timer bu old (sm1, w2) in
    State sm3 bu = opposite s ∧ TargetForRouting lookup (sm3, w3) bu = (new, true) ∧
    IsDraining bu (w_dm w3) = false ∧
    live bu (w_dm w3) = filter (λ '(_, tc), tc_target tc ≠ old) (live bu (w_dm w2)) ∧
    (∃ closed, w_closed w3 = w_closed w ++ closed ∧
       ∀ c, c ∈ closed ↔ ∃ id tc, live bu (w_dm w2) !! id = Some tc ∧
                                  tc_target tc = old ∧ tc_conn tc = c) ∧
    (∀ bu', bu' ≠ bu → State sm3 bu' = State sm bu' ∧
       dm_drains (w_dm w3) !! bu' = dm_drains (w_dm w) !! bu' ∧
       live bu' (w_dm w3) = live bu' (w_dm w2)).
Proof.
  intros Hw Hs Hr Hok old new. rewrite (enter_draining _ _ _ _ s) by done.
  split; [done|]. split; [apply State_insert|].
  assert (∀ w', dm_drains (w_dm w') = dm_drains (StartDrain (w_now w) bu old new 0 (w_dm w)) →
    TargetForRouting lookup (with_entries (<[bu:=StateDraining]> (sm_entries sm)) sm, w') bu
    = (new, true)) as Hroute.
  { intros w' Hd. unfold TargetForRouting. rewrite State_insert. cbn [String.eqb].
    unfold DrainState. rewrite Hd, StartDrain_drains, lookup_insert, decide_True by done. done. }
  split; [by apply Hroute|]. split; [done|].
  split; [unfold DrainState; cbn [w_dm with_dm]; by rewrite StartDrain_drains, lookup_insert,
          decide_True by done|].
  intros w2 Ht. apply traffic_step_dm in Ht as (Hok2 & Hd2 & Hc2); [|done].
  cbn [w_dm with_dm w_closed] in Hd2, Hc2. split; [by apply Hroute|].
  pose proof (forceCloseOld_spec bu old (w_dm w2) Hok2) as Hspec.
  pose proof (drain_timer_draining bu
    (with_entries (<[bu:=StateDraining]> (sm_entries sm)) sm) w2
    {| bd_OldActive := old; bd_NewActive := new; bd_StartedAt := w_now w;
       bd_timer := w_now w + dm_DefaultDrainTimeout (w_dm w) |} (opposite s)) as Htimer.
  cbn [bd_OldActive bd_NewActive] in Htimer.
  destruct (forceCloseOld bu old (w_dm w2)) as [[closed drain] dm3].
  rewrite Htimer; clear Htimer; [|done| |done| |done|apply opposite_routing].
  2:{ cbn. by rewrite lookup_insert, decide_True. }
  2:{ by rewrite Hd2, StartDrain_drains, lookup_insert, decide_True. }
  destruct Hspec as (Hclosed & Hlive & _ & Hdr & Hframe & _).
  split; [apply State_insert|]. split.
  { apply TargetForRouting_state; [apply opposite_routing|apply State_insert]. }
  cbn [w_dm w_closed]. split.
  { unfold IsDraining. rewrite Hdr, lookup_delete, decide_True by done. done. }
  split; [done|]. split; [exists closed; by rewrite Hc2|].
  intros bu' Hne. split; [by rewrite !State_insert_ne|].
  rewrite Hdr, lookup_delete_ne, Hd2, StartDrain_drains, lookup_insert_ne by done.
  unfold live. by rewrite Hframe.
Qed.

(** An aborted drain is not cancelled.  The controller aborts a failover of
    PRIMARIO when the primary is healthy again and the secondary is not: the BU
    is routed to the primary again, but its drain is still registered, and when
    the timer fires every live connection to the healthy primary is closed, the
    ones opened after the abort included. *)
Theorem aborted_drain_still_closes lookup bu reason sm w c now :
  wired sm → sm_entries sm !! bu = Some StatePrimary → dm_ok (w_dm w) →
  c_buName c = bu → c_mode c = ModeActivePassive → br_circuitBroken (c_breaker c) = false →
  PrimaryHealthy c = true → SecondaryHealthy c = false →
  let '(_, sm1, w1) := SM_Transition bu StateDraining reason sm w in
  ∀ w2, traffic_step w1 w2 →
  let '(_, _, sm3, w3) := Evaluate now c sm1 w2 in
  TargetForRouting lookup (sm3, w3) bu = (ActivePrimary, true) ∧
  IsDraining bu (w_dm w3) = true ∧
  ∀ w4, traffic_step w3 w4 →
  let '(sm5, w5) := drain_timer bu ActivePrimary (sm3, w4) in
  State sm5 bu = StatePrimary ∧
  (∃ closed, w_closed w5 = w_closed w ++ closed ∧
     ∀ id tc, live bu (w_dm w4) !! id = Some tc → tc_target tc = ActivePrimary →
              tc_conn tc ∈ closed ∧ live bu (w_dm w5) !! id = None).
Proof.
  intros Hw Hs Hok Hbu Hmode Hbr Hp Hsec.
  rewrite (enter_draining _ _ _ _ StatePrimary) by (done || by left).
  set (sm1 := with_entries (<[bu:=StateDraining]> (sm_entries sm)) sm).
  intros w2 (Hok2 & Hd2 & Hc2)%traffic_step_dm; [|done].
  assert (Evaluate now c sm1 w2 = (ActionNone, c,
            with_entries (<[bu:=StatePrimary]> (sm_entries sm1)) sm1, w2)) as ->.
  { unfold Evaluate, evaluateLocked. unfold PrimaryHealthy, SecondaryHealthy in *.
    assert (State sm1 (c_buName c) = StateDraining) as ->
      by (rewrite Hbu; apply State_insert).
    rewrite Hbr, Hmode, Hp, Hsec. cbn. rewrite Hbu.
    rewrite leave_draining; [done|done| |by left].
    cbn. by rewrite lookup_insert, decide_True. }
  split; [apply (TargetForRouting_state _ _ _ _ StatePrimary); [by left|apply State_insert]|].
  split.
  { unfold IsDraining. rewrite Hd2. cbn [w_dm with_dm].
    by rewrite StartDrain_drains, lookup_insert, decide_True. }
  intros w4 (Hok4 & _ & Hc4)%traffic_step_dm; [|done].
  rewrite drain_timer_moved_on; [|by rewrite State_insert].
  split; [apply State_insert|]. cbn [w_closed w_dm].
  pose proof (forceCloseOld_spec bu ActivePrimary (w_dm w4) Hok4) as Hspec.
  destruct (forceCloseOld bu ActivePrimary (w_dm w4)) as [[closed drain] dm5].
  destruct Hspec as (Hclosed & Hlive & _). exists closed. cbn [fst snd].
  split; [by rewrite Hc4, Hc2|]. intros id tc Hl Ht. split; [apply Hclosed; eauto|].
  rewrite Hlive. apply map_lookup_filter_None. right. intros tc' Hl' Hne. congruence.
Qed.

(** The two gaps of a failover.  The state is DRAINING a moment before its
    callback starts the drain, and still a moment after the timer has deleted it,
    while the callbacks have yet to run.  In both a new connection is sent to the
    primary, the side that the failover leaves; between and after them, to the
    secondary. *)
Theorem draining_gaps lookup bu reason sm w :
  wired sm → sm_entries sm !! bu = Some StatePrimary → dm_ok (w_dm w) →
  dm_drains (w_dm w) !! bu = None →
  let committed := with_entries (<[bu := StateDraining]> (sm_entries sm)) sm in
  let '(_, sm1, w1) := SM_Transition bu StateDraining reason sm w in
  let '(_, _, dm2) := forceCloseOld bu ActivePrimary (w_dm w1) in
  TargetForRouting lookup (committed, w) bu = (ActivePrimary, true) ∧
  TargetForRouting lookup (sm1, w1) bu = (ActiveSecondary, true) ∧
  TargetForRouting lookup (sm1, with_dm dm2 w1) bu = (ActivePrimary, true) ∧
  TargetForRouting lookup (drain_timer bu ActivePrimary (sm1, w1)) bu = (ActiveSecondary, true).
Proof.
  intros Hw Hs Hok Hd committed. rewrite (enter_draining _ _ _ _ StatePrimary) by (done || by left).
  fold committed. set (w1 := with_dm _ w).
  pose proof (forceCloseOld_spec bu ActivePrimary (w_dm w1) Hok) as Hspec.
  assert (Hd1 : dm_drains (w_dm w1) !! bu = Some _)
    by (cbn; rewrite lookup_insert, decide_True by done; reflexivity).
  assert (Hdt := drain_timer_draining bu committed w1 _ StateSecondary Hw (lookup_insert_eq _ _ _)
    Hok Hd1 eq_refl (or_intror eq_refl)). cbn [bd_OldActive] in Hdt.
  change (stateToTarget StatePrimary) with ActivePrimary in Hdt.
  destruct (forceCloseOld bu ActivePrimary (w_dm w1)) as [[closed drain] dm2].
  destruct Hspec as (_ & _ & _ & Hdr & _).
  assert (Hst : ∀ w', TargetForRouting lookup (committed, w') bu =
    match dm_drains (w_dm w') !! bu with
    | None => (ActivePrimary, true) | Some d => (bd_NewActive d, true) end).
  { intros w'. unfold TargetForRouting, committed. by rewrite State_insert. }
  rewrite !Hst, Hd, Hd1. cbn [w_dm with_dm]. rewrite Hdr, lookup_delete, decide_True by done.
  do 3 (split; [reflexivity|]). rewrite Hdt.
  apply (TargetForRouting_state _ _ _ _ StateSecondary); [by right|apply State_insert].
Qed.

(** Routing while both clusters are down.  A BU that goes down from a
    routing state keeps being routed to the cluster it was on; one that goes
    down while draining is routed to the side opposite to the configured one,
    whichever way the drain went; and with a controller that has no memory of
    an outage (after a reload), it is routed to the primary, even if the
    configured active cluster is the secondary. *)
Theorem both_down_routing ctrlLookup bu now c sm w :
  wired sm → c_buName c = bu → br_circuitBroken (c_breaker c) = false →
  PrimaryHealthy c = false → SecondaryHealthy c = false →
  let '(_, c', sm', w') := Evaluate now c sm w in
  ctrlLookup bu = Some c' →
  let route := TargetForRouting (Some ctrlLookup) (sm', w') bu in
  (∀ s, routing_state s → sm_entries sm !! bu = Some s → route = (stateToTarget s, true)) ∧
  (sm_entries sm !! bu = Some StateDraining →
     route = (if String.eqb (c_active c) ActivePrimary then ActiveSecondary else ActivePrimary,
              true)) ∧
  (sm_entries sm !! bu = Some StateBothDown → c_lastActiveBeforeAmbos c = "" →
     c_active c = ActivePrimary ∨ c_active c = ActiveSecondary →
     route = (ActivePrimary, true)).
Proof.
  intros Hw Hbu Hbr Hp Hsec. destruct (Evaluate now c sm w) as [[[a c'] sm'] w'] eqn:E.
  intros Hl. unfold Evaluate, evaluateLocked in E. unfold PrimaryHealthy, SecondaryHealthy in *.
  rewrite Hbr, Hp, Hsec in E. cbn [negb andb] in E.
  assert (∀ s, sm_entries sm !! bu = Some s → isValidTransition s StateBothDown = true →
    c' = with_ambos (if String.eqb s StateDraining then
        if String.eqb (c_active c) ActivePrimary then StateSecondary else StatePrimary
      else if negb (String.eqb s "") then s else StatePrimary) (c_ambosDownCount c + 1) c ∧
    State sm' bu = StateBothDown) as Henter.
  { intros s Hs Hv. unfold State in E. rewrite Hbu, Hs in E.
    destruct (String.eqb_spec s StateBothDown) as [Heq|Hne]; [by rewrite Heq in Hv|].
    cbn [negb] in E. unfold enterBothDownLocked, SM_Transition in E.
    rewrite Hbu, Hs in E. destruct (String.eqb_spec s StateBothDown); [done|].
    rewrite Hv in E. cbn [negb] in E. simplify_eq. split; [done|apply State_insert]. }
  split; [|split].
  - intros s Hr Hs. destruct (Henter s Hs) as [-> Hst]; [by destruct Hr as [-> | ->]|].
    unfold TargetForRouting. rewrite Hst. cbn. rewrite Hl. by destruct Hr as [-> | ->].
  - intros Hs. destruct (Henter _ Hs eq_refl) as [-> Hst].
    unfold TargetForRouting. rewrite Hst. cbn. rewrite Hl. unfold BothDownActiveCluster. cbn.
    by destruct (String.eqb (c_active c) ActivePrimary).
  - intros Hs Hlast Hact. unfold State in E. rewrite Hbu, Hs in E. cbn in E. simplify_eq.
    unfold TargetForRouting, State. rewrite Hs. cbn. rewrite Hl.
    unfold BothDownActiveCluster. rewrite Hlast. cbn. by destruct Hact as [-> | ->].
Qed.

(** ** Witnesses *)

(** One BU on its primary, with a connection to each side. *)
Definition sample_dm : DrainManager :=
  foldl run_op (NewDrainManager (30 * second))
    [OpRegister "bu1" 7%nat "primary"; OpRegister "bu1" 8%nat "secondary"].
Definition sample_sm (state : string) : StateMachine World :=
  Wire (snd (Initialize "bu1" state NewStateMachine)).
Definition sample_world : World := {| w_now := 100; w_dm := sample_dm; w_closed := [] |}.

Lemma sample_dm_ok : dm_ok sample_dm.
Proof. exact (proj1 (run_ops_ok [_; _] _ eq_refl)). Qed.

Lemma sample_ids : ids_below 2 sample_dm.
Proof. exact (proj2 (run_ops_ok [_; _] _ eq_refl)). Qed.

(** A third connection arrives. *)
Definition arrival (w : World) : World :=
  with_dm (snd (Register "bu1" 9%nat "primary" (w_dm w))) w.

Lemma arrival_traffic w : ids_below 2 (w_dm w) → traffic_step w (arrival w).
Proof.
  intros H. split; [done|]. exists 2, [OpRegister "bu1" 9%nat "primary"].
  split_and!; [lia|done|done| |done]. by repeat constructor.
Qed.

Lemma still_traffic w : ids_below 2 (w_dm w) → traffic_step w w.
Proof. intros H. split; [done|]. exists 2, []. split_and!; (lia || done || constructor). Qed.

Lemma dr_workflow_witness :
  let '(_, sm1, w1) := SM_Transition "bu1" StateDraining ReasonHealthEvent
                         (sample_sm StatePrimary) sample_world in
  TargetForRouting None (sm1, w1) "bu1" = ("secondary"%string, true) ∧
  State (fst (drain_timer "bu1" "primary" (sm1, arrival w1))) "bu1" = StateSecondary.
Proof.
  pose proof (dr_workflow None "bu1" ReasonHealthEvent (sample_sm StatePrimary) sample_world
    StatePrimary eq_refl eq_refl (or_introl eq_refl) sample_dm_ok) as H.
  destruct (SM_Transition "bu1" StateDraining ReasonHealthEvent (sample_sm StatePrimary)
    sample_world) as [[err sm1] w1] eqn:E.
  destruct H as (_ & _ & H1 & _ & _ & H2). split; [exact H1|].
  destruct (H2 (arrival w1)) as [_ H3].
  - apply arrival_traffic. injection E as <- <- <-. exact sample_ids.
  - change (stateToTarget StatePrimary) with "primary"%string in H3.
    destruct (drain_timer "bu1" "primary" (sm1, arrival w1)). exact (proj1 H3).
Defined.

(** The primary has recovered, the secondary has not. *)
Definition recovered_controller (active : string) (p s : bool) : Controller :=
  let up := {| ch_healthy := true; ch_consecutiveFailures := 0; ch_consecutiveSuccesses := 2;
               ch_lastCheckAt := 0; ch_lastCheckLatency := 0; ch_upSince := 0 |} in
  with_health (if p then up else zero_clusterHealth) (if s then up else zero_clusterHealth)
    (NewController "bu1" active ModeActivePassive sample_hc).

Lemma aborted_drain_still_closes_witness :
  let '(_, sm1, w1) := SM_Transition "bu1" StateDraining ReasonHealthEvent
                         (sample_sm StatePrimary) sample_world in
  let '(_, _, sm3, w3) := Evaluate 100 (recovered_controller "primary" true false) sm1 w1 in
  let '(sm5, w5) := drain_timer "bu1" ActivePrimary (sm3, arrival w3) in
  State sm5 "bu1" = StatePrimary ∧ 9%nat ∈ w_closed w5.
Proof.
  pose proof (aborted_drain_still_closes None "bu1" ReasonHealthEvent (sample_sm StatePrimary)
    sample_world (recovered_controller "primary" true false) 100
    eq_refl eq_refl sample_dm_ok eq_refl eq_refl eq_refl eq_refl eq_refl) as H.
  set (w1 := snd (SM_Transition "bu1" StateDraining ReasonHealthEvent (sample_sm StatePrimary)
    sample_world)) in *.
  destruct (H w1 (still_traffic w1 sample_ids)) as (_ & _ & H1).
  destruct (H1 (arrival w1) (arrival_traffic w1 sample_ids)) as (H2 & closed & Hc & H3).
  split; [exact H2|]. refine (eq_rect_r (λ l, 9%nat ∈ l) _ Hc).
  exact (proj1 (H3 3 {| tc_id := 3; tc_conn := 9; tc_target := "primary" |} eq_refl eq_refl)).
Defined.

Lemma both_down_routing_witness :
  let c := recovered_controller "secondary" false false in
  let '(_, c', sm', w') := Evaluate 100 c (sample_sm StateSecondary) sample_world in
  TargetForRouting (Some (λ _, Some c')) (sm', w') "bu1" = ("secondary"%string, true) ∧
  TargetForRouting (Some (λ _, Some c)) (sample_sm StateBothDown, sample_world) "bu1"
  = ("primary"%string, true).
Proof.
  intros c.
  destruct (Evaluate 100 c (sample_sm StateSecondary) sample_world) as [[[a c'] sm'] w'] eqn:E.
  pose proof (both_down_routing (λ _, Some c') "bu1" 100 c (sample_sm StateSecondary) sample_world
    eq_refl eq_refl eq_refl eq_refl eq_refl) as H. rewrite E in H.
  split; [exact (proj1 (H eq_refl) StateSecondary (or_intror eq_refl) eq_refl)|].
  pose proof (both_down_routing (λ _, Some c) "bu1" 100 c (sample_sm StateBothDown) sample_world
    eq_refl eq_refl eq_refl eq_refl eq_refl) as H2.
  exact (proj2 (proj2 (H2 eq_refl)) eq_refl eq_refl (or_intror eq_refl)).
Defined.

Lemma draining_gaps_witness :
  let '(_, sm1, w1) := SM_Transition "bu1" StateDraining ReasonHealthEvent
                         (sample_sm StatePrimary) sample_world in
  let '(_, _, dm2) := forceCloseOld "bu1" ActivePrimary (w_dm w1) in
  TargetForRouting None (sm1, w1) "bu1" = ("secondary"%string, true) ∧
  TargetForRouting None (sm1, with_dm dm2 w1) "bu1" = ("primary"%string, true).
Proof.
  pose proof (draining_gaps None "bu1" ReasonHealthEvent (sample_sm StatePrimary) sample_world
    eq_refl eq_refl sample_dm_ok eq_refl) as H.
  destruct (SM_Transition "bu1" StateDraining ReasonHealthEvent (sample_sm StatePrimary)
    sample_world) as [[err sm1] w1].
  destruct (forceCloseOld "bu1" ActivePrimary (w_dm w1)) as [[closed drain] dm2].
  destruct H as (_ & H1 & H2 & _). split; [exact H1|exact H2].
Defined.
