(* ===== verification/Manager.v ===== *)
(** * The failover manager ([internal/failover/manager.go])

    Feeds health snapshots into the per-BU controllers once a second and records
    metrics.  The drain reader, the metrics recorder and the health provider are
    interfaces in the code; the first two are classes here, and the health
    provider is the snapshot it returns. *)

From S2P Require Import Prelude Config Health StateMachine Controller.

Class DrainStateReader (W : Type) := drain_new_active : W → string → option string.

Class MetricsRecorder (M : Type) := {
  RecordFailover : M → M;
  RecordCircuitBreaker : string → string → M → M
}.

(** [server.FailoverMetrics], the recorder [main] attaches. *)
Record FailoverMetrics := { fm_totalFailovers : Z; fm_circuitBreaker : gmap string string }.

Definition NewFailoverMetrics : FailoverMetrics :=
  {| fm_totalFailovers := 0; fm_circuitBreaker := ∅ |}.

Definition FailoverMetrics_RecordFailover (fm : FailoverMetrics) : FailoverMetrics :=
  {| fm_totalFailovers := int64 (fm_totalFailovers fm + 1);
     fm_circuitBreaker := fm_circuitBreaker fm |}.

Definition FailoverMetrics_RecordCircuitBreaker (bu state : string) (fm : FailoverMetrics)
    : FailoverMetrics :=
  {| fm_totalFailovers := fm_totalFailovers fm;
     fm_circuitBreaker := <[bu := state]> (fm_circuitBreaker fm) |}.

Definition FailoverMetrics_Snapshot (fm : FailoverMetrics) : Z * gmap string string :=
  (fm_totalFailovers fm, fm_circuitBreaker fm).

#[export] Instance failover_metrics : MetricsRecorder FailoverMetrics :=
  {| RecordFailover := FailoverMetrics_RecordFailover;
     RecordCircuitBreaker := FailoverMetrics_RecordCircuitBreaker |}.

Section manager.
Context {W : Type} `{DrainStateReader W} {M : Type} `{MetricsRecorder M}.

Record Manager := {
  m_controllers : gmap string Controller;
  m_checker : option (gmap string ClusterHealth);
  m_metrics : option M;
  m_dm : bool  (* whether a drain reader is attached *)
}.

Definition with_controllers (cs : gmap string Controller) (m : Manager) : Manager :=
  {| m_controllers := cs; m_checker := m_checker m; m_metrics := m_metrics m; m_dm := m_dm m |}.

Definition SetDrainReader (m : Manager) : Manager :=
  {| m_controllers := m_controllers m; m_checker := m_checker m; m_metrics := m_metrics m;
     m_dm := true |}.

Definition SetChecker (checker : gmap string ClusterHealth) (m : Manager) : Manager :=
  {| m_controllers := m_controllers m; m_checker := Some checker; m_metrics := m_metrics m;
     m_dm := m_dm m |}.

Definition SetMetrics (metrics : option M) (m : Manager) : Manager :=
  {| m_controllers := m_controllers m; m_checker := m_checker m; m_metrics := metrics;
     m_dm := m_dm m |}.

Definition new_controller (name : string) (c : ClusterConfig) : option Controller :=
  if negb (String.eqb (cl_Mode c) ModeActivePassive)
     || negb (hc_AutoFailover (cl_HealthCheck c)) then None
  else Some (NewController name (cl_Active c) (cl_Mode c) (cl_HealthCheck c)).

Definition Reconfigure (clusters : gmap string ClusterConfig) (m : Manager) : Manager :=
  with_controllers (map_imap new_controller clusters) m.

Definition NewManager (clusters : gmap string ClusterConfig) : Manager :=
  Reconfigure clusters
    {| m_controllers := ∅; m_checker := None; m_metrics := None; m_dm := false |}.

Definition Manager_Controller (m : Manager) (bu : string) : option Controller :=
  m_controllers m !! bu.

Definition EffectiveActive (m : Manager) (sm : StateMachine W) (w : W) (bu : string)
    : string * bool :=
  let state := State sm bu in
  if String.eqb state StatePrimary then (ActivePrimary, true)
  else if String.eqb state StateSecondary then (ActiveSecondary, true)
  else if String.eqb state StateDraining then
    match (if m_dm m then drain_new_active w bu else None) with
    | Some newActive => (newActive, true)
    | None => (""%string, false)
    end
  else if String.eqb state StateBothDown then
    match m_controllers m !! bu with
    | None => (""%string, false)
    | Some ctrl =>
        if String.eqb (BothDownActiveCluster ctrl) StatePrimary then (ActivePrimary, true)
        else if String.eqb (BothDownActiveCluster ctrl) StateSecondary
        then (ActiveSecondary, true)
        else (""%string, false)
    end
  else (""%string, false).

(** The metrics of one BU's evaluation. *)
Definition record_metrics (bu action : string) (ctrl : Controller) (metrics : M) : M :=
  let metrics := if negb (String.eqb action ActionNone) then RecordFailover metrics
                 else metrics in
  RecordCircuitBreaker bu (if IsCircuitBroken ctrl then "broken" else "ok") metrics.

(** The loop of [sync]: [order] is the order the map is ranged in, with the
    clock at each BU. *)
Fixpoint sync_loop (healthMap : gmap string ClusterHealth) (order : list (string * time))
    (m : Manager) (sm : StateMachine W) (w : W) : res (Manager * StateMachine W * W) :=
  match order with
  | [] => Ok (m, sm, w)
  | (bu, now) :: order =>
      match m_controllers m !! bu, healthMap !! bu with
      | Some ctrl, Some ch =>
          ctrl ← RecordHealthResult now "primary" (sn_Healthy (cth_Primary ch))
                   (sn_LastCheckLatency (cth_Primary ch)) ctrl;
          ctrl ← RecordHealthResult now "secondary" (sn_Healthy (cth_Secondary ch))
                   (sn_LastCheckLatency (cth_Secondary ch)) ctrl;
          let '(action, ctrl, sm, w) := Evaluate now ctrl sm w in
          let m := with_controllers (<[bu := ctrl]> (m_controllers m)) m in
          sync_loop healthMap order
            (SetMetrics (record_metrics bu action ctrl <$> m_metrics m) m) sm w
      | _, _ => sync_loop healthMap order m sm w
      end
  end.

Definition sync (order : list (string * time)) (m : Manager) (sm : StateMachine W) (w : W)
    : res (Manager * StateMachine W * W) :=
  match m_checker m with
  | None => Ok (m, sm, w)
  | Some checker => sync_loop checker order m sm w
  end.
End manager.
Arguments Manager : clear implicits.

(** ** One BU at a time *)

Lemma SM_Transition_sim {W1 W2} bu to reason (sm1 : StateMachine W1) (sm2 : StateMachine W2) w1 w2 :
  sm_entries sm1 !! bu = sm_entries sm2 !! bu →
  sm_entries (snd (fst (SM_Transition bu to reason sm1 w1))) !! bu =
  sm_entries (snd (fst (SM_Transition bu to reason sm2 w2))) !! bu.
Proof.
  intros He. unfold SM_Transition. rewrite <- He.
  destruct (sm_entries sm1 !! bu) as [s|] eqn:E; [|cbn; by rewrite !lookup_insert, !decide_True by done].
  repeat case_if; cbn; rewrite ?lookup_insert, ?decide_True by done; congruence.
Qed.

Lemma Evaluate_sim {W1 W2} now c (sm1 : StateMachine W1) (sm2 : StateMachine W2) w1 w2 :
  sm_entries sm1 !! c_buName c = sm_entries sm2 !! c_buName c →
  let '(a1, c1, sm1', _) := Evaluate now c sm1 w1 in
  let '(a2, c2, sm2', _) := Evaluate now c sm2 w2 in
  a1 = a2 ∧ c1 = c2 ∧ sm_entries sm1' !! c_buName c = sm_entries sm2' !! c_buName c.
Proof.
  intros He. rewrite !evaluate_decide.
  assert (State sm1 (c_buName c) = State sm2 (c_buName c)) as Hs by (unfold State; by rewrite He).
  unfold c_decision, enterBothDownLocked, triggerFailoverLocked. rewrite Hs.
  pose proof (λ to reason, SM_Transition_sim (c_buName c) to reason sm1 sm2 w1 w2 He) as Hsim.
  destruct (br_circuitBroken (c_breaker c)); [done|].
  destruct (decide_failover _ _ _ _ _) as [| |to|from]; [done|..].
  - specialize (Hsim StateBothDown ReasonHealthEvent).
    destruct (SM_Transition _ _ _ sm1 _) as [[? ?] ?], (SM_Transition _ _ _ sm2 _) as [[? ?] ?].
    done.
  - specialize (Hsim to ReasonRecovery).
    destruct (SM_Transition _ _ _ sm1 _) as [[? ?] ?], (SM_Transition _ _ _ sm2 _) as [[? ?] ?].
    done.
  - destruct (canFailoverLocked _ _ _) as [[] b]; [|done].
    change (c_buName (with_breaker b c)) with (c_buName c).
    destruct (br_circuitBroken (c_breaker (with_breaker b c))); [done|].
    specialize (Hsim StateDraining ReasonHealthEvent).
    destruct (SM_Transition _ _ _ sm1 _) as [[? ?] ?], (SM_Transition _ _ _ sm2 _) as [[? ?] ?].
    done.
Qed.

Lemma Evaluate_frame {W} now c (sm : StateMachine W) w :
  let '(_, c', sm', _) := Evaluate now c sm w in
  c_buName c' = c_buName c ∧
  ∀ bu', bu' ≠ c_buName c → sm_entries sm' !! bu' = sm_entries sm !! bu'.
Proof.
  rewrite evaluate_decide. unfold enterBothDownLocked, triggerFailoverLocked.
  pose proof (λ to reason, SM_Transition_frame (c_buName c) to reason sm w) as Hfr.
  destruct (br_circuitBroken (c_breaker c)); [done|].
  destruct (c_decision c sm) as [| |to|from]; [done|..].
  - specialize (Hfr StateBothDown ReasonHealthEvent).
    destruct (SM_Transition _ _ _ sm _) as [[? ?] ?]. by destruct Hfr.
  - specialize (Hfr to ReasonRecovery).
    destruct (SM_Transition _ _ _ sm _) as [[? ?] ?]. by destruct Hfr.
  - destruct (canFailoverLocked _ _ _) as [[] b]; [|done].
    change (c_buName (with_breaker b c)) with (c_buName c).
    destruct (br_circuitBroken (c_breaker (with_breaker b c))); [done|].
    specialize (Hfr StateDraining ReasonHealthEvent).
    destruct (SM_Transition _ _ _ sm _) as [[? ?] ?]. by destruct Hfr.
Qed.

(** The machine of a single BU, observed by nobody. *)
Definition solo (bu : string) (e : option string) : StateMachine unit :=
  {| sm_entries := match e with Some s => {[bu := s]} | None => ∅ end; sm_callbacks := [] |}.

Lemma solo_lookup bu e : sm_entries (solo bu e) !! bu = e.
Proof. destruct e; cbn; [by rewrite lookup_singleton, decide_True|by rewrite lookup_empty]. Qed.

(** The specification of a tick for one BU: its two health results, then the
    decision, on its own state. *)
Definition record_both (now : time) (ch : ClusterHealth) (c : Controller) : Controller :=
  let ft := failure_threshold (c_hcCfg c) in
  let rt := recovery_threshold (c_hcCfg c) in
  with_health
    (record_health now ft rt (sn_Healthy (cth_Primary ch)) (sn_LastCheckLatency (cth_Primary ch))
       (c_primaryHealth c))
    (record_health now ft rt (sn_Healthy (cth_Secondary ch))
       (sn_LastCheckLatency (cth_Secondary ch)) (c_secondaryHealth c)) c.

Definition tick_bu (now : time) (ch : ClusterHealth) (c : Controller) (e : option string)
    : string * Controller * option string :=
  let c := record_both now ch c in
  let '(a, c', sm', _) := Evaluate now c (solo (c_buName c) e) tt in
  (a, c', sm_entries sm' !! c_buName c).

Lemma tick_bu_eval {W} now ch c (sm : StateMachine W) w :
  let '(a, c', sm', _) := Evaluate now (record_both now ch c) sm w in
  tick_bu now ch c (sm_entries sm !! c_buName c) = (a, c', sm_entries sm' !! c_buName c) ∧
  c_buName c' = c_buName c ∧
  ∀ bu', bu' ≠ c_buName c → sm_entries sm' !! bu' = sm_entries sm !! bu'.
Proof.
  pose proof (Evaluate_frame now (record_both now ch c) sm w) as Hf.
  pose proof (Evaluate_sim now (record_both now ch c) sm
    (solo (c_buName c) (sm_entries sm !! c_buName c)) w tt) as Hs.
  unfold tick_bu. change (c_buName (record_both now ch c)) with (c_buName c) in *.
  rewrite solo_lookup in Hs. specialize (Hs eq_refl).
  destruct (Evaluate now (record_both now ch c) sm w) as [[[a1 c1] sm1] w1].
  destruct (Evaluate now _ (solo _ _) tt) as [[[a2 c2] sm2] w2].
  destruct Hs as (-> & -> & ->). done.
Qed.

(** Controllers are stored under the name of their BU. *)
Definition named (cs : gmap string Controller) : Prop :=
  ∀ bu c, cs !! bu = Some c → c_buName c = bu.

(** What a tick at [now] does to a BU, from its controller and state. *)
Definition after_tick (h : option ClusterHealth) (now : time)
    (p : option Controller * option string) : option Controller * option string :=
  match p, h with
  | (Some c, e), Some ch => let '(_, c', e') := tick_bu now ch c e in (Some c', e')
  | _, _ => p
  end.

Section tick.
Context {W M : Type} `{MetricsRecorder M}.

Lemma sync_loop_one healthMap bu now order (m : Manager M) (sm : StateMachine W) w :
  named (m_controllers m) →
  ∃ m' sm' w', sync_loop healthMap ((bu, now) :: order) m sm w =
               sync_loop healthMap order m' sm' w' ∧
    named (m_controllers m') ∧ m_checker m' = m_checker m ∧
    (m_controllers m' !! bu, sm_entries sm' !! bu) =
      after_tick (healthMap !! bu) now (m_controllers m !! bu, sm_entries sm !! bu) ∧
    ∀ bu', bu' ≠ bu → m_controllers m' !! bu' = m_controllers m !! bu' ∧
                      sm_entries sm' !! bu' = sm_entries sm !! bu'.
Proof.
  intros Hn. cbn [sync_loop].
  destruct (m_controllers m !! bu) as [c|] eqn:Ec; [|by eexists m, sm, w; rewrite Ec].
  destruct (healthMap !! bu) as [ch|] eqn:Eh; [|by eexists m, sm, w; rewrite Ec].
  cbn [RecordHealthResult healthFor String.eqb]. unfold RecordHealthResult; cbn.
  pose proof (tick_bu_eval now ch c sm w) as Ht. unfold record_both in Ht.
  rewrite (Hn _ _ Ec) in Ht.
  match goal with |- context [Evaluate now ?c sm w] => set (c1 := c) end.
  change (Evaluate now _ sm w) with (Evaluate now c1 sm w) in Ht.
  destruct (Evaluate now c1 sm w) as [[[a c'] sm'] w'].
  destruct Ht as (Ht & Hbu & Hf). do 3 eexists. split; [reflexivity|]. cbn. split; [|split].
  - intros bu' c2. rewrite lookup_insert_Some. intros [[<- <-]|[_ Hl]]; [done|by apply Hn].
  - done.
  - rewrite lookup_insert, decide_True, Ht by done. split; [done|].
    intros bu' Hne. by rewrite lookup_insert_ne, Hf.
Qed.

Lemma sync_loop_spec healthMap order (m : Manager M) (sm : StateMachine W) w :
  named (m_controllers m) → NoDup (map fst order) →
  ∃ m' sm' w', sync_loop healthMap order m sm w = Ok (m', sm', w') ∧
    named (m_controllers m') ∧ m_checker m' = m_checker m ∧
    (∀ bu now, (bu, now) ∈ order →
       (m_controllers m' !! bu, sm_entries sm' !! bu) =
       after_tick (healthMap !! bu) now (m_controllers m !! bu, sm_entries sm !! bu)) ∧
    (∀ bu, bu ∉ map fst order → m_controllers m' !! bu = m_controllers m !! bu ∧
                                sm_entries sm' !! bu = sm_entries sm !! bu).
Proof.
  revert m sm w. induction order as [|[bu now] order IH]; intros m sm w Hn Hnd.
  - exists m, sm, w. split_and!; try done. by intros bu now ?%not_elem_of_nil.
  - cbn [map fst] in Hnd. apply list.NoDup_cons in Hnd as [Hnin Hnd].
    destruct (sync_loop_one healthMap bu now order m sm w Hn)
      as (m1 & sm1 & w1 & -> & Hn1 & Hc1 & Hat & Hother).
    destruct (IH m1 sm1 w1 Hn1 Hnd) as (m2 & sm2 & w2 & -> & Hn2 & Hc2 & Hin & Hout).
    exists m2, sm2, w2. split; [done|]. split; [done|]. split; [congruence|]. split.
    + intros bu' now' [[= -> ->]|Hin']%list.elem_of_cons.
      * destruct (Hout bu Hnin) as [-> ->]. done.
      * rewrite (Hin _ _ Hin'). destruct (Hother bu') as [-> ->]; [|done].
        intros ->. apply Hnin, list_elem_of_fmap. by exists (bu, now').
    + intros bu' Hni. cbn [map fst] in Hni. apply not_elem_of_cons in Hni as [Hne Hni].
      destruct (Hout bu' Hni) as [-> ->]. by apply Hother.
Qed.
End tick.

(** ** Controllers that start without history *)

(** A controller [k] ticks after its creation, below the recovery threshold,
    having seen the primary healthy every time. *)
Definition young (bu : string) (hc : HealthCheckConfig) (k : Z) (c : Controller) : Prop :=
  c_buName c = bu ∧ c_hcCfg c = hc ∧ c_mode c = ModeActivePassive ∧
  br_circuitBroken (c_breaker c) = false ∧
  ch_healthy (c_primaryHealth c) = false ∧ ch_healthy (c_secondaryHealth c) = false ∧
  ch_consecutiveSuccesses (c_primaryHealth c) = k ∧
  0 ≤ ch_consecutiveSuccesses (c_secondaryHealth c) ≤ k.

Lemma record_health_young now ft rt ok latency ch k :
  ch_healthy ch = false → 0 ≤ ch_consecutiveSuccesses ch ≤ k → k + 1 < rt →
  ch_healthy (record_health now ft rt ok latency ch) = false ∧
  0 ≤ ch_consecutiveSuccesses (record_health now ft rt ok latency ch) ≤ k + 1.
Proof.
  intros Hh Hs Hk. unfold record_health. destruct ok; rewrite Hh; cbn.
  - rewrite (proj2 (Z.leb_gt rt (ch_consecutiveSuccesses ch + 1))) by lia. cbn. lia.
  - rewrite andb_false_r. lia.
Qed.

Lemma record_both_young now ch bu hc k c :
  young bu hc k c → k + 1 < recovery_threshold hc → sn_Healthy (cth_Primary ch) = true →
  young bu hc (k + 1) (record_both now ch c).
Proof.
  intros (Hbu & Hhc & Hm & Hb & Hp & Hs & Hkp & Hks) Hk Hup. unfold young, record_both.
  rewrite Hhc, Hup. cbn [with_health c_buName c_hcCfg c_mode c_breaker c_primaryHealth
    c_secondaryHealth].
  pose proof (record_health_young now (failure_threshold hc) (recovery_threshold hc)
    (sn_Healthy (cth_Secondary ch)) (sn_LastCheckLatency (cth_Secondary ch)) _ k Hs Hks Hk)
    as [? ?].
  pose proof (record_health_young now (failure_threshold hc) (recovery_threshold hc)
    true (sn_LastCheckLatency (cth_Primary ch)) _ k Hp ltac:(lia) Hk) as [? _].
  split_and!; try done; try lia; try (by cbn; lia).
Qed.

Lemma young_tick now ch bu hc k c e :
  young bu hc k c → k + 1 < recovery_threshold hc → sn_Healthy (cth_Primary ch) = true →
  known e →
  ∃ a c', tick_bu now ch c (Some e) = (a, c', Some StateBothDown) ∧ young bu hc (k + 1) c'.
Proof.
  intros Hy Hk Hup He. pose proof (record_both_young now ch bu hc k c Hy Hk Hup) as Hy'.
  unfold tick_bu. set (c1 := record_both now ch c) in *.
  destruct Hy' as (Hbu & Hhc & Hm & Hb & Hp & Hs & Hkp & Hks).
  rewrite evaluate_decide, Hb. unfold c_decision, decide_failover, PrimaryHealthy, SecondaryHealthy.
  rewrite Hp, Hs. cbn [negb andb].
  assert (State (solo (c_buName c1) (Some e)) (c_buName c1) = e) as ->
    by (unfold State; by rewrite solo_lookup).
  destruct (String.eqb_spec e StateBothDown) as [->|Hne].
  - rewrite solo_lookup. by do 2 eexists.
  - unfold enterBothDownLocked, SM_Transition. rewrite solo_lookup.
    assert (String.eqb e StateBothDown = false) as -> by (by apply String.eqb_neq).
    assert (isValidTransition e StateBothDown = true) as ->
      by (destruct He as [-> | [-> | [-> | ->]]]; done).
    cbn [negb]. do 2 eexists. split; [cbn; by rewrite lookup_insert, decide_True|].
    destruct Hks. unfold young. by split_and!.
Qed.

Lemma young_recovers now ch bu hc k c :
  young bu hc k c → k + 1 = recovery_threshold hc → sn_Healthy (cth_Primary ch) = true →
  ∃ a c', tick_bu now ch c (Some StateBothDown) = (a, c', Some StatePrimary).
Proof.
  intros (Hbu & Hhc & Hm & Hb & Hp & Hs & Hkp & Hks) Hk Hup. unfold tick_bu.
  set (c1 := record_both now ch c).
  assert (ch_healthy (c_primaryHealth c1) = true) as Hp1.
  { unfold c1, record_both. rewrite Hup, Hhc. cbn. rewrite Hp, Hkp, Hk, Z.leb_refl. done. }
  rewrite evaluate_decide. change (c_breaker c1) with (c_breaker c). rewrite Hb.
  unfold c_decision, decide_failover, PrimaryHealthy, SecondaryHealthy. rewrite Hp1.
  assert (State (solo (c_buName c1) (Some StateBothDown)) (c_buName c1) = StateBothDown) as ->
    by (unfold State; by rewrite solo_lookup).
  cbn [negb andb String.eqb]. rewrite String.eqb_refl.
  unfold SM_Transition. rewrite solo_lookup. cbn.
  do 2 eexists. by rewrite lookup_insert, decide_True.
Qed.

Section rounds.
Context {W M : Type} `{MetricsRecorder M}.

(** Successive runs of [sync], each with the snapshot its checker gives. *)
Definition sync_rounds (rounds : list (list (string * time) * gmap string ClusterHealth))
    (m : Manager M) (sm : StateMachine W) (w : W) : res (Manager M * StateMachine W * W) :=
  foldl (λ st '(order, checker),
           '(m, sm, w) ← st; sync order (SetChecker checker m) sm w) (Ok (m, sm, w)) rounds.

(** A round that reaches the BU and finds its primary healthy. *)
Definition primary_up (bu : string)
    (round : list (string * time) * gmap string ClusterHealth) : Prop :=
  NoDup (map fst (fst round)) ∧ bu ∈ map fst (fst round) ∧
  ∃ ch, snd round !! bu = Some ch ∧ sn_Healthy (cth_Primary ch) = true.

Lemma sync_round_tick bu round (m : Manager M) (sm : StateMachine W) w :
  named (m_controllers m) → primary_up bu round →
  ∃ now ch m' sm' w', sync (fst round) (SetChecker (snd round) m) sm w = Ok (m', sm', w') ∧
    named (m_controllers m') ∧ sn_Healthy (cth_Primary ch) = true ∧
    (m_controllers m' !! bu, sm_entries sm' !! bu) =
    after_tick (Some ch) now (m_controllers m !! bu, sm_entries sm !! bu).
Proof.
  intros Hn (Hnd & ([bu' now] & -> & Hin)%elem_of_map & ch & Hch & Hup).
  unfold sync. cbn [m_checker SetChecker].
  destruct (sync_loop_spec (snd round) (fst round) (SetChecker (snd round) m) sm w Hn Hnd)
    as (m' & sm' & w' & -> & Hn' & _ & Hin' & _).
  exists now, ch, m', sm', w'. split_and!; try done. cbn [fst] in *. rewrite <- Hch.
  by apply Hin'.
Qed.

Lemma young_rounds bu hc rounds (m : Manager M) (sm : StateMachine W) w s c :
  named (m_controllers m) → m_controllers m !! bu = Some c → young bu hc 0 c →
  sm_entries sm !! bu = Some s → known s → Forall (primary_up bu) rounds →
  0 < Z.of_nat (length rounds) ≤ recovery_threshold hc → 2 ≤ recovery_threshold hc →
  ∃ m' sm' w', sync_rounds rounds m sm w = Ok (m', sm', w') ∧ named (m_controllers m') ∧
    if Z.of_nat (length rounds) <? recovery_threshold hc
    then ∃ c', m_controllers m' !! bu = Some c' ∧ young bu hc (Z.of_nat (length rounds)) c' ∧
               sm_entries sm' !! bu = Some StateBothDown
    else sm_entries sm' !! bu = Some StatePrimary.
Proof.
  intros Hn Hc Hy Hs Hk. induction rounds as [|r rounds IH] using rev_ind; [cbn; lia|].
  intros [Hups [Hup _]%list.Forall_cons]%list.Forall_app Hlen Hrt.
  rewrite length_app in Hlen |- *. cbn [length] in Hlen |- *.
  unfold sync_rounds. rewrite foldl_snoc. fold (sync_rounds rounds m sm w).
  assert (∃ m1 sm1 w1 c1 e1, sync_rounds rounds m sm w = Ok (m1, sm1, w1) ∧
    named (m_controllers m1) ∧ m_controllers m1 !! bu = Some c1 ∧
    young bu hc (Z.of_nat (length rounds)) c1 ∧ sm_entries sm1 !! bu = Some e1 ∧ known e1 ∧
    (0 < Z.of_nat (length rounds) → e1 = StateBothDown))
    as (m1 & sm1 & w1 & c1 & e1 & -> & Hn1 & Hc1 & Hy1 & He1 & Hk1 & Hbd).
  { destruct rounds as [|r0 rounds0]; [by exists m, sm, w, c, s|].
    destruct IH as (m1 & sm1 & w1 & -> & Hn1 & Hif); [done|cbn [length] in *; lia|done|].
    destruct (Z.ltb_spec (Z.of_nat (length (r0 :: rounds0))) (recovery_threshold hc)); [|lia].
    destruct Hif as (c1 & ? & ? & ?). exists m1, sm1, w1, c1, StateBothDown.
    unfold known. split_and!; auto. }
  cbn [res_bind mbind]. destruct r as [order checker].
  destruct (sync_round_tick bu (order, checker) m1 sm1 w1 Hn1 Hup)
    as (now & ch & m2 & sm2 & w2 & Heq & Hn2 & Hh & Hat).
  cbn [fst snd] in Heq. exists m2, sm2, w2. split; [exact Heq|]. split; [done|].
  rewrite Hc1, He1 in Hat. cbn [after_tick] in Hat.
  destruct (Z.ltb_spec (Z.of_nat (length rounds + 1)) (recovery_threshold hc)).
  - destruct (young_tick now ch bu hc _ c1 e1 Hy1 ltac:(lia) Hh Hk1) as (a & c2 & Ht & Hy2).
    rewrite Ht in Hat. injection Hat as -> ->. exists c2. split; [done|]. split; [|done].
    by replace (Z.of_nat (length rounds + 1)) with (Z.of_nat (length rounds) + 1) by lia.
  - rewrite (Hbd ltac:(lia)) in Hat.
    destruct (young_recovers now ch bu hc _ c1 Hy1 ltac:(lia) Hh) as (a & c2 & Ht).
    rewrite Ht in Hat. by injection Hat.
Qed.
End rounds.

Lemma new_controllers_named (clusters : gmap string ClusterConfig) :
  named (map_imap new_controller clusters).
Proof.
  intros bu c. rewrite map_lookup_imap. intros (cl & _ & Hnew)%bind_Some.
  unfold new_controller in Hnew. destruct (_ || _); [done|]. by injection Hnew as <-.
Qed.

(** ** Properties *)

Section properties.
Context {W M : Type} `{MetricsRecorder M}.

(** BUs are isolated.  Whatever the order the controllers are ranged in,
    a run of [sync] succeeds and does to each BU exactly what a tick does to
    that BU's own controller and state, as if it were alone; a BU without a
    health snapshot or without a controller is untouched. *)
Theorem sync_isolates_BUs order checker (m : Manager M) (sm : StateMachine W) w :
  m_checker m = Some checker → named (m_controllers m) → NoDup (map fst order) →
  ∃ m' sm' w', sync order m sm w = Ok (m', sm', w') ∧ named (m_controllers m') ∧
    (∀ bu now, (bu, now) ∈ order →
       (m_controllers m' !! bu, sm_entries sm' !! bu) =
       after_tick (checker !! bu) now (m_controllers m !! bu, sm_entries sm !! bu)) ∧
    (∀ bu, bu ∉ map fst order ∨ m_controllers m !! bu = None ∨ checker !! bu = None →
       m_controllers m' !! bu = m_controllers m !! bu ∧
       sm_entries sm' !! bu = sm_entries sm !! bu).
Proof.
  intros Hc Hn Hnd. unfold sync. rewrite Hc.
  destruct (sync_loop_spec checker order m sm w Hn Hnd)
    as (m' & sm' & w' & -> & Hn' & _ & Hin & Hout).
  exists m', sm', w'. split; [done|]. split; [done|]. split; [done|]. intros bu Hbu.
  destruct (decide (bu ∈ map fst order)) as [Hi|Hi]; [|by apply Hout].
  destruct Hbu as [Hbu|Hbu]; [done|].
  apply elem_of_map in Hi as ([bu' now] & -> & Hi). cbn [fst] in *.
  specialize (Hin _ _ Hi). unfold after_tick in Hin.
  destruct (m_controllers m !! bu') as [c|], (checker !! bu') as [ch|];
    destruct Hbu; try discriminate; injection Hin as -> ->; done.
Qed.

(** Every start and every hot reload takes the failover BUs through
    BOTH_DOWN.  The controllers [Reconfigure] creates believe both clusters
    down, so with a recovery threshold of at least two (the default is two) an
    active_passive BU with auto-failover goes to BOTH_DOWN at the first tick
    and stays there below the threshold, although its primary was found healthy
    at every tick; it then settles on PRIMARIO, whatever state it was in and
    whatever side the configuration makes active. *)
Theorem reconfigure_outage clusters bu cluster rounds (m : Manager M) (sm : StateMachine W) w s :
  clusters !! bu = Some cluster → cl_Mode cluster = ModeActivePassive →
  hc_AutoFailover (cl_HealthCheck cluster) = true →
  sm_entries sm !! bu = Some s → known s → Forall (primary_up bu) rounds →
  let rt := recovery_threshold (cl_HealthCheck cluster) in
  2 ≤ rt → 0 < Z.of_nat (length rounds) ≤ rt →
  ∃ m' sm' w', sync_rounds rounds (Reconfigure clusters m) sm w = Ok (m', sm', w') ∧
    State sm' bu = if Z.of_nat (length rounds) <? rt then StateBothDown else StatePrimary.
Proof.
  intros Hcl Hm Hauto Hs Hk Hups rt Hrt Hlen.
  assert (m_controllers (Reconfigure clusters m) !! bu =
          Some (NewController bu (cl_Active cluster) ModeActivePassive (cl_HealthCheck cluster)))
    as Hc.
  { cbn. rewrite map_lookup_imap, Hcl. cbn. unfold new_controller. by rewrite Hm, Hauto. }
  destruct (young_rounds bu (cl_HealthCheck cluster) rounds (Reconfigure clusters m) sm w s _
    (new_controllers_named clusters) Hc ltac:(by unfold young) Hs Hk Hups Hlen Hrt)
    as (m' & sm' & w' & Heq & _ & Hif).
  exists m', sm', w'. split; [done|]. unfold State. fold rt in Hif.
  destruct (Z.of_nat (length rounds) <? rt); [destruct Hif as (? & _ & _ & ->)|rewrite Hif]; done.
Qed.
End properties.

(** ** Witnesses *)

Definition sample_snapshot (ok : bool) : Snapshot :=
  {| sn_Healthy := ok; sn_ConsecutiveFailures := 0; sn_ConsecutiveSuccesses := 1;
     sn_LastCheckAt := 0; sn_LastCheckLatency := 0; sn_LastStatus := StatusHealthy;
     sn_LastError := ""; sn_UpSince := 0; sn_Bootstrap := "" |}.
Definition sample_health : gmap string ClusterHealth :=
  {["bu1"%string := {| cth_Name := "bu1"; cth_Primary := sample_snapshot true;
                       cth_Secondary := sample_snapshot true |}]}.

Definition default_hc : HealthCheckConfig :=
  {| hc_Enabled := true; hc_Interval := second; hc_FailureThreshold := 0;
     hc_RecoveryThreshold := 0; hc_RecoveryMinUptime := 0; hc_MinTimeBetweenFailovers := 0;
     hc_AutoFailover := true; hc_AutoFailback := false; hc_AutoRebalance := false;
     hc_RequireTargetHealthy := false; hc_CircuitBreakerMaxFailovers := 0;
     hc_CircuitBreakerWindow := 0; hc_SaslUsername := ""; hc_SaslPassword := "" |}.

(** A BU configured to be active on its secondary. *)
Definition secondary_cluster : ClusterConfig :=
  {| cl_Mode := ModeActivePassive; cl_Port := 9092; cl_Active := ActiveSecondary;
     cl_Primary := {| ep_Bootstrap := "a:9092"; ep_Weight := 0 |};
     cl_Secondary := {| ep_Bootstrap := "b:9092"; ep_Weight := 0 |};
     cl_HealthCheck := default_hc |}.
Definition secondary_clusters : gmap string ClusterConfig := {["bu1"%string := secondary_cluster]}.
Definition secondary_machine : StateMachine unit :=
  snd (Initialize "bu1" StateSecondary NewStateMachine).
Definition sample_manager : Manager FailoverMetrics :=
  SetMetrics (Some NewFailoverMetrics) (NewManager secondary_clusters).

Lemma sync_isolates_BUs_witness :
  ∃ m' sm' w',
    sync [("bu1"%string, 5); ("bu2"%string, 6)]
      (SetChecker sample_health sample_manager) secondary_machine tt = Ok (m', sm', w') ∧
    sm_entries sm' !! "bu1"%string = Some StateBothDown ∧ sm_entries sm' !! "bu2"%string = None.
Proof.
  destruct (sync_isolates_BUs [("bu1"%string, 5); ("bu2"%string, 6)] sample_health
    (SetChecker sample_health sample_manager) secondary_machine tt eq_refl
    (new_controllers_named secondary_clusters)) as (m' & sm' & w' & Heq & _ & Hin & Hout).
  { repeat constructor; set_solver. }
  exists m', sm', w'. split; [exact Heq|]. split.
  - specialize (Hin "bu1"%string 5 ltac:(apply list.elem_of_cons; by left)).
    exact (f_equal snd Hin).
  - exact (proj2 (Hout "bu2"%string (or_intror (or_introl eq_refl)))).
Defined.

Lemma reconfigure_outage_witness :
  let round := ([("bu1"%string, 5)], sample_health) in
  (∃ m' sm' w', sync_rounds [round]
     (Reconfigure secondary_clusters sample_manager) secondary_machine tt = Ok (m', sm', w') ∧
     State sm' "bu1" = StateBothDown) ∧
  (∃ m' sm' w', sync_rounds [round; round]
     (Reconfigure secondary_clusters sample_manager) secondary_machine tt = Ok (m', sm', w') ∧
     State sm' "bu1" = StatePrimary).
Proof.
  assert (∀ n, Forall (primary_up "bu1") (repeat ([("bu1"%string, 5)], sample_health) n)) as Hup.
  { intros n. apply list.Forall_forall. intros r Hr%list_elem_of_In%repeat_spec. subst r.
    split_and!; [repeat constructor; set_solver|set_solver|]. by eexists. }
  intros round. split.
  - exact (reconfigure_outage secondary_clusters "bu1" secondary_cluster [round]
      sample_manager secondary_machine tt StateSecondary eq_refl eq_refl eq_refl eq_refl
      (or_intror (or_introl eq_refl)) (Hup 1%nat) ltac:(vm_compute; discriminate)
      ltac:(split; [reflexivity|vm_compute; discriminate])).
  - exact (reconfigure_outage secondary_clusters "bu1" secondary_cluster
      [round; round]
      sample_manager secondary_machine tt StateSecondary eq_refl eq_refl eq_refl eq_refl
      (or_intror (or_introl eq_refl)) (Hup 2%nat) ltac:(vm_compute; discriminate)
      ltac:(split; [reflexivity|vm_compute; discriminate])).
Defined.
