(* ===== verification/Connection.v ===== *)
(** * Client connections ([internal/proxy/connection.go])

    A connection from acceptance to close, composing the other components: the
    upstream is chosen through the DR coordinator, or the router's weights and
    the rebalancer; the connection is registered with the drain manager; SASL is
    passed through; the first other request is intercepted (Metadata), routed
    (Produce and Fetch) or forwarded; the rest is copied both ways.

    [conn_state] is what connections share.  A handler ends ([Ok]), panics, or
    blocks for ever ([None]).  Its environment [conn_env] gives what the outside
    decides: the clock, the connections dialled for the session ([ce_dial]) and to
    ask a cluster for Metadata ([ce_forward]), the random roll, and how much each
    direction of the final copy had moved when the first of the two ended.  The drain
    manager and the router are present, as the listener passes them; the
    coordinator may be absent. *)

From stdpp Require Import functions.
From S2P Require Import Prelude Bytes Conn Protocol RequestBody Config Metadata Synthetic.
From S2P Require Import LeaderCache Sasl Cache Pool Stats Router Rebalancer StateMachine.
From S2P Require Import Drain Controller DRCoordinator.

Definition MaxFrameSize : Z := 100 * 1024 * 1024.

Record conn_env := {
  ce_route : route_env;
  ce_dial : string → res conn;
  ce_forward : string → res conn;
  ce_roll : Z;
  ce_up : copying;
  ce_down : copying
}.

Definition ce_now (env : conn_env) : time := re_now (ce_route env).

Record conn_state (C : Type) := {
  cs_sys : System;
  cs_rebalancers : gmap string Rebalancer;
  cs_selectCounter : Z;
  cs_router : Router C;
  cs_stats : Stats;
  cs_client : conn;
  cs_peers : nat → conn;
  cs_upstream : option conn
}.
Arguments cs_sys {C}.
Arguments cs_rebalancers {C}.
Arguments cs_selectCounter {C}.
Arguments cs_router {C}.
Arguments cs_stats {C}.
Arguments cs_client {C}.
Arguments cs_peers {C}.
Arguments cs_upstream {C}.
Arguments Build_conn_state {C}.

Definition some_res {A} (r : res A) : res (option A) := a ← r; Ok (Some a).

Section Connection.

Context {C : Type} `{PartitionLeaderCache C}.

Definition with_sys (sys : System) (s : conn_state C) : conn_state C :=
  {| cs_sys := sys; cs_rebalancers := cs_rebalancers s; cs_selectCounter := cs_selectCounter s;
     cs_router := cs_router s; cs_stats := cs_stats s; cs_client := cs_client s;
     cs_peers := cs_peers s; cs_upstream := cs_upstream s |}.
Definition with_rebalancers (r : gmap string Rebalancer) (s : conn_state C) : conn_state C :=
  {| cs_sys := cs_sys s; cs_rebalancers := r; cs_selectCounter := cs_selectCounter s;
     cs_router := cs_router s; cs_stats := cs_stats s; cs_client := cs_client s;
     cs_peers := cs_peers s; cs_upstream := cs_upstream s |}.
Definition with_counter (n : Z) (s : conn_state C) : conn_state C :=
  {| cs_sys := cs_sys s; cs_rebalancers := cs_rebalancers s; cs_selectCounter := n;
     cs_router := cs_router s; cs_stats := cs_stats s; cs_client := cs_client s;
     cs_peers := cs_peers s; cs_upstream := cs_upstream s |}.
Definition with_stats (st : Stats) (s : conn_state C) : conn_state C :=
  {| cs_sys := cs_sys s; cs_rebalancers := cs_rebalancers s;
     cs_selectCounter := cs_selectCounter s; cs_router := cs_router s; cs_stats := st;
     cs_client := cs_client s; cs_peers := cs_peers s; cs_upstream := cs_upstream s |}.
Definition with_pair (c u : conn) (s : conn_state C) : conn_state C :=
  {| cs_sys := cs_sys s; cs_rebalancers := cs_rebalancers s;
     cs_selectCounter := cs_selectCounter s; cs_router := cs_router s; cs_stats := cs_stats s;
     cs_client := c; cs_peers := cs_peers s; cs_upstream := Some u |}.

(** ** Choosing the upstream *)

Definition getRebalancer (now : time) (clusterName : string) (clusterCfg : ClusterConfig)
    (rebalancers : gmap string Rebalancer) : Rebalancer * gmap string Rebalancer :=
  match rebalancers !! clusterName with
  | Some rb => (rb, rebalancers)
  | None => let rb := NewRebalancer now clusterCfg in (rb, <[clusterName := rb]> rebalancers)
  end.

(** [drCoord] is the coordinator's controller lookup, [None] without one. *)
Definition upstreamTarget (clusterCfg : ClusterConfig)
    (drCoord : option (option (string → option Controller))) (clusterName : string)
    (sys : System) : option (string * string) :=
  let primary := (ep_Bootstrap (cl_Primary clusterCfg), "primary"%string) in
  let secondary := (ep_Bootstrap (cl_Secondary clusterCfg), "secondary"%string) in
  let by_config := if String.eqb (cl_Active clusterCfg) ActivePrimary then primary else secondary in
  if String.eqb (cl_Mode clusterCfg) ModeActivePassive then
    match drCoord with
    | Some ctrlLookup =>
        let '(target, ok) := TargetForRouting ctrlLookup sys clusterName in
        if ok then Some (if String.eqb target ActivePrimary then primary else secondary)
        else Some by_config
    | None => Some by_config
    end
  else if String.eqb (cl_Mode clusterCfg) ModeLoadBalance then Some primary
  else if String.eqb (cl_Mode clusterCfg) ModeSingle then Some primary
  else None.

Definition selectLoadBalanceTarget (env : conn_env) (clusterName : string)
    (clusterCfg : ClusterConfig) (s : conn_state C) : res (string * string) * conn_state C :=
  let primary := (ep_Bootstrap (cl_Primary clusterCfg), ActivePrimary) in
  let secondary := (ep_Bootstrap (cl_Secondary clusterCfg), ActiveSecondary) in
  let '(primW, secW) := GetEffectiveWeights clusterName clusterCfg (cs_router s) in
  if (primW =? 0) && (0 <? secW) then (Ok secondary, s)
  else if (secW =? 0) && (0 <? primW) then (Ok primary, s)
  else if (0 <? primW) && (0 <? secW) then
    let n := uint64 (cs_selectCounter s + 1) in
    ((Ok (if n `mod` 100 <? primW then primary else secondary)), with_counter n s)
  else
    let '(rb, rbs) := getRebalancer (ce_now env) clusterName clusterCfg (cs_rebalancers s) in
    let s := with_rebalancers rbs s in
    match SelectTarget (ce_roll env) rb with
    | Ok addr => (Ok (addr, if String.eqb addr (PrimaryAddr rb) then ActivePrimary
                            else ActiveSecondary), s)
    | Err e => (Err e, s)
    | Panic => (Panic, s)
    end.

(** Nothing calls it. *)
Definition hashToPrimary (cfg : ClusterConfig) (counter : Z) : bool * Z :=
  let n := uint64 (counter + 1) in (n `mod` 100 <? ep_Weight (cl_Primary cfg), n).

Definition record_load_balance (record : time → string → Rebalancer → Rebalancer)
    (env : conn_env) (clusterName : string) (clusterCfg : ClusterConfig) (addr : string)
    (s : conn_state C) : conn_state C :=
  if String.eqb (cl_Mode clusterCfg) ModeLoadBalance then
    let '(rb, rbs) := getRebalancer (ce_now env) clusterName clusterCfg (cs_rebalancers s) in
    with_rebalancers (<[clusterName := record (ce_now env) addr rb]> rbs) s
  else s.

Definition recordLoadBalanceSuccess := record_load_balance Rebalancer.RecordSuccess.
Definition recordLoadBalanceFailure := record_load_balance Rebalancer.RecordFailure.

(** ** Metadata interception *)

(** A step whose error makes the function return [false]. *)
Definition or_false {S A} (m : IO S A) (k : A → IO S bool) : IO S bool := λ s,
  match m s with
  | (Ok a, s) => k a s
  | (Err _, s) => (Ok false, s)
  | (Panic, s) => (Panic, s)
  end.

(** A write whose error is ignored. *)
Definition write_anyway (b : bytes) : IO conn unit := λ c, (Ok tt, snd (Write b c)).

(** The whole request: what was read of it and the rest. *)
Definition rest_of_request (firstBytes : bytes) (frameSize : Z) : IO conn bytes :=
  read_make (int32 (frameSize - int32 (blen firstBytes - 4))).

Definition full_request (firstBytes remaining : bytes) (frameSize : Z) : res bytes :=
  let headerLen := blen firstBytes - 4 in
  buf ← make_bytes (int32 (4 + frameSize));
  h0 ← slice firstBytes 0 4;
  h1 ← slice_from firstBytes 4;
  Ok (copy_at (copy_at (copy_at buf 0 h0) 4 h1) (4 + headerLen) remaining).

Definition handleMetadataActivePassive (firstBytes : bytes) (frameSize : Z)
    (advertiseHost : string) (proxyPort : Z) : IO (conn * conn) bool :=
  or_false (on_fst (rest_of_request firstBytes frameSize)) (λ remaining,
  fullReq ← pure (full_request firstBytes remaining frameSize);
  or_false (on_snd (Write fullReq)) (λ _,
  or_false (on_snd (ReadFull 4)) (λ respSizeBuf,
  size ← pure (Uint32 respSizeBuf);
  let respSize := int32 size in
  if (respSize <? 0) || (LeaderCache.MaxMetadataResponseSize <? respSize) then mret false
  else
    or_false (on_snd (read_make respSize)) (λ respBody,
    let rawResp := respSizeBuf ++ respBody in
    version ← pure (u16_at fullReq 6);
    match RewriteMetadataResponse rawResp advertiseHost proxyPort (int16 version) with
    | Err _ => _ ← on_fst (write_anyway rawResp); mret true
    | Ok rewritten => _ ← on_fst (write_anyway rewritten); mret true
    | Panic => pure Panic
    end)))).

Definition forwardMetadataRequest (requestFrame : bytes) (dialed : res conn) : res bytes :=
  conn ← wrap_err "dial" dialed;
  fst ((_ ← wrap "write request" (Write requestFrame);
        sizeBuf ← wrap "read response size" (ReadFull 4);
        size ← pure (Uint32 sizeBuf);
        let respSize := int32 size in
        if (respSize <? 4) || (LeaderCache.MaxMetadataResponseSize <? respSize)
        then fail (Errorf "invalid response size")
        else (respBody ← wrap "read response body" (read_make respSize);
              mret (sizeBuf ++ respBody))) conn).

(** The result a goroutine sends: [None] is the nil slice. *)
Definition forwardOne (env : conn_env) (bootstrap : string) (fullReq : bytes)
    : res (option bytes) :=
  match forwardMetadataRequest fullReq (ce_forward env bootstrap) with
  | Ok resp => Ok (Some resp)
  | Err _ => Ok None
  | Panic => Panic
  end.

Definition handleMetadataLoadBalance (env : conn_env) (firstBytes : bytes) (frameSize : Z)
    (advertiseHost : string) (clusterCfg : ClusterConfig) (proxyPort : Z) : IO conn bool :=
  or_false (rest_of_request firstBytes frameSize) (λ remaining,
  fullReq ← pure (full_request firstBytes remaining frameSize);
  version ← pure (u16_at fullReq 6);
  priResp ← pure (forwardOne env (ep_Bootstrap (cl_Primary clusterCfg)) fullReq);
  secResp ← pure (forwardOne env (ep_Bootstrap (cl_Secondary clusterCfg)) fullReq);
  match priResp, secResp with
  | None, None => mret false
  | _, _ =>
      match SynthesizeMetadataResponse (default [] priResp) secResp advertiseHost proxyPort
              (int16 version) with
      | Err _ => _ ← write_anyway (match priResp with
                                   | Some p => p
                                   | None => default [] secResp
                                   end);
                 mret true
      | Ok synthetic => _ ← write_anyway synthetic; mret true
      | Panic => pure Panic
      end
  end).

(** ** Connection handlers *)

Definition outcome : Type := option (res unit) * conn_state C.
Definition returned (s : conn_state C) : outcome := (Some (Ok tt), s).

Definition select_upstream (env : conn_env) (clusterName : string) (clusterCfg : ClusterConfig)
    (drCoord : option (option (string → option Controller))) (s : conn_state C)
    : res (option (string * string)) * conn_state C :=
  if String.eqb (cl_Mode clusterCfg) ModeLoadBalance then
    let '(t, s) := selectLoadBalanceTarget env clusterName clusterCfg s in (some_res t, s)
  else (Ok (upstreamTarget clusterCfg drCoord clusterName (cs_sys s)), s).

Definition update_dm (f : DrainManager → DrainManager) (s : conn_state C) : conn_state C :=
  let '(sm, w) := cs_sys s in with_sys (sm, with_dm (f (w_dm w)) w) s.

(** The deferred [dm.Unregister]; a handler that blocks never runs it, and a
    panic ends the process. *)
Definition unregister_after (clusterName : string) (regID : Z) (o : outcome) : outcome :=
  match o with
  | (Some (Ok u), s) => (Some (Ok u), update_dm (Unregister clusterName regID) s)
  | _ => o
  end.

(** What both handlers start with; [serve] goes on with the target's name and
    the upstream connection. *)
Definition with_upstream (env : conn_env) (clusterName : string) (clusterCfg : ClusterConfig)
    (drCoord : option (option (string → option Controller))) (handle : nat)
    (serve : string → conn → conn_state C → outcome) (s : conn_state C) : outcome :=
  let '(sel, s) := select_upstream env clusterName clusterCfg drCoord s in
  match sel with
  | Panic => (Some Panic, s)
  | Err _ | Ok None => returned s
  | Ok (Some (upstreamAddr, targetCluster)) =>
      if String.eqb upstreamAddr "" then returned s
      else
        let '(regID, dm) := Register clusterName handle targetCluster (w_dm (snd (cs_sys s))) in
        let s := update_dm (λ _, dm) s in
        unregister_after clusterName regID
          match ce_dial env upstreamAddr with
          | Err _ => returned (recordLoadBalanceFailure env clusterName clusterCfg upstreamAddr s)
          | Panic => (Some Panic, s)
          | Ok upstreamConn =>
              serve targetCluster upstreamConn
                (recordLoadBalanceSuccess env clusterName clusterCfg upstreamAddr s)
          end
  end.

Definition handlePlaintextConnection (env : conn_env) (clusterName : string)
    (clusterCfg : ClusterConfig) (drCoord : option (option (string → option Controller)))
    (handle : nat) : conn_state C → outcome :=
  with_upstream env clusterName clusterCfg drCoord handle (λ _ u s,
    let '(_, (c, u)) := pump (ce_up env) (ce_down env) (cs_client s, u) in
    returned (with_pair c u s)).

Definition record_cluster (apiKey : Z) (target : string) (st : Stats) : Stats :=
  if apiKey =? APIKeyProduce then RecordClusterProduce target st
  else if apiKey =? APIKeyFetch then RecordClusterFetch target st
  else st.

(** Whether the first request was answered: [None] when the handler returns. *)
Definition intercept (env : conn_env) (clusterCfg : ClusterConfig) (proxyPort : Z)
    (advertiseHost : string) (firstBytes : bytes) (apiKey frameSize : Z) (cs : conn * conn)
    : res (option bool) * (conn * conn) :=
  if (apiKey =? APIKeyMetadata) && (2 <=? frameSize) then
    if (frameSize <? 14) || (MaxFrameSize <? frameSize) then (Ok None, cs)
    else if String.eqb (cl_Mode clusterCfg) ModeActivePassive then
      let '(r, cs) := handleMetadataActivePassive firstBytes frameSize advertiseHost proxyPort cs in
      (some_res r, cs)
    else if String.eqb (cl_Mode clusterCfg) ModeLoadBalance then
      let '(r, cs) := on_fst (handleMetadataLoadBalance env firstBytes frameSize advertiseHost
                                clusterCfg proxyPort) cs in
      (some_res r, cs)
    else (Ok (Some false), cs)
  else (Ok (Some false), cs).

(** [Route] on the connection whose reads begin with the bytes already read. *)
Definition route_first (env : conn_env) (clusterName : string) (clusterCfg : ClusterConfig)
    (firstBytes : bytes) (s : conn_state C) : outcome :=
  let client := cs_client s in
  let '(r, rs) := Route (ce_route env) clusterName clusterCfg
    {| rs_router := cs_router s; rs_stats := cs_stats s;
       rs_client := {| cn_in := firstBytes ++ cn_in client; cn_out := cn_out client;
                       cn_writes := cn_writes client |};
       rs_conns := cs_peers s |} in
  let s := {| cs_sys := cs_sys s; cs_rebalancers := cs_rebalancers s;
              cs_selectCounter := cs_selectCounter s; cs_router := rs_router rs;
              cs_stats := rs_stats rs; cs_client := rs_client rs; cs_peers := rs_conns rs;
              cs_upstream := cs_upstream s |} in
  match r with
  | None => (None, s)
  | Some Panic => (Some Panic, s)
  | Some _ => returned s
  end.

(** The final copy; each direction counts the bytes it wrote. *)
Definition passthrough (env : conn_env) (targetCluster : string) (s : conn_state C) (u : conn)
    : outcome :=
  let '((n, m), (c, u)) := pump (ce_up env) (ce_down env) (cs_client s, u) in
  let st := RecordClusterProduceBytes targetCluster n (cs_stats s) in
  let st := RecordClusterFetchBytes targetCluster m st in
  returned (with_stats st (with_pair c u s)).

Definition serve_kafka (env : conn_env) (clusterName : string) (clusterCfg : ClusterConfig)
    (proxyPort : Z) (advertiseHost : string) (targetCluster : string) (u : conn)
    (s : conn_state C) : outcome :=
  match HandleSASLExchange {| authenticated := false |} (cs_client s) u with
  | None => (None, s)
  | Some (Err _, (_, (c, u))) => returned (with_pair c u s)
  | Some (Panic, (_, (c, u))) => (Some Panic, with_pair c u s)
  | Some (Ok result, (_, (c, u))) =>
      let s := with_pair c u s in
      let firstBytes := Header result in
      match (k ← u16_at firstBytes 4; n ← u32_at firstBytes 0; Ok (int16 k, int32 n)) with
      | Err _ | Panic => (Some Panic, s)
      | Ok (apiKey, frameSize) =>
          let s := with_stats (record_cluster apiKey targetCluster (cs_stats s)) s in
          let '(r, (c, u)) := intercept env clusterCfg proxyPort advertiseHost firstBytes
                                apiKey frameSize (c, u) in
          let s := with_pair c u s in
          match r with
          | Panic => (Some Panic, s)
          | Err _ | Ok None => returned s
          | Ok (Some didIntercept) =>
              if negb didIntercept && is_data_key apiKey
              then route_first env clusterName clusterCfg firstBytes s
              else
                let u := if didIntercept then u else snd (write_anyway firstBytes u) in
                passthrough env targetCluster s u
          end
      end
  end.

Definition handleConnection (env : conn_env) (clusterName : string) (clusterCfg : ClusterConfig)
    (proxyPort : Z) (advertiseHost : string)
    (drCoord : option (option (string → option Controller))) (handle : nat)
    : conn_state C → outcome :=
  with_upstream env clusterName clusterCfg drCoord handle
    (serve_kafka env clusterName clusterCfg proxyPort advertiseHost).

End Connection.

Arguments outcome C : clear implicits.

(** ** A connection that reached its upstream *)

Section Sessions.

Context {C : Type} `{PartitionLeaderCache C}.
Context (env : conn_env) (clusterName : string) (clusterCfg : ClusterConfig).
Context (drCoord : option (option (string → option Controller))).

(** The upstream [u] was selected as [target] and dialled. *)
Definition connected (s : conn_state C) (target : string) (u : conn) : Prop :=
  ∃ addr s1, select_upstream env clusterName clusterCfg drCoord s = (Ok (Some (addr, target)), s1) ∧
    addr ≠ ""%string ∧ ce_dial env addr = Ok u.

(** What selecting, registering and recording leave alone. *)
Definition same_traffic (s s' : conn_state C) : Prop :=
  cs_client s' = cs_client s ∧ cs_stats s' = cs_stats s ∧ cs_peers s' = cs_peers s ∧
  cs_router s' = cs_router s ∧ cs_upstream s' = cs_upstream s.

Lemma select_traffic sel (s s1 : conn_state C) :
  select_upstream env clusterName clusterCfg drCoord s = (sel, s1) →
  same_traffic s s1 ∧ cs_sys s1 = cs_sys s.
Proof.
  unfold select_upstream. destruct (String.eqb _ _); [|by intros [= _ <-]].
  unfold selectLoadBalanceTarget. destruct (GetEffectiveWeights _ _ _) as [pw sw].
  repeat (destruct (_ && _); [by intros [= _ <-]|]).
  destruct (getRebalancer _ _ _ _) as [rb rbs]. cbv zeta.
  destruct (SelectTarget _ _); by intros [= _ <-].
Qed.

Lemma record_traffic record addr (s : conn_state C) :
  same_traffic s (record_load_balance record env clusterName clusterCfg addr s) ∧
  cs_sys (record_load_balance record env clusterName clusterCfg addr s) = cs_sys s.
Proof.
  unfold record_load_balance. destruct (String.eqb _ _); [|done].
  by destruct (getRebalancer _ _ _ _) as [rb rbs].
Qed.

Lemma update_dm_traffic f (s : conn_state C) : same_traffic s (update_dm f s).
Proof. unfold update_dm. by destruct (cs_sys s). Qed.

Lemma same_traffic_trans (s1 s2 s3 : conn_state C) :
  same_traffic s1 s2 → same_traffic s2 s3 → same_traffic s1 s3.
Proof. unfold same_traffic. intuition congruence. Qed.

Lemma with_upstream_connected handle serve (s : conn_state C) target u :
  connected s target u →
  ∃ s2, same_traffic s s2 ∧
    cs_sys s2 = (fst (cs_sys s), with_dm (snd (Register clusterName handle target
                                                 (w_dm (snd (cs_sys s))))) (snd (cs_sys s))) ∧
    with_upstream env clusterName clusterCfg drCoord handle serve s =
    unregister_after clusterName
      (fst (Register clusterName handle target (w_dm (snd (cs_sys s))))) (serve target u s2).
Proof.
  intros (addr & s1 & Hsel & Hne & Hdial). unfold with_upstream. rewrite Hsel.
  destruct (select_traffic _ _ _ Hsel) as [Ht1 Hs1].
  rewrite (proj2 (String.eqb_neq _ _) Hne). rewrite Hs1.
  destruct (Register _ _ _ _) as [regID dm] eqn:Hreg. rewrite Hdial.
  eexists. split; [|split]; [|  |reflexivity].
  - eapply same_traffic_trans; [exact Ht1|]. eapply same_traffic_trans; [apply update_dm_traffic|].
    apply record_traffic.
  - unfold recordLoadBalanceSuccess. rewrite (proj2 (record_traffic _ _ _)). unfold update_dm. rewrite Hs1.
    cbn [fst snd]. by destruct (cs_sys s).
Qed.

Lemma unregister_traffic id r (s : conn_state C) :
  ∃ s', unregister_after clusterName id (r, s) = (r, s') ∧ same_traffic s s'.
Proof.
  destruct r as [[u|e|]|]; cbn; eexists; (split; [done|]); try done. apply update_dm_traffic.
Qed.

End Sessions.

Lemma full_request_eq firstBytes remaining frameSize :
  4 ≤ blen firstBytes → frameSize = blen firstBytes - 4 + blen remaining →
  4 + frameSize < 2147483648 →
  full_request firstBytes remaining frameSize = Ok (firstBytes ++ remaining).
Proof.
  intros H4 Hf Hmax. pose proof (blen_nonneg remaining). unfold full_request, make_bytes.
  rewrite int32_small, (proj2 (Z.ltb_ge _ _)) by lia. bind_simpl.
  destruct (slice_ok firstBytes 0 4) as (h0 & Hh0 & Hl0); [lia..|]. rewrite Hh0. bind_simpl.
  destruct (slice_ok firstBytes 4 (blen firstBytes)) as (h1 & Hh1 & Hl1); [lia..|].
  unfold slice_from. rewrite Hh1. bind_simpl.
  apply slice_Ok_inv in Hh0 as (_ & _ & _ & Hh0), Hh1 as (_ & _ & _ & Hh1).
  assert (Hfirst : firstBytes = h0 ++ h1).
  { rewrite Hh0, Hh1. change (drop (Z.to_nat 0) firstBytes) with firstBytes.
    change (Z.to_nat (4 - 0)) with 4%nat. change (Z.to_nat 4) with 4%nat.
    rewrite (take_ge (drop 4 firstBytes)) by (rewrite length_drop; unfold blen; lia).
    by rewrite take_drop. }
  rewrite (copy_at_over [] (replicate _ _) h0 0 eq_refl : _ → copy_at (replicate _ _) 0 h0 = _)
    by (rewrite length_replicate; unfold blen in *; lia). cbn [app].
  rewrite (copy_at_over h0) by (rewrite ?length_drop, ?length_replicate; unfold blen in *; lia).
  rewrite app_assoc, <- Hfirst.
  rewrite (copy_at_over firstBytes)
    by (rewrite ?length_drop, ?length_replicate; unfold blen in *; lia).
  rewrite drop_ge by (rewrite !length_drop, length_replicate; unfold blen in *; lia).
  by rewrite app_nil_r.
Qed.

(** ** Interception of the first Metadata request *)

Lemma header_blen size key ver corr cid :
  valid_nullable cid → 14 ≤ blen (encode_request_header size key ver corr cid) < 14 + 32768.
Proof.
  intros Hcid. unfold encode_request_header. rewrite !blen_app, !blen_be32, !blen_be16.
  destruct cid as [s|]; cbn [encode_nullable valid_nullable] in *;
    rewrite ?blen_app, ?blen_be16, ?blen_bytes_of; [pose proof (slen_nonneg s)|]; lia.
Qed.

Lemma header_fields size key ver corr cid rest :
  let frame := encode_request_header size key ver corr cid ++ rest in
  u32_at frame 0 = Ok (uint32 size) ∧ u16_at frame 4 = Ok (uint16 key) ∧
  u16_at frame 6 = Ok (uint16 ver).
Proof.
  cbn zeta. unfold encode_request_header. rewrite <- !app_assoc.
  pose proof (at_pos_0 (be32 size ++ be16 key ++ be16 ver ++ be32 corr ++ encode_nullable cid ++ rest)) as Hcur.
  apply at_pos_u32 in Hcur as [H0 Hcur]. apply at_pos_u16 in Hcur as [H4 Hcur].
  apply at_pos_u16 in Hcur as [H6 _]. by split_and!.
Qed.

Lemma rest_of_request_run first size body cin cout :
  4 ≤ blen first < 100000 → size = blen first - 4 + blen body → size < 2147483648 →
  rest_of_request first size (peer (body ++ cin) cout) = (Ok body, peer cin cout).
Proof.
  intros Hf Hs Hmax. pose proof (blen_nonneg body). unfold rest_of_request.
  rewrite (int32_small (blen first - 4)), int32_small by lia.
  unfold peer. by rewrite read_make_app by lia.
Qed.

Lemma or_false_run {S A} (m : IO S A) k s a s' : m s = (Ok a, s') → or_false m k s = k a s'.
Proof. intros Hm. unfold or_false. by rewrite Hm. Qed.

Lemma bind_run {S A B} (m : IO S A) (f : A → IO S B) s a s' :
  m s = (Ok a, s') → (m ≫= f) s = f a s'.
Proof. intros Hm. unfold mbind, IO_bind. by rewrite Hm. Qed.

Lemma on_fst_run {S T A} (m : IO S A) s (t : T) a s' : m s = (Ok a, s') → on_fst m (s, t) = (Ok a, (s', t)).
Proof. intros Hm. unfold on_fst. by rewrite Hm. Qed.

Lemma on_snd_run {S T A} (m : IO T A) (s : S) t a t' : m t = (Ok a, t') → on_snd m (s, t) = (Ok a, (s, t')).
Proof. intros Hm. unfold on_snd. by rewrite Hm. Qed.

Lemma intercept_run size ver corr cid body r host port cin cout uin uout :
  let first := encode_request_header size APIKeyMetadata ver corr cid in
  in_int16 ver → valid_nullable cid → size = blen first - 4 + blen body → size ≤ MaxFrameSize →
  valid_response ver r → Z.of_nat (length (mr_Brokers r)) < 4294967296 →
  slen host ≤ MaxStringLen →
  blen (wire_frame ver r) ≤ 4 + LeaderCache.MaxMetadataResponseSize →
  blen (wire_frame ver (proxied_response host port r)) ≤ Metadata.MaxMetadataResponseSize →
  handleMetadataActivePassive first size host port
    (peer (body ++ cin) cout, peer (wire_frame ver r ++ uin) uout) =
  (Ok true, (peer cin (cout ++ wire_frame ver (proxied_response host port r)),
             peer uin (uout ++ first ++ body))).
Proof.
  intros first Hver Hcid Hsize Hmax Hr Hn Hh Hwf Hwp.
  pose proof (header_blen size APIKeyMetadata ver corr cid Hcid) as Hfl. fold first in Hfl.
  unfold MaxFrameSize in Hmax.
  set (bodyr := mr_bodyBeforeBrokers r ++ wire_brokers ver (mr_Brokers r) ++ mr_bodyAfterBrokers r).
  set (rest := be32 (mr_CorrelationID r) ++ bodyr).
  assert (Hw : wire_frame ver r = be32 (4 + blen bodyr) ++ rest) by done.
  assert (Hrl : blen rest = 4 + blen bodyr) by (unfold rest; by rewrite blen_app, blen_be32).
  pose proof (blen_nonneg bodyr). pose proof Hwf as Hwf'.
  rewrite Hw, blen_app, blen_be32, Hrl in Hwf'.
  change LeaderCache.MaxMetadataResponseSize with 10485760 in Hwf'.
  unfold handleMetadataActivePassive.
  erewrite or_false_run by (apply on_fst_run, rest_of_request_run; lia).
  erewrite bind_run by (unfold pure; rewrite full_request_eq by lia; reflexivity).
  erewrite or_false_run by (by apply on_snd_run).
  erewrite or_false_run by (apply on_snd_run; unfold peer; cbn [cn_in cn_out cn_writes];
    rewrite Hw, <- app_assoc; apply ReadFull_app, blen_be32).
  erewrite bind_run by (unfold pure; rewrite <- (app_nil_r (be32 _)), Uint32_be32; reflexivity).
  rewrite int32_uint32_id by lia. change LeaderCache.MaxMetadataResponseSize with 10485760.
  rewrite (proj2 (Z.ltb_ge (4 + blen bodyr) 0)), (proj2 (Z.ltb_ge 10485760 _)) by lia. cbn [orb].
  erewrite or_false_run by (apply on_snd_run, read_make_app; done).
  pose proof (proj2 (proj2 (header_fields size APIKeyMetadata ver corr cid body))) as H6.
  fold first in H6. erewrite bind_run by (unfold pure; rewrite H6; reflexivity).
  rewrite int16_uint16, int16_id, <- Hw by done.
  rewrite RewriteMetadataResponse_wire; try done.
  revert Hwf. change LeaderCache.MaxMetadataResponseSize with 10485760.
  change Metadata.MaxMetadataResponseSize with 104857600. lia.
Qed.

Section Session.

Context {C : Type} `{PartitionLeaderCache C}.
Context (env : conn_env) (clusterName : string) (clusterCfg : ClusterConfig).
Context (proxyPort : Z) (advertiseHost : string).
Context (drCoord : option (option (string → option Controller))).

(** After the SASL rounds the handler goes by the first other request. *)
Lemma serve_first target rds size key ver corr cid cin cout uin uout (s : conn_state C) :
  let first := encode_request_header size key ver corr cid in
  Forall round_ok rds → in_int32 size → in_int16 key → is_sasl_key key = false →
  in_int32 corr → valid_nullable cid →
  cs_client s = peer (requests rds ++ first ++ cin) cout →
  serve_kafka env clusterName clusterCfg proxyPort advertiseHost target
    (peer (replies rds ++ uin) uout) s =
  let s := with_stats (record_cluster key target (cs_stats s))
             (with_pair (peer cin (cout ++ replies rds)) (peer uin (uout ++ requests rds)) s) in
  let '(r, (c, u)) := intercept env clusterCfg proxyPort advertiseHost first key size
                        (peer cin (cout ++ replies rds), peer uin (uout ++ requests rds)) in
  let s := with_pair c u s in
  match r with
  | Panic => (Some Panic, s)
  | Err _ | Ok None => returned s
  | Ok (Some didIntercept) =>
      if negb didIntercept && is_data_key key
      then route_first env clusterName clusterCfg first s
      else
        let u := if didIntercept then u else snd (write_anyway first u) in
        passthrough env target s u
  end.
Proof.
  intros first Hrds Hsize Hkey Hns Hcorr Hcid Hc. unfold serve_kafka. rewrite Hc.
  unfold first at 1. rewrite exchange_run by done. cbn [other_result Header]. fold first.
  pose proof (header_fields size key ver corr cid []) as (H0 & H4 & _).
  rewrite app_nil_r in H0, H4. fold first in H0, H4. rewrite H0, H4. bind_simpl.
  by rewrite int16_uint16, int32_uint32, int16_id, int32_id.
Qed.

(** C7: A whole active_passive session.  A client that authenticates with any
    number of SASL requests and then asks for Metadata, against an upstream that
    answers: the client receives the SASL replies, then the Metadata response
    with every broker at the proxy's address and every other byte as sent, then
    what the upstream goes on to send; the upstream receives exactly the client's
    bytes, in order; of what follows the response, each side what had been copied
    when either side ended. *)
Theorem metadata_session target rds size ver corr cid body r cin cout uin uout handle
    (s : conn_state C) :
  let first := encode_request_header size APIKeyMetadata ver corr cid in
  connected env clusterName clusterCfg drCoord s target (peer (replies rds ++ wire_frame ver r ++ uin) uout) →
  cs_client s = peer (requests rds ++ first ++ body ++ cin) cout →
  cl_Mode clusterCfg = ModeActivePassive → Forall round_ok rds →
  in_int16 ver → in_int32 corr → valid_nullable cid →
  size = blen first - 4 + blen body → 14 ≤ size ≤ MaxFrameSize →
  valid_response ver r → Z.of_nat (length (mr_Brokers r)) < 4294967296 →
  slen advertiseHost ≤ MaxStringLen →
  blen (wire_frame ver r) ≤ 4 + LeaderCache.MaxMetadataResponseSize →
  blen (wire_frame ver (proxied_response advertiseHost proxyPort r)) ≤ Metadata.MaxMetadataResponseSize →
  ∃ s', handleConnection env clusterName clusterCfg proxyPort advertiseHost drCoord handle s =
          (Some (Ok tt), s') ∧
    cs_client s' = peer (drop (consumed (ce_up env)) cin)
      (cout ++ replies rds ++ wire_frame ver (proxied_response advertiseHost proxyPort r)
            ++ take (copied (ce_down env)) uin) ∧
    cs_upstream s' = Some (peer (drop (consumed (ce_down env)) uin)
      (uout ++ requests rds ++ first ++ body ++ take (copied (ce_up env)) cin)).
Proof.
  intros first Hconn Hc Hmode Hrds Hver Hcorr Hcid Hsize Hmax Hr Hn Hh Hwf Hwp.
  unfold handleConnection.
  destruct (with_upstream_connected env clusterName clusterCfg drCoord handle
    (serve_kafka env clusterName clusterCfg proxyPort advertiseHost) s target _ Hconn)
    as (s2 & Ht & _ & ->).
  destruct Ht as (Hc2 & _). unfold MaxFrameSize in Hmax.
  rewrite (serve_first target rds size APIKeyMetadata ver corr cid (body ++ cin) cout _ uout s2)
    by first [done | by rewrite Hc2 | unfold in_int16, in_int32, APIKeyMetadata in *; lia].
  cbn zeta. unfold intercept.
  change (APIKeyMetadata =? APIKeyMetadata) with true. unfold MaxFrameSize.
  rewrite (proj2 (Z.leb_le 2 size)), (proj2 (Z.ltb_ge size 14)), (proj2 (Z.ltb_ge _ size)) by lia.
  cbn [andb orb]. rewrite Hmode. change (String.eqb ModeActivePassive ModeActivePassive) with true.
  cbv iota. try fold first.
  rewrite (intercept_run size ver corr cid body r) by (unfold MaxFrameSize; first [done|lia]). cbn [some_res mbind res_mbind res_bind].
  cbn [negb andb]. unfold passthrough, unregister_after. cbn [cs_client with_stats with_pair write_anyway Write
    fst snd peer cn_in cn_out cn_writes].
  unfold peer. rewrite pump_reliable. unfold returned.
  eexists. split; [reflexivity|].
  match goal with |- context [update_dm ?f ?x] =>
    destruct (update_dm_traffic f x) as (-> & _ & _ & _ & ->) end.
  cbn [cs_client cs_upstream with_stats with_pair peer cn_in cn_out cn_writes].
  unfold peer, first. by rewrite <- !app_assoc.
Qed.

(** Every other first request makes the session a plain tunnel: nothing after
    it is intercepted.  If the first request after SASL is of another API (an
    ApiVersions request, say), the client receives the upstream's bytes and the
    upstream the client's, as they are and as far as they had been copied when
    either side ended - later Metadata responses included, with the upstream's own
    broker addresses. *)
Theorem other_session_is_tunnel target rds size key ver corr cid cin cout uin uout handle
    (s : conn_state C) :
  let first := encode_request_header size key ver corr cid in
  connected env clusterName clusterCfg drCoord s target (peer (replies rds ++ uin) uout) →
  cs_client s = peer (requests rds ++ first ++ cin) cout →
  Forall round_ok rds → in_int32 size → in_int16 key → is_sasl_key key = false →
  key ≠ APIKeyMetadata → is_data_key key = false →
  in_int32 corr → valid_nullable cid →
  ∃ s', handleConnection env clusterName clusterCfg proxyPort advertiseHost drCoord handle s =
          (Some (Ok tt), s') ∧
    cs_client s' = peer (drop (consumed (ce_up env)) cin)
      (cout ++ replies rds ++ take (copied (ce_down env)) uin) ∧
    cs_upstream s' = Some (peer (drop (consumed (ce_down env)) uin)
      (uout ++ requests rds ++ first ++ take (copied (ce_up env)) cin)).
Proof.
  intros first Hconn Hc Hrds Hsize Hkey Hns Hnm Hnd Hcorr Hcid. unfold handleConnection.
  destruct (with_upstream_connected env clusterName clusterCfg drCoord handle
    (serve_kafka env clusterName clusterCfg proxyPort advertiseHost) s target _ Hconn)
    as (s2 & Ht & _ & ->).
  destruct Ht as (Hc2 & _).
  rewrite (serve_first target rds size key ver corr cid cin cout uin uout s2)
    by first [done | by rewrite Hc2].
  cbn zeta. unfold intercept. rewrite (proj2 (Z.eqb_neq _ _) Hnm). cbn [andb].
  cbn [negb]. rewrite Hnd. cbn [andb]. unfold passthrough, unregister_after. cbn [cs_client with_stats with_pair write_anyway Write
    fst snd peer cn_in cn_out cn_writes].
  unfold peer. rewrite pump_reliable. unfold returned.
  eexists. split; [reflexivity|].
  match goal with |- context [update_dm ?f ?x] =>
    destruct (update_dm_traffic f x) as (-> & _ & _ & _ & ->) end.
  cbn [cs_client cs_upstream with_stats with_pair write_anyway Write fst snd peer
    cn_in cn_out cn_writes].
  unfold peer, first. by rewrite <- !app_assoc.
Qed.

End Session.

(** ** Requests that stop the proxy *)

(** A Produce request of version 3 or later with a body of less than two bytes;
    a Metadata request whose frame size is too small for its client id. *)
Inductive crashing (clusterCfg : ClusterConfig) : bytes → bytes → Prop :=
  | crashing_produce v corr cid body :
      in_int16 v → 3 ≤ v → in_int32 corr → valid_nullable cid → blen body < 2 →
      let size := 10 + slen (default ""%string cid) + blen body in
      crashing clusterCfg (encode_request_header size APIKeyProduce v corr cid) body
  | crashing_metadata size v corr cid body :
      in_int16 v → in_int32 corr → valid_nullable cid →
      14 ≤ size → size < 10 + slen (default ""%string cid) →
      cl_Mode clusterCfg = ModeActivePassive ∨ cl_Mode clusterCfg = ModeLoadBalance →
      crashing clusterCfg (encode_request_header size APIKeyMetadata v corr cid) body.

Lemma header_blen_eq size key v corr cid :
  blen (encode_request_header size key v corr cid) = 14 + slen (default ""%string cid).
Proof.
  unfold encode_request_header. rewrite !blen_app, !blen_be32, !blen_be16.
  destruct cid as [s|]; cbn [encode_nullable default]; unfold Datatypes.id;
    rewrite ?blen_app, ?blen_be16, ?blen_bytes_of; [lia|done].
Qed.

Lemma rest_of_request_panics first size c :
  4 ≤ blen first < 100000 → 0 ≤ size < blen first - 4 →
  fst (rest_of_request first size c) = Panic.
Proof.
  intros Hf Hs. unfold rest_of_request, read_make, make_bytes, mbind, IO_bind, pure.
  rewrite (int32_small (blen first - 4)) by lia.
  rewrite int32_id by (unfold in_int32; lia). by rewrite (proj2 (Z.ltb_lt _ _)) by lia.
Qed.

Section Shared.

Context {C : Type} `{PartitionLeaderCache C}.
Context (env : conn_env) (clusterName : string) (clusterCfg : ClusterConfig).
Context (proxyPort : Z) (advertiseHost : string).
Context (drCoord : option (option (string → option Controller))).

Lemma crashing_serves first body target rds cin cout uin uout (s : conn_state C) :
  crashing clusterCfg first body → Forall round_ok rds →
  cs_client s = peer (requests rds ++ first ++ body ++ cin) cout →
  fst (serve_kafka env clusterName clusterCfg proxyPort advertiseHost target
         (peer (replies rds ++ uin) uout) s) = Some Panic.
Proof.
  intros Hcr Hrds Hc. destruct Hcr as [v corr cid body Hv Hv3 Hcorr Hcid Hb size
                                      |size v corr cid body Hv Hcorr Hcid Hs Hs' Hmode].
  - pose proof (blen_nonneg body).
    pose proof (header_blen size APIKeyProduce v corr cid Hcid) as Hl.
    pose proof (header_blen_eq size APIKeyProduce v corr cid) as Hle.
    rewrite (serve_first _ _ _ _ _ target rds size APIKeyProduce v corr cid (body ++ cin) cout)
      by first [done | unfold in_int16, in_int32, APIKeyProduce in *; lia].
    cbn zeta. unfold intercept. change (APIKeyProduce =? APIKeyMetadata) with false.
    cbn [andb negb]. change (is_data_key APIKeyProduce) with true. cbv iota.
    unfold route_first. cbn [with_pair with_stats cs_client peer cn_in cn_out cn_writes cs_router cs_stats cs_peers].
    match goal with |- context [Route ?e ?n ?g ?st] =>
      pose proof (Route_short_produce e n g st v corr cid body cin Hv Hv3 Hcorr Hcid Hb) as Hp;
      destruct (Route e n g st) as [r rs] end.
    cbn [rs_client cn_in fst] in Hp. cbn zeta in Hp. rewrite Hp; [done|].
    unfold encode_request_header. rewrite <- !app_assoc. do 2 f_equal.
    rewrite !blen_app, !blen_be16, blen_be32. unfold size.
    destruct cid as [id|]; cbn [encode_nullable default]; unfold Datatypes.id;
      rewrite ?blen_app, ?blen_be16, ?blen_bytes_of; [|change (slen "") with 0]; lia.
  - pose proof (header_blen size APIKeyMetadata v corr cid Hcid) as Hl.
    pose proof (header_blen_eq size APIKeyMetadata v corr cid) as Hle.
    rewrite (serve_first _ _ _ _ _ target rds size APIKeyMetadata v corr cid (body ++ cin) cout)
      by first [done | unfold in_int16, in_int32, APIKeyMetadata in *; lia].
    cbn zeta. unfold intercept. change (APIKeyMetadata =? APIKeyMetadata) with true. unfold MaxFrameSize.
    rewrite (proj2 (Z.leb_le 2 size)), (proj2 (Z.ltb_ge size 14)), (proj2 (Z.ltb_ge _ size)) by lia.
    cbn [andb orb].
    assert (Hp : ∀ c, fst (rest_of_request (encode_request_header size APIKeyMetadata v corr cid) size c)
                      = Panic) by (intros c; apply rest_of_request_panics; lia).
    destruct Hmode as [-> | ->]; cbn [String.eqb]; cbv iota.
    + change (String.eqb ModeActivePassive ModeActivePassive) with true. cbv iota.
      unfold handleMetadataActivePassive, or_false, on_fst.
      match goal with |- context [rest_of_request ?f ?n ?c] =>
        specialize (Hp c); destruct (rest_of_request f n c) as [r c'] end.
      cbn [fst] in Hp. by rewrite Hp.
    + change (String.eqb ModeLoadBalance ModeActivePassive) with false.
      change (String.eqb ModeLoadBalance ModeLoadBalance) with true. cbv iota.
      unfold handleMetadataLoadBalance, or_false, on_fst.
      match goal with |- context [rest_of_request ?f ?n ?c] =>
        specialize (Hp c); destruct (rest_of_request f n c) as [r c'] end.
      cbn [fst] in Hp. by rewrite Hp.
Qed.

(** C38: One request can stop the proxy.  A client of a connected session - before
    or after authenticating - that sends a Produce request of version 3 or later
    with fewer than two bytes of body, or a Metadata request whose declared size
    is at least 14 but less than its own header needs, makes the handler panic;
    nothing recovers the panic. *)
Theorem client_crashes_proxy first body target rds cin cout uin uout handle (s : conn_state C) :
  connected env clusterName clusterCfg drCoord s target (peer (replies rds ++ uin) uout) →
  crashing clusterCfg first body → Forall round_ok rds →
  cs_client s = peer (requests rds ++ first ++ body ++ cin) cout →
  fst (handleConnection env clusterName clusterCfg proxyPort advertiseHost drCoord handle s)
  = Some Panic.
Proof.
  intros Hconn Hcr Hrds Hc. unfold handleConnection.
  destruct (with_upstream_connected env clusterName clusterCfg drCoord handle
    (serve_kafka env clusterName clusterCfg proxyPort advertiseHost) s target _ Hconn)
    as (s2 & (Hc2 & _) & _ & ->).
  rewrite Hc in Hc2.
  pose proof (crashing_serves _ _ target _ _ _ uin uout s2 Hcr Hrds Hc2) as Hp.
  destruct (serve_kafka _ _ _ _ _ _ _ _) as [r s3]. cbn [fst] in Hp. by subst r.
Qed.

(** ** Registration *)

Lemma serve_kafka_sys target u (s : conn_state C) :
  cs_sys (snd (serve_kafka env clusterName clusterCfg proxyPort advertiseHost target u s)) = cs_sys s.
Proof.
  unfold serve_kafka. destruct (HandleSASLExchange _ _ _) as [[[res|e|] (h & c & u')]|]; [|done..].
  destruct (u16_at _ _ ≫= _) as [[apiKey frameSize]|e|]; [|done..].
  destruct (intercept _ _ _ _ _ _ _ _) as [[[didIntercept|]|e|] [c1 u1]]; [|done..].
  destruct (negb didIntercept && _).
  - unfold route_first. by destruct (Route _ _ _ _) as [[[]|] rs].
  - cbv zeta. unfold passthrough. by destruct (pump _ _ _) as [[n m] [c2 u2]].
Qed.

(** Registration is paired.  A connection whose handler returns - for any
    reason: no target, a refused dial, a failed exchange, the end of the traffic -
    leaves the drain manager's live connections, active counts and drains exactly
    as it found them, so a drained proxy can become idle. *)
Theorem handler_registers_once handle (s s' : conn_state C) :
  let dm := w_dm (snd (cs_sys s)) in
  let dm' := w_dm (snd (cs_sys s')) in
  handleConnection env clusterName clusterCfg proxyPort advertiseHost drCoord handle s
  = (Some (Ok tt), s') →
  dm_ok dm → bt_nextID (default new_tracker (dm_buConns dm !! clusterName)) + 1 < 2 ^ 64 →
  dm_ok dm' ∧ dm_drains dm' = dm_drains dm ∧
  ∀ name, live name dm' = live name dm ∧ ActiveConnections name dm' = ActiveConnections name dm.
Proof.
  intros dm dm' Hrun Hok Hid. revert Hrun. unfold handleConnection, with_upstream.
  destruct (select_upstream env clusterName clusterCfg drCoord s) as [sel s1] eqn:Hsel.
  apply select_traffic in Hsel as [_ Hs1].
  assert (Hsame : cs_sys s' = cs_sys s → dm_ok dm' ∧ dm_drains dm' = dm_drains dm ∧
    ∀ name, live name dm' = live name dm ∧ ActiveConnections name dm' = ActiveConnections name dm).
  { intros Heq. unfold dm', dm in *. by rewrite Heq. }
  destruct sel as [[[addr target]|]|e|]; [|intros [= <-]; by apply Hsame..|done].
  destruct (String.eqb addr ""); [intros [= <-]; by apply Hsame|].
  rewrite Hs1. fold dm.
  pose proof (Register_ok clusterName handle target dm Hok Hid) as Hok1.
  pose proof (Unregister_Register clusterName handle target dm Hok Hid) as Hun.
  destruct (Register clusterName handle target dm) as [id dm1]. cbn [snd] in Hok1.
  destruct Hun as (_ & Hdr & Hlive).
  set (inner := match ce_dial env addr with Ok _ => _ | _ => _ end).
  assert (Hsys : w_dm (snd (cs_sys (snd inner))) = dm1).
  { subst inner. destruct (ce_dial env addr) as [u|e|]; cbn [returned snd];
      rewrite ?serve_kafka_sys; unfold recordLoadBalanceSuccess, recordLoadBalanceFailure;
      rewrite ?(proj2 (record_traffic _ _ _ _ _ _)); unfold update_dm;
      by destruct (cs_sys s1). }
  destruct inner as [[[[]|e|]|] s3]; cbn [unregister_after]; try done.
  intros [= <-]. unfold dm', update_dm. cbn [snd] in Hsys.
  destruct (cs_sys s3) as [sm w]. cbn [with_sys cs_sys snd with_dm w_dm] in *. subst dm1.
  split; [by apply Unregister_ok|]. by split.
Qed.

End Shared.

(** ** Routed requests and the DR state *)

Section Failover.

Context {C : Type} {supported : string → Prop} `{LawfulCache C supported}.

(** C37: Routed requests ignore a failover.  After the state machine has moved an
    active_passive cluster to its secondary, a new connection is made to the
    secondary, but a Produce or Fetch request on it - and so every record - is
    still sent to the cluster that the configuration names as active: its known
    partition leader, or its bootstrap address. *)
Theorem routed_ignores_failover env clusterName cfg (s : conn_state C) lookup topic pid frame :
  cl_Mode cfg = ModeActivePassive → cl_Active cfg = ActivePrimary →
  ep_Bootstrap (cl_Primary cfg) ≠ ""%string →
  State (fst (cs_sys s)) clusterName = StateSecondary →
  (∀ b, safe (re_refresh (ce_route env) b)) → asks topic pid frame →
  fst (select_upstream env clusterName cfg (Some lookup) s) =
    Ok (Some (ep_Bootstrap (cl_Secondary cfg), "secondary"%string)) ∧
  ∃ header, ParseRequestHeader frame = Ok header ∧
  fst (fst (upstream_for (ce_route env) clusterName cfg header frame (cs_router s) (cs_stats s))) =
    Ok (default (ep_Bootstrap (cl_Primary cfg))
          (GetLeader (rt_cache (cs_router s)) (ep_Bootstrap (cl_Primary cfg)) topic pid)).
Proof.
  intros Hmode Hact Hne Hst Hsafe Ha. split.
  - unfold select_upstream. rewrite Hmode.
    change (String.eqb ModeActivePassive ModeLoadBalance) with false. cbv iota. cbn [fst].
    unfold upstreamTarget. rewrite Hmode.
    change (String.eqb ModeActivePassive ModeActivePassive) with true. cbv iota.
    destruct (cs_sys s) as [sm w]. cbn [fst] in Hst.
    by rewrite (TargetForRouting_state lookup sm w clusterName StateSecondary (or_intror eq_refl) Hst).
  - destruct (asks_parsed topic pid frame Ha) as (hd & body & Hh & Hk & Hsl & Hbd).
    exists hd. split; [done|]. unfold upstream_for. rewrite Hk, Hsl. bind_simpl.
    rewrite Hbd. cbn [wrap_err rr_TopicName fst].
    rewrite route_partition_spec by
      first [done | right; right; split; [done|by left]].
    cbn [rr_TopicName rr_PartitionID].
    assert (owner clusterName cfg (cs_router s) topic pid = ep_Bootstrap (cl_Primary cfg)) as ->.
    { unfold owner. rewrite decide_False; [done|]. rewrite Hmode, Hact. by intros [[? _]|[_ ?]]. }
    match goal with |- context [leader_or_bootstrap ?e ?b ?rr ?r] =>
      pose proof (leader_or_bootstrap_spec e b rr r (Hsafe b)) as Hl;
      destruct (leader_or_bootstrap e b rr r) as [a r'] end.
    by destruct Hl as (-> & _).
Qed.

End Failover.

(** ** Witnesses *)

(** An upstream that answers every dial with [uin] to read. *)
Definition answering (uin : bytes) (up down : nat) : conn_env :=
  {| ce_route := sample_env; ce_dial := λ _, Ok (peer uin []);
     ce_forward := λ _, Err (Sentinel "refused"); ce_roll := 0;
     ce_up := {| cy_chunks := [up]; cy_cut := 0 |}; ce_down := {| cy_chunks := [down]; cy_cut := 0 |} |}.

Definition client_of (cin : bytes) (state : string) : conn_state MapPartitionLeaderCache :=
  {| cs_sys := (sample_sm state, sample_world); cs_rebalancers := ∅; cs_selectCounter := 0;
     cs_router := sample_router; cs_stats := no_stats; cs_client := peer cin [];
     cs_peers := λ _, peer [] []; cs_upstream := None |}.

Lemma sample_connected env uin cin :
  ce_dial env "a:9092" = Ok (peer uin []) →
  connected env "bu1" sample_cluster_config (Some None) (client_of cin StatePrimary) "primary"
    (peer uin []).
Proof.
  intros Hd. exists "a:9092"%string, (client_of cin StatePrimary).
  split; [reflexivity|split; [discriminate|exact Hd]].
Defined.

Lemma metadata_session_witness :
  let first := encode_request_header 16 APIKeyMetadata 1 7 (Some "me"%string) in
  let uin := replies sample_rounds ++ wire_frame 1 sample_response ++ [x09] in
  ∃ s', handleConnection (answering uin 1 1) "bu1" sample_cluster_config 9094 "proxy" (Some None) 5%nat
          (client_of (requests sample_rounds ++ first ++ be32 0 ++ [x07]) StatePrimary) =
        (Some (Ok tt), s') ∧
    cn_out (cs_client s') =
      replies sample_rounds ++ wire_frame 1 (proxied_response "proxy" 9094 sample_response) ++ [x09].
Proof.
  intros first uin.
  destruct (metadata_session (answering uin 1 1) "bu1" sample_cluster_config 9094 "proxy" (Some None)
    "primary" sample_rounds 16 1 7 (Some "me"%string) (be32 0) sample_response [x07] [] [x09] [] 5%nat
    (client_of (requests sample_rounds ++ first ++ be32 0 ++ [x07]) StatePrimary))
    as (s' & Hrun & Hc & _).
  - apply sample_connected. reflexivity.
  - reflexivity.
  - reflexivity.
  - exact sample_rounds_ok.
  - unfold in_int16; lia.
  - unfold in_int32; lia.
  - reflexivity.
  - reflexivity.
  - unfold MaxFrameSize; lia.
  - exact sample_response_valid.
  - reflexivity.
  - vm_compute. discriminate.
  - vm_compute. discriminate.
  - vm_compute. discriminate.
  - exists s'. split; [exact Hrun|]. rewrite Hc. reflexivity.
Defined.

Lemma other_session_is_tunnel_witness :
  let first := encode_request_header 12 18 1 7 (Some "me"%string) in
  let uin := replies sample_rounds ++ be32 4 ++ be32 7 in
  ∃ s', handleConnection (answering uin 1 8) "bu1" sample_cluster_config 9094 "proxy" (Some None) 5%nat
          (client_of (requests sample_rounds ++ first ++ [x07]) StatePrimary) =
        (Some (Ok tt), s') ∧
    cn_out (cs_client s') = replies sample_rounds ++ be32 4 ++ be32 7.
Proof.
  intros first uin.
  destruct (other_session_is_tunnel (answering uin 1 8) "bu1" sample_cluster_config 9094 "proxy"
    (Some None) "primary" sample_rounds 12 18 1 7 (Some "me"%string) [x07] [] (be32 4 ++ be32 7) [] 5%nat
    (client_of (requests sample_rounds ++ first ++ [x07]) StatePrimary)) as (s' & Hrun & Hc & _).
  - apply sample_connected. reflexivity.
  - reflexivity.
  - exact sample_rounds_ok.
  - unfold in_int32; lia.
  - unfold in_int16; lia.
  - reflexivity.
  - discriminate.
  - reflexivity.
  - unfold in_int32; lia.
  - reflexivity.
  - exists s'. split; [exact Hrun|]. rewrite Hc. reflexivity.
Defined.

Lemma client_crashes_proxy_witness :
  fst (handleConnection (answering [] 0 0) "bu1" sample_cluster_config 9094 "proxy" (Some None) 5%nat
    (client_of (requests [] ++ encode_request_header 14 APIKeyMetadata 1 7 (Some "client"%string)
                ++ [] ++ []) StatePrimary)) = Some Panic.
Proof.
  apply (client_crashes_proxy (answering [] 0 0) "bu1" sample_cluster_config 9094 "proxy" (Some None)
    (encode_request_header 14 APIKeyMetadata 1 7 (Some "client"%string)) [] "primary" [] [] [] [] []).
  - apply sample_connected. reflexivity.
  - apply crashing_metadata.
    + unfold in_int16; lia.
    + unfold in_int32; lia.
    + reflexivity.
    + lia.
    + reflexivity.
    + left. reflexivity.
  - constructor.
  - reflexivity.
Defined.

Lemma handler_registers_once_witness :
  let '(r, s') := handleConnection (answering [] 0 0) "bu1" sample_cluster_config 9094 "proxy"
                    (Some None) 5%nat (client_of [] StatePrimary) in
  r = Some (Ok tt) ∧ ActiveConnections "bu1" (w_dm (snd (cs_sys s'))) = 2.
Proof.
  pose proof (handler_registers_once (answering [] 0 0) "bu1" sample_cluster_config 9094 "proxy"
    (Some None) 5%nat (client_of [] StatePrimary)) as H.
  destruct (handleConnection _ _ _ _ _ _ _ _) as [r s'] eqn:E.
  assert (r = Some (Ok tt)) as ->.
  { change r with (fst (r, s')). rewrite <- E. vm_compute. reflexivity. }
  split; [reflexivity|].
  destruct (H s' eq_refl) as (_ & _ & Hl).
  - exact sample_dm_ok.
  - vm_compute. reflexivity.
  - rewrite (proj2 (Hl "bu1"%string)). reflexivity.
Defined.

Lemma routed_ignores_failover_witness :
  let s := client_of [] StateSecondary in
  fst (select_upstream (answering [] 0 0) "bu1" sample_cluster_config (Some None) s) =
    Ok (Some ("b:9092"%string, "secondary"%string)) ∧
  ∃ header, ParseRequestHeader sample_request = Ok header ∧
  fst (fst (upstream_for sample_env "bu1" sample_cluster_config header sample_request
    sample_router no_stats)) = Ok "a:9092"%string.
Proof.
  intros s.
  destruct (routed_ignores_failover (supported := λ cluster, has_slash cluster = false)
    (answering [] 0 0) "bu1" sample_cluster_config s None "t" 0 sample_request)
    as (Hsel & header & Hh & Hu).
  - reflexivity.
  - reflexivity.
  - discriminate.
  - reflexivity.
  - intros b. exact I.
  - exact sample_asks.
  - split; [exact Hsel|]. exists header. split; [exact Hh|exact Hu].
Defined.
