(* ===== verification/Listener.v ===== *)
(** * The listener ([internal/proxy/listener.go])

    One TCP listener per cluster, the routing state behind them and its upkeep
    over hot reloads.  [getConfig] reads the reloader, so the functions that call
    it take the current configuration as an argument.  The listener's leader
    cache is the router's: [initRouting] gives the router the same pointer, so it
    is held once, in the router.  A map is ranged over in the order given.

    The rebalancer's goroutine is the flags of [runningRebalancer]: [Stop] closes
    [stopCh] and then waits for the goroutine to close [doneCh], so stopping one
    that was never started blocks for ever, which is [None]. *)

From S2P Require Import Prelude Bytes Conn Config Health Cache LeaderCache Router.
From S2P Require Import AutoRebalance StateMachine Controller DRCoordinator Connection.

Record runningRebalancer := {
  rr_state : AutoRebalancer;
  rr_started : bool;
  rr_stopped : bool
}.

Record Listener := {
  ln_listeners : list nat;
  ln_portMap : gmap Z string;
  ln_router : Router LeaderCache;
  ln_rebalancer : option runningRebalancer;
  ln_healthChecker : option (gmap string clusterRunner)
}.

Definition with_router (r : Router LeaderCache) (l : Listener) : Listener :=
  {| ln_listeners := ln_listeners l; ln_portMap := ln_portMap l; ln_router := r;
     ln_rebalancer := ln_rebalancer l; ln_healthChecker := ln_healthChecker l |}.
Definition with_rebalancer (rb : option runningRebalancer) (l : Listener) : Listener :=
  {| ln_listeners := ln_listeners l; ln_portMap := ln_portMap l; ln_router := ln_router l;
     ln_rebalancer := rb; ln_healthChecker := ln_healthChecker l |}.
Definition with_checker (c : option (gmap string clusterRunner)) (l : Listener) : Listener :=
  {| ln_listeners := ln_listeners l; ln_portMap := ln_portMap l; ln_router := ln_router l;
     ln_rebalancer := ln_rebalancer l; ln_healthChecker := c |}.
Definition with_listeners (ls : list nat) (l : Listener) : Listener :=
  {| ln_listeners := ls; ln_portMap := ln_portMap l; ln_router := ln_router l;
     ln_rebalancer := ln_rebalancer l; ln_healthChecker := ln_healthChecker l |}.
Definition leaderCache (l : Listener) : LeaderCache := rt_cache (ln_router l).

(** ** The rebalancer's goroutine *)

Definition new_rebalancer (cfg : Config) : runningRebalancer :=
  {| rr_state := NewAutoRebalancer cfg; rr_started := false; rr_stopped := false |}.

Definition rebalancer_Start (r : runningRebalancer) : runningRebalancer :=
  {| rr_state := rr_state r; rr_started := true; rr_stopped := rr_stopped r |}.

Definition rebalancer_Stop (r : runningRebalancer) : option runningRebalancer :=
  if rr_stopped r then Some r
  else if rr_started r
  then Some {| rr_state := rr_state r; rr_started := true; rr_stopped := true |}
  else None.

(** One wake-up of [loop]: nothing runs unless the goroutine does. *)
Definition rebalancer_loop (now : time) (healthMap : option (list (string * ClusterHealth)))
    (l : Listener) : Listener :=
  match ln_rebalancer l with
  | Some r =>
      if rr_started r && negb (rr_stopped r) then
        let '(st, router) := tick now healthMap (rr_state r, ln_router l) in
        with_rebalancer (Some {| rr_state := st; rr_started := true; rr_stopped := false |})
          (with_router router l)
      else l
  | None => l
  end.

(** ** Bootstraps *)

(** [allConfigBootstraps]: the first occurrence of each, in order. *)
Definition allConfigBootstraps (order : list (string * ClusterConfig)) : list string :=
  foldl (λ bootstraps '(_, clusterCfg),
    foldl (λ bootstraps b,
      if String.eqb b "" || bool_decide (b ∈ bootstraps) then bootstraps else bootstraps ++ [b])
      bootstraps (clusterBootstraps clusterCfg)) [] order.

(** ** Setting up *)

Definition initRouting (cfg : Config) (order : list (string * ClusterConfig))
    : Router LeaderCache :=
  let cache := ConfigureSASL order NewPartitionLeaderCache in
  let router := NewRouter cfg cache in
  with_cache (foldl (λ c b, StartBackgroundRefresh b c) (rt_cache router)
                (allConfigBootstraps order)) router.

(** [NewListener] and [NewListenerWithReloader], which differ in [getConfig]. *)
Definition NewListener (cfg : Config) (order : list (string * ClusterConfig)) : Listener :=
  {| ln_listeners := []; ln_portMap := BuildPortMap order; ln_router := initRouting cfg order;
     ln_rebalancer := None; ln_healthChecker := None |}.

(** The loop of [Start]: the listeners opened, or the error and those closed
    again. *)
Fixpoint listen_all (listen : Z → nat + error) (order : list (string * ClusterConfig))
    (listeners : list nat) : list nat + (error * list nat) :=
  match order with
  | [] => inl listeners
  | (_, cluster) :: order =>
      match listen (cl_Port cluster) with
      | inl ln => listen_all listen order (listeners ++ [ln])
      | inr e => inr (Wrapf "failed to listen" e, listeners)
      end
  end.

(** [Start] up to the wait for [Close]. *)
Definition Start (listen : Z → nat + error) (order : list (string * ClusterConfig)) (l : Listener)
    : option error * Listener :=
  match listen_all listen order [] with
  | inr (e, _) => (Some e, l)
  | inl listeners =>
      (None, with_rebalancer (rebalancer_Start <$> ln_rebalancer l) (with_listeners listeners l))
  end.

Definition EffectiveWeights (cfg : Config) (clusterName : string) (l : Listener)
    : option (Z * Z) :=
  match cfg_Clusters cfg !! clusterName with
  | Some clusterCfg =>
      if String.eqb (cl_Mode clusterCfg) ModeLoadBalance
      then Some (GetEffectiveWeights clusterName clusterCfg (ln_router l)) else None
  | None => None
  end.

Definition auto_rebalanced (c : ClusterConfig) : bool :=
  String.eqb (cl_Mode c) ModeLoadBalance && hc_AutoRebalance (cl_HealthCheck c).

Definition hasAutoRebalance (cfg : Config) : bool :=
  existsb (λ '(_, c), auto_rebalanced c) (map_to_list (cfg_Clusters cfg)).

Definition SetHealthChecker (cfg : Config) (checker : option (gmap string clusterRunner))
    (l : Listener) : option Listener :=
  let l := with_checker checker l in
  match checker with
  | None => Some l
  | Some _ =>
      if negb (hasAutoRebalance cfg) then Some l
      else
        match ln_rebalancer l with
        | Some r => match rebalancer_Stop r with
                    | None => None
                    | Some _ => Some (with_rebalancer (Some (new_rebalancer cfg)) l)
                    end
        | None => Some (with_rebalancer (Some (new_rebalancer cfg)) l)
        end
  end.

Definition Close (l : Listener) : option Listener :=
  match ln_rebalancer l with
  | Some r => match rebalancer_Stop r with
              | None => None
              | Some r => Some (with_rebalancer (Some r) l)
              end
  | None => Some l
  end.

(** ** Reloads *)

Definition refresh_rebalancer (newCfg : Config) (l : Listener) : option Listener :=
  match ln_healthChecker l with
  | None => Some l
  | Some _ =>
      match hasAutoRebalance newCfg, ln_rebalancer l with
      | true, None =>
          let r := new_rebalancer newCfg in
          Some (with_rebalancer
                  (Some (if bool_decide (ln_listeners l = []) then r else rebalancer_Start r)) l)
      | false, Some r =>
          match rebalancer_Stop r with
          | None => None
          | Some _ => Some (with_rebalancer None l)
          end
      | _, _ => Some l
      end
  end.

Definition refresh_cache (order : list (string * ClusterConfig)) (c : LeaderCache) : LeaderCache :=
  let c := ConfigureSASL order c in
  let oldBootstraps := ActiveClusters c in
  let c := foldl (λ c b, if bool_decide (b ∈ oldBootstraps) then c else StartBackgroundRefresh b c)
             c (allConfigBootstraps order) in
  let newSet : gset string := list_to_set (allConfigBootstraps order) in
  foldl (λ c b, if bool_decide (b ∈ newSet) then c
                else Invalidate b (StopBackgroundRefresh b c)) c (elements oldBootstraps).

Definition RefreshClusters (newCfg : Config) (order : list (string * ClusterConfig)) (l : Listener)
    : option Listener :=
  let l := with_router (UpdateConfig newCfg (ln_router l)) l in
  let l := with_rebalancer
             ((λ r, {| rr_state := AutoRebalancer_UpdateConfig newCfg (rr_state r);
                       rr_started := rr_started r; rr_stopped := rr_stopped r |})
                <$> ln_rebalancer l) l in
  match refresh_rebalancer newCfg l with
  | None => None
  | Some l => Some (with_router (with_cache (refresh_cache order (leaderCache l)) (ln_router l)) l)
  end.

(** ** Connections *)

Section Accept.

Context {C : Type} `{PartitionLeaderCache C}.

(** A connection accepted on a cluster's port. *)
Definition Listener_handleConnection (env : conn_env) (cfg : Config)
    (drCoordinator : option (option (string → option Controller))) (clusterName : string)
    (conn : nat) (s : conn_state C) : outcome C :=
  match cfg_Clusters cfg !! clusterName with
  | None => returned s
  | Some clusterCfg =>
      handleConnection env clusterName clusterCfg (int32 (cl_Port clusterCfg))
        (ResolvedAdvertiseHost (cfg_Proxy cfg)) drCoordinator conn s
  end.

End Accept.

(** ** What is refreshed in the background *)

Lemma elem_of_bootstraps_step bootstraps bs b :
  b ∈ foldl (λ bootstraps b,
        if String.eqb b "" || bool_decide (b ∈ bootstraps) then bootstraps else bootstraps ++ [b])
        bootstraps bs ↔ b ∈ bootstraps ∨ (b ∈ bs ∧ b ≠ ""%string).
Proof.
  revert bootstraps. induction bs as [|x bs IH]; intros bootstraps; cbn [foldl].
  - split; [by left|]. intros [?|[?%not_elem_of_nil _]]; done.
  - rewrite IH. destruct (String.eqb_spec x "") as [->|Hne]; cbn [orb].
    + rewrite list.elem_of_cons. naive_solver.
    + case_bool_decide; rewrite ?elem_of_app, ?list_elem_of_singleton, list.elem_of_cons; naive_solver.
Qed.

Lemma clusterBootstraps_nonempty c b : b ∈ clusterBootstraps c → b ≠ ""%string.
Proof.
  unfold clusterBootstraps.
  assert (Hone : ∀ x, b ∈ (if negb (String.eqb x "") then [x] else []) → b ≠ ""%string).
  { intros x. destruct (String.eqb_spec x ""); cbn; [by intros ?%not_elem_of_nil|].
    by intros ->%list_elem_of_singleton. }
  destruct (_ || _); [rewrite elem_of_app; naive_solver|].
  destruct (String.eqb _ ModeSingle); [apply Hone|by intros ?%not_elem_of_nil].
Qed.

Lemma elem_of_allConfigBootstraps order b :
  b ∈ allConfigBootstraps order ↔ ∃ name c, (name, c) ∈ order ∧ b ∈ clusterBootstraps c.
Proof.
  unfold allConfigBootstraps.
  assert (Hgen : ∀ acc, b ∈ foldl (λ bootstraps '(_, clusterCfg),
    foldl (λ bootstraps b,
      if String.eqb b "" || bool_decide (b ∈ bootstraps) then bootstraps else bootstraps ++ [b])
      bootstraps (clusterBootstraps clusterCfg)) acc order ↔
    b ∈ acc ∨ ∃ name c, (name, c) ∈ order ∧ b ∈ clusterBootstraps c).
  { induction order as [|[name c] order IH]; intros acc; cbn [foldl].
    - split; [by left|]. by intros [?|(? & ? & ?%not_elem_of_nil & _)].
    - rewrite IH, elem_of_bootstraps_step. setoid_rewrite list.elem_of_cons.
      pose proof (clusterBootstraps_nonempty c b). naive_solver. }
  rewrite Hgen. split; [|by right]. by intros [?%not_elem_of_nil|].
Qed.

Lemma StartBackgroundRefresh_spec b c :
  lc_leaders (StartBackgroundRefresh b c) = lc_leaders c ∧
  lc_bootstrapCreds (StartBackgroundRefresh b c) = lc_bootstrapCreds c ∧
  ActiveClusters (StartBackgroundRefresh b c) = {[b]} ∪ ActiveClusters c ∧
  ∀ b', b' ∈ ActiveClusters c →
    lc_refreshers (StartBackgroundRefresh b c) !! b' = lc_refreshers c !! b'.
Proof.
  unfold StartBackgroundRefresh, ActiveClusters.
  destruct (lc_refreshers c !! b) as [r|] eqn:E; cbn.
  - split_and!; try done. apply elem_of_dom_2 in E. set_solver.
  - split_and!; try done; [apply dom_insert_L|].
    intros b' Hb'. rewrite lookup_insert_ne; [done|]. intros ->.
    apply elem_of_dom in Hb' as [? ?]. congruence.
Qed.

Lemma start_all_spec old bs c :
  let c' := foldl (λ c b, if bool_decide (b ∈ old) then c else StartBackgroundRefresh b c) c bs in
  lc_leaders c' = lc_leaders c ∧ lc_bootstrapCreds c' = lc_bootstrapCreds c ∧
  (∀ b, b ∈ ActiveClusters c' ↔ b ∈ ActiveClusters c ∨ (b ∈ bs ∧ b ∉ (old : gset string))) ∧
  (∀ b, b ∈ ActiveClusters c → lc_refreshers c' !! b = lc_refreshers c !! b).
Proof.
  revert c. induction bs as [|x bs IH]; intros c; cbn [foldl].
  - split_and!; try done. intros b. split; [by left|]. by intros [?|[?%not_elem_of_nil _]].
  - case_bool_decide as Hx.
    + destruct (IH c) as (H1 & H2 & H3 & H4). split_and!; try done.
      intros b. rewrite H3, list.elem_of_cons. naive_solver.
    + destruct (IH (StartBackgroundRefresh x c)) as (H1 & H2 & H3 & H4).
      destruct (StartBackgroundRefresh_spec x c) as (G1 & G2 & G3 & G4).
      split_and!; [congruence..| |].
      * intros b. rewrite H3, G3, list.elem_of_cons, elem_of_union, elem_of_singleton. naive_solver.
      * intros b Hb. rewrite H4, G4; [done|done|]. rewrite G3. set_solver.
Qed.

Lemma start_fresh bs c :
  foldl (λ c b, StartBackgroundRefresh b c) c bs =
  foldl (λ c b, if bool_decide (b ∈ (∅ : gset string)) then c else StartBackgroundRefresh b c) c bs.
Proof. revert c. induction bs as [|x bs IH]; intros c; [done|]. cbn [foldl]. by rewrite IH. Qed.

Lemma stop_all_spec keep bs c :
  let c' := foldl (λ c b, if bool_decide (b ∈ (keep : gset string)) then c
                          else Invalidate b (StopBackgroundRefresh b c)) c bs in
  lc_bootstrapCreds c' = lc_bootstrapCreds c ∧
  (∀ b, lc_refreshers c' !! b =
        if bool_decide (b ∈ bs ∧ b ∉ keep) then None else lc_refreshers c !! b) ∧
  (∀ b, lc_leaders c' !! b =
        if bool_decide (b ∈ bs ∧ b ∉ keep) then None else lc_leaders c !! b).
Proof.
  revert c. induction bs as [|x bs IH]; intros c; cbn [foldl].
  - split_and!; try done; intros b; rewrite bool_decide_eq_false_2; try done;
      by intros [?%not_elem_of_nil _].
  - assert (Hcons : ∀ b, b ≠ x ∨ x ∈ keep →
      bool_decide (b ∈ x :: bs ∧ b ∉ keep) = bool_decide (b ∈ bs ∧ b ∉ keep)).
    { intros b Hb. apply bool_decide_ext. rewrite list.elem_of_cons. naive_solver. }
    case_bool_decide as Hx.
    + destruct (IH c) as (H1 & H2 & H3). split_and!; [done|..]; intros b;
        rewrite Hcons by auto; auto.
    + destruct (IH (Invalidate x (StopBackgroundRefresh x c))) as (H1 & H2 & H3).
      split_and!; [by rewrite H1|..]; intros b; rewrite ?H2, ?H3; cbn;
        (destruct (decide (b = x)) as [->|Hb];
         [rewrite lookup_delete, decide_True by done;
          rewrite (bool_decide_eq_true_2 (x ∈ x :: bs ∧ x ∉ keep)) by (split; [left|done]);
          by case_bool_decide
         |rewrite lookup_delete_ne by done; rewrite Hcons by auto; done]).
Qed.

Lemma refresh_cache_spec order c :
  let bootstraps := allConfigBootstraps order in
  let c' := refresh_cache order c in
  (∀ b, b ∈ ActiveClusters c' ↔ b ∈ bootstraps) ∧
  lc_bootstrapCreds c' = lc_bootstrapCreds (ConfigureSASL order c) ∧
  (∀ b, b ∈ bootstraps → b ∈ ActiveClusters c → lc_refreshers c' !! b = lc_refreshers c !! b) ∧
  (∀ b, lc_leaders c' !! b =
        if bool_decide (b ∈ ActiveClusters c ∧ b ∉ bootstraps) then None else lc_leaders c !! b).
Proof.
  intros bootstraps c'. unfold c', refresh_cache.
  change (ActiveClusters (ConfigureSASL order c)) with (ActiveClusters c).
  pose proof (start_all_spec (ActiveClusters c) bootstraps (ConfigureSASL order c)) as (G1 & G2 & G3 & G4).
  fold bootstraps. set (c1 := foldl _ (ConfigureSASL order c) bootstraps) in *.
  pose proof (stop_all_spec (list_to_set bootstraps) (elements (ActiveClusters c)) c1) as (H1 & H2 & H3).
  set (c2 := foldl _ c1 _) in *. change (ActiveClusters (ConfigureSASL order c)) with (ActiveClusters c) in *.
  assert (Hstop : ∀ b, bool_decide (b ∈ elements (ActiveClusters c) ∧
                                    b ∉ (list_to_set bootstraps : gset string)) =
                       bool_decide (b ∈ ActiveClusters c ∧ b ∉ bootstraps)).
  { intros b. apply bool_decide_ext. by rewrite elem_of_elements, elem_of_list_to_set. }
  split_and!.
  - intros b. unfold ActiveClusters at 1. rewrite elem_of_dom, H2, Hstop.
    case_bool_decide as Hb; [split; [by intros []|]; naive_solver|].
    rewrite <- elem_of_dom. change (dom (lc_refreshers c1)) with (ActiveClusters c1). rewrite G3.
    destruct (decide (b ∈ bootstraps)), (decide (b ∈ ActiveClusters c)); naive_solver.
  - congruence.
  - intros b Hb Ha. rewrite H2, Hstop, bool_decide_eq_false_2 by naive_solver. by apply G4.
  - intros b. rewrite H3, Hstop. by rewrite G1.
Qed.

(** The clusters a configuration routes to. *)
Definition configured_bootstrap (cfg : Config) (b : string) : Prop :=
  ∃ name c, cfg_Clusters cfg !! name = Some c ∧ b ∈ clusterBootstraps c.

Lemma configured_bootstrap_order cfg order b :
  order ≡ₚ map_to_list (cfg_Clusters cfg) →
  b ∈ allConfigBootstraps order ↔ configured_bootstrap cfg b.
Proof.
  intros Ho. rewrite elem_of_allConfigBootstraps. unfold configured_bootstrap.
  setoid_rewrite Ho. by setoid_rewrite elem_of_map_to_list.
Qed.

Lemma refresh_rebalancer_router cfg l l' :
  refresh_rebalancer cfg l = Some l' → ln_router l' = ln_router l ∧ ln_listeners l' = ln_listeners l.
Proof.
  unfold refresh_rebalancer. destruct (ln_healthChecker l); [|by intros [= <-]].
  destruct (hasAutoRebalance cfg), (ln_rebalancer l) as [r|]; try by intros [= <-].
  by destruct (rebalancer_Stop r); intros [= <-].
Qed.

(** ** Properties *)

(** C33: The refreshed clusters are the configured ones.  A new listener, and a
    listener after any hot reload that completes - whatever it held before and in
    whatever order the map is ranged over - refreshes in the background exactly
    the bootstraps of the current configuration.  The reload keeps the refreshers
    and the known leaders of every bootstrap that stays, and forgets the leaders
    of every bootstrap that is no longer configured. *)
Theorem RefreshClusters_tracks_config cfg order :
  order ≡ₚ map_to_list (cfg_Clusters cfg) →
  (∀ b, b ∈ ActiveClusters (leaderCache (NewListener cfg order)) ↔ configured_bootstrap cfg b) ∧
  ∀ l l', RefreshClusters cfg order l = Some l' →
    (∀ b, b ∈ ActiveClusters (leaderCache l') ↔ configured_bootstrap cfg b) ∧
    (∀ b, configured_bootstrap cfg b → b ∈ ActiveClusters (leaderCache l) →
       lc_refreshers (leaderCache l') !! b = lc_refreshers (leaderCache l) !! b) ∧
    (∀ b topic pid, configured_bootstrap cfg b →
       GetLeader (leaderCache l') b topic pid = GetLeader (leaderCache l) b topic pid) ∧
    (∀ b topic pid, b ∈ ActiveClusters (leaderCache l) → ¬ configured_bootstrap cfg b →
       GetLeader (leaderCache l') b topic pid = None).
Proof.
  intros Ho. setoid_rewrite <- (λ b, configured_bootstrap_order cfg order b Ho). split.
  - intros b. unfold leaderCache. cbn.
    pose proof (start_all_spec ∅ (allConfigBootstraps order)
      (ConfigureSASL order NewPartitionLeaderCache)) as (_ & _ & H & _).
    rewrite start_fresh, H. set_solver.
  - intros l l' Hr. unfold RefreshClusters in Hr.
    destruct (refresh_rebalancer _ _) as [l1|] eqn:Hl1; [|done]. injection Hr as <-.
    apply refresh_rebalancer_router in Hl1 as [Hrt _].
    assert (Hc : leaderCache l1 = leaderCache l) by (unfold leaderCache; by rewrite Hrt).
    assert (Hl' : ∀ c, leaderCache (with_router (with_cache c (ln_router l1)) l1) = c) by done.
    rewrite Hl', Hc.
    destruct (refresh_cache_spec order (leaderCache l)) as (H1 & _ & H3 & H4).
    split_and!; [done|done|..]; intros b topic pid Hb; cbn [GetLeader leader_cache].
    + unfold getLeaderLocked. by rewrite H4, bool_decide_eq_false_2 by naive_solver.
    + intros Hn. unfold getLeaderLocked. by rewrite H4, bool_decide_eq_true_2.
Qed.

(** A reload of a configuration with automatic rebalancing replaces the running
    rebalancer by one that nobody starts. *)
Lemma reload_replaces_rebalancer cfg order checker l r :
  ln_rebalancer l = Some r → rr_started r = true → hasAutoRebalance cfg = true →
  ∃ l1 l2, SetHealthChecker cfg (Some checker) l = Some l1 ∧
    RefreshClusters cfg order l1 = Some l2 ∧
    ∃ r2, ln_rebalancer l2 = Some r2 ∧ rr_started r2 = false ∧ rr_stopped r2 = false.
Proof.
  intros Hr Hs Ha. unfold SetHealthChecker. rewrite Ha. cbn [negb with_checker ln_rebalancer].
  rewrite Hr. unfold rebalancer_Stop. rewrite Hs.
  assert (∃ x, (if rr_stopped r then Some r
                else Some {| rr_state := rr_state r; rr_started := true; rr_stopped := true |}) = Some x)
    as [x ->] by (destruct (rr_stopped r); eauto).
  eexists _, _. split; [done|]. unfold RefreshClusters, refresh_rebalancer. cbn. rewrite Ha.
  split; [done|]. by eexists.
Qed.

(** Such a listener neither rebalances, nor closes, nor takes another checker. *)
Lemma unstarted_stuck l r :
  ln_rebalancer l = Some r → rr_started r = false → rr_stopped r = false →
  (∀ now healthMap, rebalancer_loop now healthMap l = l) ∧
  Close l = None ∧
  ∀ cfg checker, hasAutoRebalance cfg = true → SetHealthChecker cfg (Some checker) l = None.
Proof.
  intros Hr Hs Ht. split_and!.
  - intros now healthMap. unfold rebalancer_loop. by rewrite Hr, Hs.
  - unfold Close, rebalancer_Stop. by rewrite Hr, Hs, Ht.
  - intros cfg checker Ha. unfold SetHealthChecker, rebalancer_Stop. rewrite Ha.
    cbn [negb with_checker ln_rebalancer]. by rewrite Hr, Hs, Ht.
Qed.

(** ** Witnesses *)

(** The configuration drops its secondary: a reload forgets it. *)
Definition single_config : Config :=
  {| cfg_Proxy := cfg_Proxy sample_config;
     cfg_Clusters := {[ "bu1"%string :=
       {| cl_Port := 9092; cl_Mode := ModeSingle; cl_Active := "";
          cl_Primary := {| ep_Bootstrap := "a:9092"; ep_Weight := 0 |};
          cl_Secondary := {| ep_Bootstrap := ""; ep_Weight := 0 |};
          cl_HealthCheck := zero_HealthCheckConfig |} ]} |}.

Lemma RefreshClusters_tracks_config_witness :
  let l := NewListener sample_config (map_to_list (cfg_Clusters sample_config)) in
  "b:9092"%string ∈ ActiveClusters (leaderCache l) ∧
  ∃ l', RefreshClusters single_config (map_to_list (cfg_Clusters single_config)) l = Some l' ∧
    ("b:9092"%string ∈ ActiveClusters (leaderCache l') → configured_bootstrap single_config "b:9092").
Proof.
  set (l := NewListener sample_config (map_to_list (cfg_Clusters sample_config))). cbn zeta.
  split.
  - apply (RefreshClusters_tracks_config sample_config _ (Permutation_refl _)).
    exists "bu1"%string, sample_cluster_config. split; [reflexivity|].
    right. left.
  - eexists. split; [reflexivity|].
    refine (proj1 (proj1 (proj2 (RefreshClusters_tracks_config single_config _ (Permutation_refl _))
              l _ _) "b:9092"%string)). reflexivity.
Defined.
