(* ===== verification/Startup.v ===== *)
(** * Startup and hot reload ([cmd/proxy/main.go])

    The proxy as [main] wires it: the health checker, the state machine and the
    drain manager, the failover manager and the listener.  [main_init] is [main]
    up to the start of the listener; [on_reload] is the callback it registers with
    the reloader, [None] when it blocks for ever.  The adapter given to the
    observability server holds the same checker.  Signals, flags and the HTTP
    server are not modelled. *)

From S2P Require Import Prelude Bytes Conn Config Health Cache LeaderCache Router.
From S2P Require Import AutoRebalance StateMachine Drain Controller DRCoordinator Manager Connection Listener.

(** [DRCoordinator] is the manager's drain reader. *)
#[export] Instance world_drain_reader : DrainStateReader World :=
  λ w bu, DrainNewActive (w_dm w) bu.

Record Proxy := {
  pr_checker : gmap string clusterRunner;
  pr_sys : System;
  pr_mgr : Manager FailoverMetrics;
  pr_listener : option Listener
}.

Definition shutdownDrainTimeout : duration := 30 * second.

Definition initial_state (cluster : ClusterConfig) : string :=
  if String.eqb (cl_Active cluster) ActivePrimary then StatePrimary
  else if String.eqb (cl_Active cluster) ActiveSecondary then StateSecondary
  else StatePrimary.

Definition initialise (order : list (string * ClusterConfig)) (sm : StateMachine World)
    : StateMachine World :=
  foldl (λ sm '(name, cluster),
    if negb (String.eqb (cl_Mode cluster) ModeActivePassive) then sm
    else snd (Initialize name (initial_state cluster) sm)) sm order.

Definition main_idle_timeout (cfg : Config) : duration :=
  let d := cp_IdleTimeout (px_ConnectionPool (cfg_Proxy cfg)) in
  if d <=? 0 then 30 * second else d.

Definition main_init (now : time) (order : list (string * ClusterConfig)) (cfg : Config)
    : option Proxy :=
  let checker := Health.New now (cfg_Clusters cfg) in
  let dm := NewDrainManager (main_idle_timeout cfg) in
  let sm := Wire (initialise order NewStateMachine) in
  let mgr := SetChecker (Checker_Health checker)
               (SetMetrics (Some NewFailoverMetrics) (SetDrainReader (NewManager (cfg_Clusters cfg)))) in
  listener ← SetHealthChecker cfg (Some checker) (NewListener cfg order);
  Some {| pr_checker := checker; pr_sys := (sm, {| w_now := now; w_dm := dm; w_closed := [] |});
          pr_mgr := mgr; pr_listener := Some listener |}.

(** [listener.Start] in [main]. *)
Definition main_start (listen : Z → nat + error) (order : list (string * ClusterConfig)) (p : Proxy)
    : option error * Proxy :=
  match pr_listener p with
  | None => (None, p)
  | Some l =>
      let '(err, l) := Listener.Start listen order l in
      (err, {| pr_checker := pr_checker p; pr_sys := pr_sys p; pr_mgr := pr_mgr p;
               pr_listener := Some l |})
  end.

(** One iteration of the reload callback's loop over the changes. *)
Definition apply_change (newCfg : Config) (sys : System) (ch : ClusterChange) : System :=
  if ch_ActiveChanged ch then
    let newCluster := default zero_ClusterConfig (cfg_Clusters newCfg !! ch_Name ch) in
    if String.eqb (cl_Mode newCluster) ModeActivePassive then
      let '(sm, w) := sys in
      let '(_, sm, w) := SM_Transition (ch_Name ch) StateDraining ReasonConfigChange sm w in (sm, w)
    else sys
  else sys.

Definition on_reload (now : time) (newOrder oldOrder : list (string * ClusterConfig))
    (oldCfg newCfg : Config) (p : Proxy) : option Proxy :=
  match DiffClusters newOrder oldOrder oldCfg newCfg with
  | [] => Some p
  | changes =>
      let '(sm, w) := pr_sys p in
      let sys := foldl (apply_change newCfg) (sm, at_time now w) changes in
      let checker := Health.New now (cfg_Clusters newCfg) in
      let mgr := SetChecker (Checker_Health checker)
                   (Manager.Reconfigure (cfg_Clusters newCfg) (pr_mgr p)) in
      match pr_listener p with
      | None => Some {| pr_checker := checker; pr_sys := sys; pr_mgr := mgr; pr_listener := None |}
      | Some l =>
          l ← SetHealthChecker newCfg (Some checker) l;
          l ← RefreshClusters newCfg newOrder l;
          Some {| pr_checker := checker; pr_sys := sys; pr_mgr := mgr; pr_listener := Some l |}
      end
  end.

(** The signal handler up to [os.Exit]: whether it gets there. *)
Definition shutdown (deadline : time) (polls : list (time * DrainManager)) (p : Proxy) : option bool :=
  match pr_listener p with
  | None => Some (WaitIdle deadline polls)
  | Some l => _ ← Listener.Close l; Some (WaitIdle deadline polls)
  end.

(** The coordinator's lookup, [failoverMgr.Controller]. *)
Definition lookup_of (p : Proxy) : option (string → option Controller) :=
  Some (Manager_Controller (pr_mgr p)).

(** ** What a reload does to one BU *)

(** The sides of the drain that starts when a BU in state [e] enters DRAINING;
    [None] is a BU the state machine does not know. *)
Definition old_side (e : option string) : string := stateToTarget (default ""%string e).
Definition new_side (e : option string) : string :=
  match e with Some s => stateToTarget (opposite s) | None => ActivePrimary end.

Definition drainable (e : option string) : Prop :=
  match e with Some s => routing_state s | None => True end.

Lemma SM_Transition_draining bu reason (sm : StateMachine World) w e :
  wired sm → sm_entries sm !! bu = e → drainable e →
  SM_Transition bu StateDraining reason sm w =
  (None, with_entries (<[bu := StateDraining]> (sm_entries sm)) sm,
   with_dm (StartDrain (w_now w) bu (old_side e) (new_side e) 0 (w_dm w)) w).
Proof.
  intros Hw He Hd. destruct e as [s|]; [by apply enter_draining|].
  unfold SM_Transition. rewrite He. unfold fireCallbacks; cbn [with_entries sm_callbacks].
  unfold wired in Hw. by rewrite Hw.
Qed.

Lemma SM_Transition_world bu to reason (sm : StateMachine World) w :
  wired sm →
  let '(_, sm', w') := SM_Transition bu to reason sm w in
  wired sm' ∧ (w' = w ∨ ∃ old new, w' = with_dm (StartDrain (w_now w) bu old new 0 (w_dm w)) w).
Proof.
  intros Hw. assert (Hcb : ∀ t, tr_BU t = bu → on_state_change t w = w ∨
    ∃ old new, on_state_change t w = with_dm (StartDrain (w_now w) bu old new 0 (w_dm w)) w).
  { intros t <-. unfold on_state_change. destruct (negb _); [by left|]. right. by eexists _, _. }
  unfold wired in *. unfold SM_Transition, fireCallbacks.
  destruct (sm_entries sm !! bu) as [s|]; cbn [with_entries sm_callbacks]; [|rewrite Hw].
  - destruct (String.eqb s to); [by split; [|left]|]. destruct (negb _); [by split; [|left]|].
    rewrite Hw. split; [done|]. by apply Hcb.
  - split; [done|]. by apply Hcb.
Qed.

Section Reload.

Context (newCfg : Config) (bu : string) (e : option string).
Context (now : time) (timeout : duration) (closed : list nat) (conns : gmap string buConnTracker).

Definition reload_drain : buDrain :=
  {| bd_OldActive := old_side e; bd_NewActive := new_side e; bd_StartedAt := now;
     bd_timer := now + timeout |}.

(** The system between two changes, before and after [bu]'s own. *)
Definition reloading (drained : bool) (sys : System) : Prop :=
  let '(sm, w) := sys in
  wired sm ∧ w_now w = now ∧ w_closed w = closed ∧
  dm_DefaultDrainTimeout (w_dm w) = timeout ∧ dm_buConns (w_dm w) = conns ∧
  if drained
  then sm_entries sm !! bu = Some StateDraining ∧ dm_drains (w_dm w) !! bu = Some reload_drain
  else sm_entries sm !! bu = e.

(** Whether a change drains [bu]. *)
Definition drains_bu (ch : ClusterChange) : bool :=
  String.eqb (ch_Name ch) bu && ch_ActiveChanged ch &&
  String.eqb (cl_Mode (default zero_ClusterConfig (cfg_Clusters newCfg !! bu))) ModeActivePassive.

Lemma apply_change_reloading d sys ch :
  drainable e → reloading d sys → reloading (d || drains_bu ch) (apply_change newCfg sys ch).
Proof.
  intros He. destruct sys as [sm w]. intros (Hw & Hnow & Hcl & Ht & Hc & Hd). unfold apply_change.
  destruct (String.eqb_spec (ch_Name ch) bu) as [Hname|Hname].
  - unfold drains_bu. rewrite Hname, String.eqb_refl. cbn [andb].
    destruct (ch_ActiveChanged ch); [|by rewrite orb_false_r]. cbn [andb].
    destruct (String.eqb _ ModeActivePassive); [|by rewrite orb_false_r]. rewrite orb_true_r.
    destruct d.
    + destruct Hd as [Hs Hd]. unfold SM_Transition. rewrite Hs. by split_and!.
    + rewrite (SM_Transition_draining bu _ sm w e) by done. split_and!; try done.
      * cbn. by rewrite lookup_insert, decide_True.
      * cbn. rewrite lookup_insert, decide_True by done. unfold reload_drain. by rewrite <- Hnow, Ht.
  - assert (drains_bu ch = false) as ->.
    { unfold drains_bu. by rewrite (proj2 (String.eqb_neq _ _) Hname). }
    rewrite orb_false_r. destruct (ch_ActiveChanged ch); [|by split_and!].
    destruct (String.eqb _ ModeActivePassive); [|by split_and!].
    pose proof (SM_Transition_world (ch_Name ch) StateDraining ReasonConfigChange sm w Hw) as H1.
    pose proof (SM_Transition_frame (ch_Name ch) StateDraining ReasonConfigChange sm w) as H2.
    destruct (SM_Transition _ _ _ sm w) as [[err sm'] w']. destruct H1 as [Hw' Hww], H2 as [_ Hfr].
    rewrite <- (Hfr bu) in Hd by done. destruct Hww as [->|(old & new & ->)]; [by split_and!|].
    split_and!; try done. cbn. by rewrite lookup_insert_ne by done.
Qed.

Lemma apply_changes_reloading d sys changes :
  drainable e → reloading d sys →
  reloading (d || existsb drains_bu changes) (foldl (apply_change newCfg) sys changes).
Proof.
  intros He. revert d sys. induction changes as [|ch changes IH]; intros d sys Hr; cbn [foldl existsb].
  - by rewrite orb_false_r.
  - rewrite orb_assoc. apply IH. by apply apply_change_reloading.
Qed.

End Reload.

(** The reload sees the change of an active side. *)
Lemma DiffClusters_active oldCfg newCfg newOrder oldOrder bu c :
  newOrder ≡ₚ map_to_list (cfg_Clusters newCfg) →
  cfg_Clusters newCfg !! bu = Some c → cl_Mode c = ModeActivePassive →
  cl_Active <$> cfg_Clusters oldCfg !! bu ≠ Some (cl_Active c) →
  existsb (drains_bu newCfg bu) (DiffClusters newOrder oldOrder oldCfg newCfg) = true.
Proof.
  intros Ho Hc Hm Ha. apply existsb_exists.
  assert (Hin : (bu, c) ∈ newOrder) by (rewrite Ho; by apply elem_of_map_to_list).
  assert (∃ ch, In ch (diff_new (cfg_Clusters oldCfg) bu c) ∧ ch_Name ch = bu ∧ ch_ActiveChanged ch = true)
    as (ch & Hch & Hn & Hact).
  { unfold diff_new. destruct (cfg_Clusters oldCfg !! bu) as [o|].
    - destruct (String.eqb_spec (cl_Active o) (cl_Active c)) as [Heq|Hne].
      { cbn in Ha. congruence. }
      cbn [negb orb]. eexists. split; [by left|]. by split.
    - eexists. split; [by left|]. by split. }
  exists ch. split.
  - unfold DiffClusters. apply in_or_app. left. apply in_concat.
    exists (diff_new (cfg_Clusters oldCfg) bu c). split; [|done].
    apply in_map_iff. exists (bu, c). split; [done|]. by apply list_elem_of_In.
  - unfold drains_bu. rewrite Hn, String.eqb_refl, Hact, Hc. cbn. by rewrite Hm.
Qed.

(** What [on_reload] leaves of a BU whose active side changed. *)
Lemma on_reload_drains now newOrder oldOrder oldCfg newCfg p p' bu c e :
  on_reload now newOrder oldOrder oldCfg newCfg p = Some p' →
  newOrder ≡ₚ map_to_list (cfg_Clusters newCfg) →
  cfg_Clusters newCfg !! bu = Some c → cl_Mode c = ModeActivePassive →
  cl_Active <$> cfg_Clusters oldCfg !! bu ≠ Some (cl_Active c) →
  wired (fst (pr_sys p)) → sm_entries (fst (pr_sys p)) !! bu = e → drainable e →
  reloading bu e now (dm_DefaultDrainTimeout (w_dm (snd (pr_sys p)))) (w_closed (snd (pr_sys p)))
    (dm_buConns (w_dm (snd (pr_sys p)))) true (pr_sys p').
Proof.
  intros Hrun Ho Hc Hm Ha Hw He Hd.
  pose proof (DiffClusters_active oldCfg newCfg newOrder oldOrder bu c Ho Hc Hm Ha) as Hx.
  unfold on_reload in Hrun. destruct (DiffClusters _ _ _ _) as [|ch0 chs] eqn:Hdiff; [done|].
  rewrite <- Hdiff in *. destruct (pr_sys p) as [sm w]. cbn [fst snd] in *.
  assert (Hsys : pr_sys p' =
    foldl (apply_change newCfg) (sm, at_time now w) (DiffClusters newOrder oldOrder oldCfg newCfg)).
  { rewrite Hdiff in *. destruct (pr_listener p) as [l|]; [|by injection Hrun as <-].
    destruct (SetHealthChecker _ _ l) as [l1|]; [|done]. cbn in Hrun.
    destruct (RefreshClusters _ _ l1) as [l2|]; [|done]. cbn in Hrun. by injection Hrun as <-. }
  rewrite Hsys, <- (orb_false_l true), <- Hx. by apply apply_changes_reloading.
Qed.

(** After the reload: new connections go to [new_side e] at once; when the timer
    fires the BU settles there and the connections left on [old_side e] close. *)
Lemma reloading_settles bu e now timeout closed conns lookup sm w s :
  reloading bu e now timeout closed conns true (sm, w) → dm_ok (w_dm w) →
  new_side e = stateToTarget s → routing_state s →
  TargetForRouting lookup (sm, w) bu = (new_side e, true) ∧
  ∀ w2, traffic_step w w2 →
    let '(sm3, w3) := drain_timer bu (old_side e) (sm, w2) in
    State sm3 bu = s ∧ IsDraining bu (w_dm w3) = false ∧
    live bu (w_dm w3) = filter (λ '(_, tc), tc_target tc ≠ old_side e) (live bu (w_dm w2)) ∧
    ∃ cs, w_closed w3 = closed ++ cs ∧
      ∀ c, c ∈ cs ↔ ∃ id tc, live bu (w_dm w2) !! id = Some tc ∧ tc_target tc = old_side e ∧ tc_conn tc = c.
Proof.
  intros (Hw & Hnow & Hcl & Ht & Hc & Hs & Hd) Hok Hnew Hrs. split.
  - unfold TargetForRouting, State. rewrite Hs. cbn [String.eqb]. unfold DrainState. by rewrite Hd.
  - intros w2 Htr. apply traffic_step_dm in Htr as (Hok2 & Hd2 & Hc2); [|done].
    pose proof (forceCloseOld_spec bu (old_side e) (w_dm w2) Hok2) as Hspec.
    pose proof (drain_timer_draining bu sm w2 (reload_drain e now timeout) s Hw Hs Hok2) as Htimer.
    cbn [reload_drain bd_OldActive bd_NewActive] in Htimer.
    destruct (forceCloseOld bu (old_side e) (w_dm w2)) as [[cs drain] dm3].
    rewrite Htimer; [|by rewrite Hd2|done|done]. destruct Hspec as (Hin & Hlive & _ & Hdel & _).
    split; [apply State_insert|]. cbn [w_dm w_closed]. split.
    + unfold IsDraining. rewrite Hdel, lookup_delete, decide_True by done. done.
    + split; [done|]. exists cs. split; [|done]. by rewrite Hc2, Hcl.
Qed.

(** ** The state at startup *)

Lemma initialise_spec order sm :
  NoDup (map fst order) →
  sm_callbacks (initialise order sm) = sm_callbacks sm ∧
  ∀ bu, sm_entries (initialise order sm) !! bu =
    match sm_entries sm !! bu with
    | Some s => Some s
    | None => c ← list_to_map (M := gmap string ClusterConfig) order !! bu;
              if String.eqb (cl_Mode c) ModeActivePassive then Some (initial_state c) else None
    end.
Proof.
  revert sm. induction order as [|[name c] order IH]; intros sm Hnd.
  - split; [done|]. intros bu. cbn. rewrite lookup_empty. cbn. by destruct (sm_entries sm !! bu).
  - cbn [map fst] in Hnd. apply list.NoDup_cons in Hnd as [Hnin Hnd].
    assert (Hnone : list_to_map (M := gmap string ClusterConfig) order !! name = None)
      by (apply not_elem_of_list_to_map_1; exact Hnin).
    unfold initialise. cbn [foldl]. fold (initialise order). cbn [list_to_map foldr].
    destruct (IH (if negb (String.eqb (cl_Mode c) ModeActivePassive) then sm
                  else snd (Initialize name (initial_state c) sm)) Hnd) as [Hcb Hl].
    unfold initialise in Hcb, Hl. split.
    + rewrite Hcb. destruct (negb _); [done|]. unfold Initialize. by destruct (sm_entries sm !! name).
    + intros bu. rewrite Hl. destruct (decide (bu = name)) as [->|Hne].
      * cbn [list_to_map foldr uncurry]. rewrite lookup_insert, decide_True by done. cbn [mbind option_bind].
        destruct (String.eqb (cl_Mode c) ModeActivePassive) eqn:Hap; cbn [negb]; cbv iota.
        -- unfold Initialize. destruct (sm_entries sm !! name) as [s|] eqn:Hs; cbn; [by rewrite Hs|].
           by rewrite lookup_insert, decide_True, Hap.
        -- destruct (sm_entries sm !! name); [done|]. rewrite Hnone. cbn. by rewrite Hap.
      * cbn [list_to_map foldr uncurry]. rewrite lookup_insert_ne by done.
        destruct (negb _); [done|]. unfold Initialize.
        destruct (sm_entries sm !! name) as [s|]; [done|]. cbn. by rewrite lookup_insert_ne.
Qed.

Lemma initialise_new order cfg bu :
  order ≡ₚ map_to_list (cfg_Clusters cfg) →
  sm_entries (initialise order NewStateMachine) !! bu =
  (c ← cfg_Clusters cfg !! bu;
   if String.eqb (cl_Mode c) ModeActivePassive then Some (initial_state c) else None).
Proof.
  intros Ho. assert (Hnd : NoDup (map fst order)).
  { rewrite Ho. apply (NoDup_fst_map_to_list (cfg_Clusters cfg)). }
  destruct (initialise_spec order NewStateMachine Hnd) as [_ ->]. cbn. rewrite lookup_empty.
  f_equal. rewrite <- (list_to_map_to_list (cfg_Clusters cfg)).
  by rewrite (list_to_map_proper order (map_to_list (cfg_Clusters cfg))).
Qed.

(** The side a configuration names as active. *)
Definition configured_side (c : ClusterConfig) : string * string :=
  if String.eqb (cl_Active c) ActiveSecondary
  then (ep_Bootstrap (cl_Secondary c), "secondary"%string)
  else (ep_Bootstrap (cl_Primary c), "primary"%string).

Lemma initial_state_routing c : routing_state (initial_state c).
Proof. unfold initial_state, routing_state. repeat destruct (String.eqb _ _); auto. Qed.

(** ** Properties *)

(** C32: The proxy comes up as configured.  Startup always completes, whatever the
    map order.  The state machine then has exactly the active_passive BUs, each in
    the routing state of its configured side; new connections to each go to that
    side; the manager has exactly the controllers of the BUs with automatic
    failover; no drain is running and no connection is counted. *)
Theorem main_init_as_configured now order cfg :
  order ≡ₚ map_to_list (cfg_Clusters cfg) →
  ∃ p, main_init now order cfg = Some p ∧
    wired (fst (pr_sys p)) ∧ dm_ok (w_dm (snd (pr_sys p))) ∧
    dm_drains (w_dm (snd (pr_sys p))) = ∅ ∧ TotalActiveConnections (w_dm (snd (pr_sys p))) = 0 ∧
    (∀ bu s, sm_entries (fst (pr_sys p)) !! bu = Some s →
       routing_state s ∧ ∃ c, cfg_Clusters cfg !! bu = Some c ∧ cl_Mode c = ModeActivePassive) ∧
    (∀ bu c, cfg_Clusters cfg !! bu = Some c → cl_Mode c = ModeActivePassive →
       sm_entries (fst (pr_sys p)) !! bu = Some (initial_state c) ∧
       upstreamTarget c (Some (lookup_of p)) bu (pr_sys p) = Some (configured_side c)) ∧
    (∀ bu, Manager_Controller (pr_mgr p) bu =
           c ← cfg_Clusters cfg !! bu; new_controller bu c).
Proof.
  intros Ho. assert (Hset : ∃ l, SetHealthChecker cfg (Some (Health.New now (cfg_Clusters cfg)))
                                   (NewListener cfg order) = Some l).
  { unfold SetHealthChecker. destruct (negb (hasAutoRebalance cfg)); by eexists. }
  destruct Hset as [l Hl]. unfold main_init. rewrite Hl. cbn [mbind option_bind].
  eexists. split; [done|]. cbn [pr_sys pr_mgr fst snd w_dm].
  pose proof (λ bu, initialise_new order cfg bu Ho) as Hent.
  assert (Hap : ∀ bu c, cfg_Clusters cfg !! bu = Some c → cl_Mode c = ModeActivePassive →
    sm_entries (Wire (initialise order NewStateMachine)) !! bu = Some (initial_state c)).
  { intros bu c Hc Hm. change (sm_entries (Wire ?sm)) with (sm_entries sm). rewrite Hent, Hc. cbn.
    by rewrite Hm. }
  split_and!; try done.
  - unfold wired, Wire, OnStateChange. cbn [sm_callbacks].
    assert (Hnd : NoDup (map fst order)) by (rewrite Ho; apply (NoDup_fst_map_to_list (cfg_Clusters cfg))).
    by rewrite (proj1 (initialise_spec order NewStateMachine Hnd)).
  - intros bu s Hs. change (sm_entries (Wire ?sm)) with (sm_entries sm) in Hs. rewrite Hent in Hs.
    destruct (cfg_Clusters cfg !! bu) as [c|]; [|done]. cbn in Hs.
    destruct (String.eqb_spec (cl_Mode c) ModeActivePassive); [|done]. injection Hs as <-.
    split; [apply initial_state_routing|by exists c].
  - intros bu c Hc Hm. split; [by apply Hap|]. unfold upstreamTarget. rewrite Hm.
    change (String.eqb ModeActivePassive ModeActivePassive) with true. cbv iota.
    assert (Hst : State (Wire (initialise order NewStateMachine)) bu = initial_state c).
    { unfold State. by rewrite (Hap bu c Hc Hm). }
    erewrite TargetForRouting_state; [|apply initial_state_routing|exact Hst].
    unfold initial_state, configured_side.
    destruct (String.eqb_spec (cl_Active c) ActivePrimary) as [->|]; [done|].
    by destruct (String.eqb_spec (cl_Active c) ActiveSecondary).
  - intros bu. unfold Manager_Controller. cbn. by rewrite map_lookup_imap.
Qed.

(** A reload that changes a BU's active side drains by its state, not by its
    new configuration.  Whichever side the new configuration names, the BU moves
    to the side opposite to the state it was in - at once for new connections,
    and for good when the drain ends, which closes exactly the connections left
    on the old side.  So after an automatic failover to the secondary, configuring
    the secondary as active moves the BU back to the primary. *)
Theorem reload_drains_by_state now newOrder oldOrder oldCfg newCfg p p' bu c s :
  on_reload now newOrder oldOrder oldCfg newCfg p = Some p' →
  newOrder ≡ₚ map_to_list (cfg_Clusters newCfg) →
  cfg_Clusters newCfg !! bu = Some c → cl_Mode c = ModeActivePassive →
  cl_Active <$> cfg_Clusters oldCfg !! bu ≠ Some (cl_Active c) →
  wired (fst (pr_sys p)) → dm_ok (w_dm (snd (pr_sys p))) →
  sm_entries (fst (pr_sys p)) !! bu = Some s → routing_state s →
  TargetForRouting (lookup_of p') (pr_sys p') bu = (stateToTarget (opposite s), true) ∧
  ∀ w2, traffic_step (snd (pr_sys p')) w2 →
    let '(sm3, w3) := drain_timer bu (stateToTarget s) (fst (pr_sys p'), w2) in
    State sm3 bu = opposite s ∧
    live bu (w_dm w3) = filter (λ '(_, tc), tc_target tc ≠ stateToTarget s) (live bu (w_dm w2)).
Proof.
  intros Hrun Ho Hc Hm Ha Hw Hok Hs Hr.
  pose proof (on_reload_drains _ _ _ _ _ p p' bu c (Some s) Hrun Ho Hc Hm Ha Hw Hs Hr) as Hre.
  destruct (pr_sys p') as [sm' w'].
  assert (Hok' : dm_ok (w_dm w')).
  { destruct Hre as (_ & _ & _ & _ & Hb & _). intros n t. rewrite Hb. apply Hok. }
  destruct (reloading_settles _ _ _ _ _ _ (lookup_of p') _ _ (opposite s) Hre Hok' eq_refl
              (opposite_routing s)) as [Ht Hd].
  split; [exact Ht|]. intros w2 Htr. specialize (Hd w2 Htr).
  change (old_side (Some s)) with (stateToTarget s) in Hd.
  destruct (drain_timer _ _ _) as [sm3 w3]. by destruct Hd as (? & _ & ? & _).
Qed.

(** A BU added by a reload is drained from its primary to its primary.
    Whichever side its configuration names as active, its first connections go to
    the primary; when the drain timer fires, every one of them is closed and the
    BU stays on the primary. *)
Theorem added_BU_is_drained now newOrder oldOrder oldCfg newCfg p p' bu c :
  on_reload now newOrder oldOrder oldCfg newCfg p = Some p' →
  newOrder ≡ₚ map_to_list (cfg_Clusters newCfg) →
  cfg_Clusters newCfg !! bu = Some c → cl_Mode c = ModeActivePassive →
  cfg_Clusters oldCfg !! bu = None →
  wired (fst (pr_sys p)) → dm_ok (w_dm (snd (pr_sys p))) →
  sm_entries (fst (pr_sys p)) !! bu = None →
  upstreamTarget c (Some (lookup_of p')) bu (pr_sys p') =
    Some (ep_Bootstrap (cl_Primary c), "primary"%string) ∧
  ∀ w2, traffic_step (snd (pr_sys p')) w2 →
    let '(sm3, w3) := drain_timer bu ActivePrimary (fst (pr_sys p'), w2) in
    State sm3 bu = StatePrimary ∧
    ∀ id tc, live bu (w_dm w2) !! id = Some tc → tc_target tc = ActivePrimary →
      tc_conn tc ∈ w_closed w3.
Proof.
  intros Hrun Ho Hc Hm Hold Hw Hok Hs.
  pose proof (on_reload_drains _ _ _ _ _ p p' bu c None Hrun Ho Hc Hm) as Hre.
  rewrite Hold in Hre. specialize (Hre ltac:(done) Hw Hs I).
  destruct (pr_sys p') as [sm' w'].
  assert (Hok' : dm_ok (w_dm w')).
  { destruct Hre as (_ & _ & _ & _ & Hb & _). intros n t. rewrite Hb. apply Hok. }
  destruct (reloading_settles _ _ _ _ _ _ (lookup_of p') _ _ StatePrimary Hre Hok' eq_refl
              (or_introl eq_refl)) as [Ht Hd].
  split.
  - unfold upstreamTarget. rewrite Hm.
    change (String.eqb ModeActivePassive ModeActivePassive) with true. cbv iota. by rewrite Ht.
  - intros w2 Htr. specialize (Hd w2 Htr).
    change (old_side None) with ActivePrimary in Hd.
    destruct (drain_timer _ _ _) as [sm3 w3]. cbn [fst]. destruct Hd as (? & _ & _ & cs & Hcs & Hin).
    split; [done|]. intros id tc Hl Htc. rewrite Hcs. apply elem_of_app. right. apply Hin. eauto.
Qed.

(** C36: With automatic rebalancing, the first reload stops it and the second one
    hangs.  The first reload of a running proxy replaces the rebalancer by one
    that is never started: health changes no longer move any weight.  The next
    reload with changes then waits for ever for that rebalancer's goroutine, and
    so does a shutdown. *)
Theorem second_reload_hangs now newOrder oldOrder oldCfg newCfg p l r :
  pr_listener p = Some l → ln_rebalancer l = Some r → rr_started r = true →
  hasAutoRebalance newCfg = true → DiffClusters newOrder oldOrder oldCfg newCfg ≠ [] →
  ∃ p' l', on_reload now newOrder oldOrder oldCfg newCfg p = Some p' ∧
    pr_listener p' = Some l' ∧
    (∀ now' healthMap, rebalancer_loop now' healthMap l' = l') ∧
    (∀ deadline polls, shutdown deadline polls p' = None) ∧
    ∀ now' newOrder' oldOrder' cfg', hasAutoRebalance cfg' = true →
      DiffClusters newOrder' oldOrder' newCfg cfg' ≠ [] →
      on_reload now' newOrder' oldOrder' newCfg cfg' p' = None.
Proof.
  intros Hl Hr Hs Ha Hdiff.
  destruct (reload_replaces_rebalancer newCfg newOrder (Health.New now (cfg_Clusters newCfg)) l r Hr Hs Ha)
    as (l1 & l2 & H1 & H2 & r2 & Hr2 & Hs2 & Ht2).
  destruct (unstarted_stuck l2 r2 Hr2 Hs2 Ht2) as (Hloop & Hclose & Hset).
  unfold on_reload at 1. destruct (DiffClusters newOrder oldOrder oldCfg newCfg) as [|ch chs]; [done|].
  destruct (pr_sys p) as [sm w]. rewrite Hl, H1. cbn [mbind option_bind]. rewrite H2. cbn [mbind option_bind].
  eexists _, l2. split; [done|]. split; [done|]. split; [done|]. split.
  - intros deadline polls. unfold shutdown. cbn [pr_listener]. by rewrite Hclose.
  - intros now' newOrder' oldOrder' cfg' Ha' Hd'. unfold on_reload.
    destruct (DiffClusters newOrder' oldOrder' newCfg cfg'); [done|]. cbn [pr_sys pr_listener].
    destruct (foldl _ _ _) as [sm' w']. by rewrite Hset.
Qed.

(** ** Witnesses *)

Lemma main_init_as_configured_witness :
  ∃ p, main_init 0 (map_to_list (cfg_Clusters sample_config)) sample_config = Some p ∧
    upstreamTarget sample_cluster_config (Some (lookup_of p)) "bu1" (pr_sys p) =
    Some ("a:9092"%string, "primary"%string).
Proof.
  destruct (main_init_as_configured 0 (map_to_list (cfg_Clusters sample_config)) sample_config
              (Permutation_refl _)) as (p & Hp & _ & _ & _ & _ & _ & Hap & _).
  exists p. split; [exact Hp|]. exact (proj2 (Hap "bu1"%string sample_cluster_config eq_refl eq_refl)).
Defined.

(** Before the listener exists a reload always completes. *)
Lemma on_reload_early now newOrder oldOrder oldCfg newCfg p :
  pr_listener p = None → ∃ p', on_reload now newOrder oldOrder oldCfg newCfg p = Some p'.
Proof.
  intros Hl. unfold on_reload. destruct (DiffClusters _ _ _ _); [by eexists|].
  destruct (pr_sys p) as [sm w]. rewrite Hl. by eexists.
Qed.

(** The configuration with the secondary active, and with a second BU. *)
Definition on_secondary : ClusterConfig :=
  {| cl_Port := 9092; cl_Mode := ModeActivePassive; cl_Active := ActiveSecondary;
     cl_Primary := {| ep_Bootstrap := "a:9092"; ep_Weight := 0 |};
     cl_Secondary := {| ep_Bootstrap := "b:9092"; ep_Weight := 0 |};
     cl_HealthCheck := zero_HealthCheckConfig |}.
Definition config_with (clusters : gmap string ClusterConfig) : Config :=
  {| cfg_Proxy := cfg_Proxy sample_config; cfg_Clusters := clusters |}.
Definition secondary_config : Config := config_with {["bu1"%string := on_secondary]}.

Definition sample_proxy (state : string) (l : option Listener) : Proxy :=
  {| pr_checker := ∅; pr_sys := (sample_sm state, sample_world);
     pr_mgr := NewManager ∅; pr_listener := l |}.

Lemma reload_drains_by_state_witness :
  ∃ p', on_reload 100 (map_to_list (cfg_Clusters secondary_config))
          (map_to_list (cfg_Clusters sample_config)) sample_config secondary_config
          (sample_proxy StateSecondary None) = Some p' ∧
    TargetForRouting (lookup_of p') (pr_sys p') "bu1" = ("primary"%string, true).
Proof.
  destruct (on_reload_early 100 (map_to_list (cfg_Clusters secondary_config))
    (map_to_list (cfg_Clusters sample_config)) sample_config secondary_config
    (sample_proxy StateSecondary None) eq_refl) as [p' Hp'].
  exists p'. split; [exact Hp'|].
  refine (proj1 (reload_drains_by_state 100 (map_to_list (cfg_Clusters secondary_config))
    (map_to_list (cfg_Clusters sample_config)) sample_config secondary_config
    (sample_proxy StateSecondary None) p' "bu1" on_secondary StateSecondary
    Hp' (Permutation_refl _) eq_refl eq_refl _ eq_refl sample_dm_ok eq_refl (or_intror eq_refl))).
  discriminate.
Defined.

Lemma added_BU_is_drained_witness :
  let old := config_with ∅ in
  let p := {| pr_checker := ∅; pr_sys := (Wire NewStateMachine, sample_world);
              pr_mgr := NewManager ∅; pr_listener := None |} in
  ∃ p', on_reload 100 (map_to_list (cfg_Clusters secondary_config)) [] old secondary_config p
        = Some p' ∧
    upstreamTarget on_secondary (Some (lookup_of p')) "bu1" (pr_sys p') =
    Some ("a:9092"%string, "primary"%string).
Proof.
  intros old p.
  destruct (on_reload_early 100 (map_to_list (cfg_Clusters secondary_config)) [] old
    secondary_config p eq_refl) as [p' Hp'].
  exists p'. split; [exact Hp'|].
  refine (proj1 (added_BU_is_drained 100 (map_to_list (cfg_Clusters secondary_config)) [] old
    secondary_config p p' "bu1" on_secondary
    Hp' (Permutation_refl _) eq_refl eq_refl eq_refl eq_refl sample_dm_ok eq_refl)).
Defined.

Definition running_listener : Listener :=
  with_rebalancer (Some (rebalancer_Start (new_rebalancer auto_config)))
    (NewListener auto_config (map_to_list (cfg_Clusters auto_config))).

Lemma second_reload_hangs_witness :
  let old := config_with ∅ in
  ∃ p', on_reload 100 (map_to_list (cfg_Clusters auto_config)) [] old auto_config
          (sample_proxy StatePrimary (Some running_listener)) = Some p' ∧
    shutdown 0 [] p' = None.
Proof.
  intros old.
  destruct (second_reload_hangs 100 (map_to_list (cfg_Clusters auto_config)) [] old auto_config
    (sample_proxy StatePrimary (Some running_listener)) running_listener
    (rebalancer_Start (new_rebalancer auto_config)) eq_refl eq_refl eq_refl)
    as (p' & l' & Hrun & _ & _ & Hstop & _).
  - vm_compute. reflexivity.
  - vm_compute. discriminate.
  - exists p'. split; [exact Hrun|]. exact (Hstop 0 []).
Defined.
