(* ===== verification/Status.v ===== *)
(** * The observability server ([internal/server/server.go], [adapter.go])

    The documents the HTTP server computes: [/status], [/metrics] as the list of
    metrics a scrape collects, [/health] and [/topic-stats].  The server reads its
    providers through interfaces; here a provider is what it answers.  A float64
    number of seconds or milliseconds is the exact duration it is computed from,
    in nanoseconds or microseconds.  JSON, Prometheus' text format, HTTP itself
    and the embedded dashboard are not modelled. *)

From S2P Require Import Prelude Bytes Config Health Stats LeaderCache Router AutoRebalance.
From S2P Require Import StateMachine Drain Controller DRCoordinator Manager Connection Listener Startup.

Record EndpointHealth := {
  eh_Healthy : bool;
  eh_ConsecutiveFailures : Z;
  eh_ConsecutiveSuccesses : Z;
  eh_LastCheckLatency : duration;
  eh_LastStatus : string;
  eh_LastError : string;
  eh_UpSince : time;
  eh_Bootstrap : string
}.

Record ClusterHealthSnapshot := {
  chs_Name : string;
  chs_Primary : EndpointHealth;
  chs_Secondary : EndpointHealth
}.

(** ** The adapter *)

Definition convertSnapshot (s : Snapshot) : EndpointHealth :=
  {| eh_Healthy := sn_Healthy s; eh_ConsecutiveFailures := sn_ConsecutiveFailures s;
     eh_ConsecutiveSuccesses := sn_ConsecutiveSuccesses s;
     eh_LastCheckLatency := sn_LastCheckLatency s; eh_LastStatus := sn_LastStatus s;
     eh_LastError := sn_LastError s; eh_UpSince := sn_UpSince s; eh_Bootstrap := sn_Bootstrap s |}.

Definition adapter_Health (checker : option (gmap string clusterRunner))
    : option (gmap string ClusterHealthSnapshot) :=
  (λ c, (λ ch, {| chs_Name := cth_Name ch; chs_Primary := convertSnapshot (cth_Primary ch);
                  chs_Secondary := convertSnapshot (cth_Secondary ch) |}) <$> Checker_Health c)
    <$> checker.

(** ** The server *)

Record Server := {
  sv_healthProv : option (gmap string ClusterHealthSnapshot);
  sv_drainProv : option DrainManager;
  sv_cfgProv : option Config;
  sv_weightProv : option (string → option (Z * Z));
  sv_failoverProv : option (string → string * bool);
  sv_failoverM : option FailoverMetrics;
  sv_startTime : time
}.

(** A response: the status code, and the document of a 200. *)
Definition response (A : Type) : Type := Z * option A.
Definition StatusOK : Z := 200.
Definition StatusMethodNotAllowed : Z := 405.

Definition quote : string := String (Ascii.ascii_of_nat 34) "".

Definition handleHealth (method : string) : response string :=
  if negb (String.eqb method "GET") then (StatusMethodNotAllowed, None)
  else (StatusOK, Some ("{" ++ quote ++ "status" ++ quote ++ ":" ++ quote ++ "ok" ++ quote ++ "}")%string).

Definition failoverMetrics (s : Server) : Z * gmap string string :=
  match sv_failoverM s with
  | None => (0, ∅)
  | Some fm => FailoverMetrics_Snapshot fm
  end.

(** What [main] gives the server: the adapter over the current checker, the drain
    manager, the reloader, the listener, the failover manager and its metrics. *)
Definition main_server (start : time) (cfg : Config) (p : Proxy) : Server :=
  {| sv_healthProv := adapter_Health (Some (pr_checker p));
     sv_drainProv := Some (w_dm (snd (pr_sys p)));
     sv_cfgProv := Some cfg;
     sv_weightProv := (λ l name, EffectiveWeights cfg name l) <$> pr_listener p;
     sv_failoverProv :=
       Some (EffectiveActive (pr_mgr p) (fst (pr_sys p)) (snd (pr_sys p)));
     sv_failoverM := m_metrics (pr_mgr p);
     sv_startTime := start |}.

(** ** /status *)

Record endpointStatusDetail := {
  ed_Healthy : bool;
  ed_ConsecutiveFailures : Z;
  ed_ConsecutiveSuccesses : Z;
  ed_LastCheckLatencyUS : Z;
  ed_LastStatus : string;
  ed_LastError : string;
  ed_Bootstrap : string;
  ed_Weight : Z
}.

Definition zero_detail : endpointStatusDetail :=
  {| ed_Healthy := false; ed_ConsecutiveFailures := 0; ed_ConsecutiveSuccesses := 0;
     ed_LastCheckLatencyUS := 0; ed_LastStatus := ""; ed_LastError := ""; ed_Bootstrap := "";
     ed_Weight := 0 |}.

Record clusterStatus := {
  cst_Name : string;
  cst_Mode : string;
  cst_Active : string;
  cst_Primary : endpointStatusDetail;
  cst_Secondary : endpointStatusDetail;
  cst_Draining : bool
}.

Record statusResponse := {
  sr_Uptime : duration;
  sr_Total : Z;
  sr_PerBU : gmap string Z;
  sr_Clusters : list clusterStatus;
  sr_TotalFailovers : Z;
  sr_CircuitBreaker : gmap string string
}.

Definition endpointToDetail (h : EndpointHealth) (weight : Z) : endpointStatusDetail :=
  {| ed_Healthy := eh_Healthy h; ed_ConsecutiveFailures := eh_ConsecutiveFailures h;
     ed_ConsecutiveSuccesses := eh_ConsecutiveSuccesses h;
     ed_LastCheckLatencyUS := Z.quot (eh_LastCheckLatency h) 1000;
     ed_LastStatus := eh_LastStatus h; ed_LastError := eh_LastError h;
     ed_Bootstrap := eh_Bootstrap h; ed_Weight := weight |}.

Definition status_active (s : Server) (name : string) (clusterCfg : ClusterConfig) : string :=
  if String.eqb (cl_Mode clusterCfg) ModeActivePassive then
    match sv_failoverProv s with
    | Some fp => let '(eff, ok) := fp name in if ok then eff else cl_Active clusterCfg
    | None => cl_Active clusterCfg
    end
  else ""%string.

Definition status_weights (s : Server) (name : string) (clusterCfg : ClusterConfig) : Z * Z :=
  let static := (ep_Weight (cl_Primary clusterCfg), ep_Weight (cl_Secondary clusterCfg)) in
  match sv_weightProv s with
  | Some wp =>
      if String.eqb (cl_Mode clusterCfg) ModeLoadBalance then default static (wp name) else static
  | None => static
  end.

(** One iteration of the loop of [handleStatus]. *)
Definition cluster_status (s : Server) (health : gmap string ClusterHealthSnapshot)
    (name : string) (clusterCfg : ClusterConfig) : clusterStatus :=
  let '(primaryWeight, secondaryWeight) := status_weights s name clusterCfg in
  {| cst_Name := name; cst_Mode := cl_Mode clusterCfg;
     cst_Active := status_active s name clusterCfg;
     cst_Primary := match health !! name with
                    | Some ch => endpointToDetail (chs_Primary ch) primaryWeight
                    | None => zero_detail
                    end;
     cst_Secondary := match health !! name with
                      | Some ch => endpointToDetail (chs_Secondary ch) secondaryWeight
                      | None => zero_detail
                      end;
     cst_Draining := match sv_drainProv s with Some dm => IsDraining name dm | None => false end |}.

Definition handleStatus (now : time) (order : list (string * ClusterConfig)) (method : string)
    (s : Server) : response statusResponse :=
  if negb (String.eqb method "GET") then (StatusMethodNotAllowed, None)
  else
    let '(failoverTotal, cbStates) := failoverMetrics s in
    let '(clusters, perBU) :=
      match sv_cfgProv s, sv_healthProv s with
      | Some _, Some health =>
          (map (λ '(name, c), cluster_status s health name c) order,
           match sv_drainProv s with
           | Some dm => foldl (λ m '(name, _), <[name := ActiveConnections name dm]> m) ∅ order
           | None => ∅
           end)
      | _, _ => ([], ∅)
      end in
    (StatusOK, Some
      {| sr_Uptime := time_since now (sv_startTime s);
         sr_Total := match sv_drainProv s with Some dm => TotalActiveConnections dm | None => 0 end;
         sr_PerBU := perBU; sr_Clusters := clusters; sr_TotalFailovers := failoverTotal;
         sr_CircuitBreaker := cbStates |}).

(** [/topic-stats]; a nil slice is the empty one. *)
Definition handleTopicStats (st : Stats) : list TopicStats * list ClusterStats :=
  (GetTopicStats st, GetClusterStats st).

(** ** /metrics *)

(** A value: a number, or a duration in seconds. *)
Inductive metric_value := Number (n : Z) | Seconds (d : duration).

Record metric := { mt_name : string; mt_labels : list string; mt_value : metric_value }.

Definition flag (b : bool) : metric_value := Number (if b then 1 else 0).

Definition emitEndpointMetrics (now : time) (bu endpoint : string) (h : EndpointHealth)
    : list metric :=
  let m name v := {| mt_name := name; mt_labels := [bu; endpoint]; mt_value := v |} in
  [ m "proxy_health_status"%string (flag (eh_Healthy h));
    m "proxy_health_consecutive_failures"%string (Number (eh_ConsecutiveFailures h));
    m "proxy_health_consecutive_successes"%string (Number (eh_ConsecutiveSuccesses h));
    m "proxy_health_last_check_latency_seconds"%string (Seconds (eh_LastCheckLatency h));
    m "proxy_health_up_since_seconds"%string
      (if eh_UpSince h =? zero_time then Number 0 else Seconds (time_since now (eh_UpSince h))) ].

Definition single (name : string) (labels : list string) (v : metric_value) : list metric :=
  [ {| mt_name := name; mt_labels := labels; mt_value := v |} ].

(** The metrics of one cluster. *)
Definition collect_cluster (now : time) (dm : option DrainManager)
    (entry : string * ClusterHealthSnapshot) : list metric :=
  let '(name, h) := entry in
  emitEndpointMetrics now name "primary" (chs_Primary h) ++
  emitEndpointMetrics now name "secondary" (chs_Secondary h) ++
  match dm with
  | Some dm =>
      single "proxy_drain_active" [name] (flag (IsDraining name dm)) ++
      single "proxy_connections_active" [name] (Number (ActiveConnections name dm))
  | None => []
  end.

(** A scrape; the health map and the breaker map are ranged over in the orders
    given. *)
Definition Collect (now : time) (healthOrder : list (string * ClusterHealthSnapshot))
    (breakerOrder : list (string * string)) (s : Server) : list metric :=
  single "proxy_up" [] (Number 1) ++
  single "proxy_uptime_seconds" [] (Seconds (time_since now (sv_startTime s))) ++
  single "proxy_failover_total" [] (Number (fst (failoverMetrics s))) ++
  match sv_drainProv s with
  | Some dm => single "proxy_connections_active" [""%string] (Number (TotalActiveConnections dm))
  | None => []
  end ++
  match sv_healthProv s with
  | Some _ => concat (map (collect_cluster now (sv_drainProv s)) healthOrder)
  | None => []
  end ++
  map (λ '(bu, state), {| mt_name := "proxy_circuit_breaker"; mt_labels := [bu];
                          mt_value := flag (String.eqb state "broken") |}) breakerOrder ++
  single "proxy_build_info" ["1.0.0"%string] (Number 1).

(** ** The status document and the routing *)

Lemma EffectiveActive_routing (mgr : Manager FailoverMetrics) (sm : StateMachine World) w bu :
  m_dm mgr = true →
  let '(eff, ok) := EffectiveActive mgr sm w bu in
  let target := fst (TargetForRouting (Some (Manager_Controller mgr)) (sm, w) bu) in
  target = if ok then eff else ActivePrimary.
Proof.
  intros Hdm. unfold EffectiveActive, TargetForRouting, drain_new_active, world_drain_reader,
    DrainNewActive, Manager_Controller. rewrite Hdm.
  destruct (String.eqb (State sm bu) StatePrimary); [done|].
  destruct (String.eqb (State sm bu) StateSecondary); [done|].
  destruct (String.eqb (State sm bu) StateDraining); [by destruct (DrainState bu (w_dm w))|].
  destruct (String.eqb (State sm bu) StateBothDown); [|done].
  destruct (m_controllers mgr !! bu) as [ctrl|]; [|done].
  destruct (String.eqb (BothDownActiveCluster ctrl) StatePrimary); [done|].
  by destruct (String.eqb (BothDownActiveCluster ctrl) StateSecondary).
Qed.

Lemma per_bu_lookup dm (order : list (string * ClusterConfig)) (m : gmap string Z) bu :
  foldl (λ m '(name, _), <[name := ActiveConnections name dm]> m) m order !! bu =
  if bool_decide (bu ∈ map fst order) then Some (ActiveConnections bu dm) else m !! bu.
Proof.
  revert m. induction order as [|[name c] order IH]; intros m; cbn [foldl map fst].
  - by rewrite bool_decide_eq_false_2 by apply not_elem_of_nil.
  - rewrite IH. destruct (decide (bu = name)) as [->|Hne].
    + rewrite (bool_decide_eq_true_2 (name ∈ name :: _)) by left.
      case_bool_decide; [done|]. by rewrite lookup_insert, decide_True.
    + rewrite lookup_insert_ne by done. erewrite bool_decide_ext; [reflexivity|].
      rewrite list.elem_of_cons. naive_solver.
Qed.

(** C34: The status document reports what the proxy does.  Every GET is answered,
    with one entry per configured BU.  An entry has the BU's drain flag and its
    active connections; for a load_balance BU that is checked, the weights that
    routing uses; and for an active_passive BU, as the active side, the side that
    new connections are sent to - except while the manager has no opinion, when
    the entry shows the configured side and connections go to the primary. *)
Theorem status_reports_routing now start order cfg p :
  order ≡ₚ map_to_list (cfg_Clusters cfg) → m_dm (pr_mgr p) = true →
  let target bu := fst (TargetForRouting (lookup_of p) (pr_sys p) bu) in
  let opinion bu := snd (EffectiveActive (pr_mgr p) (fst (pr_sys p)) (snd (pr_sys p)) bu) in
  let dm := w_dm (snd (pr_sys p)) in
  ∃ doc, handleStatus now order "GET" (main_server start cfg p) = (StatusOK, Some doc) ∧
  map cst_Name (sr_Clusters doc) = map fst order ∧
  ∀ cst c, cst ∈ sr_Clusters doc → cfg_Clusters cfg !! cst_Name cst = Some c →
    let bu := cst_Name cst in
    cst_Mode cst = cl_Mode c ∧
    cst_Draining cst = IsDraining bu dm ∧
    sr_PerBU doc !! bu = Some (ActiveConnections bu dm) ∧
    (cl_Mode c = ModeActivePassive →
       cst_Active cst = target bu ∨
       opinion bu = false ∧ target bu = ActivePrimary ∧ cst_Active cst = cl_Active c) ∧
    (cl_Mode c = ModeLoadBalance → ∀ l h, pr_listener p = Some l → pr_checker p !! bu = Some h →
       (ed_Weight (cst_Primary cst), ed_Weight (cst_Secondary cst)) =
       GetEffectiveWeights bu c (ln_router l)).
Proof.
  intros Ho Hdm target opinion dm. unfold handleStatus. cbn [String.eqb].
  change (String.eqb "GET" "GET") with true. cbn [negb].
  destruct (failoverMetrics _) as [total cb].
  cbn [main_server sv_cfgProv sv_healthProv sv_drainProv adapter_Health fmap option_fmap option_map].
  eexists. split; [done|]. cbn [sr_Clusters sr_PerBU]. split.
  { rewrite map_map. apply map_ext. intros [name c]. unfold cluster_status.
    by destruct (status_weights _ _ _). }
  intros cst c ([name c'] & -> & Hin)%elem_of_map.
  unfold cluster_status. destruct (status_weights _ _ _) as [pw sw] eqn:Hsw.
  cbn [cst_Name cst_Mode cst_Draining cst_Active cst_Primary cst_Secondary sv_drainProv main_server].
  intros Hc. assert (c' = c) as ->.
  { rewrite Ho in Hin. apply elem_of_map_to_list in Hin. congruence. }
  split; [done|]. split; [done|]. split.
  { rewrite per_bu_lookup, bool_decide_eq_true_2; [done|]. apply list_elem_of_fmap. by exists (name, c). }
  split.
  - intros Hm. unfold status_active. rewrite Hm.
    change (String.eqb ModeActivePassive ModeActivePassive) with true. cbv iota.
    cbn [main_server sv_failoverProv]. unfold target, opinion, lookup_of.
    pose proof (EffectiveActive_routing (pr_mgr p) (fst (pr_sys p)) (snd (pr_sys p)) name Hdm) as He.
    destruct (EffectiveActive _ _ _ name) as [eff ok].
    destruct (pr_sys p) as [sm w]. cbn [fst snd] in *. cbn zeta in He. rewrite He.
    destruct ok; [by left|by right].
  - intros Hm l h Hl Hh.
    unfold Checker_Health. rewrite lookup_fmap, map_lookup_imap, Hh.
    cbn [mbind option_bind fmap option_fmap option_map endpointToDetail ed_Weight].
    revert Hsw. unfold status_weights. cbn [main_server sv_weightProv]. rewrite Hl, Hm.
    cbn [fmap option_fmap option_map]. change (String.eqb ModeLoadBalance ModeLoadBalance) with true.
    cbv iota. unfold EffectiveWeights. rewrite Ho in Hin. apply elem_of_map_to_list in Hin.
    rewrite Hin, Hm. change (String.eqb ModeLoadBalance ModeLoadBalance) with true. cbv iota.
    cbn [default]. unfold Datatypes.id. by intros ->.
Qed.

(** ** What a scrape may not contain twice *)

(** What identifies a metric to Prometheus. *)
Definition metric_key (m : metric) : string * list string := (mt_name m, mt_labels m).

Lemma NoDup_concat_tag {A B K} (tag : B → K) (key : A → K) (f : A → list B) l :
  (∀ x y, y ∈ f x → tag y = key x) → (∀ x, NoDup (f x)) → NoDup (map key l) →
  NoDup (concat (map f l)).
Proof.
  intros Ht Hf. induction l as [|x l IH]; cbn [map concat]; [constructor|].
  intros [Hx Hl]%list.NoDup_cons. apply list.NoDup_app. split_and!; [done| |by apply IH].
  intros y Hy Hin. apply list_elem_of_In, in_concat in Hin as (ys & Hys & Hy').
  apply in_map_iff in Hys as (x' & <- & Hx'). apply list_elem_of_In in Hy'.
  apply Hx, list_elem_of_fmap. exists x'. split; [|by apply list_elem_of_In].
  rewrite <- (Ht x y Hy). by apply Ht.
Qed.

Definition cluster_metric_names : list string :=
  ["proxy_health_status"; "proxy_health_consecutive_failures";
   "proxy_health_consecutive_successes"; "proxy_health_last_check_latency_seconds";
   "proxy_health_up_since_seconds"; "proxy_drain_active"; "proxy_connections_active"]%string.

Ltac list_cases :=
  repeat match goal with
  | H : _ ∈ _ ++ _ |- _ => apply elem_of_app in H as [H|H]
  | H : _ ∈ _ :: _ |- _ => apply list.elem_of_cons in H as [H|H]
  | H : _ ∈ [] |- _ => by apply not_elem_of_nil in H
  end.

Lemma collect_cluster_keys now dm x k :
  k ∈ map metric_key (collect_cluster now dm x) →
  fst k ∈ cluster_metric_names ∧ hd_error (snd k) = Some (fst x).
Proof.
  intros (m & -> & Hm)%elem_of_map. destruct x as [name h].
  unfold collect_cluster, emitEndpointMetrics, single, cluster_metric_names in *. cbv zeta in Hm.
  destruct dm; list_cases; subst m; cbn; split;
    first [done | repeat (apply list.elem_of_cons; first [left; reflexivity | right])].
Qed.

Lemma collect_cluster_NoDup now dm x : NoDup (map metric_key (collect_cluster now dm x)).
Proof.
  destruct x as [name h]. apply (NoDup_fmap_1 (λ k, (fst k, tail (snd k)))).
  unfold collect_cluster, emitEndpointMetrics, single. cbv zeta.
  destruct dm; cbn [app map fmap list_fmap metric_key mt_name mt_labels fst snd tail];
    refine (bool_decide_unpack _ _); vm_compute; exact I.
Qed.

(** A scrape never lists a metric twice, which Prometheus would refuse as a
    whole: for every state of the providers, with the maps ranged over in any
    order, no two metrics have the same name and labels - as long as no BU has
    the empty name, whose connection count would collide with the total. *)
Theorem Collect_distinct now healthOrder breakerOrder s :
  NoDup (map fst healthOrder) → NoDup (map fst breakerOrder) → ""%string ∉ map fst healthOrder →
  NoDup (map metric_key (Collect now healthOrder breakerOrder s)).
Proof.
  intros Hh Hb Hempty. unfold Collect.
  set (conns := match sv_drainProv s with Some _ => _ | None => _ end).
  set (health := match sv_healthProv s with Some _ => _ | None => _ end).
  set (breakers := map _ breakerOrder). rewrite !map_app.
  assert (Hconns : NoDup (map metric_key conns) ∧
    ∀ k, k ∈ map metric_key conns → k = ("proxy_connections_active"%string, [""%string])).
  { unfold conns. destruct (sv_drainProv s); cbn; split; try apply NoDup_singleton; try constructor.
    - by intros k ->%list_elem_of_singleton.
    - by intros k ?%not_elem_of_nil. }
  assert (Hhealth : NoDup (map metric_key health) ∧ ∀ k, k ∈ map metric_key health →
    fst k ∈ cluster_metric_names ∧ ∃ bu, hd_error (snd k) = Some bu ∧ bu ≠ ""%string).
  { unfold health. destruct (sv_healthProv s); cbn [map]; [|split; [constructor|by intros k ?%not_elem_of_nil]].
    rewrite concat_map, map_map. split.
    - apply (NoDup_concat_tag (λ k, hd_error (snd k)) (λ x, Some (fst x))).
      + intros x y Hy. by eapply collect_cluster_keys.
      + intros x. apply collect_cluster_NoDup.
      + rewrite <- (map_map fst Some). apply NoDup_map_2; [by intros ? ? _ _ [=]|done].
    - intros k Hk. apply list_elem_of_In, in_concat in Hk as (ks & Hks & Hk).
      apply in_map_iff in Hks as (x & <- & Hx). apply list_elem_of_In in Hk.
      apply collect_cluster_keys in Hk as [Hk1 Hk2]. split; [done|]. exists (fst x). split; [done|].
      intros Hx0. apply Hempty. rewrite <- Hx0. apply list_elem_of_fmap. exists x.
      split; [done|]. by apply list_elem_of_In. }
  assert (Hbr : NoDup (map metric_key breakers) ∧
    ∀ k, k ∈ map metric_key breakers → fst k = "proxy_circuit_breaker"%string).
  { unfold breakers. rewrite map_map. split.
    - rewrite (map_ext _ (λ e, ("proxy_circuit_breaker"%string, [fst e]))) by by intros [].
      rewrite <- (map_map fst (λ bu, ("proxy_circuit_breaker"%string, [bu]))).
      apply NoDup_map_2; [by intros ? ? _ _ [=]|done].
    - by intros k ([bu state] & -> & _)%elem_of_map. }
  destruct Hconns as [Hc1 Hc2], Hhealth as [Hh1 Hh2], Hbr as [Hb1 Hb2].
  assert (Hnames : ∀ n : string * list string, fst n ∈ cluster_metric_names → fst n ≠ "proxy_up"%string ∧
    fst n ≠ "proxy_uptime_seconds"%string ∧ fst n ≠ "proxy_failover_total"%string ∧
    fst n ≠ "proxy_circuit_breaker"%string ∧ fst n ≠ "proxy_build_info"%string).
  { intros n Hn. unfold cluster_metric_names in Hn. list_cases; rewrite Hn; by split_and!. }
  set (build := map metric_key (single "proxy_build_info" _ _)).
  assert (Hbuild : ∀ k, k ∈ build → fst k = "proxy_build_info"%string)
    by by intros k ->%list_elem_of_singleton.
  assert (H1 : NoDup (map metric_key breakers ++ build)).
  { apply list.NoDup_app. split_and!; [done| |apply NoDup_singleton].
    intros k Hk%Hb2 Hk'%Hbuild. congruence. }
  assert (H2 : NoDup (map metric_key health ++ map metric_key breakers ++ build)).
  { apply list.NoDup_app. split_and!; [done| |done]. intros k Hk [Hk'|Hk']%elem_of_app.
    - apply Hh2 in Hk as [Hk%Hnames _]. apply Hb2 in Hk'. naive_solver.
    - apply Hh2 in Hk as [Hk%Hnames _]. apply Hbuild in Hk'. naive_solver. }
  assert (H3 : NoDup (map metric_key conns ++ map metric_key health ++ map metric_key breakers ++ build)).
  { apply list.NoDup_app. split_and!; [done| |done]. intros k ->%Hc2 Hk.
    repeat apply elem_of_app in Hk as [Hk|Hk].
    - apply Hh2 in Hk as (_ & bu & Hbu & Hne). cbn in Hbu. congruence.
    - apply Hb2 in Hk. done.
    - apply Hbuild in Hk. done. }
  assert (Hrest : ∀ k, k ∈ map metric_key conns ++ map metric_key health ++ map metric_key breakers ++ build →
    fst k ∈ cluster_metric_names ∨ fst k = "proxy_circuit_breaker"%string ∨ fst k = "proxy_build_info"%string).
  { intros k Hk. repeat apply elem_of_app in Hk as [Hk|Hk].
    - apply Hc2 in Hk as ->. left. apply (bool_decide_unpack _). vm_compute. exact I.
    - left. by apply Hh2.
    - right. left. by apply Hb2.
    - right. right. by apply Hbuild. }
  cbn [single map metric_key mt_name mt_labels app].
  repeat (apply list.NoDup_cons; split); [..|done];
    rewrite ?not_elem_of_cons; split_and?; try done;
    intros Hk; apply Hrest in Hk as [Hk%Hnames|[Hk|Hk]]; cbn in Hk; naive_solver.
Qed.

(** ** Witnesses *)

Lemma status_reports_routing_witness :
  let p := {| pr_checker := ∅; pr_sys := (sample_sm StateSecondary, sample_world);
              pr_mgr := SetDrainReader (NewManager ∅); pr_listener := None |} in
  ∃ doc, handleStatus 0 (map_to_list (cfg_Clusters sample_config)) "GET"
           (main_server 0 sample_config p) = (StatusOK, Some doc) ∧
    map cst_Name (sr_Clusters doc) = map fst (map_to_list (cfg_Clusters sample_config)).
Proof.
  intros p.
  destruct (status_reports_routing 0 0 (map_to_list (cfg_Clusters sample_config)) sample_config p
              (Permutation_refl _) eq_refl) as (doc & Hdoc & Hnames & _).
  exists doc. split; [exact Hdoc|exact Hnames].
Defined.

Lemma Collect_distinct_witness :
  let h := {| chs_Name := "bu1"; chs_Primary := convertSnapshot (AutoRebalance.sample_snapshot true 0);
              chs_Secondary := convertSnapshot (AutoRebalance.sample_snapshot false 0) |} in
  NoDup (map metric_key (Collect 0 [("bu1"%string, h)] [("bu1"%string, "ok"%string)]
    (main_server 0 sample_config (sample_proxy StatePrimary None)))).
Proof.
  intros h. apply Collect_distinct.
  - apply NoDup_singleton.
  - apply NoDup_singleton.
  - intros [=]%list_elem_of_singleton.
Defined.
