(* ===== verification/Checker.v ===== *)
(** * The health checker's goroutines ([internal/health/checker.go])

    [Health] models one round of checks of one cluster; here are the goroutines
    that run them.  A [Checker] holds the runners, the stop channel and the
    goroutines [Start] launched, each with its place in [runCluster]: in a round
    of checks, in the [select] on its timer and the stop channel, or returned.
    The wait group counts the goroutines that have not returned.  Any number of
    callers may be in [Stop], each with its place in it.  [cstep] interleaves calls
    of [Start], the steps of the calls of [Stop] and the goroutines' steps.

    The second half follows one goroutine in time: a round starts when the timer
    is due, or at most [late] after that. *)

From S2P Require Import Prelude Bytes Conn Protocol Config Health.

Inductive phase := Checking | Waiting | Exited.

#[export] Instance phase_eq_dec : EqDecision phase.
Proof. solve_decision. Defined.

(** Where a call of [Stop] is: before the [select] on the stop channel, before
    its [close], in [wg.Wait()], returned from that, or returned from the [select]
    because the channel was closed already. *)
Inductive stop_place := StopLook | StopClose | StopWait | StopDone | StopEarly.

#[export] Instance stop_place_eq_dec : EqDecision stop_place.
Proof. solve_decision. Defined.

Record Checker := {
  ck_clusters : gmap string clusterRunner;
  ck_stopped : bool;
  ck_threads : list (string * phase);
  ck_stops : list stop_place
}.

Definition NewChecker (now : time) (clusters : gmap string ClusterConfig) : Checker :=
  {| ck_clusters := Health.New now clusters; ck_stopped := false; ck_threads := []; ck_stops := [] |}.

Definition set_running (r : clusterRunner) : clusterRunner :=
  {| cr_name := cr_name r; cr_primaryAddr := cr_primaryAddr r;
     cr_secondaryAddr := cr_secondaryAddr r; cr_interval := cr_interval r;
     cr_failureThreshold := cr_failureThreshold r; cr_recoveryThreshold := cr_recoveryThreshold r;
     cr_saslUsername := cr_saslUsername r; cr_saslPassword := cr_saslPassword r;
     cr_primary := cr_primary r; cr_secondary := cr_secondary r; cr_running := true |}.

(** One iteration of the loop of [Start]. *)
Definition start_one (c : Checker) (name : string) : Checker :=
  match ck_clusters c !! name with
  | None => c
  | Some r =>
      if cr_running r then c
      else {| ck_clusters := <[name := set_running r]> (ck_clusters c);
              ck_stopped := ck_stopped c; ck_threads := ck_threads c ++ [(name, Checking)];
              ck_stops := ck_stops c |}
  end.

(** [order] is the order the map is ranged in. *)
Definition Start (order : list string) (c : Checker) : Checker := foldl start_one c order.

(** ** [Stop] *)

(** The wait group is at zero when every goroutine has returned. *)
Definition exited (t : string * phase) : bool := bool_decide (t.2 = Exited).
Definition all_exited (c : Checker) : bool := forallb exited (ck_threads c).

Definition enter_stop (c : Checker) : Checker :=
  {| ck_clusters := ck_clusters c; ck_stopped := ck_stopped c; ck_threads := ck_threads c;
     ck_stops := ck_stops c ++ [StopLook] |}.

Definition move_stop (j : nat) (p : stop_place) (stopped : bool) (c : Checker) : Checker :=
  {| ck_clusters := ck_clusters c; ck_stopped := stopped; ck_threads := ck_threads c;
     ck_stops := <[j := p]> (ck_stops c) |}.

(** The next step of call [j] of [Stop]; [None] while it waits and once it has
    returned.  Closing a closed channel panics. *)
Definition Stop_step (c : Checker) (j : nat) : option (res Checker) :=
  match ck_stops c !! j with
  | Some StopLook => Some (Ok (move_stop j (if ck_stopped c then StopEarly else StopClose) (ck_stopped c) c))
  | Some StopClose => Some (if ck_stopped c then Panic else Ok (move_stop j StopWait true c))
  | Some StopWait => if all_exited c then Some (Ok (move_stop j StopDone (ck_stopped c) c)) else None
  | _ => None
  end.

(** ** The goroutines *)

(** What a goroutine of [runCluster] does next: finish the round it is in, or
    take one of the two cases of its [select]. *)
Inductive thread_event := EvChecked (rd : round) | EvTimer | EvStop.

Definition runCluster_step (c : Checker) (i : nat) (ev : thread_event) : option Checker :=
  match ck_threads c !! i, ev with
  | Some (name, Checking), EvChecked rd =>
      r ← ck_clusters c !! name;
      match checkAndReschedule rd r with
      | Ok (r, _) => Some {| ck_clusters := <[name := r]> (ck_clusters c);
                             ck_stopped := ck_stopped c;
                             ck_threads := <[i := (name, Waiting)]> (ck_threads c);
                             ck_stops := ck_stops c |}
      | _ => None
      end
  | Some (name, Waiting), EvTimer =>
      Some {| ck_clusters := ck_clusters c; ck_stopped := ck_stopped c;
              ck_threads := <[i := (name, Checking)]> (ck_threads c); ck_stops := ck_stops c |}
  | Some (name, Waiting), EvStop =>
      if ck_stopped c
      then Some {| ck_clusters := ck_clusters c; ck_stopped := ck_stopped c;
                   ck_threads := <[i := (name, Exited)]> (ck_threads c); ck_stops := ck_stops c |}
      else None
  | _, _ => None
  end.

Inductive cstep : Checker → Checker → Prop :=
  | cstep_start c order : order ≡ₚ map fst (map_to_list (ck_clusters c)) → cstep c (Start order c)
  | cstep_enter_stop c : cstep c (enter_stop c)
  | cstep_stop c c' j : Stop_step c j = Some (Ok c') → cstep c c'
  | cstep_thread c c' i ev : runCluster_step c i ev = Some c' → cstep c c'.

Definition checker_reachable (now : time) (clusters : gmap string ClusterConfig) : Checker → Prop :=
  rtc cstep (NewChecker now clusters).

(** ** One goroutine per running cluster *)

Definition checker_ok (c : Checker) : Prop :=
  NoDup (map fst (ck_threads c)) ∧
  ∀ name, name ∈ map fst (ck_threads c) ↔
          ∃ r, ck_clusters c !! name = Some r ∧ cr_running r = true.

Lemma running_insert (cs : gmap string clusterRunner) name r r' n :
  cs !! name = Some r → cr_running r' = cr_running r →
  (∃ q, <[name := r']> cs !! n = Some q ∧ cr_running q = true) ↔
  (∃ q, cs !! n = Some q ∧ cr_running q = true).
Proof.
  intros Hr Heq. destruct (decide (name = n)) as [<-|Hne].
  - rewrite lookup_insert, decide_True by done. naive_solver congruence.
  - by rewrite lookup_insert_ne.
Qed.

Lemma start_one_ok c name : checker_ok c → checker_ok (start_one c name).
Proof.
  intros [Hnd Hin]. unfold start_one. destruct (ck_clusters c !! name) as [r|] eqn:Hr; [|done].
  destruct (cr_running r) eqn:Hrun; [done|]. unfold checker_ok. cbn [ck_clusters ck_threads].
  rewrite map_app. cbn [map fst]. split.
  - apply list.NoDup_app. split; [done|]. split; [|apply NoDup_singleton].
    intros n Hn ->%list_elem_of_singleton. apply Hin in Hn as (q & Hq & ?). congruence.
  - intros n. rewrite elem_of_app, list_elem_of_singleton, Hin.
    destruct (decide (name = n)) as [<-|Hne].
    + rewrite lookup_insert, decide_True by done. naive_solver.
    + rewrite lookup_insert_ne by done. naive_solver.
Qed.

Lemma Start_ok order c : checker_ok c → checker_ok (Start order c).
Proof. unfold Start. revert c. induction order; cbn; auto using start_one_ok. Qed.

Lemma map_fst_phase (l : list (string * phase)) i name p q :
  l !! i = Some (name, p) → map fst (<[i := (name, q)]> l) = map fst l.
Proof.
  intros Hi. change (map fst (<[i:=(name, q)]> l)) with (fst <$> <[i:=(name, q)]> l).
  rewrite list_fmap_insert. apply list_insert_id. by rewrite list_lookup_fmap, Hi.
Qed.

Lemma check_running rd r r' next :
  checkAndReschedule rd r = Ok (r', next) → cr_running r' = cr_running r.
Proof.
  unfold checkAndReschedule. intros (p & _ & H)%bind_Ok_inv.
  apply bind_Ok_inv in H as (s & _ & H). by simplify_eq.
Qed.

(** The steps of one goroutine, told apart. *)
Lemma runCluster_step_inv c i ev c' :
  runCluster_step c i ev = Some c' →
  ∃ name p q, ck_threads c !! i = Some (name, p) ∧
    ck_threads c' = <[i := (name, q)]> (ck_threads c) ∧ ck_stopped c' = ck_stopped c ∧
    ck_stops c' = ck_stops c ∧
    ((p = Checking ∧ q = Waiting ∧
      ∃ r rd r' next, ev = EvChecked rd ∧ ck_clusters c !! name = Some r ∧
        checkAndReschedule rd r = Ok (r', next) ∧ ck_clusters c' = <[name := r']> (ck_clusters c)) ∨
     (p = Waiting ∧ q ≠ Waiting ∧ ck_clusters c' = ck_clusters c ∧
      (q = Exited → ck_stopped c = true))).
Proof.
  unfold runCluster_step. destruct (ck_threads c !! i) as [[name []]|] eqn:Hi; [..|done].
  - destruct ev as [rd| |]; [|done..]. intros (r & Hr & H)%bind_Some.
    destruct (checkAndReschedule rd r) as [[r' next]| |] eqn:E; [|done..]. simplify_eq.
    exists name, Checking, Waiting. split_and!; [done..|]. left. split_and!; [done..|]. naive_solver.
  - destruct ev as [rd| |]; [done|..].
    + intros [= <-]. exists name, Waiting, Checking. split_and!; [done..|]. right. by split_and!.
    + destruct (ck_stopped c) eqn:Hs; [|done]. intros [= <-].
      exists name, Waiting, Exited. split_and!; [done..|]. right. by split_and!.
  - by destruct ev.
Qed.

(** The steps of [Stop] leave the clusters and the goroutines alone. *)
Lemma Stop_step_inv c j c' :
  Stop_step c j = Some (Ok c') →
  ∃ p q, ck_stops c !! j = Some p ∧ c' = move_stop j q (ck_stopped c || bool_decide (p = StopClose)) c ∧
    (p = StopLook ∧ q = (if ck_stopped c then StopEarly else StopClose) ∨
     p = StopClose ∧ q = StopWait ∧ ck_stopped c = false ∨
     p = StopWait ∧ q = StopDone ∧ all_exited c = true).
Proof.
  unfold Stop_step. destruct (ck_stops c !! j) as [[]|]; [..|done].
  - intros [= <-]. eexists StopLook, _. rewrite orb_false_r. naive_solver.
  - destruct (ck_stopped c) eqn:Hs; intros [= <-]. exists StopClose, StopWait. naive_solver.
  - destruct (all_exited c) eqn:Ha; intros [= <-]. exists StopWait, StopDone. rewrite orb_false_r.
    naive_solver.
  - done.
  - done.
Qed.

Lemma cstep_ok c c' : cstep c c' → checker_ok c → checker_ok c'.
Proof.
  intros [? order _|?|? ? j Hst|? ? i ev Hst] Hok; [by apply Start_ok|exact Hok| |].
  { apply Stop_step_inv in Hst as (p & q & _ & -> & _). exact Hok. }
  apply runCluster_step_inv in Hst as (name & p & q & Hi & Ht & _ & _ & Hcase).
  destruct Hok as [Hnd Hin]. unfold checker_ok.
  rewrite Ht, (map_fst_phase _ _ _ p) by done. split; [done|]. intros n. rewrite Hin.
  destruct Hcase as [(_ & _ & r & rd & r' & next & _ & Hr & Hc & ->)|(_ & _ & -> & _)]; [|done].
  symmetry. eapply running_insert; [done|by eapply check_running].
Qed.

Lemma NewChecker_ok now clusters : checker_ok (NewChecker now clusters).
Proof.
  split; [constructor|]. intros name. cbn. split; [by intros ?%not_elem_of_nil|].
  intros (r & Hr & Hrun). unfold Health.New in Hr. rewrite map_lookup_imap in Hr.
  destruct (clusters !! name) as [cl|]; [|done]. cbn in Hr. unfold new_runner in Hr.
  destruct (negb _); [done|]. by simplify_eq.
Qed.

Lemma reachable_ok now clusters c : checker_reachable now clusters c → checker_ok c.
Proof.
  unfold checker_reachable. intros H. pose proof (NewChecker_ok now clusters) as H0.
  induction H as [|? ? ? Hst _ IH]; [done|]. eauto using cstep_ok.
Qed.

(** ** Stopping *)

(** The steps a goroutine still takes once the stop channel is closed, if its
    timer does not fire again first, and those a call of [Stop] still takes. *)
Definition phase_work (p : phase) : nat :=
  match p with Checking => 2 | Waiting => 1 | Exited => 0 end.
Definition stop_work (p : stop_place) : nat :=
  match p with StopLook => 3 | StopClose => 2 | StopWait => 1 | StopDone | StopEarly => 0 end.
Definition work (c : Checker) : nat :=
  sum_list_with (phase_work ∘ snd) (ck_threads c) + sum_list_with stop_work (ck_stops c).

(** A step of a goroutine that does not wait for its timer, or of a call of [Stop]. *)
Inductive prompt (c c' : Checker) : Prop :=
  | prompt_thread i ev : ev ≠ EvTimer → runCluster_step c i ev = Some c' → prompt c c'
  | prompt_stop j : Stop_step c j = Some (Ok c') → prompt c c'.

Lemma sum_insert {A} (f : A → nat) (l : list A) i x y :
  l !! i = Some x → (sum_list_with f (<[i := y]> l) + f x = sum_list_with f l + f y)%nat.
Proof.
  intros Hi. rewrite <- (take_drop_middle _ _ _ Hi) at 2.
  rewrite insert_take_drop by (by eapply lookup_lt_Some).
  rewrite !sum_list_with_app. cbn. lia.
Qed.

Lemma sum_list_bound {A} (f : A → nat) n (l : list A) :
  (∀ x, f x ≤ n)%nat → (sum_list_with f l ≤ n * length l)%nat.
Proof. intros Hf. induction l as [|x l IH]; cbn; [lia|]. pose proof (Hf x). lia. Qed.

Lemma work_bound c : (work c ≤ 2 * length (ck_threads c) + 3 * length (ck_stops c))%nat.
Proof.
  unfold work. apply Nat.add_le_mono; apply sum_list_bound; [intros [? []]|intros []]; cbn; lia.
Qed.

Lemma prompt_thread_work c i ev c' :
  ev ≠ EvTimer → runCluster_step c i ev = Some c' → work c = S (work c').
Proof.
  intros Hev Hst. unfold work.
  pose proof Hst as Hinv. apply runCluster_step_inv in Hinv as (name & p & q & Hi & Ht & _ & -> & Hcase).
  pose proof (sum_insert (phase_work ∘ snd) _ _ _ (name, q) Hi) as Hw. rewrite Ht.
  destruct Hcase as [(-> & -> & _)|(-> & Hq & _)]; [cbn in Hw; lia|].
  destruct q; [|done|cbn in Hw; lia].
  unfold runCluster_step in Hst. rewrite Hi in Hst. destruct ev; [done|done|].
  destruct (ck_stopped c); [|done]. simplify_eq. cbn in Ht.
  assert (H : <[i := (name, Exited)]> (ck_threads c) !! i = <[i := (name, Checking)]> (ck_threads c) !! i)
    by (by rewrite Ht).
  by rewrite !list_lookup_insert_eq in H by (by eapply lookup_lt_Some).
Qed.

Lemma Stop_step_work c j c' : Stop_step c j = Some (Ok c') → (work c' < work c)%nat.
Proof.
  intros (p & q & Hj & -> & Hcase)%Stop_step_inv. unfold work. cbn [move_stop ck_threads ck_stops].
  pose proof (sum_insert stop_work _ _ _ q Hj) as Hw.
  destruct Hcase as [[-> ->]|[(-> & -> & _)|(-> & -> & _)]]; [|cbn in Hw; lia..].
  destruct (ck_stopped c); cbn in Hw; lia.
Qed.

Lemma prompt_work c c' : prompt c c' → (work c' < work c)%nat.
Proof.
  intros [i ev Hev Hst|j Hst]; [|by eapply Stop_step_work].
  rewrite (prompt_thread_work _ _ _ _ Hev Hst). lia.
Qed.

Lemma prompt_steps n c c' : nsteps prompt n c c' → (n + work c' ≤ work c)%nat.
Proof. induction 1 as [|n ? ? ? H%prompt_work _ IH]; lia. Qed.

Lemma prompt_cstep c c' : prompt c c' → cstep c c'.
Proof. intros [i ev _ H|j H]; [by eapply cstep_thread|by eapply cstep_stop]. Qed.

Lemma cstep_stopped c c' : cstep c c' → ck_stopped c = true → ck_stopped c' = true.
Proof.
  intros [? order _|?|? ? j Hst|? ? i ev Hst] Hs; [|done|..].
  - unfold Start. revert Hs. generalize dependent c0. induction order as [|n order IH]; [done|].
    intros c0 Hs. cbn. apply IH. unfold start_one. repeat case_match; done.
  - apply Stop_step_inv in Hst as (p & q & _ & -> & _). cbn. by rewrite Hs.
  - by apply runCluster_step_inv in Hst as (? & ? & ? & _ & _ & -> & _).
Qed.

(** A round in which neither endpoint can be dialed. *)
Definition dark_round : round :=
  {| rd_pooled := []; rd_start1 := 0; rd_end1 := 0; rd_dial1 := Err (Errorf "refused");
     rd_start2 := 0; rd_end2 := 0; rd_dial2 := Err (Errorf "refused") |}.

Lemma round_total rd r :
  safe (rd_dial1 rd) → safe (rd_dial2 rd) → ∃ r' next, checkAndReschedule rd r = Ok (r', next).
Proof.
  intros H1 H2. unfold checkAndReschedule.
  destruct (checkEndpoint_safe (rd_pooled rd) (rd_start1 rd) (rd_end1 rd) (rd_dial1 rd) r
              (cr_primaryAddr r) (cr_primary r) H1) as (p & -> & _).
  destruct (checkEndpoint_safe (rd_pooled rd) (rd_start2 rd) (rd_end2 rd) (rd_dial2 rd) r
              (cr_secondaryAddr r) (cr_secondary r) H2) as (q & E & _).
  bind_simpl. rewrite E. by eexists _, _.
Qed.

(** A goroutine that has not returned can go on once the stop channel is closed. *)
Lemma check_progress c i t :
  checker_ok c → ck_stopped c = true → ck_threads c !! i = Some t → exited t = false →
  ∃ c', prompt c c'.
Proof.
  intros [_ Hin] Hs Hi Ht. destruct t as [name []]; [| |done].
  - destruct (proj1 (Hin name)) as (r & Hr & _).
    { apply (list_elem_of_fmap_2 fst _ (name, Checking)). by eapply list_elem_of_lookup_2. }
    destruct (round_total dark_round r I I) as (r' & next & E).
    eexists. apply (prompt_thread _ _ i (EvChecked dark_round)); [done|].
    unfold runCluster_step. rewrite Hi, Hr. cbn [mbind option_bind]. by rewrite E.
  - eexists. apply (prompt_thread _ _ i EvStop); [done|].
    unfold runCluster_step. by rewrite Hi, Hs.
Qed.

(** Where a call of [Stop] ends: returned, or about to close a closed channel. *)
Definition stop_over (c : Checker) (j : nat) (p : stop_place) : Prop :=
  p = StopDone ∨ p = StopEarly ∨ p = StopClose ∧ Stop_step c j = Some Panic.

(** When nothing more can happen promptly, every goroutine and every call of
    [Stop] is over. *)
Lemma prompt_quiet c :
  checker_ok c → ck_stopped c = true → (∀ c', ¬ prompt c c') →
  all_exited c = true ∧ ∀ j p, ck_stops c !! j = Some p → stop_over c j p.
Proof.
  intros Hok Hs Hq. assert (Hall : all_exited c = true).
  { apply forallb_forall. intros t (i & Hi)%list_elem_of_In%list_elem_of_lookup.
    destruct (exited t) eqn:E; [done|]. destruct (check_progress c i t Hok Hs Hi E) as (c' & H).
    by destruct (Hq c'). }
  split; [done|]. intros j p Hj. unfold stop_over, Stop_step. rewrite Hj, Hs.
  destruct p; auto; exfalso.
  - eapply Hq, (prompt_stop _ _ j). unfold Stop_step. by rewrite Hj.
  - eapply Hq, (prompt_stop _ _ j). unfold Stop_step. by rewrite Hj, Hall.
Qed.

(** Every cluster's goroutine has been launched. *)
Definition all_started (c : Checker) : Prop := ∀ name r, ck_clusters c !! name = Some r → cr_running r = true.

Lemma Start_started order c : all_started c → Start order c = c.
Proof.
  intros H. unfold Start. induction order as [|name order IH]; [done|]. cbn [foldl].
  assert (start_one c name = c) as ->; [|done]. unfold start_one.
  destruct (ck_clusters c !! name) as [r|] eqn:Hr; [|done]. by rewrite (H _ _ Hr).
Qed.

(** Nothing happens to the clusters and goroutines that are stopped. *)
Definition halted (c : Checker) : Prop :=
  all_started c ∧ ck_stopped c = true ∧ all_exited c = true.

Lemma halted_step c c' :
  halted c → cstep c c' →
  halted c' ∧ ck_clusters c' = ck_clusters c ∧ ck_threads c' = ck_threads c.
Proof.
  intros Hh Hst. assert (Hs' : ck_stopped c' = true) by (by eapply cstep_stopped; [|apply Hh]).
  destruct Hh as (Ha & Hs & Hall).
  enough (ck_clusters c' = ck_clusters c ∧ ck_threads c' = ck_threads c) as [Hc Ht].
  { split; [|done]. unfold halted, all_started, all_exited. by rewrite Hc, Ht. }
  clear Hs'. revert Ha Hs Hall. destruct Hst as [c order _|c|c c' j Hst|c c' i ev Hst]; intros Ha Hs Hall.
  - by rewrite Start_started.
  - done.
  - by apply Stop_step_inv in Hst as (p & q & _ & -> & _).
  - exfalso. apply runCluster_step_inv in Hst as (name & p & q & Hi & _ & _ & _ & Hcase).
    unfold all_exited in Hall. rewrite forallb_forall in Hall. specialize (Hall (name, p)).
    assert (p = Exited) as ->; [|by destruct Hcase as [[? _]|[? _]]].
    apply list_elem_of_lookup_2, list_elem_of_In, Hall in Hi. by apply bool_decide_eq_true in Hi.
Qed.

Lemma halted_run c c' :
  halted c → rtc cstep c c' →
  ck_clusters c' = ck_clusters c ∧ ck_threads c' = ck_threads c ∧ all_exited c' = true.
Proof.
  intros Hh Hst. induction Hst as [|c c1 c2 Hstep _ IH]; [by destruct Hh as (_ & _ & ?)|].
  destruct (halted_step _ _ Hh Hstep) as (Hh' & <- & <-). auto.
Qed.

(** A call of [Stop] waits only after it has closed the channel. *)
Definition waits_closed (c : Checker) : Prop := StopWait ∈ ck_stops c → ck_stopped c = true.

Lemma cstep_waits_closed c c' : cstep c c' → waits_closed c → waits_closed c'.
Proof.
  intros Hst Hw Hin. destruct (ck_stopped c) eqn:Hs; [by eapply cstep_stopped|].
  assert (Hno : StopWait ∉ ck_stops c) by (by intros ?%Hw; congruence). clear Hw. revert Hs Hno Hin.
  destruct Hst as [c order _|c|c c' j Hst|c c' i ev Hst]; intros Hs Hno.
  - assert (ck_stops (Start order c) = ck_stops c) as ->; [|done].
    unfold Start. clear. revert c. induction order as [|n order IH]; intros c; [done|]. cbn.
    rewrite IH. unfold start_one. repeat case_match; done.
  - cbn. by intros [?|Hx%list_elem_of_singleton]%elem_of_app.
  - apply Stop_step_inv in Hst as (p & q & Hj & -> & Hcase). cbn. rewrite Hs.
    intros (k & Hk)%list_elem_of_lookup. destruct (decide (j = k)) as [<-|Hne].
    + rewrite list_lookup_insert_eq in Hk by (by eapply lookup_lt_Some). simplify_eq.
      rewrite Hs in Hcase. destruct Hcase as [[_ ?]|[(-> & _)|(_ & ? & _)]]; [done| |done].
      by rewrite bool_decide_true.
    + rewrite list_lookup_insert_ne in Hk by done. by apply list_elem_of_lookup_2 in Hk.
  - apply runCluster_step_inv in Hst as (? & ? & ? & _ & _ & -> & -> & _). done.
Qed.

Lemma reachable_waits_closed now clusters c : checker_reachable now clusters c → waits_closed c.
Proof.
  unfold checker_reachable. intros H.
  assert (waits_closed (NewChecker now clusters)) as H0 by (by intros ?%not_elem_of_nil).
  induction H as [|? ? ? Hst _ IH]; [done|]. eauto using cstep_waits_closed.
Qed.

(** ** One goroutine in time *)

(** [rds] are the rounds of a goroutine whose timer is next due at [due]; each
    starts at most [late] after it is due, and the timer is reset when it ends. *)
Fixpoint scheduled (late : duration) (due : time) (rds : list round) (r : clusterRunner) : Prop :=
  match rds with
  | [] => True
  | rd :: rds =>
      due ≤ rd_start1 rd ≤ due + late ∧ rd_start1 rd ≤ rd_end2 rd ∧
      match checkAndReschedule rd r with
      | Ok (r', next) => scheduled late (rd_end2 rd + next) rds r'
      | _ => False
      end
  end.

(** The runner after some rounds. *)
Definition run_rounds (rds : list round) (r : clusterRunner) : res clusterRunner :=
  foldl (λ r rd, r ← r; '(r', _) ← checkAndReschedule rd r; mret r') (Ok r) rds.

(** The primary does not answer the check as it should: it cannot be dialed, or
    the exchange fails. *)
Definition primary_fails (r : clusterRunner) (rd : round) : Prop :=
  match rd_dial1 rd with
  | Ok c => ∃ e, fst (check_exchange (rd_pooled rd) r c) = Err e
  | Err _ => True
  | Panic => False
  end.

(** What a round leaves alone. *)
Definition same_settings (r r' : clusterRunner) : Prop := ∃ p q, r' = with_states p q r.

Lemma same_settings_refl r : same_settings r r.
Proof. exists (cr_primary r), (cr_secondary r). by destruct r. Qed.

Lemma same_settings_trans r1 r2 r3 : same_settings r1 r2 → same_settings r2 r3 → same_settings r1 r3.
Proof. intros (? & ? & ->) (p & q & ->). by exists p, q. Qed.

#[export] Hint Resolve same_settings_refl : go.

Lemma round_settings rd r r' next :
  checkAndReschedule rd r = Ok (r', next) → same_settings r r'.
Proof.
  unfold checkAndReschedule. intros (p & _ & H)%bind_Ok_inv.
  apply bind_Ok_inv in H as (q & _ & H). simplify_eq. by eexists _, _.
Qed.

Lemma settings_interval r r' : same_settings r r' → cr_interval r' = cr_interval r.
Proof. by intros (? & ? & ->). Qed.

Lemma settings_threshold r r' :
  same_settings r r' → cr_failureThreshold r' = cr_failureThreshold r.
Proof. by intros (? & ? & ->). Qed.

Lemma settings_addr r r' : same_settings r r' → cr_primaryAddr r' = cr_primaryAddr r.
Proof. by intros (? & ? & ->). Qed.

Lemma settings_fails r r' rd : same_settings r r' → primary_fails r rd → primary_fails r' rd.
Proof. by intros (? & ? & ->). Qed.

(** A round in which the primary fails counts one failure. *)
Lemma failing_round rd r r' next :
  cr_primaryAddr r ≠ ""%string → primary_fails r rd → checkAndReschedule rd r = Ok (r', next) →
  hs_hyst (cr_primary r') = hyst_step (cr_failureThreshold r) (cr_recoveryThreshold r)
                              (hs_hyst (cr_primary r)) false.
Proof.
  intros Ha Hf. unfold checkAndReschedule. intros (p & Hp & H)%bind_Ok_inv.
  apply bind_Ok_inv in H as (q & _ & H). simplify_eq. cbn [with_states cr_primary].
  unfold checkEndpoint in Hp. rewrite (proj2 (String.eqb_neq _ _)) in Hp by done.
  pose proof (λ now lat st err, record_probe_hyst (cr_failureThreshold r) (cr_recoveryThreshold r)
    (cr_primary r) {| ck_now := now; ck_latency := lat; ck_ok := false; ck_status := st; ck_err := err |})
    as Hk. cbn [record_probe ck_ok ck_now ck_latency ck_status ck_err] in Hk.
  unfold primary_fails in Hf. destruct (rd_dial1 rd) as [c|e|]; [|by simplify_eq|done].
  destruct Hf as (e & He). rewrite He in Hp. by simplify_eq.
Qed.

(** ... and is followed by another within 2 s; no round is followed later than
    the longer of that and the configured interval. *)
Lemma next_bounds rd r r' next :
  checkAndReschedule rd r = Ok (r', next) →
  next ≤ Z.max (cr_interval r) adaptiveFastInterval ∧
  (cr_primaryAddr r ≠ ""%string → 0 ≤ hs_consecutiveFailures (cr_primary r) → primary_fails r rd →
   next ≤ adaptiveFastInterval).
Proof.
  intros H. pose proof (checkAndReschedule_interval _ _ _ _ H) as Hn. cbv zeta beta in Hn.
  destruct Hn as [_ ->].
  assert (Hp : cr_primaryAddr r ≠ ""%string → 0 ≤ hs_consecutiveFailures (cr_primary r) →
               primary_fails r rd → (0 <? hs_consecutiveFailures (cr_primary r')) = true).
  { intros Ha Hcf Hf. pose proof (failing_round _ _ _ _ Ha Hf H) as Hh. unfold hs_hyst in Hh.
    cbn [hyst_step] in Hh. injection Hh as _ -> _. apply Z.ltb_lt. lia. }
  split; [|intros Ha Hcf Hf; rewrite Hp by done; cbn [orb]];
    repeat destruct (_ || _); lia.
Qed.

Lemma run_rounds_cons rd rds r :
  run_rounds (rd :: rds) r = '(r', _) ← checkAndReschedule rd r; run_rounds rds r'.
Proof.
  unfold run_rounds. cbn [foldl]. bind_simpl. destruct (checkAndReschedule rd r) as [[r' next]| |]; [done|..];
    induction rds; done.
Qed.

Lemma run_rounds_app rds1 rds2 r :
  run_rounds (rds1 ++ rds2) r = r' ← run_rounds rds1 r; run_rounds rds2 r'.
Proof.
  revert r. induction rds1 as [|rd rds1 IH]; intros r; [done|].
  cbn [app]. rewrite !run_rounds_cons. destruct (checkAndReschedule rd r) as [[r' next]| |]; [|done..].
  apply IH.
Qed.

Lemma run_rounds_settings rds r r' : run_rounds rds r = Ok r' → same_settings r r'.
Proof.
  revert r. induction rds as [|rd rds IH]; intros r; [intros [= <-]; auto with go|].
  rewrite run_rounds_cons. intros ([r1 next] & H1 & H2)%bind_Ok_inv.
  eauto using same_settings_trans, round_settings.
Qed.

Lemma scheduled_app late due rds1 rds2 r :
  scheduled late due (rds1 ++ rds2) r →
  ∃ r' due', run_rounds rds1 r = Ok r' ∧ scheduled late due' rds2 r' ∧
    (rds1 = [] ∧ due' = due ∨
     ∃ rd, list.last rds1 = Some rd ∧ due' ≤ rd_end2 rd + Z.max (cr_interval r) adaptiveFastInterval).
Proof.
  revert due r. induction rds1 as [|rd rds1 IH]; intros due r; cbn [app scheduled].
  { intros H. exists r, due. split; [done|]. split; [done|]. by left. }
  intros (_ & _ & H). rewrite run_rounds_cons.
  destruct (checkAndReschedule rd r) as [[r1 next]| |] eqn:E; [|done..]. bind_simpl.
  destruct (IH _ _ H) as (r' & due' & -> & Hs & Hd). exists r', due'. split; [done|]. split; [done|].
  right. pose proof (next_bounds _ _ _ _ E) as [Hn _].
  destruct Hd as [[-> ->]|(rd' & Hl & Hd)].
  - exists rd. split; [done|lia].
  - exists rd'. split; [destruct rds1; [done|exact Hl]|].
    by rewrite (settings_interval r r1) in Hd by (by eapply round_settings).
Qed.

Lemma scheduled_take late due n rds r :
  scheduled late due rds r → scheduled late due (take n rds) r.
Proof.
  revert n due r. induction rds as [|rd rds IH]; intros [|n] due r; cbn [take scheduled]; auto.
  intros (? & ? & H). split; [done|]. split; [done|].
  destruct (checkAndReschedule rd r) as [[? ?]| |]; auto.
Qed.

Lemma scheduled_run late due rds r : scheduled late due rds r → ∃ r', run_rounds rds r = Ok r'.
Proof.
  intros H. rewrite <- (app_nil_r rds) in H. apply scheduled_app in H as (r' & _ & ? & _). by exists r'.
Qed.

Lemma round_failures_nonneg rd r r' next :
  checkAndReschedule rd r = Ok (r', next) → 0 ≤ hs_consecutiveFailures (cr_primary r) →
  0 ≤ hs_consecutiveFailures (cr_primary r').
Proof.
  unfold checkAndReschedule. intros (p & Hp & H)%bind_Ok_inv Hcf.
  apply bind_Ok_inv in H as (q & _ & H). simplify_eq. cbn [with_states cr_primary].
  revert Hp. unfold checkEndpoint.
  repeat case_match; try done; intros; simplify_eq; cbn; lia.
Qed.

Lemma rounds_failures_nonneg rds r r' :
  run_rounds rds r = Ok r' → 0 ≤ hs_consecutiveFailures (cr_primary r) →
  0 ≤ hs_consecutiveFailures (cr_primary r').
Proof.
  revert r. induction rds as [|rd rds IH]; intros r; [by intros [= <-]|].
  rewrite run_rounds_cons. intros ([r1 next] & H1 & H2)%bind_Ok_inv.
  eauto using round_failures_nonneg.
Qed.

Section Outage.
Context (late D : duration) (r0 : clusterRunner).
Context (Haddr : cr_primaryAddr r0 ≠ ""%string).

(** The state of the primary through an outage that began [k] rounds ago. *)
Definition dark_for (k : Z) (r : clusterRunner) : Prop :=
  same_settings r0 r ∧ k ≤ hs_consecutiveFailures (cr_primary r) ∧
  (0 < k → hs_healthy (cr_primary r) = true → hs_consecutiveFailures (cr_primary r) < cr_failureThreshold r0).

Lemma dark_round_step k rd r r' next :
  0 ≤ k → dark_for k r → primary_fails r0 rd → checkAndReschedule rd r = Ok (r', next) →
  dark_for (k + 1) r'.
Proof.
  intros Hk (Hs & Hcf & Hh) Hf H.
  pose proof (failing_round rd r r' next) as Hst. rewrite (settings_addr _ _ Hs) in Hst.
  specialize (Hst Haddr (settings_fails _ _ _ Hs Hf) H). unfold hs_hyst in Hst. cbn [hyst_step] in Hst.
  injection Hst as H1 H2 _. split; [by eapply same_settings_trans, round_settings|].
  rewrite H1, H2. split; [lia|]. intros _ [_ Hlt]%andb_true_iff. bool_to_prop.
  by rewrite (settings_threshold _ _ Hs) in Hlt.
Qed.

Lemma dark_rounds_run k rds r r' :
  0 ≤ k → dark_for k r → Forall (primary_fails r0) rds → run_rounds rds r = Ok r' →
  dark_for (k + Z.of_nat (length rds)) r'.
Proof.
  revert k r. induction rds as [|rd rds IH]; intros k r Hk Hd Hf.
  { intros [= <-]. cbn. by rewrite Z.add_0_r. }
  apply list.Forall_cons in Hf as [Hrd Hf]. rewrite run_rounds_cons.
  intros ([r1 next] & H1 & H2)%bind_Ok_inv. cbn [length].
  replace (k + Z.of_nat (S (length rds))) with (k + 1 + Z.of_nat (length rds)) by lia.
  eapply IH; [lia|by eapply dark_round_step|done|done].
Qed.

(** When the rounds of an outage end. *)
Lemma dark_rounds_time k due rds r rd :
  0 ≤ k → dark_for k r →
  Forall (λ rd, rd_end2 rd ≤ rd_start1 rd + D ∧ primary_fails r0 rd) rds →
  scheduled late due rds r → list.last rds = Some rd →
  rd_end2 rd ≤ due + late + D + (Z.of_nat (length rds) - 1) * (adaptiveFastInterval + late + D).
Proof.
  revert k due r. induction rds as [|rd1 rds IH]; intros k due r Hk Hd Hf Hs Hl; [done|].
  apply list.Forall_cons in Hf as [[HD Hrd] Hf]. cbn [scheduled] in Hs. destruct Hs as (Hdue & _ & Hs).
  destruct (checkAndReschedule rd1 r) as [[r1 next]| |] eqn:E; [|done..].
  assert (next ≤ adaptiveFastInterval) as Hn.
  { pose proof Hd as (Hset & Hcf & _).
    apply (next_bounds _ _ _ _ E); [by rewrite (settings_addr _ _ Hset)|lia|by eapply settings_fails]. }
  destruct rds as [|rd2 rds]; [simplify_eq/=; lia|].
  assert (Hl' : list.last (rd2 :: rds) = Some rd) by exact Hl.
  pose proof (dark_round_step k rd1 r r1 next Hk Hd Hrd E) as Hd1.
  specialize (IH (k + 1) _ r1 ltac:(lia) Hd1 Hf Hs Hl').
  cbn [length] in *. unfold adaptiveFastInterval, second in *. nia.
Qed.
End Outage.

(** ** Properties *)

(** C22: goroutines and [Stop].  However calls of [Start], the steps of any number
    of calls of [Stop] and the goroutines' steps interleave, there is exactly one
    goroutine per cluster that was started, so no endpoint is ever checked twice at
    a time.  A call of [Stop] that closed the channel returns exactly when every
    goroutine has; if every cluster has been started by then, nothing the program
    can do afterwards starts a check or changes the reported health.  A call that
    finds the channel closed returns at once, whatever the goroutines are doing,
    and one that looked before another closed the channel panics in its own
    [close].  Once the channel is closed, every run of goroutines and calls of
    [Stop] in which no timer fires is over after at most two steps per goroutine
    and three per call, and it cannot end before all goroutines have returned and
    every call of [Stop] has returned or panics. *)
Theorem Stop_quiesces now clusters c :
  checker_reachable now clusters c →
  NoDup (map fst (ck_threads c)) ∧
  (∀ name, name ∈ map fst (ck_threads c) ↔
           ∃ r, ck_clusters c !! name = Some r ∧ cr_running r = true) ∧
  (∀ j, ck_stops c !! j = Some StopWait →
     ((∃ c', Stop_step c j = Some (Ok c')) ↔ ∀ t, t ∈ ck_threads c → t.2 = Exited) ∧
     ∀ c1 c2, Stop_step c j = Some (Ok c1) → all_started c → rtc cstep c1 c2 →
       ck_clusters c2 = ck_clusters c ∧ ck_threads c2 = ck_threads c) ∧
  (ck_stopped c = true →
     (∀ j, ck_stops c !! j = Some StopLook →
        ∃ c', Stop_step c j = Some (Ok c') ∧ ck_stops c' !! j = Some StopEarly ∧
              ck_threads c' = ck_threads c) ∧
     (∀ j, ck_stops c !! j = Some StopClose → Stop_step c j = Some Panic) ∧
     ∀ n c', nsteps prompt n c c' →
       (n ≤ 2 * length (ck_threads c) + 3 * length (ck_stops c))%nat ∧
       ((∀ c'', ¬ prompt c' c'') →
          (∀ t, t ∈ ck_threads c' → t.2 = Exited) ∧
          ∀ j p, ck_stops c' !! j = Some p →
            p = StopDone ∨ p = StopEarly ∨ p = StopClose ∧ Stop_step c' j = Some Panic)).
Proof.
  intros Hr. pose proof (reachable_ok _ _ _ Hr) as Hok. pose proof Hok as [Hnd Hin].
  assert (Hall : ∀ c, all_exited c = true ↔ ∀ t, t ∈ ck_threads c → t.2 = Exited).
  { intros c0. unfold all_exited. rewrite forallb_forall.
    split; intros H t Ht; apply (bool_decide_eq_true (t.2 = Exited)), H, list_elem_of_In, Ht. }
  split; [done|]. split; [done|]. split; [|intros Hs; split_and!].
  - intros j Hj. unfold Stop_step. rewrite Hj, <- Hall. split; [case_match; naive_solver|].
    destruct (all_exited c) eqn:Ha; [|done]. intros c1 c2 [= <-] Hst Hrun.
    assert (Hh : halted (move_stop j StopDone (ck_stopped c) c)).
    { split; [exact Hst|]. split; [|exact Ha].
      apply (reachable_waits_closed _ _ _ Hr). by eapply list_elem_of_lookup_2. }
    by destruct (halted_run _ _ Hh Hrun) as (-> & -> & _).
  - intros j Hj. eexists. unfold Stop_step. rewrite Hj, Hs. split; [done|]. split; [|done].
    apply list_lookup_insert_eq. by eapply lookup_lt_Some.
  - intros j Hj. unfold Stop_step. by rewrite Hj, Hs.
  - intros n c' Hst. split; [pose proof (prompt_steps _ _ _ Hst); pose proof (work_bound c); lia|].
    intros Hq. assert (Hst' := rtc_nsteps_2 _ _ _ Hst). clear Hst. rename Hst' into Hst. rewrite <- Hall.
    assert (checker_ok c' ∧ ck_stopped c' = true) as [Hok' Hs'].
    { clear - Hst Hok Hs. induction Hst as [|? ? ? Hp%prompt_cstep _ IH]; [done|].
      eauto using cstep_ok, cstep_stopped. }
    exact (prompt_quiet c' Hok' Hs' Hq).
Qed.

(** C18: the detection window.  When the primary of a cluster stops answering at
    [t0], the goroutine marks it DOWN at the end of the [failureThreshold]th round
    from then on, and keeps it DOWN as long as the outage lasts.  If a round takes
    at most [D] and a timer is served at most [late] after it is due, that is no
    later than one interval, [failureThreshold - 1] fast intervals of 2 s, the
    rounds themselves and the delays of the timer after [t0]: 14 s for an interval
    of 10 s and a threshold of 3. *)
Theorem detection_window late D t0 due r before after :
  let ft := cr_failureThreshold r in
  cr_primaryAddr r ≠ ""%string → 0 < ft → 0 ≤ hs_consecutiveFailures (cr_primary r) →
  0 ≤ late → 0 ≤ D → due ≤ t0 →
  scheduled late due (before ++ after) r →
  Forall (λ rd, rd_start1 rd < t0 ∧ rd_end2 rd ≤ rd_start1 rd + D) before →
  Forall (λ rd, rd_end2 rd ≤ rd_start1 rd + D ∧ primary_fails r rd) after →
  ft ≤ Z.of_nat (length after) →
  (∃ rd, list.last (take (Z.to_nat ft) after) = Some rd ∧
     rd_end2 rd ≤ t0 + Z.max (cr_interval r) adaptiveFastInterval
                  + (ft - 1) * adaptiveFastInterval + (ft + 1) * D + ft * late) ∧
  ∀ n, ft ≤ Z.of_nat n → ∃ r', run_rounds (before ++ take n after) r = Ok r' ∧
    IsHealthy (cr_primary r') = false.
Proof.
  intros ft Ha Hft Hcf Hlate HD Hdue Hs Hb Hf Hlen.
  destruct (scheduled_app _ _ _ _ _ Hs) as (r1 & due1 & Hrun1 & Hs1 & Hd1).
  assert (Hdark : dark_for r 0 r1).
  { split; [by eapply run_rounds_settings|]. split; [by eapply rounds_failures_nonneg|lia]. }
  assert (Hdue1 : due1 ≤ t0 + Z.max (cr_interval r) adaptiveFastInterval + D).
  { destruct Hd1 as [[_ ->]|(rd & Hl & Hle)]; [unfold adaptiveFastInterval, second; lia|].
    apply last_Some_elem_of in Hl. rewrite list.Forall_forall in Hb. apply Hb in Hl. lia. }
  split.
  - set (pre := take (Z.to_nat ft) after).
    assert (Hpre : length pre = Z.to_nat ft) by (unfold pre; rewrite length_take; lia).
    destruct (list.last pre) as [rd|] eqn:Hl.
    2:{ apply last_None in Hl. rewrite Hl in Hpre. cbn in Hpre. lia. }
    exists rd. split; [done|].
    pose proof (dark_rounds_time late D r Ha 0 due1 pre r1 rd ltac:(lia) Hdark
      (Forall_take _ _ _ Hf)
      (scheduled_take _ _ _ _ _ Hs1) Hl) as Ht.
    rewrite Hpre, Z2Nat.id in Ht by lia. unfold adaptiveFastInterval, second in *. nia.
  - intros n Hn.
    destruct (scheduled_run _ _ _ _ (scheduled_take _ _ n _ _ Hs1)) as (r' & Hr').
    exists r'. split; [by rewrite run_rounds_app, Hrun1; bind_simpl|].
    assert (Forall (primary_fails r) (take n after)) as Hf'.
    { apply Forall_take. eapply list.Forall_impl; [exact Hf|]. by intros rd [_ ?]. }
    pose proof (dark_rounds_run r Ha 0 (take n after) r1 r' ltac:(lia) Hdark Hf' Hr') as (_ & Hge & Hh).
    rewrite length_take in *. unfold IsHealthy.
    destruct (hs_healthy (cr_primary r')) eqn:E; [|done]. specialize (Hh ltac:(lia) eq_refl). lia.
Qed.

(** ** Witnesses *)

(** A cluster that is checked every 10 s with the default thresholds. *)
Definition checked_cluster : ClusterConfig :=
  {| cl_Port := 9092; cl_Mode := ModeActivePassive; cl_Active := ActivePrimary;
     cl_Primary := {| ep_Bootstrap := "a:9092"; ep_Weight := 0 |};
     cl_Secondary := {| ep_Bootstrap := ""; ep_Weight := 0 |};
     cl_HealthCheck :=
       {| hc_Enabled := true; hc_Interval := 10 * second; hc_FailureThreshold := 3;
          hc_RecoveryThreshold := 2; hc_RecoveryMinUptime := 0; hc_MinTimeBetweenFailovers := 0;
          hc_AutoFailover := true; hc_AutoFailback := false; hc_AutoRebalance := false;
          hc_RequireTargetHealthy := true; hc_CircuitBreakerMaxFailovers := 0;
          hc_CircuitBreakerWindow := 0; hc_SaslUsername := ""; hc_SaslPassword := "" |} |}.

Definition checked_clusters : gmap string ClusterConfig := {["bu1"%string := checked_cluster]}.

(** One goroutine is launched and is still in its first round when a first [Stop]
    has closed the channel; a second [Stop] returns at once, the first does not. *)
Lemma Stop_quiesces_witness :
  ∃ c, checker_reachable 0 checked_clusters c ∧ ck_threads c = [("bu1"%string, Checking)] ∧
    ck_stops c = [StopWait; StopLook] ∧ Stop_step c 0 = None ∧
    (∃ c', Stop_step c 1 = Some (Ok c') ∧ ck_stops c' !! 1%nat = Some StopEarly ∧
           ck_threads c' = [("bu1"%string, Checking)]) ∧
    ∀ n c', nsteps prompt n c c' → (n ≤ 8)%nat.
Proof.
  set (c0 := Start ["bu1"%string] (NewChecker 0 checked_clusters)).
  set (c := enter_stop (move_stop 0 StopWait true (move_stop 0 StopClose false (enter_stop c0)))).
  assert (Hr : checker_reachable 0 checked_clusters c).
  { eapply rtc_l; [eapply (cstep_start _ ["bu1"%string]); vm_compute; reflexivity|].
    eapply rtc_l; [eapply cstep_enter_stop|].
    eapply rtc_l; [eapply (cstep_stop _ _ 0); vm_compute; reflexivity|].
    eapply rtc_l; [eapply (cstep_stop _ _ 0); vm_compute; reflexivity|].
    eapply rtc_l; [eapply cstep_enter_stop|]. apply rtc_refl. }
  exists c. split; [exact Hr|]. do 3 (split; [vm_compute; reflexivity|]).
  destruct (proj2 (proj2 (proj2 (Stop_quiesces 0 checked_clusters c Hr))) eq_refl) as (H1 & _ & H3).
  split; [exact (H1 1%nat eq_refl)|]. intros n c' Hst. exact (proj1 (H3 n c' Hst)).
Defined.

(** A round of checks at [t] that takes no time. *)
Definition quick_round (t : time) (dial : res conn) : round :=
  {| rd_pooled := []; rd_start1 := t; rd_end1 := t; rd_dial1 := dial;
     rd_start2 := t; rd_end2 := t; rd_dial2 := Err (Errorf "refused") |}.

Definition answering : conn :=
  {| cn_in := [x00; x00; x00; x04; x00; x00; x00; x00]; cn_out := []; cn_writes := None |}.

(** The primary answers at 0 s and fails at 10 s, 12 s and 14 s. *)
Lemma detection_window_witness :
  ∃ r r', new_runner 0 "bu1" checked_cluster = Some r ∧
    run_rounds [quick_round 0 (Ok answering); quick_round (10 * second) (Err (Errorf "refused"));
                quick_round (12 * second) (Err (Errorf "refused"));
                quick_round (14 * second) (Err (Errorf "refused"))] r = Ok r' ∧
    IsHealthy (cr_primary r') = false.
Proof.
  destruct (new_runner 0 "bu1" checked_cluster) as [r|] eqn:E; [|discriminate E].
  vm_compute in E. injection E as E.
  destruct (detection_window 0 0 1 0 r [quick_round 0 (Ok answering)]
    [quick_round (10 * second) (Err (Errorf "refused"));
     quick_round (12 * second) (Err (Errorf "refused"));
     quick_round (14 * second) (Err (Errorf "refused"))]) as [_ H].
  1-10: subst r; cbn; repeat (split || constructor || discriminate || lia).
  destruct (H 3%nat) as (r' & Hrun & Hdown); [subst r; discriminate|].
  exists r, r'. split; [reflexivity|]. split; [exact Hrun|exact Hdown].
Defined.
