(* ===== verification/Autopilot.v ===== *)
(** * Health checks, failover and draining together

    The parts that act on their own while the proxy runs ([cmd/proxy/main.go]
    starts them): the checker's goroutines, the manager's loop and the drain
    timers, with connections that come and go in between.  [proxy_step] is one
    event of any of them; [run_proxy] is a run.  The manager reads the checker
    through its interface at every tick.

    [view] is what concerns one BU, and [run_view] the machine it is by itself:
    [proxy_view] is the simulation.  The theorems about an outage are proved on
    that machine. *)

From Stdlib Require Import Sorting.Sorted.
From S2P Require Import Prelude Bytes Conn Config Health StateMachine Drain Controller DRCoordinator.
From S2P Require Import Manager Listener Startup Checker.

Inductive event :=
  | EvRound (bu : string) (rd : round)
  | EvTick (now : time) (order : list (string * time))
  | EvDrainTimer (bu : string)
  | EvConnect (bu : string) (conn : nat) (target : string)
  | EvDisconnect (bu : string) (id : Z).

Definition with_sys (sys : System) (p : Proxy) : Proxy :=
  {| pr_checker := pr_checker p; pr_sys := sys; pr_mgr := pr_mgr p; pr_listener := pr_listener p |}.

Definition with_tracked (dm : DrainManager) (p : Proxy) : Proxy :=
  with_sys (fst (pr_sys p), with_dm dm (snd (pr_sys p))) p.

(** A round of checks by the goroutine of [bu]. *)
Definition proxy_round (bu : string) (rd : round) (p : Proxy) : res Proxy :=
  match pr_checker p !! bu with
  | None => Ok p
  | Some r =>
      '(r, _) ← checkAndReschedule rd r;
      Ok {| pr_checker := <[bu := r]> (pr_checker p); pr_sys := pr_sys p; pr_mgr := pr_mgr p;
            pr_listener := pr_listener p |}
  end.

(** A tick of [Manager.loop]: [m.checker] is the running checker. *)
Definition proxy_tick (now : time) (order : list (string * time)) (p : Proxy) : res Proxy :=
  let '(sm, w) := pr_sys p in
  '(m, sm, w) ← sync order (SetChecker (Checker_Health (pr_checker p)) (pr_mgr p)) sm (at_time now w);
  Ok {| pr_checker := pr_checker p; pr_sys := (sm, w); pr_mgr := m; pr_listener := pr_listener p |}.

(** The timer of the drain of [bu], if one runs. *)
Definition proxy_drain_timer (bu : string) (p : Proxy) : Proxy :=
  match DrainState bu (w_dm (snd (pr_sys p))) with
  | None => p
  | Some d => with_sys (drain_timer bu (bd_OldActive d) (pr_sys p)) p
  end.

Definition proxy_step (p : Proxy) (ev : event) : res Proxy :=
  match ev with
  | EvRound bu rd => proxy_round bu rd p
  | EvTick now order => proxy_tick now order p
  | EvDrainTimer bu => Ok (proxy_drain_timer bu p)
  | EvConnect bu conn target =>
      Ok (with_tracked (snd (Register bu conn target (w_dm (snd (pr_sys p))))) p)
  | EvDisconnect bu id => Ok (with_tracked (Unregister bu id (w_dm (snd (pr_sys p)))) p)
  end.

Definition run_proxy (evs : list event) (p : Proxy) : res Proxy :=
  foldl (λ p ev, p ← p; proxy_step p ev) (Ok p) evs.

(** ** One BU *)

Record bu_view := {
  bv_runner : option clusterRunner;
  bv_ctrl : option Controller;
  bv_entry : option string;
  bv_toward : option string  (* the new side of the running drain *)
}.

Definition view (bu : string) (p : Proxy) : bu_view :=
  {| bv_runner := pr_checker p !! bu; bv_ctrl := m_controllers (pr_mgr p) !! bu;
     bv_entry := sm_entries (fst (pr_sys p)) !! bu;
     bv_toward := DrainNewActive (w_dm (snd (pr_sys p))) bu |}.

Inductive bu_event := BRound (rd : round) | BTick (now : time) | BTimer.

(** A drain starts when the BU enters DRAINING. *)
Definition toward_after (e e' : option string) (d : option string) : option string :=
  if decide (e' = Some StateDraining ∧ e ≠ Some StateDraining) then Some (new_side e) else d.

Definition view_tick (now : time) (bu : string) (v : bu_view) : bu_view :=
  let '(c, e) := after_tick (runner_health bu <$> bv_runner v) now (bv_ctrl v, bv_entry v) in
  {| bv_runner := bv_runner v; bv_ctrl := c; bv_entry := e;
     bv_toward := toward_after (bv_entry v) e (bv_toward v) |}.

(** The state a drain towards a side ends in. *)
Definition settled (toward : string) (e : option string) : option string :=
  if decide (e = Some StateDraining) then
    if String.eqb toward ActivePrimary then Some StatePrimary
    else if String.eqb toward ActiveSecondary then Some StateSecondary
    else e
  else e.

Definition view_step (bu : string) (v : bu_view) (ev : bu_event) : res bu_view :=
  match ev with
  | BRound rd =>
      match bv_runner v with
      | None => Ok v
      | Some r =>
          '(r, _) ← checkAndReschedule rd r;
          Ok {| bv_runner := Some r; bv_ctrl := bv_ctrl v; bv_entry := bv_entry v;
                bv_toward := bv_toward v |}
      end
  | BTick now => Ok (view_tick now bu v)
  | BTimer =>
      match bv_toward v with
      | None => Ok v
      | Some toward => Ok {| bv_runner := bv_runner v; bv_ctrl := bv_ctrl v;
                             bv_entry := settled toward (bv_entry v); bv_toward := None |}
      end
  end.

Definition run_view (bu : string) (evs : list bu_event) (v : bu_view) : res bu_view :=
  foldl (λ v ev, v ← v; view_step bu v ev) (Ok v) evs.

(** The events of a run that concern [bu]. *)
Definition concerns (bu : string) (ev : event) : list bu_event :=
  match ev with
  | EvRound bu' rd => if decide (bu' = bu) then [BRound rd] else []
  | EvTick _ order => map (λ '(_, now), BTick now) (filter (λ '(bu', _), bu' = bu) order)
  | EvDrainTimer bu' => if decide (bu' = bu) then [BTimer] else []
  | EvConnect _ _ _ | EvDisconnect _ _ => []
  end.

Definition concerning (bu : string) (evs : list event) : list bu_event :=
  concat (map (concerns bu) evs).

(** The manager ranges over a map: it visits a BU at most once per tick. *)
Definition tick_once (ev : event) : Prop :=
  match ev with EvTick _ order => NoDup (map fst order) | _ => True end.

(** ** The drains follow the states *)

Lemma toward_after_same e d : toward_after e e d = d.
Proof. unfold toward_after. rewrite decide_False; [done|naive_solver]. Qed.

(** What a step of the machine does to the drains: every BU that enters DRAINING
    drains away from the state it leaves, and no other drain changes. *)
Definition drains_follow (sm : StateMachine World) (w : World) (sm' : StateMachine World) (w' : World)
    : Prop :=
  wired sm' ∧
  ∀ bu, DrainNewActive (w_dm w') bu =
        toward_after (sm_entries sm !! bu) (sm_entries sm' !! bu) (DrainNewActive (w_dm w) bu).

Lemma drains_follow_refl sm w : wired sm → drains_follow sm w sm w.
Proof. intros Hw. split; [done|]. intros bu. by rewrite toward_after_same. Qed.

Lemma StartDrain_toward now bu old new dm bu' :
  DrainNewActive (StartDrain now bu old new 0 dm) bu' =
  if decide (bu' = bu) then Some new else DrainNewActive dm bu'.
Proof.
  unfold DrainNewActive, DrainState. rewrite StartDrain_drains.
  destruct (decide (bu' = bu)) as [->|Hne]; [by rewrite lookup_insert, decide_True|].
  by rewrite lookup_insert_ne.
Qed.

(** The callback, when the BU was in [e]. *)
Lemma on_state_change_follow bu to reason e sm w :
  wired sm → sm_entries sm !! bu = e → e ≠ Some to →
  let sm' := with_entries (<[bu := to]> (sm_entries sm)) sm in
  drains_follow sm w sm'
    (on_state_change {| tr_BU := bu; tr_From := default ""%string e; tr_To := to; tr_Reason := reason |} w).
Proof.
  intros Hw He Hne sm'. split; [done|]. intros bu'. cbn [sm' with_entries sm_entries].
  unfold on_state_change. cbn [tr_To tr_From tr_BU].
  destruct (String.eqb_spec to StateDraining) as [->|Hto]; cbn [negb].
  - cbn [w_dm with_dm]. rewrite StartDrain_toward. destruct (decide (bu' = bu)) as [->|Hb].
    + rewrite lookup_insert, decide_True, He by done. unfold toward_after. rewrite decide_True by done.
      f_equal. destruct e as [s|]; [|done]. cbn [default from_option id new_side]. unfold opposite, id.
      destruct (String.eqb_spec s StatePrimary) as [->|]; [done|].
      destruct (String.eqb_spec s StateSecondary) as [->|]; [done|]. done.
    + rewrite lookup_insert_ne by done. by rewrite toward_after_same.
  - destruct (decide (bu' = bu)) as [->|Hb].
    + rewrite lookup_insert, decide_True by done. unfold toward_after.
      rewrite decide_False; [done|naive_solver].
    + rewrite lookup_insert_ne by done. by rewrite toward_after_same.
Qed.

Lemma SM_Transition_follow bu to reason sm w :
  wired sm → let '(_, sm', w') := SM_Transition bu to reason sm w in drains_follow sm w sm' w'.
Proof.
  intros Hw. unfold SM_Transition, fireCallbacks. destruct (sm_entries sm !! bu) as [s|] eqn:Hs.
  - destruct (String.eqb_spec s to) as [|Hne]; [by apply drains_follow_refl|].
    destruct (negb _); [by apply drains_follow_refl|]. cbn [with_entries sm_callbacks].
    rewrite Hw. cbn [foldl]. apply (on_state_change_follow bu to reason (Some s)); [done..|congruence].
  - cbn [with_entries sm_callbacks]. rewrite Hw. cbn [foldl].
    by apply (on_state_change_follow bu to reason None).
Qed.

Lemma Evaluate_follow now c sm w :
  wired sm → let '(_, _, sm', w') := Evaluate now c sm w in drains_follow sm w sm' w'.
Proof.
  intros Hw. rewrite evaluate_decide. unfold enterBothDownLocked, triggerFailoverLocked.
  pose proof (λ to reason, SM_Transition_follow (c_buName c) to reason sm w Hw) as Ht.
  destruct (br_circuitBroken (c_breaker c)); [by apply drains_follow_refl|].
  destruct (c_decision c sm) as [| |to|from]; [by apply drains_follow_refl|..].
  - specialize (Ht StateBothDown ReasonHealthEvent). by destruct (SM_Transition _ _ _ _ _) as [[? ?] ?].
  - specialize (Ht to ReasonRecovery). by destruct (SM_Transition _ _ _ _ _) as [[? ?] ?].
  - destruct (canFailoverLocked _ _ _) as [[] b]; [|by apply drains_follow_refl].
    destruct (br_circuitBroken _); [by apply drains_follow_refl|].
    specialize (Ht StateDraining ReasonHealthEvent).
    change (c_buName (with_breaker b c)) with (c_buName c).
    by destruct (SM_Transition _ _ _ _ _) as [[? ?] ?].
Qed.

Lemma sync_loop_follow healthMap order (m m' : Manager FailoverMetrics) sm sm' w w' :
  named (m_controllers m) → NoDup (map fst order) → wired sm →
  sync_loop healthMap order m sm w = Ok (m', sm', w') → drains_follow sm w sm' w'.
Proof.
  revert m sm w. induction order as [|[bu now] order IH]; intros m sm w Hn Hnd Hw.
  { intros [= <- <- <-]. by apply drains_follow_refl. }
  cbn [map fst] in Hnd. apply list.NoDup_cons in Hnd as [Hnin Hnd]. cbn [sync_loop].
  destruct (m_controllers m !! bu) as [c|] eqn:Ec; [|by apply IH].
  destruct (healthMap !! bu) as [ch|]; [|by apply IH].
  unfold RecordHealthResult; cbn [healthFor String.eqb]; cbn.
  match goal with |- context [Evaluate now ?c1 sm w] => set (c1' := c1) end.
  change (Evaluate now _ sm w) with (Evaluate now c1' sm w).
  assert (Hbu : c_buName c1' = bu) by exact (Hn _ _ Ec).
  pose proof (Evaluate_follow now c1' sm w Hw) as Hf. pose proof (Evaluate_frame now c1' sm w) as Hfr.
  destruct (Evaluate now c1' sm w) as [[[a c'] sm1] w1]. destruct Hf as [Hw1 Hd1], Hfr as [Hbu' Hfr].
  match goal with |- sync_loop _ _ ?m1 _ _ = _ → _ => set (m1' := m1) end.
  assert (Hn1 : named (m_controllers m1')).
  { intros bu2 c2. cbn. rewrite lookup_insert_Some. intros [[<- <-]|[_ Hl]]; [congruence|by apply Hn]. }
  intros Hrun. destruct (IH m1' sm1 w1 Hn1 Hnd Hw1 Hrun) as [Hw2 Hd2]. split; [done|].
  destruct (sync_loop_spec healthMap order m1' sm1 w1 Hn1 Hnd) as (m2 & sm2 & w2 & Hrun' & _ & _ & _ & Hout).
  assert (sm2 = sm') as -> by congruence.
  intros bu'. rewrite Hd2, Hd1. destruct (decide (bu' = bu)) as [->|Hne].
  - destruct (Hout bu Hnin) as [_ ->]. by rewrite toward_after_same.
  - rewrite Hfr by congruence. by rewrite toward_after_same.
Qed.

(** ** The simulation *)

Definition proxy_ok (p : Proxy) : Prop := wired (fst (pr_sys p)) ∧ named (m_controllers (pr_mgr p)).

Lemma bu_view_ext v v' :
  bv_runner v = bv_runner v' → bv_ctrl v = bv_ctrl v' → bv_entry v = bv_entry v' →
  bv_toward v = bv_toward v' → v = v'.
Proof. destruct v, v'. cbn. intros. by subst. Qed.

Lemma run_view_cons bu ev evs v : run_view bu (ev :: evs) v = v' ← view_step bu v ev; run_view bu evs v'.
Proof.
  unfold run_view. cbn [foldl]. bind_simpl. destruct (view_step bu v ev); [done|..]; induction evs; done.
Qed.

Lemma run_view_app bu evs1 evs2 v :
  run_view bu (evs1 ++ evs2) v = v' ← run_view bu evs1 v; run_view bu evs2 v'.
Proof.
  revert v. induction evs1 as [|ev evs1 IH]; intros v; [done|].
  cbn [app]. rewrite !run_view_cons. destruct (view_step bu v ev); [apply IH|done..].
Qed.

Lemma round_view bu bu' rd p p' :
  proxy_round bu' rd p = Ok p' → proxy_ok p →
  proxy_ok p' ∧ run_view bu (concerns bu (EvRound bu' rd)) (view bu p) = Ok (view bu p').
Proof.
  unfold proxy_round, concerns. intros H [Hw Hn]. destruct (pr_checker p !! bu') as [r|] eqn:Hr.
  - apply bind_Ok_inv in H as ([r' next] & Hc & H). simplify_eq. split; [done|].
    destruct (decide (bu' = bu)) as [->|Hne].
    + rewrite run_view_cons. cbn [view_step view bv_runner]. rewrite Hr, Hc. cbn. f_equal.
      apply bu_view_ext; cbn; [|done..]. by rewrite lookup_insert, decide_True.
    + cbn. f_equal. apply bu_view_ext; cbn; [|done..]. by rewrite lookup_insert_ne.
  - simplify_eq. split; [done|]. destruct (decide (bu' = bu)) as [->|Hne]; [|done].
    rewrite run_view_cons. cbn [view_step view bv_runner]. by rewrite Hr.
Qed.

Lemma filter_absent bu (order : list (string * time)) :
  bu ∉ map fst order → filter (λ '(bu', _), bu' = bu) order = [].
Proof.
  intros Hni. apply filter_none. apply list.Forall_forall. intros [b t] Hin ->.
  apply Hni, list_elem_of_fmap. by exists (bu, t).
Qed.

(** The visits of one tick to [bu]. *)
Lemma tick_visits bu (order : list (string * time)) :
  NoDup (map fst order) →
  filter (λ '(bu', _), bu' = bu) order = [] ∧ bu ∉ map fst order ∨
  ∃ now, filter (λ '(bu', _), bu' = bu) order = [(bu, now)] ∧ (bu, now) ∈ order.
Proof.
  induction order as [|[b t] order IH]; intros Hnd; [left; split; [done|apply not_elem_of_nil]|].
  cbn [map fst] in *. apply list.NoDup_cons in Hnd as [Hni Hnd]. rewrite filter_cons.
  destruct (decide (b = bu)) as [->|Hne].
  - right. exists t. rewrite filter_absent by done. split; [done|]. by left.
  - destruct (IH Hnd) as [[-> Hb]|(now & -> & Hin)]; [left|right].
    + split; [done|]. by apply not_elem_of_cons.
    + exists now. split; [done|]. by right.
Qed.

Lemma tick_proxy_view bu now order p p' :
  proxy_tick now order p = Ok p' → proxy_ok p → NoDup (map fst order) →
  proxy_ok p' ∧ run_view bu (concerns bu (EvTick now order)) (view bu p) = Ok (view bu p').
Proof.
  unfold proxy_tick. destruct p as [ck [sm w] mgr l]. cbn [pr_sys pr_mgr pr_checker].
  intros H [Hw Hn] Hnd. cbn [pr_sys pr_mgr fst] in Hw, Hn.
  apply bind_Ok_inv in H as ([[m' sm'] w'] & Hs & H). simplify_eq.
  unfold sync in Hs. cbn [SetChecker m_checker] in Hs.
  destruct (sync_loop_spec (Checker_Health ck) order (SetChecker (Checker_Health ck) mgr) sm
              (at_time now w) Hn Hnd) as (m2 & sm2 & w2 & Hs2 & Hn2 & _ & Hin & Hout).
  rewrite Hs in Hs2. simplify_eq.
  destruct (sync_loop_follow _ _ (SetChecker (Checker_Health ck) mgr) _ _ _ _ _ Hn Hnd Hw Hs) as [Hw2 Hd]. split; [done|].
  unfold concerns. destruct (tick_visits bu order Hnd) as [[-> Hni]|(t & -> & Hat)].
  - cbn. f_equal. destruct (Hout bu Hni) as [Hc He]. apply bu_view_ext; cbn; [done|by rewrite Hc|done|].
    rewrite Hd, He, toward_after_same. done.
  - cbn [map]. rewrite run_view_cons. cbn [view_step]. bind_simpl. cbn. f_equal.
    specialize (Hin bu t Hat). cbn [SetChecker m_controllers] in Hin.
    unfold Checker_Health in Hin. rewrite map_lookup_imap in Hin.
    unfold view_tick. cbn [view bv_runner bv_ctrl bv_entry bv_toward pr_checker pr_mgr pr_sys fst snd].
    change (runner_health bu <$> ck !! bu) with (ck !! bu ≫= λ r, Some (runner_health bu r)).
    rewrite <- Hin. apply bu_view_ext; cbn; [done..|]. by rewrite Hd.
Qed.

(** The end of a drain: [settled] in the entries, the drain gone, no other BU
    concerned. *)
Lemma drain_ends bu d sm w :
  wired sm → DrainState bu (w_dm w) = Some d →
  let '(sm', w') := drain_timer bu (bd_OldActive d) (sm, w) in
  wired sm' ∧ sm_entries sm' !! bu = settled (bd_NewActive d) (sm_entries sm !! bu) ∧
  (∀ bu', bu' ≠ bu → sm_entries sm' !! bu' = sm_entries sm !! bu') ∧
  dm_drains (w_dm w') = delete bu (dm_drains (w_dm w)).
Proof.
  intros Hw Hd.
  assert (Hf : ∃ closed dm, forceCloseOld bu (bd_OldActive d) (w_dm w) = (closed, Some d, dm) ∧
               dm_drains dm = delete bu (dm_drains (w_dm w))).
  { unfold DrainState in Hd. unfold forceCloseOld.
    destruct (dm_buConns (w_dm w) !! bu); cbn [with_tracker dm_drains]; rewrite Hd;
      (do 2 eexists; split; [reflexivity|reflexivity]). }
  destruct Hf as (closed & dm & Hf & Hdm). unfold drain_timer. rewrite Hf.
  unfold fireDrainComplete; cbn [foldl]. unfold on_drain_complete, State, settled.
  set (w1 := {| w_now := w_now w; w_dm := dm; w_closed := w_closed w ++ closed |}).
  destruct (sm_entries sm !! bu) as [s|] eqn:Hs; [|rewrite decide_False by done; cbn; rewrite ?Hs; split_and!; done].
  destruct (String.eqb_spec s StateDraining) as [->|Hne]; cbn [negb];
    [|rewrite decide_False by congruence; by split_and!].
  rewrite decide_True by done.
  destruct (String.eqb (bd_NewActive d) ActivePrimary);
    [|destruct (String.eqb (bd_NewActive d) ActiveSecondary); [|by split_and!]].
  - rewrite (leave_draining bu _ sm w1 StatePrimary) by (done || by left).
    split_and!; cbn; [done|by rewrite lookup_insert, decide_True| |done].
    intros bu' Hne. by rewrite lookup_insert_ne.
  - rewrite (leave_draining bu _ sm w1 StateSecondary) by (done || by right).
    split_and!; cbn; [done|by rewrite lookup_insert, decide_True| |done].
    intros bu' Hne. by rewrite lookup_insert_ne.
Qed.

Lemma drain_timer_view bu bu' p :
  proxy_ok p →
  proxy_ok (proxy_drain_timer bu' p) ∧
  run_view bu (concerns bu (EvDrainTimer bu')) (view bu p) = Ok (view bu (proxy_drain_timer bu' p)).
Proof.
  intros [Hw Hn]. destruct p as [ck [sm w] mgr l]. cbn [pr_sys fst] in Hw.
  unfold proxy_drain_timer, concerns. cbn [pr_sys snd].
  destruct (DrainState bu' (w_dm w)) as [d|] eqn:Hd.
  2:{ split; [done|]. destruct (decide (bu' = bu)) as [->|]; [|done].
      rewrite run_view_cons. cbn [view_step view bv_toward pr_sys snd w_dm].
      unfold DrainNewActive. by rewrite Hd. }
  pose proof (drain_ends bu' d sm w Hw Hd) as He.
  destruct (drain_timer bu' (bd_OldActive d) (sm, w)) as [sm' w']. destruct He as (Hw' & He & Hfr & Hdr).
  split; [done|]. destruct (decide (bu' = bu)) as [->|Hne].
  - rewrite run_view_cons. cbn [view_step view bv_toward pr_sys snd].
    unfold DrainNewActive at 1. rewrite Hd. cbn. f_equal. apply bu_view_ext; cbn; [done..|by rewrite He|].
    unfold DrainNewActive, DrainState. by rewrite Hdr, lookup_delete, decide_True.
  - cbn. f_equal. apply bu_view_ext; cbn; [done..|by rewrite Hfr|].
    unfold DrainNewActive, DrainState. by rewrite Hdr, lookup_delete_ne.
Qed.

Lemma tracked_view bu dm p :
  dm_drains dm = dm_drains (w_dm (snd (pr_sys p))) → view bu (with_tracked dm p) = view bu p.
Proof.
  intros Hd. apply bu_view_ext; [done..|]. cbn. unfold DrainNewActive, DrainState. by rewrite Hd.
Qed.

Lemma proxy_step_view bu ev p p' :
  proxy_step p ev = Ok p' → proxy_ok p → tick_once ev →
  proxy_ok p' ∧ run_view bu (concerns bu ev) (view bu p) = Ok (view bu p').
Proof.
  destruct ev as [bu' rd|now order|bu'|bu' conn target|bu' id]; cbn [proxy_step]; intros H Hok Ho.
  - by apply round_view.
  - by apply tick_proxy_view.
  - simplify_eq. by apply drain_timer_view.
  - simplify_eq. split; [done|]. by rewrite tracked_view.
  - simplify_eq. split; [done|]. rewrite tracked_view; [done|]. unfold Unregister.
    destruct (dm_buConns _ !! bu'); [|done]. by destruct (bt_conns _ !! id).
Qed.

Lemma run_proxy_cons ev evs p : run_proxy (ev :: evs) p = p' ← proxy_step p ev; run_proxy evs p'.
Proof.
  unfold run_proxy. cbn [foldl]. bind_simpl. destruct (proxy_step p ev); [done|..]; induction evs; done.
Qed.

Lemma run_proxy_view bu evs p p' :
  run_proxy evs p = Ok p' → proxy_ok p → Forall tick_once evs →
  proxy_ok p' ∧ run_view bu (concerning bu evs) (view bu p) = Ok (view bu p').
Proof.
  revert p. induction evs as [|ev evs IH]; intros p; [by intros [= <-]|].
  rewrite run_proxy_cons. intros (p1 & H1 & H2)%bind_Ok_inv Hok [Ho Hos]%list.Forall_cons.
  destruct (proxy_step_view bu ev p p1 H1 Hok Ho) as [Hok1 Hv1].
  destruct (IH p1 H2 Hok1 Hos) as [Hok' Hv]. split; [done|].
  unfold concerning. cbn [map concat]. rewrite run_view_app, Hv1. bind_simpl. exact Hv.
Qed.

(** ** An outage of the primary *)

(** The secondary answers its check of a round. *)
Definition secondary_answers (r : clusterRunner) (rd : round) : Prop :=
  ∃ c, rd_dial2 rd = Ok c ∧ fst (check_exchange (rd_pooled rd) r c) = Ok tt.

Lemma answering_round rd r r' next :
  checkAndReschedule rd r = Ok (r', next) → secondary_answers r rd →
  hs_healthy (cr_secondary r) = true → hs_healthy (cr_secondary r') = true.
Proof.
  intros H (c & Hd & Hx) Hh. revert H. unfold checkAndReschedule. intros (p & _ & H)%bind_Ok_inv.
  apply bind_Ok_inv in H as (q & Hq & H). simplify_eq. cbn [with_states cr_secondary].
  unfold checkEndpoint in Hq. destruct (String.eqb _ _); [congruence|]. rewrite Hd, Hx in Hq.
  simplify_eq. cbn. by rewrite Hh.
Qed.

Lemma solo_transition bu s to reason :
  s ≠ to → isValidTransition s to = true →
  let '(_, sm, _) := SM_Transition bu to reason (solo bu (Some s)) tt in sm_entries sm !! bu = Some to.
Proof.
  intros Hne Hv. unfold SM_Transition. rewrite solo_lookup.
  rewrite (proj2 (String.eqb_neq _ _)), Hv by done. cbn. by rewrite lookup_insert, decide_True.
Qed.

Lemma settled_other d e : e ≠ Some StateDraining → settled d e = e.
Proof. intros. unfold settled. by rewrite decide_False. Qed.

(** How many rounds of checks the BU has had, and how many of its ticks came
    after the checker marked the primary DOWN. *)
Definition count_outage (ft : Z) (nk : Z * Z) (ev : bu_event) : Z * Z :=
  let '(n, k) := nk in
  match ev with
  | BRound _ => (n + 1, k)
  | BTick _ => (n, if ft <=? n then k + 1 else k)
  | BTimer => (n, k)
  end.

Section Outage.
Context (bu : string) (r0 : clusterRunner) (c0 : Controller).
Let ft := cr_failureThreshold r0.
Let hc := c_hcCfg c0.
Let cft := failure_threshold hc.
Context (Haddr : cr_primaryAddr r0 ≠ ""%string) (Hint : hc_int64 hc).
Context (Hsorted : StronglySorted Z.le (br_failoverTimestamps (c_breaker c0))).
Context (Hclosed : br_circuitBroken (c_breaker c0) = false).

(** The outage itself: every round fails on the primary and not on the secondary,
    and the cooldown and the window leave room for a failover. *)
Definition outage_event (ev : bu_event) : Prop :=
  match ev with
  | BRound rd => primary_fails r0 rd ∧ secondary_answers r0 rd
  | BTick now => cooled hc now (br_lastFailoverAt (c_breaker c0)) ∧
                 room hc now (br_failoverTimestamps (c_breaker c0))
  | BTimer => True
  end.

Definition dark_runner (n : Z) (r : clusterRunner) : Prop :=
  same_settings r0 r ∧ hs_healthy (cr_primary r) = (n <? ft) ∧
  hs_consecutiveFailures (cr_primary r) = n ∧ hs_healthy (cr_secondary r) = true.

(** The controller and the state machine, [k] ticks into the outage they see. *)
Definition failing_over (k : Z) (c : Controller) (e toward : option string) : Prop :=
  c_buName c = bu ∧ c_hcCfg c = hc ∧ c_mode c = ModeActivePassive ∧
  ch_healthy (c_secondaryHealth c) = true ∧
  if k <? cft then
    ch_healthy (c_primaryHealth c) = true ∧ ch_consecutiveFailures (c_primaryHealth c) = k ∧
    c_breaker c = c_breaker c0 ∧ e = Some StatePrimary
  else
    ch_healthy (c_primaryHealth c) = false ∧
    (e = Some StateDraining ∧ toward = Some ActiveSecondary ∨ e = Some StateSecondary).

Definition outage_inv (nk : Z * Z) (v : bu_view) : Prop :=
  let '(n, k) := nk in
  0 ≤ k ∧ (n < ft → k = 0) ∧
  ∃ r c, bv_runner v = Some r ∧ bv_ctrl v = Some c ∧ dark_runner n r ∧
    failing_over k c (bv_entry v) (bv_toward v).

Lemma dark_runner_round n rd r r' next :
  dark_runner n r → primary_fails r0 rd → secondary_answers r0 rd →
  checkAndReschedule rd r = Ok (r', next) → dark_runner (n + 1) r'.
Proof.
  intros (Hs & Hp & Hcf & Hq) Hf Ha H.
  pose proof (failing_round rd r r' next) as Hst. rewrite (settings_addr _ _ Hs) in Hst.
  specialize (Hst Haddr (settings_fails _ _ _ Hs Hf) H). unfold hs_hyst in Hst. cbn [hyst_step] in Hst.
  injection Hst as H1 H2 _. split; [by eapply same_settings_trans, round_settings|].
  rewrite H1, H2, Hp, Hcf. split; [|split; [done|]].
  - rewrite (settings_threshold _ _ Hs). fold ft.
    destruct (Z.ltb_spec n ft), (Z.leb_spec ft (n + 1)), (Z.ltb_spec (n + 1) ft); cbn; (done || lia).
  - eapply answering_round; [done| |done]. by destruct Hs as (? & ? & ->).
Qed.

(** The two health results of a tick. *)
Lemma record_both_health now ch c :
  let c' := record_both now ch c in
  ch_hyst (c_primaryHealth c') =
    hyst_step (failure_threshold (c_hcCfg c)) (recovery_threshold (c_hcCfg c))
      (ch_hyst (c_primaryHealth c)) (sn_Healthy (cth_Primary ch)) ∧
  ch_hyst (c_secondaryHealth c') =
    hyst_step (failure_threshold (c_hcCfg c)) (recovery_threshold (c_hcCfg c))
      (ch_hyst (c_secondaryHealth c)) (sn_Healthy (cth_Secondary ch)).
Proof. split; apply record_health_hyst. Qed.

(** What a tick makes of the controller, before the decision. *)
Lemma tick_observes now n k r c e d :
  dark_runner n r → failing_over k c e d → 0 ≤ k → (n < ft → k = 0) →
  let k' := if ft <=? n then k + 1 else k in
  let c1 := record_both now (runner_health bu r) c in
  c_buName c1 = bu ∧ c_hcCfg c1 = hc ∧ c_mode c1 = ModeActivePassive ∧ c_breaker c1 = c_breaker c ∧
  PrimaryHealthy c1 = (k' <? cft) ∧ SecondaryHealthy c1 = true ∧
  (k < cft → ch_consecutiveFailures (c_primaryHealth c1) = k').
Proof.
  intros (_ & Hp & _ & Hq) (Hbu & Hhc & Hm & Hcq & Hph) Hk Hkn k' c1.
  destruct (record_both_health now (runner_health bu r) c) as [H1 H2]. fold c1 in H1, H2.
  assert (c_buName c1 = c_buName c ∧ c_hcCfg c1 = c_hcCfg c ∧ c_mode c1 = c_mode c ∧
          c_breaker c1 = c_breaker c) as (-> & -> & -> & ->) by done.
  clearbody c1.
  cbn [runner_health cth_Primary cth_Secondary snapshot sn_Healthy] in H1, H2.
  rewrite Hp in H1. rewrite Hq in H2. unfold ch_hyst in H1, H2. rewrite Hhc in H1, H2. fold cft in H1, H2.
  cbn [hyst_step] in H2. injection H2 as H2 _ _.
  unfold PrimaryHealthy, SecondaryHealthy. rewrite H2, Hcq.
  assert (Hcft : 0 < cft) by apply failure_threshold_pos.
  do 4 (split; [done|]). unfold k' in *.
  destruct (Z.leb_spec ft n) as [Hn|Hn].
  - rewrite (proj2 (Z.ltb_ge n ft)) in H1 by done. cbn [hyst_step] in H1. injection H1 as H1 H3 _.
    rewrite H1, H3. destruct (Z.ltb_spec k cft) as [Hlt|Hge].
    + destruct Hph as (-> & -> & _). split; [|split; [done|lia]].
      destruct (Z.leb_spec cft (k + 1)), (Z.ltb_spec (k + 1) cft); cbn; (done || lia).
    + destruct Hph as [-> _]. split; [|split; [done|lia]]. cbn. symmetry. apply Z.ltb_ge. lia.
  - rewrite (proj2 (Z.ltb_lt n ft)) in H1 by done. cbn [hyst_step] in H1. injection H1 as H1 H3 _.
    specialize (Hkn Hn). subst k. rewrite (proj2 (Z.ltb_lt _ _)) in Hph by done.
    destruct Hph as (Hph & _ & _). rewrite H1, H3, Hph.
    split; [symmetry; by apply Z.ltb_lt|]. by split.
Qed.

(** The failover itself: the tick that completes the controller's threshold. *)
Lemma tick_triggers now c :
  c_buName c = bu → c_hcCfg c = hc → c_mode c = ModeActivePassive → c_breaker c = c_breaker c0 →
  PrimaryHealthy c = false → SecondaryHealthy c = true → outage_event (BTick now) →
  let '(_, c', sm', _) := Evaluate now c (solo bu (Some StatePrimary)) tt in
  c_buName c' = bu ∧ c_hcCfg c' = hc ∧ c_mode c' = ModeActivePassive ∧
  PrimaryHealthy c' = false ∧ SecondaryHealthy c' = true ∧ sm_entries sm' !! bu = Some StateDraining.
Proof.
  intros Hbu Hhc Hm Hb Hp Hq [Hcool Hroom]. rewrite evaluate_decide, Hb, Hclosed.
  unfold c_decision. rewrite Hbu, Hm, Hp, Hq.
  assert (State (solo bu (Some StatePrimary)) bu = StatePrimary) as ->.
  { unfold State. by rewrite solo_lookup. }
  cbn [decide_failover negb andb String.eqb].
  assert (decide_failover ModeActivePassive (hc_AutoFailback (c_hcCfg c)) StatePrimary false true
          = Failover StatePrimary) as Hdec by reflexivity.
  unfold decide_failover in Hdec; cbn [negb andb] in Hdec. rewrite Hdec. clear Hdec.
  rewrite Hhc.
  pose proof (canFailoverLocked_spec now hc (c_breaker c0) Hint Hsorted) as Hcan.
  destruct (canFailoverLocked now hc (c_breaker c0)) as [can b]. destruct Hcan as [Hcan Hb'].
  rewrite (proj2 Hcan) by done. unfold triggerFailoverLocked. cbn [with_breaker c_breaker c_hcCfg c_buName].
  assert (br_circuitBroken b = false) as -> by (destruct Hb' as [[-> _]|[_ ->]]; done).
  rewrite Hbu.
  pose proof (solo_transition bu StatePrimary StateDraining ReasonHealthEvent) as Ht.
  destruct (SM_Transition bu StateDraining ReasonHealthEvent _ _) as [[? sm'] ?].
  split_and!; try done. apply Ht; [discriminate|reflexivity].
Qed.

(** A tick after the failover leaves the BU going to the secondary. *)
Lemma tick_settles now c e d :
  c_buName c = bu → c_mode c = ModeActivePassive →
  PrimaryHealthy c = false → SecondaryHealthy c = true →
  e = Some StateDraining ∧ d = Some ActiveSecondary ∨ e = Some StateSecondary →
  let '(_, c', sm', _) := Evaluate now c (solo bu e) tt in
  let e' := sm_entries sm' !! bu in
  c' = c ∧ (e' = Some StateDraining ∧ toward_after e e' d = Some ActiveSecondary ∨
            e' = Some StateSecondary).
Proof.
  intros Hbu Hm Hp Hq He. rewrite evaluate_decide.
  destruct (br_circuitBroken (c_breaker c)).
  { cbn zeta. rewrite solo_lookup. split; [done|].
    destruct He as [[-> ->]| ->]; [left|by right]. by rewrite toward_after_same. }
  unfold c_decision. rewrite Hbu, Hm, Hp, Hq. unfold State. rewrite solo_lookup.
  destruct He as [[-> ->]| ->].
  - change (decide_failover _ _ _ _ _) with (Recover StateSecondary). cbn iota beta.
    pose proof (solo_transition bu StateDraining StateSecondary ReasonRecovery) as Ht.
    destruct (SM_Transition bu StateSecondary ReasonRecovery _ _) as [[? sm'] ?].
    split; [done|]. right. apply Ht; [discriminate|reflexivity].
  - assert (decide_failover ModeActivePassive (hc_AutoFailback (c_hcCfg c)) StateSecondary false true
            = Hold) as -> by (by destruct (hc_AutoFailback (c_hcCfg c))).
    cbn iota beta zeta. rewrite solo_lookup. split; [done|by right].
Qed.

Lemma tick_outage now n k r c e d :
  dark_runner n r → failing_over k c e d → 0 ≤ k → (n < ft → k = 0) → outage_event (BTick now) →
  let '(_, c', e') := tick_bu now (runner_health bu r) c e in
  failing_over (if ft <=? n then k + 1 else k) c' e' (toward_after e e' d).
Proof.
  intros Hr Hfo Hk Hkn Hev.
  destruct (tick_observes now n k r c e d Hr Hfo Hk Hkn) as (Hbu & Hhc & Hm & Hb & Hp & Hq & Hcf).
  set (k' := if ft <=? n then k + 1 else k) in *.
  assert (Hkk : k ≤ k') by (unfold k'; case_if; lia).
  unfold tick_bu. set (c1 := record_both now (runner_health bu r) c) in *.
  destruct Hfo as (_ & _ & _ & _ & Hph). clearbody c1. cbn zeta. rewrite Hbu.
  unfold failing_over. destruct (Z.ltb_spec k' cft) as [Hlt|Hge].
  - rewrite (proj2 (Z.ltb_lt k cft)) in Hph by lia. destruct Hph as (_ & _ & Hbr & ->).
    assert (Hold : c_decision c1 (solo bu (Some StatePrimary)) = Hold).
    { unfold c_decision, State. rewrite Hbu, solo_lookup, Hm, Hp, Hq.
      by destruct (hc_AutoFailback (c_hcCfg c1)). }
    rewrite evaluate_decide, Hb, Hbr, Hclosed, Hold. rewrite solo_lookup.
    split_and!; try done; [by apply Hcf; lia|congruence].
  - destruct (Z.ltb_spec k cft) as [Hlt|Hge'].
    + destruct Hph as (_ & _ & Hbr & ->).
      pose proof (tick_triggers now c1 Hbu Hhc Hm (eq_trans Hb Hbr) Hp Hq Hev) as Ht.
      destruct (Evaluate now c1 (solo bu (Some StatePrimary)) tt) as [[[a c'] sm'] w'].
      destruct Ht as (? & ? & ? & ? & ? & He). rewrite He. split_and!; try done. left. by split.
    + destruct Hph as [_ He].
      pose proof (tick_settles now c1 e d Hbu Hm Hp Hq He) as Ht.
      destruct (Evaluate now c1 (solo bu e) tt) as [[[a c'] sm'] w']. cbn zeta in Ht.
      destruct Ht as [-> He']. by split_and!.
Qed.

Lemma view_step_outage nk v ev v' :
  outage_inv nk v → outage_event ev → view_step bu v ev = Ok v' → outage_inv (count_outage ft nk ev) v'.
Proof.
  destruct nk as [n k]. intros (Hk & Hkn & r & c & Hr & Hc & Hdark & Hfo) Hev.
  destruct ev as [rd|now|]; cbn [view_step count_outage].
  - destruct Hev as [Hf Ha]. rewrite Hr. intros ([r' next] & Hck & Hv)%bind_Ok_inv. simplify_eq.
    split; [done|]. split; [lia|]. exists r', c. split_and!; try done.
    by eapply dark_runner_round.
  - intros [= <-]. unfold view_tick. rewrite Hr, Hc. cbn [after_tick fmap option_fmap option_map].
    pose proof (tick_outage now n k r c (bv_entry v) (bv_toward v) Hdark Hfo Hk Hkn Hev) as Ht.
    destruct (tick_bu _ _ _ _) as [[a c'] e']. split; [case_if; lia|].
    split; [intros Hn; rewrite (proj2 (Z.leb_gt _ _)) by done; by apply Hkn|].
    by exists r, c'.
  - destruct (bv_toward v) as [d|] eqn:Hd; intros [= <-]; (split; [done|]; split; [done|]);
      exists r, c; split_and!; try done.
    + destruct Hfo as (? & ? & ? & ? & Hph). split_and!; try done. cbn [bv_entry bv_toward].
      destruct (k <? cft).
      * destruct Hph as (? & ? & ? & ->). rewrite settled_other by done. by split_and!.
      * destruct Hph as [? [[-> Hd']| ->]]; (split; [done|]); right; [|by rewrite settled_other].
        unfold settled. rewrite decide_True by done. by simplify_eq.
    + by rewrite Hd.
Qed.

Lemma run_view_outage nk evs v v' :
  outage_inv nk v → Forall outage_event evs → run_view bu evs v = Ok v' →
  outage_inv (foldl (count_outage ft) nk evs) v'.
Proof.
  revert nk v. induction evs as [|ev evs IH]; intros nk v Hi; [by intros _ [= <-]|].
  intros [Hev Hevs]%list.Forall_cons. rewrite run_view_cons. intros (v1 & H1 & H2)%bind_Ok_inv.
  cbn [foldl]. eapply IH; [|done|done]. by eapply view_step_outage.
Qed.

(** Where the invariant routes the BU. *)
Lemma outage_routes lookup n k p :
  outage_inv (n, k) (view bu p) →
  TargetForRouting lookup (pr_sys p) bu =
  (if k <? cft then ActivePrimary else ActiveSecondary, true).
Proof.
  intros (_ & _ & r & c & _ & _ & _ & (_ & _ & _ & _ & Hph)).
  destruct p as [ck [sm w] mgr l]. cbn [view bv_entry bv_toward pr_sys fst snd] in *.
  destruct (k <? cft).
  - destruct Hph as (_ & _ & _ & He). apply (TargetForRouting_state _ _ _ _ StatePrimary); [by left|].
    unfold State. by rewrite He.
  - destruct Hph as (_ & [[He Hd]|He]).
    + unfold TargetForRouting, State. rewrite He. cbn [String.eqb].
      unfold DrainNewActive in Hd. destruct (DrainState bu (w_dm w)) as [dr|]; [|done].
      injection Hd as Hd. by rewrite Hd.
    + apply (TargetForRouting_state _ _ _ _ StateSecondary); [by right|]. unfold State. by rewrite He.
Qed.
End Outage.

(** ** Properties *)

(** No dial of a round panics. *)
Definition event_safe (ev : event) : Prop :=
  match ev with EvRound _ rd => safe (rd_dial1 rd) ∧ safe (rd_dial2 rd) | _ => True end.

Lemma proxy_step_total ev p :
  proxy_ok p → tick_once ev → event_safe ev → ∃ p', proxy_step p ev = Ok p'.
Proof.
  intros [Hw Hn] Ho Hs. destruct ev as [bu rd|now order|bu|bu conn target|bu id]; cbn [proxy_step]; [| |by eexists..].
  - unfold proxy_round. destruct (pr_checker p !! bu) as [r|]; [|by eexists].
    destruct Hs as [H1 H2]. destruct (round_total rd r H1 H2) as (r' & next & ->). by eexists.
  - unfold proxy_tick. destruct (pr_sys p) as [sm w]. unfold sync. cbn [SetChecker m_checker].
    destruct (sync_loop_spec (Checker_Health (pr_checker p)) order
                (SetChecker (Checker_Health (pr_checker p)) (pr_mgr p)) sm (at_time now w) Hn Ho)
      as (m' & sm' & w' & -> & _). by eexists.
Qed.

Lemma run_proxy_total evs p :
  proxy_ok p → Forall tick_once evs → Forall event_safe evs → ∃ p', run_proxy evs p = Ok p'.
Proof.
  revert p. induction evs as [|ev evs IH]; intros p Hok Ho Hs; [by exists p|].
  apply list.Forall_cons in Ho as [Ho Hos], Hs as [Hse Hss]. rewrite run_proxy_cons.
  destruct (proxy_step_total ev p Hok Ho Hse) as [p1 H1]. rewrite H1. bind_simpl.
  apply IH; [|done|done]. by apply (proxy_step_view "" ev p).
Qed.

(** C17: the autopilot refines one machine per BU.  Whatever the rounds of checks,
    the ticks of the manager, the drain timers and the connections of all BUs do,
    in any order, no step fails, and what a BU becomes - its health, its
    controller, its state, its drain - is what the machine [run_view] makes of its
    own events alone. *)
Theorem autopilot_refines bu evs p :
  proxy_ok p → Forall tick_once evs → Forall event_safe evs →
  ∃ p', run_proxy evs p = Ok p' ∧ proxy_ok p' ∧
    run_view bu (concerning bu evs) (view bu p) = Ok (view bu p').
Proof.
  intros Hok Ho Hs.
  destruct (run_proxy_total evs p Hok Ho Hs) as [p' Hrun].
  exists p'. split; [done|]. by eapply run_proxy_view.
Qed.

(** A BU that runs on its primary, with both clusters up for the checker and for
    its controller, and no breaker tripped. *)
Definition steady (bu : string) (r : clusterRunner) (c : Controller) (p : Proxy) : Prop :=
  pr_checker p !! bu = Some r ∧ cr_primaryAddr r ≠ ""%string ∧ 0 < cr_failureThreshold r ∧
  hs_healthy (cr_primary r) = true ∧ hs_consecutiveFailures (cr_primary r) = 0 ∧
  hs_healthy (cr_secondary r) = true ∧
  m_controllers (pr_mgr p) !! bu = Some c ∧ c_mode c = ModeActivePassive ∧ hc_int64 (c_hcCfg c) ∧
  PrimaryHealthy c = true ∧ ch_consecutiveFailures (c_primaryHealth c) = 0 ∧
  SecondaryHealthy c = true ∧ br_circuitBroken (c_breaker c) = false ∧
  StronglySorted Z.le (br_failoverTimestamps (c_breaker c)) ∧
  sm_entries (fst (pr_sys p)) !! bu = Some StatePrimary.

Lemma steady_inv bu r c p : proxy_ok p → steady bu r c p → outage_inv bu r c (0, 0) (view bu p).
Proof.
  intros [_ Hn] (Hr & _ & Hft & Hp & Hcf & Hq & Hc & Hm & _ & Hcp & Hccf & Hcq & _ & _ & He).
  split; [done|]. split; [done|]. exists r, c. cbn [view bv_runner bv_ctrl bv_entry bv_toward].
  split; [done|]. split; [done|]. split.
  - split; [apply same_settings_refl|]. rewrite Hp. split_and!; try done. symmetry. by apply Z.ltb_lt.
  - split; [by apply Hn|]. split; [done|]. split; [done|]. split; [done|].
    rewrite (proj2 (Z.ltb_lt _ _)) by apply failure_threshold_pos. by split_and!.
Qed.

(** C2: an outage of the primary moves the traffic of a BU to its secondary, in
    bounded work and no sooner.  The primary of a steady BU stops answering while
    its secondary answers, with the cooldown elapsed and room in the window.
    However the rounds of checks, the ticks, the drain timers and the connections
    of all BUs interleave from then on, new connections of this BU go to the
    primary until its controller has ticked [failure_threshold] times after the
    checker marked the primary DOWN, in the round that completes the checker's own
    threshold, and to the secondary from that tick on, through the drain and after
    it. *)
Theorem outage_moves_traffic bu r c p evs lookup :
  proxy_ok p → steady bu r c p → Forall tick_once evs → Forall event_safe evs →
  Forall (outage_event r c) (concerning bu evs) →
  ∃ p', run_proxy evs p = Ok p' ∧
    let '(rounds, ticks) :=
      foldl (count_outage (cr_failureThreshold r)) (0, 0) (concerning bu evs) in
    TargetForRouting lookup (pr_sys p') bu =
      (if ticks <? failure_threshold (c_hcCfg c) then ActivePrimary else ActiveSecondary, true).
Proof.
  intros Hok Hst Ho Hs Hev. destruct (run_proxy_total evs p Hok Ho Hs) as [p' Hrun].
  pose proof (run_proxy_view bu evs p p' Hrun Hok Ho) as [_ Hv].
  exists p'. split; [done|]. pose proof (steady_inv bu r c p Hok Hst) as Hi.
  destruct Hst as (_ & Ha & _ & _ & _ & _ & _ & _ & Hint & _ & _ & _ & Hb & Hsort & _).
  pose proof (run_view_outage bu r c Ha Hint Hsort Hb _ _ _ _ Hi Hev Hv) as Hi'.
  destruct (foldl _ _ _) as [n k]. by eapply outage_routes.
Qed.

(** ** Witnesses *)

Definition steady_runner : clusterRunner :=
  {| cr_name := "bu1"; cr_primaryAddr := "a:9092"; cr_secondaryAddr := "b:9092";
     cr_interval := 10 * second; cr_failureThreshold := 2; cr_recoveryThreshold := 2;
     cr_saslUsername := ""; cr_saslPassword := "";
     cr_primary := NewHealthState 0 "a:9092"; cr_secondary := NewHealthState 0 "b:9092";
     cr_running := true |}.

Definition steady_controller : Controller :=
  with_health up_health up_health (NewController "bu1" ActivePrimary ModeActivePassive sample_hc).

Definition steady_proxy : Proxy :=
  {| pr_checker := {["bu1"%string := steady_runner]};
     pr_sys := (sample_sm StatePrimary, sample_world);
     pr_mgr := with_controllers {["bu1"%string := steady_controller]} (NewManager ∅);
     pr_listener := None |}.

Lemma steady_proxy_ok : proxy_ok steady_proxy.
Proof.
  split; [reflexivity|]. intros bu c. cbn. rewrite lookup_singleton_Some. by intros [<- <-].
Qed.

(** The primary refuses, the secondary answers. *)
Definition outage_round (t : time) : round :=
  {| rd_pooled := []; rd_start1 := t; rd_end1 := t; rd_dial1 := Err (Errorf "refused");
     rd_start2 := t; rd_end2 := t; rd_dial2 := Ok answering |}.

Definition outage_run : list event :=
  [EvRound "bu1" (outage_round (1000 * second));
   EvTick (1001 * second) [("bu1"%string, 1001 * second)];
   EvRound "bu1" (outage_round (1002 * second)); EvConnect "bu1" 11 "primary";
   EvTick (1003 * second) [("bu1"%string, 1003 * second)];
   EvDrainTimer "bu1"].

Lemma autopilot_refines_witness :
  ∃ p', run_proxy outage_run steady_proxy = Ok p' ∧
    run_view "bu1" (concerning "bu1" outage_run) (view "bu1" steady_proxy) = Ok (view "bu1" p').
Proof.
  destruct (autopilot_refines "bu1" outage_run steady_proxy steady_proxy_ok) as (p' & Hrun & _ & Hv).
  - repeat constructor; set_solver.
  - repeat constructor.
  - exists p'. split; [exact Hrun|exact Hv].
Defined.

Lemma outage_moves_traffic_witness :
  ∃ p', run_proxy outage_run steady_proxy = Ok p' ∧
    TargetForRouting None (pr_sys p') "bu1" = ("secondary"%string, true).
Proof.
  apply (outage_moves_traffic "bu1" steady_runner steady_controller steady_proxy outage_run None).
  - apply steady_proxy_ok.
  - repeat (split || constructor || discriminate).
  - repeat constructor; set_solver.
  - repeat constructor.
  - repeat constructor; try discriminate. all: eexists; split; reflexivity.
Defined.
