(* ===== verification/BringUp.v ===== *)
(** * From start-up to the first failover

    The proxy that [main] sets up ([Startup.main_init]) and its autopilot
    ([Autopilot.run_proxy]) together.  The controllers of the manager begin with
    both clusters down ([failover/manager.go], [Reconfigure]) and learn otherwise
    from the checker, one tick at a time: what that means for the routing of a BU
    whose clusters answer every check, and that it is ready for an outage after. *)

From Stdlib Require Import Sorting.Sorted.
From S2P Require Import Prelude Conn Config Health StateMachine Drain Controller DRCoordinator.
From S2P Require Import Manager Connection Listener Startup Checker Autopilot.

(** The primary answers its check of a round. *)
Definition primary_answers (r : clusterRunner) (rd : round) : Prop :=
  ∃ c, rd_dial1 rd = Ok c ∧ fst (check_exchange (rd_pooled rd) r c) = Ok tt.

(** The ticks of a BU. *)
Definition count_tick (k : Z) (ev : bu_event) : Z :=
  match ev with BTick _ => k + 1 | _ => k end.
Definition ticks_of (bu : string) (evs : list event) : Z := foldl count_tick 0 (concerning bu evs).

(** An endpoint that answers stays up. *)
Lemma answering_endpoint pooled start now r addr st c st' :
  checkEndpoint pooled start now (Ok c) r addr st = Ok st' →
  fst (check_exchange pooled r c) = Ok tt →
  hs_healthy st = true → hs_consecutiveFailures st = 0 →
  hs_healthy st' = true ∧ hs_consecutiveFailures st' = 0.
Proof.
  unfold checkEndpoint. intros H Hx Hh Hf. destruct (String.eqb addr ""); [by simplify_eq|].
  rewrite Hx in H. simplify_eq. cbn. by rewrite Hh.
Qed.

Section BringUp.
Context (bu : string) (r0 : clusterRunner) (hc : HealthCheckConfig) (s0 : string).
Let rt := recovery_threshold hc.
Context (Hs0 : routing_state s0).
(** The one case left out: a BU on its secondary that one tick may fail back. *)
Context (Hboot : s0 = StateSecondary → rt = 1 → hc_AutoFailback hc = false).

(** Where the BU settles: its controller sees both clusters down first, unless one
    tick is enough for it to see them up. *)
Definition booted_state : string := if 1 <? rt then StatePrimary else s0.

(** Every round finds both clusters up. *)
Definition up_event (ev : bu_event) : Prop :=
  match ev with BRound rd => primary_answers r0 rd ∧ secondary_answers r0 rd | _ => True end.

Definition lit_runner (r : clusterRunner) : Prop :=
  same_settings r0 r ∧ hs_healthy (cr_primary r) = true ∧ hs_consecutiveFailures (cr_primary r) = 0 ∧
  hs_healthy (cr_secondary r) = true.

(** No failover yet. *)
Definition new_breaker : breaker := c_breaker (NewController "" "" "" hc).

(** The controller and the state machine after [k] ticks. *)
Definition booting (k : Z) (c : Controller) (e toward : option string) : Prop :=
  c_buName c = bu ∧ c_hcCfg c = hc ∧ c_mode c = ModeActivePassive ∧
  c_breaker c = new_breaker ∧ toward = None ∧
  if k <? rt then
    ch_hyst (c_primaryHealth c) = (false, 0, k) ∧ ch_hyst (c_secondaryHealth c) = (false, 0, k) ∧
    if k =? 0 then e = Some s0
    else e = Some StateBothDown ∧ c_lastActiveBeforeAmbos c = s0
  else
    ch_healthy (c_primaryHealth c) = true ∧ ch_consecutiveFailures (c_primaryHealth c) = 0 ∧
    ch_healthy (c_secondaryHealth c) = true ∧ e = Some booted_state.

Definition boot_inv (k : Z) (v : bu_view) : Prop :=
  0 ≤ k ∧ ∃ r c, bv_runner v = Some r ∧ bv_ctrl v = Some c ∧ lit_runner r ∧
    booting k c (bv_entry v) (bv_toward v).

Lemma lit_round rd r r' next :
  lit_runner r → up_event (BRound rd) → checkAndReschedule rd r = Ok (r', next) → lit_runner r'.
Proof.
  intros (Hs & Hp & Hf & Hq) [(c & Hd & Hx) Ha] H.
  pose proof (round_settings _ _ _ _ H) as Hs'.
  split; [by eapply same_settings_trans|].
  assert (Hq' : hs_healthy (cr_secondary r') = true).
  { eapply answering_round; [done| |done]. by destruct Hs as (? & ? & ->). }
  revert H. unfold checkAndReschedule. intros (p & Hcp & H)%bind_Ok_inv.
  apply bind_Ok_inv in H as (q & _ & H). simplify_eq. rewrite Hd in Hcp.
  destruct (answering_endpoint _ _ _ _ _ _ _ _ Hcp) as [H1 H2]; [|done|done|by split_and!].
  by destruct Hs as (? & ? & ->).
Qed.

Lemma solo_State e : State (solo bu (Some e)) bu = e.
Proof. unfold State. by rewrite solo_lookup. Qed.

(** The decision of a tick, for the three phases. *)
Lemma boot_goes_down now c :
  c_buName c = bu → br_circuitBroken (c_breaker c) = false →
  PrimaryHealthy c = false → SecondaryHealthy c = false →
  ∃ a sm w, Evaluate now c (solo bu (Some s0)) tt = (a, with_ambos s0 (c_ambosDownCount c + 1) c, sm, w) ∧
    sm_entries sm !! bu = Some StateBothDown.
Proof.
  intros Hbu Hb Hp Hq. rewrite evaluate_decide, Hb. unfold c_decision, decide_failover.
  rewrite Hbu, solo_State, Hp, Hq. cbn [negb andb].
  assert (String.eqb s0 StateBothDown = false) as -> by (by destruct Hs0 as [-> | ->]).
  pose proof (solo_transition bu s0 StateBothDown ReasonHealthEvent) as Ht.
  unfold enterBothDownLocked. rewrite Hbu.
  destruct (SM_Transition bu StateBothDown ReasonHealthEvent _ _) as [[? sm'] w'].
  assert (Hdr : String.eqb s0 StateDraining = false ∧ String.eqb s0 "" = false)
    by (by destruct Hs0 as [-> | ->]).
  destruct Hdr as [-> ->]. do 3 eexists. split; [reflexivity|].
  apply Ht; by destruct Hs0 as [-> | ->].
Qed.

Lemma booted_cases :
  booted_state = StatePrimary ∨ booted_state = StateSecondary ∧ hc_AutoFailback hc = false.
Proof.
  unfold booted_state. destruct (Z.ltb_spec 1 rt); [by left|].
  destruct Hs0 as [-> | Hs]; [by left|right; split; [done|]].
  apply Hboot; [done|]. pose proof (recovery_threshold_pos hc). unfold rt in *. lia.
Qed.

Lemma boot_holds now c e :
  c_buName c = bu → c_hcCfg c = hc → c_mode c = ModeActivePassive →
  PrimaryHealthy c = SecondaryHealthy c →
  e = (if PrimaryHealthy c then booted_state else StateBothDown) →
  ∃ a w, Evaluate now c (solo bu (Some e)) tt = (a, c, solo bu (Some e), w).
Proof.
  intros Hbu Hhc Hm Hpq He. rewrite evaluate_decide. destruct (br_circuitBroken _); [by do 2 eexists|].
  unfold c_decision. rewrite Hbu, solo_State, Hm, Hhc, <- Hpq, He.
  destruct (PrimaryHealthy c); [|by do 2 eexists].
  destruct booted_cases as [-> | [-> ->]]; by do 2 eexists.
Qed.

Lemma boot_recovers now c :
  c_buName c = bu → br_circuitBroken (c_breaker c) = false →
  PrimaryHealthy c = true → SecondaryHealthy c = true →
  ∃ a sm w, Evaluate now c (solo bu (Some StateBothDown)) tt = (a, c, sm, w) ∧
    sm_entries sm !! bu = Some StatePrimary.
Proof.
  intros Hbu Hb Hp Hq. rewrite evaluate_decide, Hb. unfold c_decision, decide_failover.
  rewrite Hbu, solo_State, Hp, Hq. cbn [negb andb]. rewrite String.eqb_refl.
  pose proof (solo_transition bu StateBothDown StatePrimary ReasonRecovery) as Ht.
  destruct (SM_Transition bu StatePrimary ReasonRecovery _ _) as [[? sm'] w'].
  do 3 eexists. split; [reflexivity|]. by apply Ht.
Qed.

(** What a tick makes of the controller, before the decision. *)
Lemma boot_observes now k r c e d :
  lit_runner r → booting k c e d →
  let c1 := record_both now (runner_health bu r) c in
  c_buName c1 = bu ∧ c_hcCfg c1 = hc ∧ c_mode c1 = ModeActivePassive ∧ c_breaker c1 = new_breaker ∧
  c_lastActiveBeforeAmbos c1 = c_lastActiveBeforeAmbos c ∧
  if k + 1 <? rt then
    ch_hyst (c_primaryHealth c1) = (false, 0, k + 1) ∧ ch_hyst (c_secondaryHealth c1) = (false, 0, k + 1)
  else
    PrimaryHealthy c1 = true ∧ ch_consecutiveFailures (c_primaryHealth c1) = 0 ∧
    SecondaryHealthy c1 = true.
Proof.
  intros (_ & Hp & _ & Hq) (Hbu & Hhc & Hm & Hb & _ & Hph) c1.
  destruct (record_both_health now (runner_health bu r) c) as [H1 H2]. fold c1 in H1, H2.
  do 5 (split; [done|]). clearbody c1. rewrite Hhc in H1, H2. fold rt in H1, H2.
  cbn [runner_health cth_Primary cth_Secondary snapshot sn_Healthy] in H1, H2.
  rewrite Hp in H1. rewrite Hq in H2. unfold ch_hyst, PrimaryHealthy, SecondaryHealthy in *.
  destruct (Z.ltb_spec k rt) as [Hlt|Hge].
  - destruct Hph as (Hph & Hqh & _). rewrite Hph in H1. rewrite Hqh in H2. cbn [hyst_step orb] in H1, H2.
    destruct (Z.ltb_spec (k + 1) rt).
    + by rewrite (proj2 (Z.leb_gt rt (k + 1))) in H1, H2 by lia.
    + rewrite (proj2 (Z.leb_le rt (k + 1))) in H1, H2 by lia. by simplify_eq.
  - destruct Hph as (Hph & _ & Hqh & _). rewrite Hph in H1. rewrite Hqh in H2.
    cbn [hyst_step orb] in H1, H2. rewrite (proj2 (Z.ltb_ge (k + 1) rt)) by lia. by simplify_eq.
Qed.

Lemma tick_booting now k r c e d :
  lit_runner r → 0 ≤ k → booting k c e d →
  let '(_, c', e') := tick_bu now (runner_health bu r) c e in
  booting (k + 1) c' e' (toward_after e e' d).
Proof.
  intros Hlit Hk Hbo. pose proof (boot_observes now k r c e d Hlit Hbo) as Hobs.
  destruct Hbo as (_ & _ & _ & _ & -> & Hph). unfold tick_bu.
  set (c1 := record_both now (runner_health bu r) c) in *. clearbody c1. cbn zeta in Hobs.
  destruct Hobs as (Hbu & Hhc & Hm & Hb & Hl1 & Hh).
  assert (Htw : ∀ e', e' ≠ StateDraining → toward_after e (Some e') None = None).
  { intros e' Hne. unfold toward_after. by rewrite decide_False by naive_solver. }
  rewrite Hbu. unfold booting. destruct (Z.ltb_spec (k + 1) rt) as [Hlt|Hge].
  - rewrite (proj2 (Z.ltb_lt k rt)) in Hph by lia. destruct Hph as (_ & _ & He). destruct Hh as [H1 H2].
    pose proof (f_equal (λ x, fst (fst x)) H1 : PrimaryHealthy c1 = false) as Hp1.
    pose proof (f_equal (λ x, fst (fst x)) H2 : SecondaryHealthy c1 = false) as Hq1.
    rewrite (proj2 (Z.eqb_neq (k + 1) 0)) by lia. destruct (k =? 0).
    + subst e. destruct (boot_goes_down now c1 Hbu) as (a & sm & w & -> & ->); [by rewrite Hb|done..|].
      split_and!; try done; by apply Htw.
    + destruct He as [-> Hl].
      destruct (boot_holds now c1 StateBothDown Hbu Hhc Hm) as (a & w & ->); [by rewrite Hp1|by rewrite Hp1|].
      rewrite solo_lookup, Hl1. split_and!; try done; by apply Htw.
  - destruct Hh as (Hp1 & Hf1 & Hq1).
    assert (He : e = Some StateBothDown ∧ booted_state = StatePrimary ∨ e = Some booted_state).
    { unfold booted_state. destruct (Z.ltb_spec k rt) as [Hlt|_]; [|by right; apply Hph].
      destruct Hph as (_ & _ & He). destruct (Z.eqb_spec k 0) as [->|Hne].
      - right. by rewrite (proj2 (Z.ltb_ge 1 rt)) by lia.
      - left. rewrite (proj2 (Z.ltb_lt 1 rt)) by lia. split; [apply He|done]. }
    destruct He as [[-> ->] | ->].
    + destruct (boot_recovers now c1 Hbu) as (a & sm & w & -> & ->); [by rewrite Hb|done..|].
      split_and!; try done; by apply Htw.
    + destruct (boot_holds now c1 booted_state Hbu Hhc Hm) as (a & w & ->); [by rewrite Hp1|by rewrite Hp1|].
      rewrite solo_lookup. split_and!; try done.
      apply Htw. by destruct booted_cases as [-> | [-> _]].
Qed.

Lemma view_step_boot k v ev v' :
  boot_inv k v → up_event ev → view_step bu v ev = Ok v' → boot_inv (count_tick k ev) v'.
Proof.
  intros (Hk & r & c & Hr & Hc & Hlit & Hbo) Hev. destruct ev as [rd|now|]; cbn [view_step count_tick].
  - rewrite Hr. intros ([r' next] & Hck & Hv)%bind_Ok_inv. simplify_eq. split; [done|].
    exists r', c. split_and!; try done. by eapply lit_round.
  - intros [= <-]. unfold view_tick. rewrite Hr, Hc. cbn [after_tick fmap option_fmap option_map].
    pose proof (tick_booting now k r c _ _ Hlit Hk Hbo) as Ht.
    destruct (tick_bu _ _ _ _) as [[a c'] e']. split; [lia|]. by exists r, c'.
  - pose proof Hbo as (_ & _ & _ & _ & -> & _). intros [= <-]. split; [done|]. by exists r, c.
Qed.

Lemma run_view_boot k evs v v' :
  boot_inv k v → Forall up_event evs → run_view bu evs v = Ok v' → boot_inv (foldl count_tick k evs) v'.
Proof.
  revert k v. induction evs as [|ev evs IH]; intros k v Hi; [by intros _ [= <-]|].
  intros [Hev Hevs]%list.Forall_cons. rewrite run_view_cons. intros (v1 & H1 & H2)%bind_Ok_inv.
  cbn [foldl]. eapply IH; [|done|done]. by eapply view_step_boot.
Qed.
End BringUp.

(** ** Routing *)

Lemma booting_routes bu r0 hc s0 k p :
  routing_state s0 → boot_inv bu r0 hc s0 k (view bu p) →
  TargetForRouting (lookup_of p) (pr_sys p) bu =
  (stateToTarget (if k <? recovery_threshold hc then s0 else booted_state hc s0), true).
Proof.
  intros Hs0 (_ & r & c & _ & Hc & _ & (_ & _ & _ & _ & _ & Hph)).
  destruct p as [ck [sm w] mgr l]. cbn [view bv_entry bv_ctrl pr_sys pr_mgr fst snd] in *.
  destruct (k <? recovery_threshold hc).
  - destruct Hph as (_ & _ & He). destruct (k =? 0).
    + apply TargetForRouting_state; [done|]. unfold State. by rewrite He.
    + destruct He as [He Hl]. unfold TargetForRouting, State, lookup_of, Manager_Controller. cbn [pr_mgr].
      rewrite He, Hc. unfold BothDownActiveCluster. rewrite Hl. by destruct Hs0 as [-> | ->].
  - destruct Hph as (_ & _ & _ & He). apply TargetForRouting_state; [|unfold State; by rewrite He].
    unfold booted_state. destruct (_ <? _); [by left|done].
Qed.

Lemma booting_no_drain bu r0 hc s0 k p :
  boot_inv bu r0 hc s0 k (view bu p) → IsDraining bu (w_dm (snd (pr_sys p))) = false.
Proof.
  intros (_ & r & c & _ & _ & _ & (_ & _ & _ & _ & Hd & _)). cbn [view bv_toward] in Hd.
  unfold DrainNewActive, DrainState in Hd. unfold IsDraining.
  destruct (dm_drains _ !! bu); [done|]. apply bool_decide_eq_false. by intros [? ?].
Qed.

(** After the recovery threshold the BU is ready for an outage. *)
Lemma booted_outage bu r0 hc s0 k c0 v :
  c_hcCfg c0 = hc → c_breaker c0 = new_breaker hc → 0 < cr_failureThreshold r0 →
  boot_inv bu r0 hc s0 k v → recovery_threshold hc ≤ k → booted_state hc s0 = StatePrimary →
  outage_inv bu r0 c0 (0, 0) v.
Proof.
  intros Hhc0 Hb0 Hft (_ & r & c & Hr & Hc & (Hs & Hp & Hf & Hq) & (Hbu & Hhc & Hm & Hb & _ & Hph)) Hk Hbs.
  rewrite (proj2 (Z.ltb_ge _ _)), Hbs in Hph by done. destruct Hph as (Hcp & Hcf & Hcq & He).
  split; [done|]. split; [done|]. exists r, c. split; [done|]. split; [done|]. split.
  - split; [done|]. rewrite Hp, (proj2 (Z.ltb_lt _ _)) by done. by split_and!.
  - unfold failing_over. rewrite Hhc0, Hb0.
    rewrite (proj2 (Z.ltb_lt _ _)) by apply failure_threshold_pos. by split_and!.
Qed.

(** ** Start-up *)

(** What [main] sets up, as it concerns one BU. *)
Lemma main_init_view now order cfg bu cl p :
  order ≡ₚ map_to_list (cfg_Clusters cfg) → main_init now order cfg = Some p →
  cfg_Clusters cfg !! bu = Some cl → cl_Mode cl = ModeActivePassive →
  proxy_ok p ∧
  view bu p = {| bv_runner := new_runner now bu cl; bv_ctrl := new_controller bu cl;
                 bv_entry := Some (initial_state cl); bv_toward := None |}.
Proof.
  intros Ho Hi Hc Hm. unfold main_init in Hi. apply bind_Some in Hi as (l & _ & Hi). simplify_eq.
  assert (Hnd : NoDup (map fst order)) by (rewrite Ho; apply (NoDup_fst_map_to_list (cfg_Clusters cfg))).
  split.
  - split; [|apply new_controllers_named]. unfold wired, Wire, OnStateChange. cbn [pr_sys fst sm_callbacks].
    by rewrite (proj1 (initialise_spec order NewStateMachine Hnd)).
  - unfold view. cbn [pr_checker pr_mgr pr_sys fst snd]. f_equal.
    + unfold Health.New. by rewrite map_lookup_imap, Hc.
    + cbn. by rewrite map_lookup_imap, Hc.
    + change (sm_entries (Wire ?sm)) with (sm_entries sm). rewrite (initialise_new order cfg bu Ho), Hc.
      cbn. by rewrite Hm.
Qed.

Lemma boot_inv_start now bu cl r :
  cl_Mode cl = ModeActivePassive → hc_AutoFailover (cl_HealthCheck cl) = true →
  new_runner now bu cl = Some r →
  boot_inv bu r (cl_HealthCheck cl) (initial_state cl) 0
    {| bv_runner := new_runner now bu cl; bv_ctrl := new_controller bu cl;
       bv_entry := Some (initial_state cl); bv_toward := None |}.
Proof.
  intros Hm Ha Hr. split; [done|]. exists r, (NewController bu (cl_Active cl) (cl_Mode cl) (cl_HealthCheck cl)).
  cbn [bv_runner bv_ctrl bv_entry bv_toward]. split; [done|]. split.
  { unfold new_controller. by rewrite Hm, Ha. }
  split.
  - unfold new_runner in Hr. destruct (negb _); [done|]. injection Hr as <-.
    by split; [apply same_settings_refl|].
  - unfold booting. rewrite (proj2 (Z.ltb_lt _ _)) by apply recovery_threshold_pos. by split_and!.
Qed.

Lemma new_runner_settings now bu cl r :
  new_runner now bu cl = Some r →
  cr_primaryAddr r = ep_Bootstrap (cl_Primary cl) ∧ 0 < cr_failureThreshold r.
Proof.
  unfold new_runner. destruct (negb _); [done|]. intros [= <-]. cbn [cr_primaryAddr cr_failureThreshold].
  split; [done|]. destruct (Z.leb_spec (hc_FailureThreshold (cl_HealthCheck cl)) 0); lia.
Qed.

(** The side [main] sends new connections to at first. *)
Lemma upstream_of_target cl lookup bu sys target :
  cl_Mode cl = ModeActivePassive → TargetForRouting lookup sys bu = (target, true) →
  upstreamTarget cl (Some lookup) bu sys =
  Some (if String.eqb target ActivePrimary then (ep_Bootstrap (cl_Primary cl), "primary"%string)
        else (ep_Bootstrap (cl_Secondary cl), "secondary"%string)).
Proof. intros Hm Ht. unfold upstreamTarget. by rewrite Hm, Ht. Qed.

Lemma configured_initial cl :
  (if String.eqb (stateToTarget (initial_state cl)) ActivePrimary
   then (ep_Bootstrap (cl_Primary cl), "primary"%string)
   else (ep_Bootstrap (cl_Secondary cl), "secondary"%string)) = configured_side cl.
Proof.
  unfold initial_state, configured_side.
  destruct (String.eqb_spec (cl_Active cl) ActivePrimary) as [->|]; [done|].
  by destruct (String.eqb_spec (cl_Active cl) ActiveSecondary).
Qed.

Lemma initial_secondary cl : initial_state cl = StateSecondary → cl_Active cl = ActiveSecondary.
Proof.
  unfold initial_state. destruct (String.eqb_spec (cl_Active cl) ActivePrimary) as [->|]; [done|].
  by destruct (String.eqb_spec (cl_Active cl) ActiveSecondary).
Qed.

(** ** Properties *)

(** C4: what a start does to a BU whose clusters are up.  From the proxy [main]
    sets up, with both clusters of an active_passive BU with automatic failover
    answering every check, however the rounds, the ticks, the timers and the
    connections of all BUs interleave: new connections go to the configured side
    while the controller has ticked less than its recovery threshold (through
    BOTH_DOWN).  From then on they go to the primary, whichever side is configured,
    when the threshold is at least 2 (the default is 2), and stay on the configured
    side when it is 1.  No drain runs, so connections on a configured secondary
    stay there.  Left out is one case: threshold 1, the secondary configured and
    automatic failback on, where the first tick may fail the BU back. *)
Theorem startup_settles now order cfg bu cl r p evs :
  let hc := cl_HealthCheck cl in
  order ≡ₚ map_to_list (cfg_Clusters cfg) → main_init now order cfg = Some p →
  cfg_Clusters cfg !! bu = Some cl → cl_Mode cl = ModeActivePassive →
  hc_AutoFailover hc = true → new_runner now bu cl = Some r →
  (cl_Active cl = ActiveSecondary → recovery_threshold hc = 1 → hc_AutoFailback hc = false) →
  Forall tick_once evs → Forall event_safe evs → Forall (up_event r) (concerning bu evs) →
  ∃ p', run_proxy evs p = Ok p' ∧ IsDraining bu (w_dm (snd (pr_sys p'))) = false ∧
    upstreamTarget cl (Some (lookup_of p')) bu (pr_sys p') =
    Some (if (1 <? recovery_threshold hc) && (recovery_threshold hc <=? ticks_of bu evs)
          then (ep_Bootstrap (cl_Primary cl), "primary"%string) else configured_side cl).
Proof.
  intros hc Ho Hi Hc Hm Ha Hr Hcorner Hone Hsafe Hup.
  destruct (main_init_view now order cfg bu cl p Ho Hi Hc Hm) as [Hok Hv].
  destruct (run_proxy_total evs p Hok Hone Hsafe) as [p' Hrun]. exists p'. split; [done|].
  pose proof (run_proxy_view bu evs p p' Hrun Hok Hone) as [_ Hv'].
  pose proof (boot_inv_start now bu cl r Hm Ha Hr) as H0. rewrite <- Hv in H0.
  pose proof (run_view_boot bu r hc _ (initial_state_routing cl)
    (λ Hs, Hcorner (initial_secondary cl Hs)) 0 _ _ _ H0 Hup Hv') as Hb.
  split; [by eapply booting_no_drain|].
  pose proof (booting_routes _ _ _ _ _ _ (initial_state_routing cl) Hb) as Ht.
  unfold lookup_of in *. rewrite (upstream_of_target cl _ bu _ _ Hm Ht). unfold ticks_of, booted_state.
  rewrite Z.leb_antisym. destruct (_ <? recovery_threshold hc), (1 <? _); cbn [negb andb];
    [by rewrite configured_initial|by rewrite configured_initial|done|by rewrite configured_initial].
Qed.

(** C3: from the start through the first outage.  The proxy is the one [main] sets
    up, the BU is active_passive with automatic failover, and both clusters answer
    every check until its controller has ticked at least its recovery threshold.
    Then its primary stops answering, the secondary keeps doing so, and the
    cooldown has elapsed since the zero time.  However the rounds, the ticks, the
    timers and the connections of all BUs interleave, new connections go to the
    primary until the controller has ticked its failure threshold after the
    checker's own, and to the secondary from that tick on.  A BU configured on its
    secondary must have a recovery threshold of at least 2 (the default is 2):
    with 1 it never was on its primary ([startup_settles]). *)
Theorem outage_after_startup now order cfg bu cl r p evs outage lookup :
  let hc := cl_HealthCheck cl in
  let c0 := NewController bu (cl_Active cl) (cl_Mode cl) hc in
  order ≡ₚ map_to_list (cfg_Clusters cfg) → main_init now order cfg = Some p →
  cfg_Clusters cfg !! bu = Some cl → cl_Mode cl = ModeActivePassive →
  ep_Bootstrap (cl_Primary cl) ≠ ""%string → hc_AutoFailover hc = true → hc_int64 hc →
  (cl_Active cl = ActiveSecondary → 2 ≤ recovery_threshold hc) → new_runner now bu cl = Some r →
  Forall tick_once (evs ++ outage) → Forall event_safe (evs ++ outage) →
  Forall (up_event r) (concerning bu evs) → recovery_threshold hc ≤ ticks_of bu evs →
  Forall (outage_event r c0) (concerning bu outage) →
  ∃ p', run_proxy (evs ++ outage) p = Ok p' ∧
    let '(rounds, ticks) :=
      foldl (count_outage (cr_failureThreshold r)) (0, 0) (concerning bu outage) in
    TargetForRouting lookup (pr_sys p') bu =
      (if ticks <? failure_threshold hc then ActivePrimary else ActiveSecondary, true).
Proof.
  intros hc c0 Ho Hi Hc Hm Hb0 Ha Hint Hrt Hr Hone Hsafe Hup Hk Hout.
  destruct (main_init_view now order cfg bu cl p Ho Hi Hc Hm) as [Hok Hv].
  destruct (run_proxy_total _ p Hok Hone Hsafe) as [p' Hrun]. exists p'. split; [done|].
  pose proof (run_proxy_view bu _ p p' Hrun Hok Hone) as [_ Hv'].
  unfold concerning in Hv'. rewrite map_app, concat_app, run_view_app in Hv'.
  apply bind_Ok_inv in Hv' as (v1 & Hv1 & Hv2).
  assert (Hsec : initial_state cl = StateSecondary → 2 ≤ recovery_threshold hc)
    by (intros Hs; apply Hrt; by apply initial_secondary).
  assert (Hcorner : initial_state cl = StateSecondary → recovery_threshold hc = 1 →
                    hc_AutoFailback hc = false) by (intros ?%Hsec; lia).
  assert (Hbs : booted_state hc (initial_state cl) = StatePrimary).
  { unfold booted_state. destruct (Z.ltb_spec 1 (recovery_threshold hc)); [done|].
    destruct (initial_state_routing cl) as [?|?%Hsec]; [done|lia]. }
  pose proof (boot_inv_start now bu cl r Hm Ha Hr) as H0. rewrite <- Hv in H0.
  pose proof (run_view_boot bu r _ _ (initial_state_routing cl) Hcorner 0 _ _ _ H0 Hup Hv1) as Hb.
  destruct (new_runner_settings now bu cl r Hr) as [Haddr Hft].
  assert (Hne : cr_primaryAddr r ≠ ""%string) by (by rewrite Haddr).
  pose proof (booted_outage bu r hc _ _ c0 v1 eq_refl eq_refl Hft Hb Hk Hbs) as Hi0.
  pose proof (run_view_outage bu r c0 Hne Hint ltac:(constructor) eq_refl _ _ _ _ Hi0 Hout Hv2) as Hi'.
  unfold concerning. destruct (foldl (count_outage _) _ _) as [n k]. exact (outage_routes bu r c0 lookup n k p' Hi').
Qed.

(** ** Witnesses *)

(** The secondary is configured. *)
Definition booted_cluster : ClusterConfig :=
  {| cl_Port := 9092; cl_Mode := ModeActivePassive; cl_Active := ActiveSecondary;
     cl_Primary := {| ep_Bootstrap := "a:9092"; ep_Weight := 0 |};
     cl_Secondary := {| ep_Bootstrap := "b:9092"; ep_Weight := 0 |};
     cl_HealthCheck := cl_HealthCheck checked_cluster |}.
Definition booted_config : Config := config_with {["bu1"%string := booted_cluster]}.

Definition up_round (t : time) : round :=
  {| rd_pooled := []; rd_start1 := t; rd_end1 := t; rd_dial1 := Ok answering;
     rd_start2 := t; rd_end2 := t; rd_dial2 := Ok answering |}.

Definition up_run : list event :=
  [EvRound "bu1" (up_round (1 * second)); EvTick (2 * second) [("bu1"%string, 2 * second)];
   EvConnect "bu1" 7 "secondary"; EvTick (12 * second) [("bu1"%string, 12 * second)]].

Definition booted_runner : clusterRunner := default steady_runner (new_runner 0 "bu1" booted_cluster).

Lemma up_run_once : Forall tick_once up_run.
Proof. repeat constructor; set_solver. Qed.
Lemma up_run_safe : Forall event_safe up_run.
Proof. repeat constructor. Qed.
Lemma up_run_up : Forall (up_event booted_runner) (concerning "bu1" up_run).
Proof. repeat constructor; eexists; split; reflexivity. Qed.

Lemma startup_settles_witness :
  ∃ p p', main_init 0 (map_to_list (cfg_Clusters booted_config)) booted_config = Some p ∧
    run_proxy up_run p = Ok p' ∧
    upstreamTarget booted_cluster (Some (lookup_of p')) "bu1" (pr_sys p') =
    Some ("a:9092"%string, "primary"%string).
Proof.
  destruct (main_init 0 (map_to_list (cfg_Clusters booted_config)) booted_config) as [p|] eqn:E;
    [|vm_compute in E; discriminate E].
  destruct (startup_settles 0 _ booted_config "bu1" booted_cluster booted_runner p up_run
    (Permutation_refl _) E eq_refl eq_refl eq_refl eq_refl ltac:(vm_compute; discriminate)
    up_run_once up_run_safe up_run_up) as (p' & H1 & _ & H2).
  exists p, p'. split; [reflexivity|]. split; [exact H1|]. exact H2.
Defined.

(** The primary then refuses every connection. *)
Definition down_run : list event :=
  [EvRound "bu1" (outage_round (1000 * second)); EvRound "bu1" (outage_round (1002 * second));
   EvRound "bu1" (outage_round (1004 * second));
   EvTick (1005 * second) [("bu1"%string, 1005 * second)];
   EvTick (1015 * second) [("bu1"%string, 1015 * second)];
   EvTick (1025 * second) [("bu1"%string, 1025 * second)]].

Lemma down_run_once : Forall tick_once (up_run ++ down_run).
Proof. repeat constructor; set_solver. Qed.
Lemma down_run_safe : Forall event_safe (up_run ++ down_run).
Proof. repeat constructor. Qed.
Lemma down_run_down :
  Forall (outage_event booted_runner
            (NewController "bu1" ActiveSecondary ModeActivePassive (cl_HealthCheck booted_cluster)))
    (concerning "bu1" down_run).
Proof.
  assert (Hout : ∀ t, outage_event booted_runner
    (NewController "bu1" ActiveSecondary ModeActivePassive (cl_HealthCheck booted_cluster))
    (BRound (outage_round t))).
  { split; [exact I|]. eexists; split; reflexivity. }
  assert (Htick : ∀ t, outage_event booted_runner
    (NewController "bu1" ActiveSecondary ModeActivePassive (cl_HealthCheck booted_cluster)) (BTick t)).
  { split; [by intros H|by intros [H _]]. }
  repeat (apply list.Forall_cons; split; [first [apply Hout|apply Htick]|]). constructor.
Qed.

Lemma outage_after_startup_witness :
  ∃ p p', main_init 0 (map_to_list (cfg_Clusters booted_config)) booted_config = Some p ∧
    run_proxy (up_run ++ down_run) p = Ok p' ∧
    TargetForRouting None (pr_sys p') "bu1" = ("secondary"%string, true).
Proof.
  destruct (main_init 0 (map_to_list (cfg_Clusters booted_config)) booted_config) as [p|] eqn:E;
    [|vm_compute in E; discriminate E].
  destruct (outage_after_startup 0 _ booted_config "bu1" booted_cluster booted_runner p up_run down_run
    None (Permutation_refl _) E eq_refl eq_refl ltac:(vm_compute; discriminate) eq_refl
    ltac:(vm_compute; discriminate) ltac:(vm_compute; discriminate) eq_refl
    down_run_once down_run_safe up_run_up ltac:(vm_compute; discriminate) down_run_down)
    as (p' & H1 & H2).
  exists p, p'. split; [reflexivity|]. split; [exact H1|]. exact H2.
Defined.
