(* ===== verification/Sessions.v ===== *)
(** * Whole sessions ([proxy/connection.go], [routing/data.go])

    [Connection] has the session of a client that asks an active_passive cluster
    for Metadata; here are the two others that are not plain tunnels.  A client
    whose first request after authentication is a Produce or a Fetch is handed to
    [Route]: [Router] says what a [Route] that succeeds has done, here is when it
    succeeds.  A client that asks a load_balance cluster for Metadata is answered
    from both clusters.  [pool_sized] is what the router needs of its pool, which
    it maintains. *)

From stdpp Require Import functions.
From S2P Require Import Prelude Bytes Conn Protocol RequestBody Metadata Synthetic Config LeaderCache Sasl.
From S2P Require Import Cache Pool Stats.
From S2P Require Import Router Rebalancer StateMachine Drain Controller DRCoordinator Connection.

(** ** The pool *)

(** Every broker's pool has room for its idle connections. *)
Definition pool_sized (cp : ConnectionPool) : Prop :=
  ∀ addr bp, cp_pools cp !! addr = Some bp →
    Z.of_nat (length (bp_idle bp)) ≤ bp_sem bp ≤ bp_maxSize bp ∧ 0 < bp_maxSize bp.

Lemma New_sized cfg : pool_sized (Pool.New cfg).
Proof. intros addr bp H. cbn in H. by rewrite lookup_empty in H. Qed.

Lemma pool_sized_get addr cp :
  pool_sized cp →
  let bp := getOrCreatePool addr cp in
  Z.of_nat (length (bp_idle bp)) ≤ bp_sem bp ≤ bp_maxSize bp ∧ 0 < bp_maxSize bp.
Proof.
  intros Hs. unfold getOrCreatePool. destruct (cp_pools cp !! addr) as [bp|] eqn:H; [by apply (Hs addr)|].
  pose proof (capacity_pos (cp_cfg cp)) as Hc. unfold capacity in Hc. cbn in *. lia.
Qed.

(** What [Get] hands out, [Put] takes back at once. *)
Lemma get_put now addr dialed h cp cp' :
  pool_sized cp → Pool.Get now addr dialed cp = (Some (Ok h), cp') →
  ∃ cp'', Pool.Put now addr h (close_conn h cp') = (Some tt, cp'') ∧ pool_sized cp''.
Proof.
  intros Hs. destruct (pool_sized_get addr cp Hs) as [Hle Hpos]. unfold Pool.Get.
  destruct (get_loop _ _ _ _ _ _ _) as [[r bp] closed'] eqn:Hg. intros [= -> <-].
  apply get_loop_spec in Hg as (dead & rest & Hid & _ & Hm & Hrest); [|lia].
  apply (f_equal length) in Hid. rewrite length_app in Hid.
  assert (Hbp : Z.of_nat (length (bp_idle bp)) + 1 ≤ bp_sem bp ≤ bp_maxSize bp).
  { destruct rest as [|pc rest]; cbn [length] in Hid.
    - destruct Hrest as (-> & Hn). cbn [length]. cbv zeta in Hn. revert Hn.
      destruct (Z.ltb_spec (bp_sem (getOrCreatePool addr cp) - Z.of_nat (length dead))
                  (bp_maxSize (getOrCreatePool addr cp))); intros [Hsem Hr]; [|done].
      destruct dialed; [|done..]. cbn [is_ok] in Hsem. lia.
    - destruct Hrest as (_ & _ & -> & Hsem). lia. }
  unfold Pool.Put, close_conn. cbn [cp_pools]. rewrite lookup_insert, decide_True by done.
  rewrite (proj2 (Z.leb_gt _ _)) by lia. eexists. split; [done|].
  intros a b. unfold with_pool. cbn [cp_pools]. destruct (decide (addr = a)) as [<-|Hne].
  - rewrite lookup_insert, decide_True by done. intros [= <-]. cbn [bp_idle bp_sem bp_maxSize].
    rewrite length_app. cbn [length]. lia.
  - rewrite !lookup_insert_ne by done. apply Hs.
Qed.

(** ** One request *)

Lemma forward_request_run frame reply more cin cout hout :
  4 ≤ blen reply < 2147483648 →
  forward_request frame (peer cin cout, peer (be32 (blen reply) ++ reply ++ more) hout) =
  (Ok tt, (peer cin (cout ++ be32 (blen reply) ++ reply), peer more (hout ++ frame))).
Proof.
  intros Hr. unfold forward_request.
  erewrite bind_run by reflexivity.
  erewrite bind_run by (unfold wrap; erewrite on_snd_run by (apply ReadFull_app, blen_be32); reflexivity).
  erewrite bind_run by (unfold pure; rewrite <- (app_nil_r (be32 _)), Uint32_be32; reflexivity).
  rewrite int32_uint32_id by lia. rewrite (proj2 (Z.ltb_ge _ _)) by lia.
  erewrite bind_run by reflexivity. unfold wrap, copy_n, peer. cbn [cn_in cn_out cn_writes].
  assert (Hl : Z.to_nat (blen reply) = length reply) by (unfold blen; lia).
  rewrite Hl, take_app_length, drop_app_length.
  rewrite (proj2 (Z.eqb_neq _ _)), (proj2 (Z.ltb_ge (blen reply) (blen reply))) by lia.
  cbn [Write cn_in cn_out cn_writes wrap_err]. by rewrite <- app_assoc.
Qed.

Section Routed.
Context {C : Type} {supported : string → Prop} `{LawfulCache C supported}.

(** A data request with a broker that answers: [Route] returns, and these are the
    connections it leaves. *)
Lemma Route_run env clusterName cfg (s : route_state C) topic pid data rest cout h cp' reply more hout :
  let frame := be32 (blen data) ++ data in
  let b := owner clusterName cfg (rs_router s) topic pid in
  let addr := default b (GetLeader (rt_cache (rs_router s)) b topic pid) in
  routable cfg → (∀ b, safe (re_refresh env b)) → asks topic pid frame →
  0 < blen data < 2147483644 → rs_client s = peer (frame ++ rest) cout →
  pool_sized (rt_pool (rs_router s)) →
  Pool.Get (re_now env) addr (re_dial env addr) (rt_pool (rs_router s)) = (Some (Ok h), cp') →
  rs_conns s h = peer (be32 (blen reply) ++ reply ++ more) hout → 4 ≤ blen reply < 2147483648 →
  ∃ s', Route env clusterName cfg s = (Some (Ok tt), s') ∧
    rs_client s' = peer (drop (consumed (re_upward env)) rest)
                     (cout ++ be32 (blen reply) ++ reply ++ take (copied (re_downward env)) more) ∧
    rs_conns s' = <[h := peer (drop (consumed (re_downward env)) more)
                           (hout ++ frame ++ take (copied (re_upward env)) rest)]> (rs_conns s) ∧
    pool_sized (rt_pool (rs_router s')).
Proof.
  intros frame b addr Hr Hsafe Ha Hd Hc Hs Hget Hh Hreply.
  destruct (get_put _ _ _ _ _ _ Hs Hget) as (cp'' & Hput & Hs').
  destruct (asks_parsed topic pid frame Ha) as (header & body & Hp & Hk & Hsl & Hb).
  unfold Route. rewrite Hc. unfold peer, frame. rewrite <- app_assoc, read_frame_run by done.
  fold frame. rewrite Hp. cbn [wrap_err with_client rs_router rs_stats rs_client rs_conns].
  unfold upstream_for. rewrite Hk, Hsl. bind_simpl. rewrite Hb. cbn [wrap_err].
  rewrite route_partition_spec by done. cbn [rr_TopicName rr_PartitionID].
  match goal with |- context [leader_or_bootstrap env ?b' ?rr ?r] =>
    pose proof (leader_or_bootstrap_spec env b' rr r (Hsafe b')) as Hl;
    destruct (leader_or_bootstrap env b' rr r) as [target r'] end.
  cbn [rr_TopicName rr_PartitionID] in Hl. destruct Hl as (-> & Hpool & _).
  cbn [rs_router rs_client rs_conns rs_stats]. rewrite Hpool. fold b. fold addr. rewrite Hget.
  cbn [with_router rs_router rs_client rs_conns rs_stats]. rewrite Hh.
  change {| cn_in := rest; cn_out := cout; cn_writes := None |} with (peer rest cout).
  rewrite forward_request_run by done. unfold peer. rewrite pump_reliable. unfold put_back.
  cbn [with_conns with_router rs_router with_conn_pool rt_pool cn_in cn_out cn_writes].
  rewrite Hput. eexists. split; [reflexivity|]. cbn [rs_client rs_conns rs_router rt_pool].
  rewrite <- !app_assoc. by split_and!.
Qed.
End Routed.

(** ** The session *)

(** A request header and its body, as a size prefix and the frame's data. *)
Lemma frame_data size key ver corr cid body :
  let first := encode_request_header size key ver corr cid in
  size = blen first - 4 + blen body →
  ∃ data, first ++ body = be32 (blen data) ++ data ∧ blen data = size.
Proof.
  intros first Hs. exists (be16 key ++ be16 ver ++ be32 corr ++ encode_nullable cid ++ body).
  assert (Hl : blen (be16 key ++ be16 ver ++ be32 corr ++ encode_nullable cid ++ body) = size).
  { rewrite Hs. unfold first, encode_request_header. rewrite !blen_app, !blen_be32, !blen_be16. lia. }
  rewrite Hl. split; [|done]. unfold first, encode_request_header. by rewrite <- !app_assoc.
Qed.

Section Session.
Context {C : Type} {supported : string → Prop} `{LawfulCache C supported}.
Context (env : conn_env) (clusterName : string) (clusterCfg : ClusterConfig).
Context (proxyPort : Z) (advertiseHost : string).
Context (drCoord : option (option (string → option Controller))).

(** C8: a whole routed session.  A client that authenticates with any number of
    SASL requests and then sends a Produce or Fetch request for a partition, in
    any mode: the handler returns, neither stuck nor failed.  The upstream that was
    selected for the connection gets the SASL requests and nothing else; the
    broker that owns the partition - its known leader, or the owning cluster's
    bootstrap - gets the request, byte for byte, and then whatever else the client
    sends, whatever partition that is for; the client gets the SASL replies, the
    broker's response and what the broker goes on to send.  (Of what follows the
    first exchange, what had been copied when either side ended; a chunk just read
    is lost.)  No other pooled connection is touched, and the pool can serve the
    next session. *)
Theorem routed_session target rds size key ver corr cid body topic pid cin cout uin uout handle
    h pool reply more hout (s : conn_state C) :
  let first := encode_request_header size key ver corr cid in
  let b := owner clusterName clusterCfg (cs_router s) topic pid in
  let addr := default b (GetLeader (rt_cache (cs_router s)) b topic pid) in
  connected env clusterName clusterCfg drCoord s target (peer (replies rds ++ uin) uout) →
  cs_client s = peer (requests rds ++ first ++ body ++ cin) cout →
  Forall round_ok rds → in_int16 key → is_data_key key = true → in_int32 corr → valid_nullable cid →
  size = blen first - 4 + blen body → size < 2147483644 → asks topic pid (first ++ body) →
  routable clusterCfg → (∀ b, safe (re_refresh (ce_route env) b)) →
  pool_sized (rt_pool (cs_router s)) →
  Pool.Get (ce_now env) addr (re_dial (ce_route env) addr) (rt_pool (cs_router s)) =
    (Some (Ok h), pool) →
  cs_peers s h = peer (be32 (blen reply) ++ reply ++ more) hout → 4 ≤ blen reply < 2147483648 →
  ∃ s', handleConnection env clusterName clusterCfg proxyPort advertiseHost drCoord handle s =
          (Some (Ok tt), s') ∧
    cs_client s' = peer (drop (consumed (re_upward (ce_route env))) cin)
      (cout ++ replies rds ++ be32 (blen reply) ++ reply ++ take (copied (re_downward (ce_route env))) more) ∧
    cs_upstream s' = Some (peer uin (uout ++ requests rds)) ∧
    cs_peers s' = <[h := peer (drop (consumed (re_downward (ce_route env))) more)
                          (hout ++ first ++ body ++ take (copied (re_upward (ce_route env))) cin)]> (cs_peers s) ∧
    pool_sized (rt_pool (cs_router s')).
Proof.
  intros first b addr Hconn Hc Hrds Hkey Hk Hcorr Hcid Hsize Hmax Ha Hr Hsafe Hpool Hget Hh Hreply.
  destruct (frame_data size key ver corr cid body Hsize) as (data & Hframe & Hdata).
  pose proof (header_blen size key ver corr cid Hcid) as Hfl. fold first in Hfl, Hframe.
  pose proof (blen_nonneg body).
  assert (Hkeys : is_sasl_key key = false ∧ (key =? APIKeyMetadata) = false).
  { unfold is_data_key in Hk. apply orb_true_iff in Hk as [->%Z.eqb_eq | ->%Z.eqb_eq]; by split. }
  destruct Hkeys as [Hns Hnm]. unfold handleConnection.
  destruct (with_upstream_connected env clusterName clusterCfg drCoord handle
    (serve_kafka env clusterName clusterCfg proxyPort advertiseHost) s target _ Hconn)
    as (s2 & (Hc2 & _ & Hpeers & Hrouter & _) & _ & ->).
  rewrite (serve_first env clusterName clusterCfg proxyPort advertiseHost target rds size key ver corr
             cid (body ++ cin) cout uin uout s2)
    by first [done | by rewrite Hc2 | unfold in_int32; lia].
  cbn zeta. unfold intercept. rewrite Hnm. cbn [andb negb]. rewrite Hk. fold first.
  unfold route_first. cbn [with_pair with_stats cs_client cs_router cs_stats cs_peers cs_upstream
    peer cn_in cn_out cn_writes]. rewrite Hpeers, Hrouter, app_assoc, Hframe.
  match goal with |- context [Route _ _ _ ?st] =>
    destruct (Route_run (ce_route env) clusterName clusterCfg st topic pid data cin
                (cout ++ replies rds) h pool reply more hout) as (rs & Hrun & Hcl & Hcs & Hps) end;
    [first [done | by rewrite <- Hframe | cbn [rs_router rs_client rs_conns]; first [done | lia]]..|].
  rewrite Hrun. unfold returned.
  match goal with |- context [unregister_after ?n ?i (?r, ?x)] =>
    destruct (unregister_traffic n i r x) as (s' & -> & (E1 & _ & E3 & E4 & E5)) end.
  exists s'. rewrite E1, E3, E4, E5. cbn [cs_client cs_peers cs_router cs_upstream].
  rewrite Hcl, Hcs, <- Hframe. cbn [rs_conns]. rewrite <- !app_assoc. by split_and!.
Qed.
End Session.

(** ** Metadata from both clusters *)

(** One exchange with a bootstrap that answers. *)
Lemma forwardOne_run env bootstrap req v r more out :
  ce_forward env bootstrap = Ok (peer (wire_frame v r ++ more) out) →
  blen (wire_frame v r) ≤ 4 + LeaderCache.MaxMetadataResponseSize →
  forwardOne env bootstrap req = Ok (Some (wire_frame v r)).
Proof.
  intros Hd Hl. unfold forwardOne, forwardMetadataRequest. rewrite Hd. cbn [wrap_err]. bind_simpl.
  set (body := mr_bodyBeforeBrokers r ++ wire_brokers v (mr_Brokers r) ++ mr_bodyAfterBrokers r).
  set (rest := be32 (mr_CorrelationID r) ++ body).
  assert (Hw : wire_frame v r = be32 (4 + blen body) ++ rest) by done.
  assert (Hrl : blen rest = 4 + blen body) by (unfold rest; by rewrite blen_app, blen_be32).
  pose proof (blen_nonneg body). rewrite Hw, blen_app, blen_be32, Hrl in Hl.
  change LeaderCache.MaxMetadataResponseSize with 10485760 in *. rewrite Hw, <- app_assoc.
  erewrite bind_run by reflexivity.
  erewrite bind_run by (unfold wrap, peer; cbn [Write cn_writes cn_in cn_out];
    rewrite ReadFull_app by apply blen_be32; reflexivity).
  erewrite bind_run by (unfold pure; rewrite <- (app_nil_r (be32 _)), Uint32_be32; reflexivity).
  rewrite int32_uint32_id by lia. change LeaderCache.MaxMetadataResponseSize with 10485760.
  rewrite (proj2 (Z.ltb_ge (4 + blen body) 4)), (proj2 (Z.ltb_ge 10485760 _)) by lia. cbn [orb].
  erewrite bind_run by (unfold wrap; rewrite read_make_app by done; reflexivity). done.
Qed.

Section Balanced.
Context {C : Type} `{PartitionLeaderCache C}.
Context (env : conn_env) (clusterName : string) (clusterCfg : ClusterConfig).
Context (proxyPort : Z) (advertiseHost : string).
Context (drCoord : option (option (string → option Controller))).

Lemma balanced_run size ver corr cid body r more out sec pts ib sb st cin cout :
  let first := encode_request_header size APIKeyMetadata ver corr cid in
  in_int16 ver → valid_nullable cid → size = blen first - 4 + blen body → size ≤ MaxFrameSize →
  ce_forward env (ep_Bootstrap (cl_Primary clusterCfg)) = Ok (peer (wire_frame ver r ++ more) out) →
  forwardOne env (ep_Bootstrap (cl_Secondary clusterCfg)) (first ++ body) = Ok sec →
  valid_response ver r → Z.of_nat (length (mr_Brokers r)) < 4294967296 →
  blen (wire_frame ver r) ≤ 4 + LeaderCache.MaxMetadataResponseSize →
  parseTopicArray (mr_bodyAfterBrokers r) ver = Ok (pts, ib) → secondary_view ver sec = (sb, st) →
  slen advertiseHost ≤ MaxStringLen →
  blen (wire_frame ver (merged_response advertiseHost proxyPort r ib pts sb st)) ≤
    Metadata.MaxMetadataResponseSize →
  handleMetadataLoadBalance env first size advertiseHost clusterCfg proxyPort (peer (body ++ cin) cout) =
  (Ok true, peer cin (cout ++ wire_frame ver (merged_response advertiseHost proxyPort r ib pts sb st))).
Proof.
  intros first Hver Hcid Hsize Hmax Hpri Hsec Hr Hn Hl Hts Hview Hh Hm.
  pose proof (header_blen size APIKeyMetadata ver corr cid Hcid) as Hfl. fold first in Hfl.
  unfold MaxFrameSize in Hmax. unfold handleMetadataLoadBalance.
  erewrite or_false_run by (apply rest_of_request_run; lia).
  erewrite bind_run by (unfold pure; rewrite full_request_eq by lia; reflexivity).
  pose proof (proj2 (proj2 (header_fields size APIKeyMetadata ver corr cid body))) as H6.
  fold first in H6. erewrite bind_run by (unfold pure; rewrite H6; reflexivity).
  erewrite bind_run by (unfold pure; erewrite forwardOne_run by done; reflexivity).
  erewrite bind_run by (unfold pure; rewrite Hsec; reflexivity).
  rewrite int16_uint16, int16_id by done. cbn [default].
  assert (Hparse : parseResponseFrame (wire_frame ver r) ver = Ok (r, mr_CorrelationID r)).
  { apply parseResponseFrame_wire; [done|done|]. revert Hl.
    change LeaderCache.MaxMetadataResponseSize with 10485760.
    change Metadata.MaxMetadataResponseSize with 104857600. lia. }
  pose proof (SynthesizeMetadataResponse_eq (wire_frame ver r) sec advertiseHost proxyPort ver r pts ib
                Hparse Hts Hh) as Heq.
  rewrite Hview in Heq. rewrite (proj2 (Z.ltb_ge _ _)) in Heq by exact Hm. cbn [default] in Heq.
  unfold id. rewrite Heq. by destruct sec.
Qed.

(** C9: a load_balance session.  A client that authenticates and then asks for
    Metadata gets one answer: the merge of the primary's with whatever the
    secondary contributed - nothing, when it is down or sends something that does
    not parse - with every broker at the proxy's address.  The connection's own
    upstream sees none of that exchange: it gets the SASL requests and what the
    client sends next, as far as it had been copied when either side ended. *)
Theorem balanced_session target rds size ver corr cid body r more out sec pts ib sb st cin cout uin uout
    handle (s : conn_state C) :
  let first := encode_request_header size APIKeyMetadata ver corr cid in
  connected env clusterName clusterCfg drCoord s target (peer (replies rds ++ uin) uout) →
  cs_client s = peer (requests rds ++ first ++ body ++ cin) cout →
  cl_Mode clusterCfg = ModeLoadBalance → Forall round_ok rds →
  in_int16 ver → in_int32 corr → valid_nullable cid →
  size = blen first - 4 + blen body → 14 ≤ size ≤ MaxFrameSize →
  ce_forward env (ep_Bootstrap (cl_Primary clusterCfg)) = Ok (peer (wire_frame ver r ++ more) out) →
  forwardOne env (ep_Bootstrap (cl_Secondary clusterCfg)) (first ++ body) = Ok sec →
  valid_response ver r → Z.of_nat (length (mr_Brokers r)) < 4294967296 →
  blen (wire_frame ver r) ≤ 4 + LeaderCache.MaxMetadataResponseSize →
  parseTopicArray (mr_bodyAfterBrokers r) ver = Ok (pts, ib) → secondary_view ver sec = (sb, st) →
  slen advertiseHost ≤ MaxStringLen →
  blen (wire_frame ver (merged_response advertiseHost proxyPort r ib pts sb st)) ≤
    Metadata.MaxMetadataResponseSize →
  ∃ s', handleConnection env clusterName clusterCfg proxyPort advertiseHost drCoord handle s =
          (Some (Ok tt), s') ∧
    cs_client s' = peer (drop (consumed (ce_up env)) cin)
      (cout ++ replies rds ++ wire_frame ver (merged_response advertiseHost proxyPort r ib pts sb st)
            ++ take (copied (ce_down env)) uin) ∧
    cs_upstream s' = Some (peer (drop (consumed (ce_down env)) uin)
      (uout ++ requests rds ++ take (copied (ce_up env)) cin)).
Proof.
  intros first Hconn Hc Hmode Hrds Hver Hcorr Hcid Hsize Hmax Hpri Hsec Hr Hn Hl Hts Hview Hh Hm.
  unfold MaxFrameSize in Hmax. unfold handleConnection.
  destruct (with_upstream_connected env clusterName clusterCfg drCoord handle
    (serve_kafka env clusterName clusterCfg proxyPort advertiseHost) s target _ Hconn)
    as (s2 & (Hc2 & _) & _ & ->).
  rewrite (serve_first env clusterName clusterCfg proxyPort advertiseHost target rds size APIKeyMetadata
             ver corr cid (body ++ cin) cout uin uout s2)
    by first [done | by rewrite Hc2 | unfold in_int16, in_int32, APIKeyMetadata in *; lia].
  cbn zeta. unfold intercept.
  change (APIKeyMetadata =? APIKeyMetadata) with true. unfold MaxFrameSize.
  rewrite (proj2 (Z.leb_le 2 size)), (proj2 (Z.ltb_ge size 14)), (proj2 (Z.ltb_ge _ size)) by lia.
  cbn [andb orb]. rewrite Hmode. change (String.eqb ModeLoadBalance ModeActivePassive) with false.
  change (String.eqb ModeLoadBalance ModeLoadBalance) with true. cbv iota. fold first.
  rewrite (on_fst_run _ _ _ _ _ (balanced_run size ver corr cid body r more out sec pts ib sb st cin
             (cout ++ replies rds) Hver Hcid Hsize ltac:(unfold MaxFrameSize; lia) Hpri Hsec Hr Hn Hl Hts
             Hview Hh Hm)).
  cbn [some_res mbind res_mbind res_bind negb andb]. unfold passthrough. cbn [cs_client with_stats with_pair].
  unfold peer. rewrite pump_reliable. unfold returned.
  match goal with |- context [unregister_after ?n ?i (?rr, ?x)] =>
    destruct (unregister_traffic n i rr x) as (s' & -> & (E1 & _ & _ & _ & E5)) end.
  exists s'. rewrite E1, E5.
  cbn [cs_client cs_upstream with_stats with_pair peer cn_in cn_out cn_writes].
  unfold peer. rewrite <- !app_assoc. by split_and!.
Qed.
End Balanced.

(** ** Witnesses *)

Definition produce_body : bytes := encode_produce 7 None 1 1000 (encode_topics 1 "t" 1 0).

(** A client whose brokers answer with [reply]. *)
Definition producer (cin reply : bytes) : conn_state MapPartitionLeaderCache :=
  let s := client_of cin StatePrimary in
  {| cs_sys := cs_sys s; cs_rebalancers := cs_rebalancers s; cs_selectCounter := cs_selectCounter s;
     cs_router := cs_router s; cs_stats := cs_stats s; cs_client := cs_client s;
     cs_peers := λ _, peer reply []; cs_upstream := cs_upstream s |}.

Lemma routed_session_witness :
  ∃ s', handleConnection (answering (replies sample_rounds) 0 0) "bu1" sample_cluster_config 9094
          "proxy" (Some None) 5%nat
          (producer (requests sample_rounds ++ sample_request) (be32 4 ++ be32 1)) =
        (Some (Ok tt), s') ∧
    cn_out (cs_client s') = replies sample_rounds ++ be32 4 ++ be32 1 ∧
    cn_out (cs_peers s' 7%nat) = sample_request.
Proof.
  destruct (routed_session (supported := λ cluster, has_slash cluster = false)
    (answering (replies sample_rounds) 0 0) "bu1" sample_cluster_config 9094 "proxy" (Some None)
    "primary" sample_rounds (10 + blen produce_body) APIKeyProduce 7 1 None produce_body "t" 0 [] []
    [] [] 5%nat 7
    (snd (Pool.Get 0 "a:9092" (Ok 7%nat) (Pool.New (px_ConnectionPool (cfg_Proxy sample_config)))))
    (be32 1) [] [] (producer (requests sample_rounds ++ sample_request) (be32 4 ++ be32 1)))
    as (s' & Hrun & Hc & _ & Hp & _).
  - exists "a:9092"%string, (producer (requests sample_rounds ++ sample_request) (be32 4 ++ be32 1)).
    split; [reflexivity|split; [discriminate|reflexivity]].
  - reflexivity.
  - exact sample_rounds_ok.
  - unfold in_int16, APIKeyProduce; lia.
  - reflexivity.
  - unfold in_int32; lia.
  - exact I.
  - vm_compute. reflexivity.
  - vm_compute. reflexivity.
  - exact sample_asks.
  - right. right. split; [reflexivity|left; split; [reflexivity|discriminate]].
  - intros b. exact I.
  - apply New_sized.
  - vm_compute. reflexivity.
  - reflexivity.
  - vm_compute. split; [discriminate|reflexivity].
  - exists s'. split; [exact Hrun|]. rewrite Hc, Hp. split; vm_compute; reflexivity.
Defined.

(** Clusters "a" and "b" that answer a Metadata request at version 0. *)
Definition cluster_answer (node : Z) (host : string) (topics : list topicEntry) : MetadataResponse :=
  {| mr_CorrelationID := 9; mr_ThrottleTimeMs := 0;
     mr_Brokers := [ {| NodeID := node; Host := host; Port := 9092; Rack := ""; RackIsSet := false |} ];
     mr_bodyBeforeBrokers := []; mr_bodyAfterBrokers := write_topics topics |}.

Definition topics_a : list topicEntry := [sample_topic "t" 0; sample_topic "u" 0].

Definition both_answer (uin : bytes) : conn_env :=
  let env := answering uin 1 1 in
  {| ce_route := ce_route env; ce_dial := ce_dial env;
     ce_forward := λ addr,
       Ok (if String.eqb addr "a:9092" then peer (wire_frame 0 (cluster_answer 1 "kafka-a" topics_a)) []
           else peer sample_secondary []);
     ce_roll := 0; ce_up := ce_up env; ce_down := ce_down env |}.

Lemma balanced_session_witness :
  let first := encode_request_header 16 APIKeyMetadata 0 7 (Some "me"%string) in
  let uin := replies sample_rounds ++ [x09] in
  let '(sb, st) := secondary_view 0 (Some sample_secondary) in
  ∃ s', handleConnection (both_answer uin) "bu1" sample_lb 9093 "proxy" (Some None) 5%nat
          (client_of (requests sample_rounds ++ first ++ be32 0 ++ [x07]) StatePrimary) =
        (Some (Ok tt), s') ∧
    cn_out (cs_client s') = replies sample_rounds ++
      wire_frame 0 (merged_response "proxy" 9093 (cluster_answer 1 "kafka-a" topics_a) []
                      topics_a sb st) ++ [x09].
Proof.
  intros first uin. destruct (secondary_view 0 (Some sample_secondary)) as [sb st] eqn:Hview.
  destruct (balanced_session (both_answer uin) "bu1" sample_lb 9093 "proxy" (Some None) "primary"
    sample_rounds 16 0 7 (Some "me"%string) (be32 0) (cluster_answer 1 "kafka-a" topics_a) [] []
    (Some sample_secondary) topics_a [] sb st [x07] [] [x09] [] 5%nat
    (client_of (requests sample_rounds ++ first ++ be32 0 ++ [x07]) StatePrimary))
    as (s' & Hrun & Hc & _).
  - eexists "a:9092"%string, _. split; [reflexivity|split; [discriminate|reflexivity]].
  - reflexivity.
  - reflexivity.
  - exact sample_rounds_ok.
  - unfold in_int16; lia.
  - unfold in_int32; lia.
  - reflexivity.
  - reflexivity.
  - unfold MaxFrameSize; lia.
  - reflexivity.
  - vm_compute. reflexivity.
  - unfold valid_response, in_int32; cbn. repeat split; try lia. repeat constructor; vm_compute; congruence.
  - reflexivity.
  - vm_compute. discriminate.
  - vm_compute. reflexivity.
  - exact Hview.
  - vm_compute. discriminate.
  - vm_compute in Hview. injection Hview as <- <-. vm_compute. discriminate.
  - exists s'. split; [exact Hrun|]. rewrite Hc. reflexivity.
Defined.
