(* ===== verification/Reader.v ===== *)
(** * Readers ([internal/proxy/connection.go], Route helpers)

    [Conn] lets a connection be read as one stream.  Here is what it stands for:
    a socket hands out its bytes in pieces of any size, [io.ReadFull] loops until
    it has enough, and the connection a routed request is read from is a
    [readWriteConn], whose reads first give the bytes the handler has already
    taken ([bytesReader]) and then the client's ([io.MultiReader]).  The theorems
    say that all of this is [Conn.ReadFull] on the two streams put together. *)

From S2P Require Import Prelude Bytes Conn Router.

(** A socket: the bytes to come, how many of them each read finds (at least one),
    and the error that ends them. *)
Record socket := { sk_data : bytes; sk_chunks : list nat; sk_end : error }.

Definition EOF : error := Sentinel "EOF".
Definition ErrUnexpectedEOF : error := Sentinel "unexpected EOF".

#[export] Instance error_eq_dec : EqDecision error.
Proof. solve_decision. Defined.

(** [Read] into a buffer of [n] bytes: what it put there, and its error. *)
Definition socket_Read (n : nat) (s : socket) : bytes * option error * socket :=
  match n, sk_data s with
  | O, _ => ([], None, s)
  | _, [] => ([], Some (sk_end s), s)
  | _, _ =>
      let k := Nat.min n (S (hd O (sk_chunks s))) in
      (take k (sk_data s), None,
       {| sk_data := drop k (sk_data s); sk_chunks := tl (sk_chunks s); sk_end := sk_end s |})
  end.

Record byteReader := { br_data : bytes; br_pos : nat }.

Definition bytesReader (data : bytes) : byteReader := {| br_data := data; br_pos := 0 |}.

Definition byteReader_Read (n : nat) (r : byteReader) : bytes * option error * byteReader :=
  if (length (br_data r) <=? br_pos r)%nat then ([], Some EOF, r)
  else
    let got := take n (drop (br_pos r) (br_data r)) in
    (got, None, {| br_data := br_data r; br_pos := br_pos r + length got |}).

Inductive reader := FromBytes (r : byteReader) | FromSocket (s : socket).

Definition Read (n : nat) (r : reader) : bytes * option error * reader :=
  match r with
  | FromBytes r => let '(b, e, r) := byteReader_Read n r in (b, e, FromBytes r)
  | FromSocket s => let '(b, e, s) := socket_Read n s in (b, e, FromSocket s)
  end.

(** [io.MultiReader] of readers that are not multi-readers themselves. *)
Fixpoint MultiReader_Read (n : nat) (rs : list reader) : bytes * option error * list reader :=
  match rs with
  | [] => ([], Some EOF, [])
  | r :: rest =>
      let '(b, e, r) := Read n r in
      if decide (e = Some EOF) then
        match b with
        | [] => MultiReader_Read n rest
        | _ => (b, match rest with [] => Some EOF | _ => None end, rest)
        end
      else (b, e, r :: rest)
  end.

(** [readWriteConn]: its reads are those of the multi-reader, its writes those of
    the connection. *)
Record readWriteConn := { rw_Reader : list reader; rw_Conn : conn }.

Definition readWriteConn_Read (n : nat) (rw : readWriteConn) : bytes * option error * readWriteConn :=
  let '(b, e, rs) := MultiReader_Read n (rw_Reader rw) in
  (b, e, {| rw_Reader := rs; rw_Conn := rw_Conn rw |}).

Definition readWriteConn_Write (b : bytes) : IO readWriteConn unit := λ rw,
  let '(r, c) := Write b (rw_Conn rw) in (r, {| rw_Reader := rw_Reader rw; rw_Conn := c |}).

(** The loop of [io.ReadAtLeast]: [need] bytes are missing.  A read that gives no
    byte ends it, so [need] rounds are enough. *)
Fixpoint read_loop (fuel : nat) (need : nat) (acc : bytes) (rw : readWriteConn)
    : res bytes * readWriteConn :=
  match need, fuel with
  | O, _ => (Ok acc, rw)
  | _, O => (Panic, rw)
  | _, S fuel =>
      let '(b, e, rw) := readWriteConn_Read need rw in
      let acc := acc ++ b in
      match e with
      | None => read_loop fuel (need - length b) acc rw
      | Some e =>
          if (need <=? length b)%nat then (Ok acc, rw)
          else (Err (match acc with [] => e | _ => if decide (e = EOF) then ErrUnexpectedEOF else e end), rw)
      end
  end.

(** [io.ReadFull] into a buffer of [n] bytes. *)
Definition io_ReadFull (n : Z) (rw : readWriteConn) : res bytes * readWriteConn :=
  read_loop (Z.to_nat n) (Z.to_nat n) [] rw.

(** The first step of [Route], as it runs on the connection it is given. *)
Definition Route_read_frame : IO readWriteConn bytes :=
  sizeBuf ← wrap "reading frame size" (io_ReadFull 4);
  size ← pure (Uint32 sizeBuf);
  let frameSize := int32 size in
  if frameSize <=? 0 then fail (Errorf "invalid frame size")
  else
    frameData ← wrap "reading frame data" (_ ← pure (make_bytes frameSize); io_ReadFull frameSize);
    buf ← pure (make_bytes (int32 (4 + frameSize)));
    mret (copy_at (copy_at buf 0 (be32 (uint32 frameSize))) 4 frameData).

(** ** What a reader has left *)

Definition left_in (r : reader) : bytes :=
  match r with
  | FromBytes r => drop (br_pos r) (br_data r)
  | FromSocket s => sk_data s
  end.

Definition contents (rs : list reader) : bytes := concat (map left_in rs).

(** A socket can only be the last reader: what follows one that fails is lost. *)
Fixpoint socket_last (rs : list reader) : Prop :=
  match rs with
  | FromSocket _ :: (_ :: _) => False
  | _ :: rs => socket_last rs
  | [] => True
  end.

Lemma socket_last_tail r rs : socket_last (r :: rs) → socket_last rs.
Proof. by destruct r, rs. Qed.

Lemma socket_last_head r r' rs :
  (∀ s, r' = FromSocket s → ∃ s', r = FromSocket s') → socket_last (r :: rs) → socket_last (r' :: rs).
Proof.
  intros Hr. destruct rs as [|r2 rs]; [by destruct r'|]. destruct r as [b|s]; [|done].
  destruct r' as [b'|s']; [done|]. by destruct (Hr s' eq_refl).
Qed.

(** A read gives a piece of what is left, or an error when nothing is. *)
Definition read_ok (n : nat) (old new b : bytes) (e : option error) : Prop :=
  old = b ++ new ∧
  match e with
  | None => (0 < length b ≤ n)%nat
  | Some _ => b = [] ∧ old = []
  end.

Lemma Read_ok n r b e r' :
  (0 < n)%nat → Read n r = (b, e, r') →
  read_ok n (left_in r) (left_in r') b e ∧ (∀ s, r' = FromSocket s → ∃ s', r = FromSocket s').
Proof.
  intros Hn. destruct r as [r|s]; cbn [Read].
  - unfold byteReader_Read. destruct (Nat.leb_spec (length (br_data r)) (br_pos r)) as [Hl|Hl]; intros [= <- <- <-].
    + cbn. rewrite drop_ge by done. by split.
    + split; [|done]. split; cbn [left_in br_pos br_data].
      * rewrite <- drop_drop, length_take. generalize (drop (br_pos r) (br_data r)). intros d.
        rewrite <- (take_drop n d) at 1. f_equal. destruct (Nat.min_spec n (length d)) as [[? ->]|[? ->]]; [done|].
        by rewrite !drop_ge by lia.
      * rewrite length_take, length_drop. lia.
  - unfold socket_Read. destruct n as [|n]; [lia|]. destruct (sk_data s) as [|x l] eqn:Hd; intros [= <- <- <-].
    + cbn. rewrite Hd. split; [done|]. intros s' _. by exists s.
    + split; [|intros s' _; by exists s]. cbn [left_in sk_data]. rewrite Hd. split; [cbn; by rewrite take_drop|].
      cbn [length Nat.min take hd]. rewrite length_take. lia.
Qed.

Lemma MultiReader_Read_ok n rs b e rs' :
  (0 < n)%nat → socket_last rs → MultiReader_Read n rs = (b, e, rs') →
  read_ok n (contents rs) (contents rs') b e ∧ socket_last rs'.
Proof.
  intros Hn. revert b e rs'. induction rs as [|r rs IH]; intros b e rs' Hs; cbn [MultiReader_Read].
  { by intros [= <- <- <-]. }
  destruct (Read n r) as [[b1 e1] r1] eqn:Hr. destruct (Read_ok n r b1 e1 r1 Hn Hr) as [[Hold He] Hk].
  case_decide as Heof; [subst e1; destruct He as [-> Hnil]|].
  - intros H. unfold contents; cbn [map concat]. fold (contents rs). rewrite Hnil.
    apply IH; [by eapply socket_last_tail|done].
  - intros [= <- <- <-]. unfold contents; cbn [map concat]. fold (contents rs). split.
    + split; [by rewrite Hold, app_assoc|]. destruct e1 as [e1|]; [|done]. destruct He as [-> Hnil].
      rewrite Hnil. destruct r as [r|s]; [|destruct rs; [done|done]].
      exfalso. cbn [Read] in Hr. unfold byteReader_Read in Hr. by destruct (_ <=? _)%nat; simplify_eq.
    + by eapply socket_last_head.
Qed.

(** The connection a reader stands for. *)
Definition as_conn (rw : readWriteConn) : conn :=
  {| cn_in := contents (rw_Reader rw); cn_out := cn_out (rw_Conn rw); cn_writes := cn_writes (rw_Conn rw) |}.

Lemma read_loop_ok fuel need acc rw r rw' :
  (need ≤ fuel)%nat → socket_last (rw_Reader rw) → read_loop fuel need acc rw = (r, rw') →
  socket_last (rw_Reader rw') ∧ rw_Conn rw' = rw_Conn rw ∧
  if decide (need ≤ length (contents (rw_Reader rw)))%nat then
    r = Ok (acc ++ take need (contents (rw_Reader rw))) ∧
    contents (rw_Reader rw') = drop need (contents (rw_Reader rw))
  else (∃ e, r = Err e) ∧ contents (rw_Reader rw') = [].
Proof.
  revert need acc rw. induction fuel as [|fuel IH]; intros [|need] acc rw Hf Hs; try lia.
  1-2: cbn [read_loop]; intros [= <- <-]; rewrite decide_True by lia; rewrite app_nil_r; by split_and!.
  cbn [read_loop]. unfold readWriteConn_Read.
  destruct (MultiReader_Read (S need) (rw_Reader rw)) as [[b e] rs] eqn:Hr.
  apply MultiReader_Read_ok in Hr as [[Hold He] Hs']; [|lia|done].
  destruct e as [e|].
  - destruct He as [-> Hnil]. cbn [length Nat.leb]. rewrite Hnil in Hold |- *. cbn [app] in Hold.
    intros [= <- <-]. cbn [rw_Reader rw_Conn length]. rewrite decide_False by lia.
    rewrite <- Hold. by split_and!; [..|eexists|].
  - intros H. apply IH in H as (H1 & H2 & H3); [|lia|done]. cbn [rw_Reader rw_Conn] in *.
    split; [done|]. split; [done|]. rewrite Hold, length_app.
    repeat case_decide; try lia; [|done]. destruct H3 as [-> ->]. rewrite <- app_assoc. split.
    + by rewrite take_app_ge by lia.
    + by rewrite drop_app_ge by lia.
Qed.

(** ** Programs *)

(** The same outcome, whatever the text of the error. *)
Definition same_outcome {A} (r r' : res A) : Prop :=
  match r, r' with
  | Ok a, Ok b => a = b
  | Err _, Err _ => True
  | Panic, Panic => True
  | _, _ => False
  end.

(** A program over a [readWriteConn] that does what [m'] does over the connection
    it stands for. *)
Definition refines {A} (m : IO readWriteConn A) (m' : IO conn A) : Prop :=
  ∀ rw, socket_last (rw_Reader rw) →
    same_outcome (fst (m rw)) (fst (m' (as_conn rw))) ∧ as_conn (snd (m rw)) = snd (m' (as_conn rw)) ∧
    socket_last (rw_Reader (snd (m rw))).

Lemma refines_pure {A} (r : res A) : refines (pure r) (pure r).
Proof. intros rw Hs. by destruct r. Qed.

Lemma refines_bind {A B} (m : IO readWriteConn A) m' (f : A → IO readWriteConn B) f' :
  refines m m' → (∀ a, refines (f a) (f' a)) → refines (m ≫= f) (m' ≫= f').
Proof.
  intros Hm Hf rw Hs. destruct (Hm rw Hs) as (H1 & H2 & H3). unfold mbind, IO_bind.
  destruct (m rw) as [[a|e|] rw1], (m' (as_conn rw)) as [[a'|e'|] c1]; cbn in *; try done.
  subst. by apply Hf.
Qed.

Lemma refines_wrap {A} msg (m : IO readWriteConn A) m' : refines m m' → refines (wrap msg m) (wrap msg m').
Proof.
  intros Hm rw Hs. destruct (Hm rw Hs) as (H1 & H2 & H3). unfold wrap.
  by destruct (m rw) as [[a|e|] rw1], (m' (as_conn rw)) as [[a'|e'|] c1].
Qed.

Lemma refines_ReadFull n : refines (io_ReadFull n) (ReadFull n).
Proof.
  intros rw Hs. unfold io_ReadFull, ReadFull.
  destruct (read_loop _ _ _ _) as [r rw'] eqn:Hl. apply read_loop_ok in Hl as (H1 & H2 & H3); [|done..].
  cbn [fst snd as_conn cn_in cn_out cn_writes]. unfold blen.
  case_decide as Hd; [rewrite (proj2 (Z.ltb_ge _ _)) by lia|rewrite (proj2 (Z.ltb_lt _ _)) by lia].
  - destruct H3 as [-> H3]. split; [done|]. split; [|done]. unfold as_conn. by rewrite H2, H3.
  - destruct H3 as [[e ->] H3]. split; [done|]. split; [|done]. unfold as_conn. by rewrite H2, H3.
Qed.

Lemma refines_Write b : refines (readWriteConn_Write b) (Write b).
Proof.
  intros [rs c] Hs. unfold readWriteConn_Write, Write, as_conn. cbn in *.
  destruct (cn_writes c) as [[|n]|] eqn:Hw; cbn; rewrite ?Hw; by split_and!.
Qed.

(** ** Properties *)

(** C16: reading through the wrappers.  A handler that has read [first] from a
    client and hands the rest of the connection on behind it gives [Route] the
    stream it would have seen on its own: however the sockets cut the bytes, the
    loop of [io.ReadFull] ends and gets exactly the bytes [Conn.ReadFull] gets
    from [first] and the stream together, or fails when they run out; what
    [Route] takes for the request frame is what [Router.read_frame] takes; writes
    go to the client. *)
Theorem Route_reads_prepended :
  (∀ n, refines (io_ReadFull n) (ReadFull n)) ∧ (∀ b, refines (readWriteConn_Write b) (Write b)) ∧
  refines Route_read_frame read_frame ∧
  ∀ first s c, let rw := {| rw_Reader := [FromBytes (bytesReader first); FromSocket s]; rw_Conn := c |} in
    socket_last (rw_Reader rw) ∧
    as_conn rw = {| cn_in := first ++ sk_data s; cn_out := cn_out c; cn_writes := cn_writes c |}.
Proof.
  split; [exact refines_ReadFull|]. split; [exact refines_Write|]. split.
  - unfold Route_read_frame, read_frame, read_make.
    apply refines_bind; [apply refines_wrap, refines_ReadFull|]. intros sizeBuf.
    apply refines_bind; [apply refines_pure|]. intros size. cbv zeta.
    destruct (int32 size <=? 0); [by intros rw Hs|].
    apply refines_bind.
    + apply refines_wrap, refines_bind; [apply refines_pure|]. intros _. apply refines_ReadFull.
    + intros data. apply refines_bind; [apply refines_pure|]. intros buf. by intros rw Hs.
  - intros first s c rw. split; [done|]. unfold as_conn, contents. cbn. by rewrite app_nil_r.
Qed.

(** ** Witnesses *)

(** A Produce request, nine bytes of which were read before, from a socket that
    hands out one byte, then four, then two, and then one at a time. *)
Definition prepended : readWriteConn :=
  {| rw_Reader := [FromBytes (bytesReader (take 9 sample_request));
                   FromSocket {| sk_data := drop 9 sample_request; sk_chunks := [0; 3; 1]%nat;
                                 sk_end := Errorf "connection reset" |}];
     rw_Conn := {| cn_in := []; cn_out := []; cn_writes := None |} |}.

Lemma Route_reads_prepended_witness :
  socket_last (rw_Reader prepended) ∧
  same_outcome (fst (Route_read_frame prepended)) (Ok sample_request).
Proof.
  assert (H : socket_last (rw_Reader prepended)) by exact I. split; [exact H|].
  destruct (proj1 (proj2 (proj2 Route_reads_prepended)) prepended H) as (Hr & _ & _).
  assert (E : fst (read_frame (as_conn prepended)) = Ok sample_request) by (vm_compute; reflexivity).
  rewrite E in Hr. exact Hr.
Defined.
