(* ===== verification/DrainThreads.v ===== *)
(** * The drain manager under concurrency ([internal/proxy/drain.go])

    [Drain] runs each operation alone; here the goroutines that use the drain
    manager for one BU interleave: connection handlers in [Register] and
    [Unregister], the timers of drains in [forceCloseOld], and [StartDrain].  A
    step is an atomic counter operation or a section under one lock.  A timer is
    armed, stopped or fired: [Stop] has no effect on one that has fired, whose
    goroutine goes on. *)

From S2P Require Import Prelude Config Drain.

Inductive timer := Armed | Stopped | Fired.

Record shared := {
  dt_tracker : option buConnTracker;
  dt_drain : option (buDrain * nat);  (* with the timer of the drain *)
  dt_timers : list timer;
  dt_closed : list (string * trackedConn);  (* with the side that was drained *)
  dt_done : list (string * string)  (* the sides given to the callbacks *)
}.

Inductive place :=
  (* Register *)
  | RStart (conn : nat) (target : string) | RId (conn : nat) (target : string)
  | RCount (tc : trackedConn) | RInsert (tc : trackedConn) | RDone (id : Z)
  (* Unregister *)
  | UStart (id : Z) | ULock (id : Z) | UDone
  (* the timer of a drain, and forceCloseOld *)
  | TWait (i : nat) (old : string) | TFind (old : string) | TCollect (old : string)
  | TClose (old : string) (l : list trackedConn) | TCount (old : string) (l : list trackedConn)
  | TEnd (old : string) | TFire (old : string) (d : option buDrain) | TDone.

Definition the_tracker (sh : shared) : buConnTracker := default new_tracker (dt_tracker sh).

Definition set_tracker (t : buConnTracker) (sh : shared) : shared :=
  {| dt_tracker := Some t; dt_drain := dt_drain sh; dt_timers := dt_timers sh;
     dt_closed := dt_closed sh; dt_done := dt_done sh |}.
Definition set_conns (m : gmap Z trackedConn) (t : buConnTracker) : buConnTracker :=
  {| bt_count := bt_count t; bt_conns := m; bt_nextID := bt_nextID t |}.
Definition add_count (n : Z) (t : buConnTracker) : buConnTracker :=
  {| bt_count := bt_count t + n; bt_conns := bt_conns t; bt_nextID := bt_nextID t |}.
Definition set_nextID (n : Z) (t : buConnTracker) : buConnTracker :=
  {| bt_count := bt_count t; bt_conns := bt_conns t; bt_nextID := n |}.
Definition set_drain (d : option (buDrain * nat)) (sh : shared) : shared :=
  {| dt_tracker := dt_tracker sh; dt_drain := d; dt_timers := dt_timers sh;
     dt_closed := dt_closed sh; dt_done := dt_done sh |}.
Definition set_timers (l : list timer) (sh : shared) : shared :=
  {| dt_tracker := dt_tracker sh; dt_drain := dt_drain sh; dt_timers := l;
     dt_closed := dt_closed sh; dt_done := dt_done sh |}.
Definition add_closed (old : string) (tc : trackedConn) (sh : shared) : shared :=
  {| dt_tracker := dt_tracker sh; dt_drain := dt_drain sh; dt_timers := dt_timers sh;
     dt_closed := dt_closed sh ++ [(old, tc)]; dt_done := dt_done sh |}.
Definition add_done (p : string * string) (sh : shared) : shared :=
  {| dt_tracker := dt_tracker sh; dt_drain := dt_drain sh; dt_timers := dt_timers sh;
     dt_closed := dt_closed sh; dt_done := dt_done sh ++ [p] |}.

Definition drain_thread_step (t : place) (sh : shared) : option (place * shared) :=
  let tr := the_tracker sh in
  match t with
  | RStart conn target => Some (RId conn target, set_tracker tr sh)
  | RId conn target =>
      let id := uint64 (bt_nextID tr + 1) in
      Some (RCount {| tc_id := id; tc_conn := conn; tc_target := target |},
            set_tracker (set_nextID id tr) sh)
  | RCount tc => Some (RInsert tc, set_tracker (add_count 1 tr) sh)
  | RInsert tc => Some (RDone (tc_id tc), set_tracker (set_conns (<[tc_id tc := tc]> (bt_conns tr)) tr) sh)
  | RDone _ => None
  | UStart id => match dt_tracker sh with None => Some (UDone, sh) | Some _ => Some (ULock id, sh) end
  | ULock id =>
      match bt_conns tr !! id with
      | None => Some (UDone, sh)
      | Some _ => Some (UDone, set_tracker (add_count (-1) (set_conns (delete id (bt_conns tr)) tr)) sh)
      end
  | UDone => None
  | TWait i old =>
      match dt_timers sh !! i with
      | Some Armed => Some (TFind old, set_timers (<[i := Fired]> (dt_timers sh)) sh)
      | _ => None
      end
  | TFind old => match dt_tracker sh with None => Some (TEnd old, sh) | Some _ => Some (TCollect old, sh) end
  | TCollect old =>
      let toClose := map snd (map_to_list (filter (λ '(_, tc), tc_target tc = old) (bt_conns tr))) in
      Some (TClose old toClose, set_tracker (set_conns (foldr delete (bt_conns tr) (map tc_id toClose)) tr) sh)
  | TClose old (tc :: l) => Some (TCount old l, add_closed old tc sh)
  | TClose old [] => Some (TEnd old, sh)
  | TCount old l => Some (TClose old l, set_tracker (add_count (-1) tr) sh)
  | TEnd old => Some (TFire old (fst <$> dt_drain sh), set_drain None sh)
  | TFire old d =>
      Some (TDone, add_done (old, match d with Some d => bd_NewActive d | None => ""%string end) sh)
  | TDone => None
  end.

(** [timer.Stop()] *)
Definition stop_timer (i : nat) (l : list timer) : list timer :=
  match l !! i with Some Armed => <[i := Stopped]> l | _ => l end.

(** [StartDrain], one section under the manager's lock, with the goroutine of its
    timer. *)
Definition start_drain (defaultTimeout : duration) (now : time) (oldActive newActive : string)
    (timeout : duration) (sh : shared) : place * shared :=
  let timeout := if timeout <=? 0 then defaultTimeout else timeout in
  let timers := match dt_drain sh with
                | Some (_, i) => stop_timer i (dt_timers sh)
                | None => dt_timers sh
                end in
  let drain := {| bd_OldActive := oldActive; bd_NewActive := newActive; bd_StartedAt := now;
                  bd_timer := now + timeout |} in
  (TWait (length timers) oldActive,
   set_drain (Some (drain, length timers)) (set_timers (timers ++ [Armed]) sh)).

(** Goroutines take their steps in any order; a handler starts with [Register] or
    [Unregister], a config change with [StartDrain]. *)
Inductive step (defaultTimeout : duration) : list place * shared → list place * shared → Prop :=
  | step_run ts sh i t t' sh' :
      ts !! i = Some t → drain_thread_step t sh = Some (t', sh') →
      step defaultTimeout (ts, sh) (<[i := t']> ts, sh')
  | step_register ts sh conn target
      : step defaultTimeout (ts, sh) (ts ++ [RStart conn target], sh)
  | step_unregister ts sh id : step defaultTimeout (ts, sh) (ts ++ [UStart id], sh)
  | step_drain ts sh now old new timeout t sh' :
      start_drain defaultTimeout now old new timeout sh = (t, sh') →
      step defaultTimeout (ts, sh) (ts ++ [t], sh').

Definition no_drains : list place * shared :=
  ([], {| dt_tracker := None; dt_drain := None; dt_timers := []; dt_closed := []; dt_done := [] |}).

(** ** What a goroutine accounts for *)

(** Its share of the count that no tracked connection accounts for... *)
Definition counts (t : place) : nat :=
  match t with RInsert _ => 1 | TClose _ l => length l | TCount _ l => S (length l) | _ => 0 end.

(** ... and the ids only it knows. *)
Definition own_ids (t : place) : list Z :=
  match t with
  | RCount tc | RInsert tc => [tc_id tc]
  | TClose _ l | TCount _ l => map tc_id l
  | _ => []
  end.

(** The connections it will close are on the side it drains. *)
Definition on_side (t : place) : Prop :=
  match t with TClose old l | TCount old l => Forall (λ tc, tc_target tc = old) l | _ => True end.

Definition keys (m : gmap Z trackedConn) : list Z := map fst (map_to_list m).

(** The invariant as one goroutine sees it: [rest] and [k] are the ids and the
    count of the others, [n] bounds the steps so far. *)
Definition local_inv (n : Z) (rest : list Z) (k : nat) (t : place) (sh : shared) : Prop :=
  let tr := the_tracker sh in
  let all := keys (bt_conns tr) ++ own_ids t ++ rest ++ map (tc_id ∘ snd) (dt_closed sh) in
  0 ≤ bt_nextID tr ≤ n ∧ bt_count tr = Z.of_nat (size (bt_conns tr) + counts t + k) ∧
  NoDup all ∧ Forall (λ id, 0 < id ≤ bt_nextID tr) all ∧
  (∀ id tc, bt_conns tr !! id = Some tc → tc_id tc = id) ∧ on_side t ∧
  Forall (λ '(old, tc), tc_target tc = old) (dt_closed sh).

(** *** Lists of keys *)

Lemma keys_insert m id tc : m !! id = None → keys (<[id := tc]> m) ≡ₚ id :: keys m.
Proof. intros Hm. unfold keys. by rewrite map_to_list_insert. Qed.

Lemma keys_delete m id tc : m !! id = Some tc → keys m ≡ₚ id :: keys (delete id m).
Proof.
  intros Hm. rewrite <- (insert_delete_id m id tc Hm) at 1. apply keys_insert.
  apply lookup_delete_None. by left.
Qed.

Lemma elem_of_keys m id : id ∈ keys m ↔ is_Some (m !! id).
Proof.
  unfold keys. rewrite list_elem_of_fmap. split.
  - intros ([id' tc] & -> & Hin%elem_of_map_to_list). eauto.
  - intros [tc Hm]. exists (id, tc). by rewrite elem_of_map_to_list.
Qed.

Lemma length_keys m : length (keys m) = size m.
Proof. unfold keys. by rewrite length_map, length_map_to_list. Qed.

Lemma NoDup_keys m : NoDup (keys m).
Proof. apply NoDup_fst_map_to_list. Qed.

(** A drain splits the ids by side. *)
Lemma keys_sides old m :
  keys m ≡ₚ keys (filter (λ '(_, tc), tc_target tc = old) m) ++
            keys (filter (λ '(_, tc), tc_target tc ≠ old) m).
Proof.
  apply NoDup_Permutation; [apply NoDup_keys| |].
  - apply list.NoDup_app. split; [apply NoDup_keys|]. split; [|apply NoDup_keys].
    intros id [tc [Hm Hp]%map_lookup_filter_Some]%elem_of_keys
      [tc' [Hm' Hp']%map_lookup_filter_Some]%elem_of_keys. by simplify_eq.
  - intros id. rewrite elem_of_app, !elem_of_keys. unfold is_Some.
    setoid_rewrite map_lookup_filter_Some. split; [|naive_solver].
    intros [tc Hm]. destruct (decide (tc_target tc = old)); eauto.
Qed.

(** The ids of a map's connections, where ids are keys. *)
Lemma ids_are_keys m :
  (∀ id tc, m !! id = Some tc → tc_id tc = id) → map tc_id (map snd (map_to_list m)) = keys m.
Proof.
  intros Hids. rewrite map_map. apply map_ext_in. intros [id tc] Hin.
  apply Hids. by apply elem_of_map_to_list, list_elem_of_In.
Qed.

Definition all_ids (rest : list Z) (t : place) (sh : shared) : list Z :=
  keys (bt_conns (the_tracker sh)) ++ own_ids t ++ rest ++ map (tc_id ∘ snd) (dt_closed sh).

(** A step that moves the ids around, or drops some. *)
Lemma drain_local_perm dropped n rest k t sh t' sh' :
  local_inv n rest k t sh →
  all_ids rest t sh ≡ₚ dropped ++ all_ids rest t' sh' →
  bt_nextID (the_tracker sh') = bt_nextID (the_tracker sh) →
  bt_count (the_tracker sh') = Z.of_nat (size (bt_conns (the_tracker sh')) + counts t' + k) →
  (∀ id tc, bt_conns (the_tracker sh') !! id = Some tc → tc_id tc = id) → on_side t' →
  Forall (λ '(old, tc), tc_target tc = old) (dt_closed sh') →
  local_inv (n + 1) rest k t' sh'.
Proof.
  intros (Hn & Hc & Hnd & Hall & Hk & Ho & Hcl) Hp Hnext Hc' Hk' Ho' Hcl'.
  change (NoDup (all_ids rest t sh)) in Hnd.
  change (Forall (λ id, 0 < id ≤ bt_nextID (the_tracker sh)) (all_ids rest t sh)) in Hall.
  rewrite Hp in Hnd, Hall. apply list.NoDup_app in Hnd as (_ & _ & Hnd).
  apply list.Forall_app in Hall as [_ Hall]. unfold local_inv. rewrite Hnext.
  split_and!; try done; lia.
Qed.

Lemma the_tracker_set t sh : the_tracker (set_tracker t sh) = t.
Proof. done. Qed.

Ltac by_ids dropped := eapply (drain_local_perm dropped); [eassumption|..]; try done.

Lemma new_id_inv n rest k conn target sh :
  n + 1 < 2 ^ 64 → local_inv n rest k (RId conn target) sh →
  let id := uint64 (bt_nextID (the_tracker sh) + 1) in
  local_inv (n + 1) rest k (RCount {| tc_id := id; tc_conn := conn; tc_target := target |})
    (set_tracker (set_nextID id (the_tracker sh)) sh).
Proof.
  intros Hbound (Hn & Hc & Hnd & Hall & Hk & Ho & Hcl). unfold uint64, wrapU. rewrite Z.mod_small by lia.
  unfold local_inv. cbn -[Z.of_nat] in *. split; [lia|]. split; [done|].
  rewrite <- (Permutation_middle (keys _) (rest ++ _)). split_and!; try done.
  - apply list.NoDup_cons. split; [|done]. intros Hin.
    rewrite list.Forall_forall in Hall. apply Hall in Hin. lia.
  - constructor; [lia|]. eapply list.Forall_impl; [exact Hall|]. cbn. lia.
Qed.

Lemma insert_conn_inv n rest k tc sh :
  local_inv n rest k (RInsert tc) sh →
  local_inv (n + 1) rest k (RDone (tc_id tc))
    (set_tracker (set_conns (<[tc_id tc := tc]> (bt_conns (the_tracker sh))) (the_tracker sh)) sh).
Proof.
  intros Hi. pose proof Hi as (_ & Hc & Hnd & _ & Hk & _). cbn -[Z.of_nat] in *.
  assert (bt_conns (the_tracker sh) !! tc_id tc = None) as Hfresh.
  { apply eq_None_not_Some. rewrite <- elem_of_keys. intros Hin.
    apply list.NoDup_app in Hnd as (_ & Hd & _). eapply Hd; [exact Hin|set_solver]. }
  by_ids (@nil Z); cbn -[Z.of_nat]; try apply Hi.
  - unfold all_ids. cbn. rewrite keys_insert by done. cbn. by rewrite <- Permutation_middle.
  - rewrite map_size_insert_None by done. lia.
  - intros id tc'. rewrite lookup_insert_Some. naive_solver.
Qed.

Lemma delete_conn_inv n rest k id tc sh :
  bt_conns (the_tracker sh) !! id = Some tc → local_inv n rest k (ULock id) sh →
  local_inv (n + 1) rest k UDone
    (set_tracker (add_count (-1) (set_conns (delete id (bt_conns (the_tracker sh))) (the_tracker sh))) sh).
Proof.
  intros E Hi. pose proof Hi as (_ & Hc & _ & _ & Hk & _). by_ids [id]; cbn -[Z.of_nat] in *; try apply Hi.
  - unfold all_ids. cbn. by rewrite (keys_delete _ _ _ E).
  - rewrite map_size_delete_Some by eauto.
    assert (size (bt_conns (the_tracker sh)) ≠ 0%nat); [|lia].
    apply map_size_ne_0_lookup. eauto.
  - intros id' tc' [_ Hl]%lookup_delete_Some. by apply Hk.
Qed.

Lemma collect_inv n rest k old sh :
  local_inv n rest k (TCollect old) sh →
  let conns := bt_conns (the_tracker sh) in
  let toClose := map snd (map_to_list (filter (λ '(_, tc), tc_target tc = old) conns)) in
  local_inv (n + 1) rest k (TClose old toClose)
    (set_tracker (set_conns (foldr delete conns (map tc_id toClose)) (the_tracker sh)) sh).
Proof.
  intros Hi conns toClose. pose proof Hi as (_ & Hc & _ & _ & Hk & _). fold conns in Hc, Hk.
  pose proof (keys_sides old conns) as Hp. unfold toClose. rewrite kept_filter by done.
  assert (Hkf : ∀ P `{∀ x, Decision (P x)} id tc, filter P conns !! id = Some tc → tc_id tc = id).
  { intros P ? id tc [Hl _]%map_lookup_filter_Some. by apply Hk. }
  by_ids (@nil Z); cbn -[Z.of_nat] in *; try apply Hi.
  - unfold all_ids. cbn. rewrite ids_are_keys by apply Hkf. fold conns. rewrite Hp at 1.
    rewrite <- app_assoc, (Permutation_app_swap_app (keys _) (keys _)). done.
  - apply Permutation_length in Hp. rewrite length_app, !length_keys in Hp.
    rewrite !length_map, length_map_to_list. lia.
  - apply Hkf.
  - apply list.Forall_forall. intros tc ([id tc'] & -> & Hin)%list_elem_of_fmap.
    by apply elem_of_map_to_list, map_lookup_filter_Some in Hin as [_ Ht].
Qed.

Lemma close_one_inv n rest k old tc l sh :
  local_inv n rest k (TClose old (tc :: l)) sh →
  local_inv (n + 1) rest k (TCount old l) (add_closed old tc sh).
Proof.
  intros Hi. pose proof Hi as (_ & _ & _ & _ & _ & [Ho1 Ho2]%list.Forall_cons & Hcl).
  by_ids (@nil Z); cbn -[Z.of_nat] in *; try apply Hi.
  - unfold all_ids. cbn. rewrite map_app. cbn. solve_Permutation.
  - apply list.Forall_app. split; [done|]. by constructor.
Qed.

Lemma drain_thread_inv n rest k t sh t' sh' :
  n + 1 < 2 ^ 64 → drain_thread_step t sh = Some (t', sh') →
  local_inv n rest k t sh → local_inv (n + 1) rest k t' sh'.
Proof.
  intros Hbound Hst Hi. pose proof Hi as (Hn & Hc & _).
  destruct t as [conn target|conn target|tc|tc|id|id|id| |i old|old|old|old [|tc l]|old l|old|old d| ];
    cbn [drain_thread_step] in Hst; try done;
    try (repeat case_match; simplify_eq; by_ids (@nil Z); by apply Hi).
  - simplify_eq. by apply new_id_inv.
  - simplify_eq. by_ids (@nil Z); try apply Hi. cbn -[Z.of_nat] in *. lia.
  - simplify_eq. by apply insert_conn_inv.
  - destruct (bt_conns (the_tracker sh) !! id) as [tc|] eqn:E; simplify_eq.
    + by eapply delete_conn_inv.
    + by_ids (@nil Z); apply Hi.
  - simplify_eq. by apply collect_inv.
  - simplify_eq. by apply close_one_inv.
  - simplify_eq. by_ids (@nil Z); try apply Hi. cbn -[Z.of_nat] in *. lia.
Qed.

(** ** All goroutines *)

(** The ids the tracker has handed out, and the goroutines that hold them. *)
Definition issued (t : place) : list Z :=
  match t with RCount tc | RInsert tc => [tc_id tc] | RDone id => [id] | _ => [] end.

Definition drain_inv (n : Z) (c : list place * shared) : Prop :=
  let '(ts, sh) := c in
  let tr := the_tracker sh in
  let all := keys (bt_conns tr) ++ concat (map own_ids ts) ++ map (tc_id ∘ snd) (dt_closed sh) in
  0 ≤ bt_nextID tr ≤ n ∧ bt_count tr = Z.of_nat (size (bt_conns tr) + sum_list_with counts ts) ∧
  NoDup all ∧ Forall (λ id, 0 < id ≤ bt_nextID tr) all ∧
  (∀ id tc, bt_conns tr !! id = Some tc → tc_id tc = id) ∧ Forall on_side ts ∧
  Forall (λ '(old, tc), tc_target tc = old) (dt_closed sh).

Lemma drain_inv_local n i t ts sh :
  ts !! i = Some t →
  drain_inv n (ts, sh) ↔
  local_inv n (concat (map own_ids (others i ts))) (sum_list_with counts (others i ts)) t sh ∧
  Forall on_side (others i ts).
Proof.
  intros Hi. unfold drain_inv, local_inv.
  rewrite (concat_others own_ids i t ts Hi), (sum_others counts i t ts Hi),
    (Forall_others on_side i t ts Hi), <- !app_assoc, Nat.add_assoc. tauto.
Qed.

Lemma drain_inv_le n m c : n ≤ m → drain_inv n c → drain_inv m c.
Proof. destruct c as [ts sh]. intros Hle (H1 & H). split; [lia|done]. Qed.

Lemma drain_inv_spawn n ts sh t :
  own_ids t = [] → counts t = 0%nat → on_side t → drain_inv n (ts, sh) → drain_inv n (ts ++ [t], sh).
Proof.
  intros Ho Hc Ht (H1 & H2 & H3 & H4 & H5 & H6 & H7). unfold drain_inv.
  rewrite map_app, concat_app, sum_list_with_app. cbn [map concat sum_list_with foldr].
  rewrite Ho, !app_nil_r. split; [done|]. split; [cbn; lia|]. do 3 (split; [done|]). split; [|done].
  apply list.Forall_app. split; [done|]. by constructor.
Qed.

Section Threads.
Context (defaultTimeout : duration).

Lemma drain_inv_step n c c' :
  n + 1 < 2 ^ 64 → step defaultTimeout c c' → drain_inv n c → drain_inv (n + 1) c'.
Proof.
  intros Hn [ts sh i t t' sh' Hi Hst|ts sh conn target|ts sh id|ts sh now old new timeout t sh' Hst] Hinv.
  - rewrite (drain_inv_local n i t) in Hinv by done. destruct Hinv as [Hl Ho].
    rewrite (drain_inv_local _ i t').
    2:{ rewrite list_lookup_insert_eq; [done|]. by eapply lookup_lt_Some. }
    rewrite others_insert. split; [|done]. by eapply drain_thread_inv.
  - eapply drain_inv_le; [|by apply drain_inv_spawn]. lia.
  - eapply drain_inv_le; [|by apply drain_inv_spawn]. lia.
  - eapply drain_inv_le; [|by unfold start_drain in Hst; simplify_eq; apply drain_inv_spawn]. lia.
Qed.

Lemma drain_reachable_inv n c :
  Z.of_nat n < 2 ^ 64 → nsteps (step defaultTimeout) n no_drains c → drain_inv (Z.of_nat n) c.
Proof.
  revert c. induction n as [|n IH]; intros c Hn Hs.
  - inversion Hs; subst. cbn. split_and!; try done; try constructor.
  - apply nsteps_inv_r in Hs as (c1 & Hs & Hst). replace (Z.of_nat (S n)) with (Z.of_nat n + 1) by lia.
    eapply drain_inv_step; [lia|exact Hst|]. apply IH; [lia|done].
Qed.
(** *** Ids *)

Definition issued_inv (c : list place * shared) : Prop :=
  let ids := concat (map issued c.1) in
  NoDup ids ∧ Forall (λ id, id ≤ bt_nextID (the_tracker c.2)) ids.

Lemma issued_step n t sh t' sh' :
  0 ≤ bt_nextID (the_tracker sh) ≤ n → n + 1 < 2 ^ 64 → drain_thread_step t sh = Some (t', sh') →
  (issued t' = issued t ∧ bt_nextID (the_tracker sh') = bt_nextID (the_tracker sh)) ∨
  (issued t = [] ∧ issued t' = [bt_nextID (the_tracker sh')] ∧
   bt_nextID (the_tracker sh') = bt_nextID (the_tracker sh) + 1).
Proof.
  intros Hid Hn. destruct t; cbn [drain_thread_step]; intros Hst; try done;
    repeat case_match; simplify_eq; try (by left); right.
  cbn. unfold uint64, wrapU. by rewrite Z.mod_small by lia.
Qed.

Lemma issued_inv_step n c c' :
  n + 1 < 2 ^ 64 → drain_inv n c → step defaultTimeout c c' → issued_inv c → issued_inv c'.
Proof.
  intros Hn Hinv Hst [Hnd Hle]. unfold issued_inv.
  destruct Hst as [ts sh i t t' sh' Hi Hst|ts sh conn target|ts sh id|ts sh now old new timeout t sh' Hst];
    cbn [fst snd] in *.
  1: { destruct Hinv as (Hid & _). rewrite (concat_others _ _ _ _ Hi) in Hnd, Hle.
       rewrite (concat_others _ i t'), others_insert by
         (rewrite list_lookup_insert_eq; [done|]; by eapply lookup_lt_Some).
       destruct (issued_step n _ _ _ _ Hid Hn Hst) as [[-> ->]|(Hi0 & -> & ->)]; [done|].
       rewrite Hi0 in *. cbn [app] in *. split.
       - apply list.NoDup_cons. split; [|done]. intros Hin.
         rewrite list.Forall_forall in Hle. apply Hle in Hin. lia.
       - constructor; [lia|]. eapply list.Forall_impl; [exact Hle|]. cbn. lia. }
  all: unfold start_drain in *; simplify_eq;
    rewrite map_app, concat_app; cbn; rewrite app_nil_r; done.
Qed.

Lemma issued_reachable_inv n c :
  Z.of_nat n < 2 ^ 64 → nsteps (step defaultTimeout) n no_drains c → issued_inv c.
Proof.
  revert c. induction n as [|n IH]; intros c Hn Hs.
  - inversion Hs; subst. split; constructor.
  - apply nsteps_inv_r in Hs as (c1 & Hs & Hst).
    eapply (issued_inv_step (Z.of_nat n)); [lia| |exact Hst|apply IH; [lia|done]].
    apply drain_reachable_inv; [lia|done].
Qed.

(** ** Schedules *)

Inductive event :=
  | ERun (i : nat) | ERegister (conn : nat) (target : string) | EUnregister (id : Z)
  | EDrain (now : time) (old new : string) (timeout : duration).

Definition exec (c : list place * shared) (e : event) : option (list place * shared) :=
  let '(ts, sh) := c in
  match e with
  | ERun i =>
      match ts !! i with
      | Some t => (λ '(t', sh'), (<[i := t']> ts, sh')) <$> drain_thread_step t sh
      | None => None
      end
  | ERegister conn target => Some (ts ++ [RStart conn target], sh)
  | EUnregister id => Some (ts ++ [UStart id], sh)
  | EDrain now old new timeout =>
      let '(t, sh') := start_drain defaultTimeout now old new timeout sh in Some (ts ++ [t], sh')
  end.

Fixpoint exec_all (c : list place * shared) (es : list event) : option (list place * shared) :=
  match es with
  | [] => Some c
  | e :: es => match exec c e with Some c' => exec_all c' es | None => None end
  end.

Lemma exec_step c e c' : exec c e = Some c' → step defaultTimeout c c'.
Proof.
  destruct c as [ts sh], e as [i|conn target|id|now old new timeout]; cbn [exec].
  - destruct (ts !! i) as [t|] eqn:Hi; [|done].
    destruct (drain_thread_step t sh) as [[t' sh']|] eqn:Hst; [|done]. intros [= <-].
    by eapply step_run.
  - intros [= <-]. constructor.
  - intros [= <-]. constructor.
  - destruct (start_drain _ _ _ _ _ _) as [t sh'] eqn:Hst. intros [= <-]. by econstructor.
Qed.

Lemma exec_all_nsteps es c c' :
  exec_all c es = Some c' → nsteps (step defaultTimeout) (length es) c c'.
Proof.
  revert c. induction es as [|e es IH]; intros c; cbn [exec_all length].
  - intros [= <-]. constructor.
  - destruct (exec c e) as [c1|] eqn:He; [|done]. intros Hr.
    econstructor; [by apply exec_step in He|by apply IH].
Qed.
End Threads.

(** ** One goroutine alone *)

Fixpoint alone (n : nat) (t : place) (sh : shared) : place * shared :=
  match n with
  | O => (t, sh)
  | S n =>
      match drain_thread_step t sh with
      | Some (t', sh') => alone n t' sh'
      | None => (t, sh)
      end
  end.

Lemma alone_step n t sh t' sh' :
  drain_thread_step t sh = Some (t', sh') → alone (S n) t sh = alone n t' sh'.
Proof. cbn. by intros ->. Qed.

Lemma length_stop_timer i l : length (stop_timer i l) = length l.
Proof. unfold stop_timer. destruct (l !! i) as [[]|]; by rewrite ?length_insert. Qed.

(** The shared state holds what the manager has for the BU. *)
Definition views (name : string) (dm : DrainManager) (sh : shared) : Prop :=
  dt_tracker sh = dm_buConns dm !! name ∧ fst <$> dt_drain sh = dm_drains dm !! name.

Lemma views_tracker name dm sh :
  views name dm sh → the_tracker sh = default new_tracker (dm_buConns dm !! name).
Proof. unfold the_tracker. by intros [-> _]. Qed.

Lemma views_with_tracker name t dm sh sh' :
  views name dm sh → dt_tracker sh' = Some t → dt_drain sh' = dt_drain sh →
  views name (with_tracker name t dm) sh'.
Proof. intros [_ Hd] Ht Hd'. split; cbn; [by rewrite lookup_insert, decide_True|by rewrite Hd']. Qed.

Definition closed_all (old : string) (l : list trackedConn) (t : buConnTracker) (sh : shared) : shared :=
  {| dt_tracker := Some (add_count (- Z.of_nat (length l)) t); dt_drain := dt_drain sh;
     dt_timers := dt_timers sh; dt_closed := dt_closed sh ++ map (pair old) l;
     dt_done := dt_done sh |}.

Lemma alone_close n old l t sh :
  dt_tracker sh = Some t →
  alone (S (2 * length l) + n) (TClose old l) sh = alone n (TEnd old) (closed_all old l t sh).
Proof.
  revert t sh. induction l as [|tc l IH]; intros t sh Ht.
  - cbn. f_equal. unfold closed_all, add_count. destruct sh, t; cbn in *. subst.
    by rewrite app_nil_r, Z.add_0_r.
  - replace (S (2 * length (tc :: l)) + n)%nat with (S (S (S (2 * length l) + n))) by (cbn; lia).
    do 2 (erewrite alone_step by reflexivity). erewrite IH by reflexivity.
    f_equal. unfold closed_all, add_count, the_tracker. cbn -[Z.of_nat]. rewrite Ht, <- app_assoc.
    cbn -[Z.of_nat]. do 3 f_equal. lia.
Qed.

Lemma alone_end name old dm sh :
  views name dm sh →
  let drain := dm_drains dm !! name in
  ∃ sh', alone 2 (TEnd old) sh = (TDone, sh') ∧
    views name (with_drains (delete name (dm_drains dm)) dm) sh' ∧ dt_closed sh' = dt_closed sh ∧
    dt_done sh' = dt_done sh ++
      [(old, match drain with Some d => bd_NewActive d | None => ""%string end)].
Proof.
  intros [Ht Hd]. eexists. split; [reflexivity|]. unfold views. cbn.
  by rewrite Ht, Hd, lookup_delete, decide_True.
Qed.

Lemma alone_register name dm sh conn target :
  views name dm sh →
  ∃ sh', alone 4 (RStart conn target) sh = (RDone (fst (Register name conn target dm)), sh') ∧
    views name (snd (Register name conn target dm)) sh'.
Proof.
  intros Hv. pose proof (views_tracker _ _ _ Hv) as Ht. unfold Register. rewrite <- Ht.
  eexists. split; [reflexivity|]. by eapply views_with_tracker.
Qed.

Lemma alone_unregister name dm sh id :
  views name dm sh →
  ∃ n sh', alone n (UStart id) sh = (UDone, sh') ∧ views name (Unregister name id dm) sh'.
Proof.
  intros Hv. pose proof Hv as [Ht _]. unfold Unregister.
  destruct (dm_buConns dm !! name) as [t|] eqn:E.
  - pose proof (views_tracker _ _ _ Hv) as Htr. rewrite E in Htr. change (the_tracker sh = t) in Htr. subst t.
    exists 2%nat. erewrite alone_step by (cbn [drain_thread_step]; by rewrite Ht).
    cbn [alone drain_thread_step].
    destruct (bt_conns (the_tracker sh) !! id) as [tc|]; eexists; (split; [reflexivity|]); [|done].
    by eapply views_with_tracker.
  - exists 1%nat, sh. cbn. by rewrite Ht.
Qed.

Lemma alone_forceCloseOld name dm sh old :
  views name dm sh →
  let '(closed, drain, dm') := forceCloseOld name old dm in
  ∃ n sh', alone n (TFind old) sh = (TDone, sh') ∧ views name dm' sh' ∧
    map (tc_conn ∘ snd) (dt_closed sh') = map (tc_conn ∘ snd) (dt_closed sh) ++ closed ∧
    dt_done sh' = dt_done sh ++
      [(old, match drain with Some d => bd_NewActive d | None => ""%string end)].
Proof.
  intros Hv. pose proof Hv as [Ht Hd]. unfold forceCloseOld.
  destruct (dm_buConns dm !! name) as [t|] eqn:E.
  - set (l := map snd _).
    set (t' := set_conns (foldr delete (bt_conns t) (map tc_id l)) t).
    assert (Hrun : ∀ n, alone (2 + (S (2 * length l) + n)) (TFind old) sh =
                    alone n (TEnd old) (closed_all old l t' (set_tracker t' sh))).
    { intros n. cbn [Nat.add]. erewrite alone_step by (cbn; by rewrite Ht).
      erewrite alone_step by reflexivity. rewrite (views_tracker _ _ _ Hv), E. cbn [default].
      apply (alone_close n). done. }
    destruct (alone_end name old (with_tracker name (add_count (- Z.of_nat (length l)) t') dm)
      (closed_all old l t' (set_tracker t' sh))) as (sh' & Hal & Hv' & Hcl & Hdn).
    { by eapply views_with_tracker. }
    exists (2 + (S (2 * length l) + 2))%nat, sh'. rewrite Hrun. split; [exact Hal|].
    split; [|split; [|exact Hdn]].
    + by rewrite length_map.
    + rewrite Hcl. cbn. by rewrite map_app, !map_map.
  - destruct (alone_end name old dm sh Hv) as (sh' & Hal & Hv' & Hcl & Hdn).
    exists 3%nat, sh'. erewrite alone_step by (cbn; by rewrite Ht). rewrite Hcl, app_nil_r. done.
Qed.

(** ** Timers that were stopped, and timers that had fired *)

Section Timers.
Context (defaultTimeout : duration).

(** The places of a timer's goroutine between its start and the callbacks. *)
Definition late (t : place) : bool :=
  match t with TFind _ | TCollect _ | TClose _ _ | TCount _ _ | TEnd _ => true | _ => false end.
Definition firing (t : place) : bool := match t with TFire _ _ => true | _ => false end.

Lemma late_step t sh t' sh' :
  drain_thread_step t sh = Some (t', sh') → late t = true →
  (late t' = true ∧ dt_drain sh' = dt_drain sh) ∨ (firing t' = true ∧ dt_drain sh' = None).
Proof.
  destruct t as [| | | | | | | | | | |? [|]| | | |]; cbn [drain_thread_step]; intros Hst Hl;
    repeat case_match; simplify_eq; first [by left|by right].
Qed.

Lemma late_can_step t sh : late t = true → is_Some (drain_thread_step t sh).
Proof. destruct t as [| | | | | | | | | | |? [|]| | | |]; cbn; try done; by destruct (dt_tracker sh). Qed.

(** What a step of a goroutine does to the drain and the timers. *)
Lemma thread_step_timers t sh t' sh' :
  drain_thread_step t sh = Some (t', sh') →
  (dt_drain sh' = dt_drain sh ∨ dt_drain sh' = None) ∧
  (dt_timers sh' = dt_timers sh ∨
   ∃ i, dt_timers sh !! i = Some Armed ∧ dt_timers sh' = <[i := Fired]> (dt_timers sh)).
Proof.
  destruct t as [| | | | | | | | | | |? [|]| | | |]; cbn [drain_thread_step]; intros Hst;
    repeat case_match; simplify_eq; cbn; (split; [by auto|]); first [by left|right; by eexists].
Qed.

(** The steps, by what they do to goroutine [g]. *)
Lemma step_cases c c' :
  step defaultTimeout c c' →
  (∃ i t t', c.1 !! i = Some t ∧ drain_thread_step t c.2 = Some (t', c'.2) ∧ c'.1 = <[i := t']> c.1) ∨
  (∃ t, c'.1 = c.1 ++ [t] ∧ c'.2 = c.2) ∨
  (∃ now old new timeout t, start_drain defaultTimeout now old new timeout c.2 = (t, c'.2) ∧ c'.1 = c.1 ++ [t]).
Proof. intros [ts sh i t t' sh' Hi Hst| | |ts sh now old new timeout t sh' Hst]; cbn; eauto 12. Qed.

(** A stopped timer's goroutine has no further step. *)
Definition stopped_at (g i : nat) (old : string) (c : list place * shared) : Prop :=
  c.1 !! g = Some (TWait i old) ∧ dt_timers c.2 !! i = Some Stopped.

Lemma stop_timer_stopped i j l : l !! i = Some Stopped → stop_timer j l !! i = Some Stopped.
Proof.
  intros Hi. unfold stop_timer. destruct (l !! j) as [[]|] eqn:Hj; try done.
  rewrite list_lookup_insert_ne; [done|]. intros ->. congruence.
Qed.

Lemma stopped_step g i old c c' :
  step defaultTimeout c c' → stopped_at g i old c → stopped_at g i old c'.
Proof.
  unfold stopped_at.
  intros [(j & t & t' & Hj & Hst & ->)|[(t & -> & ->)|(now & old' & new & timeout & t & Hd & ->)]]%step_cases
    [Hg Hi].
  - destruct (decide (j = g)) as [->|Hne].
    + simplify_eq. cbn [drain_thread_step] in Hst. by rewrite Hi in Hst.
    + rewrite list_lookup_insert_ne by done. split; [done|].
      destruct (proj2 (thread_step_timers _ _ _ _ Hst)) as [-> |(k & Hk & ->)]; [done|].
      rewrite list_lookup_insert_ne; [done|]. intros ->. congruence.
  - split; [by apply lookup_app_l_Some|done].
  - split; [by apply lookup_app_l_Some|]. unfold start_drain in Hd. injection Hd as _ <-. cbn.
    apply lookup_app_l_Some. destruct (dt_drain c.2) as [[? k]|]; [by apply stop_timer_stopped|done].
Qed.

(** Since drain [d] was started as the [L]th: another has been started, or the
    drain is [d] or gone, and gone if goroutine [g] is past its end. *)
Definition overtaken (g L : nat) (d : buDrain * nat) (c : list place * shared) : Prop :=
  (L < length (dt_timers c.2))%nat ∨
  length (dt_timers c.2) = L ∧ ∃ t, c.1 !! g = Some t ∧
    (late t = true ∧ (dt_drain c.2 = Some d ∨ dt_drain c.2 = None) ∨
     (firing t = true ∨ t = TDone) ∧ dt_drain c.2 = None).

Lemma after_late t t' sh sh' :
  drain_thread_step t sh = Some (t', sh') → firing t = true ∨ t = TDone → t' = TDone.
Proof. destruct t; cbn; intros Hst [?|?]; by simplify_eq. Qed.

Lemma overtaken_step g L d c c' :
  step defaultTimeout c c' → overtaken g L d c → overtaken g L d c'.
Proof.
  unfold overtaken.
  intros [(j & t & t' & Hj & Hst & Hc')|[(t & Hc' & ->)|(now & old' & new & timeout & t & Hd & Hc')]]%step_cases
    [Hlt|(Hlen & u & Hg & Hu)].
  - left. destruct (proj2 (thread_step_timers _ _ _ _ Hst)) as [-> |(k & Hk & ->)]; by rewrite ?length_insert.
  - right. split.
    { destruct (proj2 (thread_step_timers _ _ _ _ Hst)) as [-> |(k & Hk & ->)]; by rewrite ?length_insert. }
    rewrite Hc'. destruct (decide (j = g)) as [->|Hne].
    + simplify_eq. exists t'. rewrite list_lookup_insert_eq by (by eapply lookup_lt_Some). split; [done|].
      destruct Hu as [[Hl Hd]|[Hf Hd]].
      * destruct (late_step _ _ _ _ Hst Hl) as [[Hl' ->]|[Hf ->]]; auto.
      * right. rewrite (after_late _ _ _ _ Hst Hf). split; [by right|].
        destruct (proj1 (thread_step_timers _ _ _ _ Hst)) as [-> | ->]; done.
    + exists u. rewrite list_lookup_insert_ne by done. split; [done|].
      destruct (proj1 (thread_step_timers _ _ _ _ Hst)) as [-> | ->]; [done|]. tauto.
  - by left.
  - right. split; [done|]. exists u. rewrite Hc'. split; [by apply lookup_app_l_Some|done].
  - left. unfold start_drain in Hd. injection Hd as _ <-. cbn. rewrite length_app. cbn.
    destruct (dt_drain c.2) as [[? k]|]; rewrite ?length_stop_timer; lia.
  - left. unfold start_drain in Hd. injection Hd as _ <-. cbn. rewrite length_app. cbn.
    destruct (dt_drain c.2) as [[? k]|]; rewrite ?length_stop_timer; lia.
Qed.

Lemma nsteps_preserves (P : list place * shared → Prop) n c c' :
  (∀ c c', step defaultTimeout c c' → P c → P c') → nsteps (step defaultTimeout) n c c' → P c → P c'.
Proof. intros HP Hr. induction Hr; eauto. Qed.

(** The steps of one goroutine are a run. *)
Lemma alone_run n ts g t sh t' sh' :
  ts !! g = Some t → alone n t sh = (t', sh') → rtc (step defaultTimeout) (ts, sh) (<[g := t']> ts, sh').
Proof.
  revert ts t sh. induction n as [|n IH]; intros ts t sh Hg; cbn [alone].
  - intros [= <- <-]. by rewrite list_insert_id.
  - destruct (drain_thread_step t sh) as [[t1 sh1]|] eqn:Hst.
    + intros Ha. eapply rtc_l; [by eapply step_run|]. rewrite <- (list_insert_insert_eq ts g t' t1).
      apply (IH (<[g := t1]> ts) t1); [|done]. rewrite list_lookup_insert_eq; [done|]. by eapply lookup_lt_Some.
    + intros [= <- <-]. by rewrite list_insert_id.
Qed.

(** A timer that has fired, from [forceCloseOld] to its callbacks, alone. *)
Lemma alone_late old sh :
  let conns := bt_conns (the_tracker sh) in
  (∀ id tc, conns !! id = Some tc → tc_id tc = id) →
  ∃ n sh', alone n (TFind old) sh = (TDone, sh') ∧ dt_drain sh' = None ∧ dt_timers sh' = dt_timers sh ∧
    dt_done sh' = dt_done sh ++ [(old, match dt_drain sh with Some (d, _) => bd_NewActive d | None => ""%string end)] ∧
    dt_closed sh' = dt_closed sh ++
      map (λ kv, (old, kv.2)) (map_to_list (filter (λ '(_, tc), tc_target tc = old) conns)) ∧
    bt_conns (the_tracker sh') = filter (λ '(_, tc), tc_target tc ≠ old) conns.
Proof.
  intros conns Hids. destruct (dt_tracker sh) as [tr|] eqn:Ht.
  - assert (conns = bt_conns tr) as Hc by (unfold conns, the_tracker; by rewrite Ht). clearbody conns. subst conns.
    set (l := map snd (map_to_list (filter (λ '(_, tc), tc_target tc = old) (bt_conns tr)))).
    exists (2 + (S (2 * length l) + 2))%nat. eexists. cbn [Nat.add].
    erewrite alone_step by (cbn; by rewrite Ht). erewrite alone_step by reflexivity.
    assert (the_tracker sh = tr) as -> by (unfold the_tracker; by rewrite Ht). fold l.
    rewrite (alone_close 2 old l (set_conns (foldr delete (bt_conns tr) (map tc_id l)) tr)) by done.
    split; [reflexivity|]. cbn. split; [done|]. split; [done|].
    split; [by destruct (dt_drain sh) as [[? ?]|]|]. split.
    + unfold l. by rewrite map_map.
    + unfold l. by rewrite kept_filter.
  - assert (conns = ∅) as -> by (unfold conns, the_tracker; by rewrite Ht).
    exists 3%nat. eexists. erewrite alone_step by (cbn; by rewrite Ht). split; [reflexivity|]. cbn.
    split; [done|]. split; [done|]. split; [by destruct (dt_drain sh) as [[? ?]|]|].
    rewrite map_filter_empty, map_to_list_empty. cbn. rewrite app_nil_r. split; [done|].
    unfold the_tracker. cbn. rewrite Ht. cbn. by rewrite map_filter_empty.
Qed.
End Timers.

(** ** Properties *)

(** C13: connection accounting under any interleaving.  However the
    registrations, the (repeated) unregistrations, the drains of either side and
    their timers interleave, the active count is the number of tracked
    connections plus one for each registration between its counter and its map and
    each connection a timer has still to close: it is never negative, and exact
    once those goroutines are done.  Registrations return distinct ids; a
    connection is force-closed at most once, for the side that was drained, and
    is then no longer tracked. *)
Theorem drain_interleavings defaultTimeout n ts sh :
  Z.of_nat n < 2 ^ 64 → nsteps (step defaultTimeout) n no_drains (ts, sh) →
  let conns := bt_conns (the_tracker sh) in
  let closed_ids := map (tc_id ∘ snd) (dt_closed sh) in
  bt_count (the_tracker sh) = Z.of_nat (size conns + sum_list_with counts ts) ∧
  NoDup (concat (map issued ts)) ∧
  (∀ id tc, conns !! id = Some tc → tc_id tc = id ∧ id ∉ closed_ids) ∧
  NoDup closed_ids ∧ Forall (λ '(old, tc), tc_target tc = old) (dt_closed sh).
Proof.
  intros Hn Hs conns closed_ids.
  destruct (issued_reachable_inv _ _ _ Hn Hs) as [Hiss _].
  destruct (drain_reachable_inv _ _ _ Hn Hs) as (_ & Hc & Hnd & _ & Hk & _ & Hcl).
  split; [done|]. split; [done|].
  apply list.NoDup_app in Hnd as (_ & Hd & [_ [_ Hnd]]%list.NoDup_app).
  split; [|split; [exact Hnd|exact Hcl]].
  intros id tc Hl. split; [by apply Hk|]. intros Hin. apply (Hd id).
  - apply elem_of_keys. eauto.
  - apply elem_of_app. by right.
Qed.

(** Without interference the goroutines are the operations.  From any state of
    the manager, the steps of one goroutine alone do what [Register],
    [Unregister] and [forceCloseOld] do: the same id, tracker, drains, closed
    connections and arguments of the callbacks. *)
Theorem drain_operations_alone name dm sh :
  views name dm sh →
  (∀ conn target, ∃ sh',
     alone 4 (RStart conn target) sh = (RDone (fst (Register name conn target dm)), sh') ∧
     views name (snd (Register name conn target dm)) sh') ∧
  (∀ id, ∃ n sh', alone n (UStart id) sh = (UDone, sh') ∧ views name (Unregister name id dm) sh') ∧
  (∀ now old new timeout,
     let '(t, sh') := start_drain (dm_DefaultDrainTimeout dm) now old new timeout sh in
     t = TWait (length (dt_timers sh)) old ∧
     views name (StartDrain now name old new timeout dm) sh') ∧
  (∀ old,
     let '(closed, drain, dm') := forceCloseOld name old dm in
     ∃ n sh', alone n (TFind old) sh = (TDone, sh') ∧ views name dm' sh' ∧
       map (tc_conn ∘ snd) (dt_closed sh') = map (tc_conn ∘ snd) (dt_closed sh) ++ closed ∧
       dt_done sh' = dt_done sh ++
         [(old, match drain with Some d => bd_NewActive d | None => ""%string end)]).
Proof.
  intros Hv. split; [by intros; apply alone_register|]. split; [by intros; apply alone_unregister|].
  split; [|by intros; apply alone_forceCloseOld].
  intros now old new timeout. destruct Hv as [Ht Hd]. cbn. split.
  { destruct (dt_drain sh) as [[? i]|]; [by rewrite length_stop_timer|done]. }
  split; [done|].
  cbn. by rewrite lookup_insert, decide_True.
Qed.

(** C14: which timers [StartDrain] cancels.  Take any reachable state with a drain,
    a [StartDrain] there and any run from it.  If the timer of the replaced drain
    was armed, [Stop] worked: its goroutine never takes another step.  But a timer
    that had already fired is not cancelled, against the comment: its goroutine can
    always go on, and if no further drain is started, the new drain is gone when it
    ends.  From before its [forceCloseOld], while the new drain is under way, it
    alone closes exactly the connections tracked on its own old side, active again
    or not, deletes the new drain, and runs the callbacks with its own old side and
    the new drain's new side; the connections on the other side stay, in no drain,
    with the new drain's timer as it was. *)
Theorem late_timer_ends_new_drain defaultTimeout n m ts sh d i now old2 new2 timeout t2 sh2 ts3 sh3 :
  Z.of_nat (S (n + m)) < 2 ^ 64 →
  nsteps (step defaultTimeout) n no_drains (ts, sh) → dt_drain sh = Some (d, i) →
  start_drain defaultTimeout now old2 new2 timeout sh = (t2, sh2) →
  nsteps (step defaultTimeout) m (ts ++ [t2], sh2) (ts3, sh3) →
  (∀ g old, ts !! g = Some (TWait i old) → dt_timers sh !! i = Some Armed →
     ts3 !! g = Some (TWait i old) ∧ drain_thread_step (TWait i old) sh3 = None) ∧
  (∀ g t t3, ts !! g = Some t → late t = true → ts3 !! g = Some t3 →
     length (dt_timers sh3) = length (dt_timers sh2) →
     (t3 = TDone ∨ is_Some (drain_thread_step t3 sh3)) ∧ (t3 = TDone → dt_drain sh3 = None) ∧
     ∀ old, t3 = TFind old → is_Some (dt_drain sh3) →
       ∃ sh', rtc (step defaultTimeout) (ts3, sh3) (<[g := TDone]> ts3, sh') ∧ dt_drain sh' = None ∧
         dt_timers sh' = dt_timers sh3 ∧ dt_done sh' = dt_done sh3 ++ [(old, new2)] ∧
         let conns := bt_conns (the_tracker sh3) in
         dt_closed sh' = dt_closed sh3 ++
           map (λ kv, (old, kv.2)) (map_to_list (filter (λ '(_, tc), tc_target tc = old) conns)) ∧
         bt_conns (the_tracker sh') = filter (λ '(_, tc), tc_target tc ≠ old) conns).
Proof.
  intros Hb Hn Hd Hsd Hm.
  assert (Hstep : step defaultTimeout (ts, sh) (ts ++ [t2], sh2)) by (by eapply step_drain).
  assert (Hids : ∀ id tc, bt_conns (the_tracker sh3) !! id = Some tc → tc_id tc = id).
  { apply (drain_reachable_inv defaultTimeout (n + S m) (ts3, sh3)); [lia|].
    eapply nsteps_trans; [exact Hn|]. by econstructor. }
  pose proof Hsd as Hsd'. unfold start_drain in Hsd'. rewrite Hd in Hsd'. injection Hsd' as Ht2 Hsh2.
  split.
  - intros g old Hg Ha.
    assert (stopped_at g i old (ts3, sh3)) as [H1 H2].
    { eapply (nsteps_preserves _ (stopped_at g i old)); [by apply stopped_step|exact Hm|].
      split; cbn; [by apply lookup_app_l_Some|]. rewrite <- Hsh2. cbn.
      assert (Hlt : (i < length (dt_timers sh))%nat) by (by eapply lookup_lt_Some).
      unfold stop_timer. rewrite Ha. apply lookup_app_l_Some. by rewrite list_lookup_insert_eq. }
    split; [done|]. cbn [drain_thread_step snd] in *. by rewrite H2.
  - intros g t t3 Hg Hl Hg3 Hlen.
    set (dnew := ({| bd_OldActive := old2; bd_NewActive := new2; bd_StartedAt := now;
      bd_timer := now + (if timeout <=? 0 then defaultTimeout else timeout) |}, length (dt_timers sh))).
    assert (overtaken g (length (dt_timers sh2)) dnew (ts3, sh3)) as [Hlt|(_ & t3' & Hg3' & Hu)].
    { eapply (nsteps_preserves _ (overtaken g _ dnew)); [by apply overtaken_step|exact Hm|].
      right. split; [done|]. exists t. split; [by apply lookup_app_l_Some|]. left. split; [done|].
      left. rewrite <- Hsh2. cbn. by rewrite length_stop_timer. }
    { cbn [snd] in Hlt. lia. }
    cbn [fst snd] in Hg3', Hu. simplify_eq. split; [|split].
    + destruct Hu as [[Hl3 _]|[[Hf| ->] _]]; [right; by apply late_can_step|right|by left].
      by destruct t3.
    + intros ->. by destruct Hu as [[? _]|[_ ?]].
    + intros old -> [d3 Hd3]. destruct Hu as [[_ [Hdr|?]]|[_ ?]]; [|congruence..].
      destruct (alone_late old sh3 Hids) as (k & sh' & Ha & H1 & H2 & H3 & H4).
      rewrite Hdr in H3. exists sh'. split; [by eapply alone_run|]. by split_and!.
Qed.

(** ** Witnesses *)

Definition a_run : list event :=
  [ERegister 7 "primary"; ERun 0; ERun 0; ERun 0; ERun 0;
   EDrain 0 "primary" "secondary" 30; ERun 1; ERun 1; ERun 1; ERun 1].

(** The timer has closed the connection, and not yet counted it. *)
Lemma drain_interleavings_witness :
  ∃ ts sh, exec_all 30 no_drains a_run = Some (ts, sh) ∧ bt_count (the_tracker sh) = 1 ∧
    size (bt_conns (the_tracker sh)) = 0%nat ∧ sum_list_with counts ts = 1%nat ∧
    bt_count (the_tracker sh) = Z.of_nat (size (bt_conns (the_tracker sh)) + sum_list_with counts ts).
Proof.
  destruct (exec_all 30 no_drains a_run) as [[ts sh]|] eqn:E; [|vm_compute in E; discriminate].
  pose proof (exec_all_nsteps 30 a_run no_drains (ts, sh) E) as Hs.
  pose proof (drain_interleavings 30 (length a_run) ts sh eq_refl Hs) as [Hc _].
  exists ts, sh. split; [reflexivity|]. vm_compute in E. injection E as <- <-.
  split; [reflexivity|]. split; [reflexivity|]. split; [reflexivity|]. exact Hc.
Defined.

(** A failover whose timer has fired, and the failback; each side has a connection.
    The timer closes the one on the side that is active again. *)
Definition failed_over : list event :=
  [EDrain 0 "primary" "secondary" 30; ERegister 7 "secondary"; ERun 1; ERun 1; ERun 1; ERun 1; ERun 0]%string.
Definition failed_back : list event := [ERegister 8 "primary"; ERun 3; ERun 3; ERun 3; ERun 3]%string.

Lemma late_timer_ends_new_drain_witness :
  ∃ ts3 sh3 sh', rtc (step 30) (ts3, sh3) (<[0%nat := TDone]> ts3, sh') ∧
    fst <$> dt_drain sh3 = Some {| bd_OldActive := "secondary"; bd_NewActive := "primary";
                                   bd_StartedAt := 31; bd_timer := 61 |} ∧
    dt_drain sh' = None ∧ dt_done sh' = [("primary", "primary")]%string ∧
    dt_closed sh' = [("primary"%string, {| tc_id := 2; tc_conn := 8; tc_target := "primary" |})] ∧
    bt_conns (the_tracker sh') !! 1 = Some {| tc_id := 1; tc_conn := 7; tc_target := "secondary" |} ∧
    dt_timers sh' = [Fired; Armed] ∧ ts3 !! 2%nat = Some (TWait 1 "secondary").
Proof.
  destruct (exec_all 30 no_drains failed_over) as [[ts sh]|] eqn:E1; [|vm_compute in E1; discriminate].
  destruct (start_drain 30 31 "secondary" "primary" 30 sh) as [t2 sh2] eqn:E2.
  destruct (exec_all 30 (ts ++ [t2], sh2) failed_back) as [[ts3 sh3]|] eqn:E3.
  2: { vm_compute in E1. injection E1 as <- <-. vm_compute in E2. injection E2 as <- <-.
       vm_compute in E3. discriminate. }
  pose proof (exec_all_nsteps 30 _ _ _ E1) as Hn. pose proof (exec_all_nsteps 30 _ _ _ E3) as Hm.
  vm_compute in E1. injection E1 as <- <-. vm_compute in E2. injection E2 as <- <-.
  vm_compute in E3. injection E3 as <- <-.
  destruct (proj2 (late_timer_ends_new_drain 30 (length failed_over) (length failed_back) _ _ _ _ 31 "secondary" "primary" 30 _ _ _ _
    eq_refl Hn eq_refl eq_refl Hm) 0%nat (TFind "primary") (TFind "primary") eq_refl eq_refl eq_refl eq_refl)
    as (_ & _ & Hlate).
  destruct (Hlate "primary"%string eq_refl (ex_intro _ _ eq_refl)) as (sh' & H1 & H2 & H3 & H4 & H5 & H6).
  eexists _, _, sh'. split; [exact H1|]. split; [reflexivity|]. split; [exact H2|].
  split; [exact H4|]. split; [rewrite H5; vm_compute; reflexivity|].
  split; [rewrite H6; vm_compute; reflexivity|]. split; [exact H3|reflexivity].
Defined.

Lemma drain_operations_alone_witness :
  let dm := snd (Register "bu1" 7 "primary" (NewDrainManager 30)) in
  ∃ n sh', alone n (TFind "primary") (set_tracker (default new_tracker (dm_buConns dm !! "bu1"%string))
      (snd no_drains)) = (TDone, sh') ∧ map (tc_conn ∘ snd) (dt_closed sh') = [7%nat].
Proof.
  intros dm. set (sh := set_tracker _ _).
  assert (Hv : views "bu1" dm sh) by (split; reflexivity).
  destruct (proj2 (proj2 (proj2 (drain_operations_alone "bu1" dm sh Hv))) "primary"%string)
    as (n & sh' & H1 & _ & H2 & _).
  exists n, sh'. split; [exact H1|exact H2].
Defined.
