(* ===== verification/RefreshThreads.v ===== *)
(** * The background refreshers under concurrency ([internal/pool/leader_cache.go])

    [LeaderCache] runs one refresh at a time; here the refresh loops of all
    bootstraps interleave with the calls that start, stop, trigger and invalidate.
    A loop outlives its entry in [refreshers], so its channels are kept in a list
    of their own: the entry of a bootstrap is the number of its loop.  A step is a
    section under one lock, a channel operation, or [fetchMetadata], whose
    connection the outside supplies.  Closing a closed channel panics. *)

From S2P Require Import Prelude Bytes Conn Cache LeaderCache.

(** The channels of a [clusterRefresher]: whether a trigger is pending, and
    whether [stop] is closed. *)
Record channels := { ch_bootstrap : string; ch_trigger : bool; ch_stop : bool }.

Record shared := {
  rs_leaders : gmap string topic_leaders;
  rs_creds : gmap string saslCred;
  rs_refreshers : gmap string nat;
  rs_loops : list channels;
  rs_fetches : list nat  (* the loops, in the order they began a refresh *)
}.

Inductive place :=
  (* refreshLoop *)
  | LStart (i : nat) | LFetch (i : nat) | LInstall (i : nat) (leaders : topic_leaders)
  | LSelect (i : nat) | LReturned (i : nat)
  (* TriggerRefresh *)
  | TLook (bootstrap : string) | TSend (i : nat) | TDone.

Inductive select_case := OnTick | OnTrigger | OnStop.

(** What the outside decides at a step: the result of the dial, and which ready
    case [select] takes. *)
Record choice := { ch_dialed : res conn; ch_case : select_case }.

Definition set_leaders (l : gmap string topic_leaders) (sh : shared) : shared :=
  {| rs_leaders := l; rs_creds := rs_creds sh; rs_refreshers := rs_refreshers sh;
     rs_loops := rs_loops sh; rs_fetches := rs_fetches sh |}.
Definition set_loops (l : list channels) (sh : shared) : shared :=
  {| rs_leaders := rs_leaders sh; rs_creds := rs_creds sh; rs_refreshers := rs_refreshers sh;
     rs_loops := l; rs_fetches := rs_fetches sh |}.
Definition set_refreshers (m : gmap string nat) (sh : shared) : shared :=
  {| rs_leaders := rs_leaders sh; rs_creds := rs_creds sh; rs_refreshers := m;
     rs_loops := rs_loops sh; rs_fetches := rs_fetches sh |}.
Definition set_creds (m : gmap string saslCred) (sh : shared) : shared :=
  {| rs_leaders := rs_leaders sh; rs_creds := m; rs_refreshers := rs_refreshers sh;
     rs_loops := rs_loops sh; rs_fetches := rs_fetches sh |}.
Definition add_fetch (i : nat) (sh : shared) : shared :=
  {| rs_leaders := rs_leaders sh; rs_creds := rs_creds sh; rs_refreshers := rs_refreshers sh;
     rs_loops := rs_loops sh; rs_fetches := rs_fetches sh ++ [i] |}.

Definition set_trigger (b : bool) (r : channels) : channels :=
  {| ch_bootstrap := ch_bootstrap r; ch_trigger := b; ch_stop := ch_stop r |}.
Definition set_stop (r : channels) : channels :=
  {| ch_bootstrap := ch_bootstrap r; ch_trigger := ch_trigger r; ch_stop := true |}.

(** The cache that one operation sees. *)
Definition cache_of (sh : shared) : LeaderCache :=
  {| lc_leaders := rs_leaders sh; lc_refreshInterval := DefaultRefreshInterval;
     lc_refreshers := (λ i, {| rf_trigger := default false (ch_trigger <$> rs_loops sh !! i) |})
       <$> rs_refreshers sh;
     lc_bootstrapCreds := rs_creds sh |}.

(** [Refresh], as far as its lock: the error is only logged. *)
Definition fetch (ch : choice) (i : nat) (sh : shared) : option (res place) :=
  match rs_loops sh !! i with
  | None => None
  | Some r =>
      match fetchMetadata (cache_of sh) (ch_bootstrap r) (ch_dialed ch) with
      | Ok leaders => Some (Ok (LInstall i leaders))
      | Err _ => Some (Ok (LSelect i))
      | Panic => Some Panic
      end
  end.

Definition refresh_thread_step (ch : choice) (t : place) (sh : shared) : option (res (place * shared)) :=
  match t with
  | LStart i => Some (Ok (LFetch i, add_fetch i sh))
  | LFetch i => match fetch ch i sh with
                | Some (Ok t') => Some (Ok (t', sh))
                | Some (Err e) => Some (Err e)
                | Some Panic => Some Panic
                | None => None
                end
  | LInstall i leaders =>
      match rs_loops sh !! i with
      | None => None
      | Some r => Some (Ok (LSelect i, set_leaders (<[ch_bootstrap r := leaders]> (rs_leaders sh)) sh))
      end
  | LSelect i =>
      match rs_loops sh !! i with
      | None => None
      | Some r =>
          match ch_case ch with
          | OnTick => Some (Ok (LFetch i, add_fetch i sh))
          | OnTrigger =>
              if ch_trigger r
              then Some (Ok (LFetch i, add_fetch i (set_loops (<[i := set_trigger false r]> (rs_loops sh)) sh)))
              else None
          | OnStop => if ch_stop r then Some (Ok (LReturned i, sh)) else None
          end
      end
  | LReturned _ => None
  | TLook bootstrap =>
      match rs_refreshers sh !! bootstrap with
      | None => Some (Ok (TDone, sh))
      | Some i => Some (Ok (TSend i, sh))
      end
  | TSend i =>
      match rs_loops sh !! i with
      | None => None
      | Some r => Some (Ok (TDone, set_loops (<[i := set_trigger true r]> (rs_loops sh)) sh))
      end
  | TDone => None
  end.

(** [StartBackgroundRefresh], with the goroutine it starts. *)
Definition start_refresh (bootstrap : string) (sh : shared) : list place * shared :=
  match rs_refreshers sh !! bootstrap with
  | Some _ => ([], sh)
  | None =>
      let i := length (rs_loops sh) in
      ([LStart i],
       set_refreshers (<[bootstrap := i]> (rs_refreshers sh))
         (set_loops (rs_loops sh ++ [{| ch_bootstrap := bootstrap; ch_trigger := false; ch_stop := false |}]) sh))
  end.

(** [close(r.stop)] *)
Definition close_stop (i : nat) (sh : shared) : res shared :=
  match rs_loops sh !! i with
  | None => Panic
  | Some r => if ch_stop r then Panic else Ok (set_loops (<[i := set_stop r]> (rs_loops sh)) sh)
  end.

Definition stop_refresh (bootstrap : string) (sh : shared) : res shared :=
  match rs_refreshers sh !! bootstrap with
  | None => Ok sh
  | Some i =>
      sh ← close_stop i sh;
      mret (set_refreshers (delete bootstrap (rs_refreshers sh)) sh)
  end.

(** [StopAllBackgroundRefreshes], over the map in some order. *)
Definition stop_all (order : list string) (sh : shared) : res shared :=
  foldl (λ r bootstrap, sh ← r; stop_refresh bootstrap sh) (Ok sh) order.

Definition invalidate (cluster : string) (sh : shared) : shared :=
  set_leaders (delete cluster (rs_leaders sh)) sh.

(** What the other goroutines of the proxy call, each under its lock. *)
Inductive call :=
  | CStart (bootstrap : string) | CStop (bootstrap : string) | CStopAll (order : list string)
  | CTrigger (bootstrap : string)
  | CInvalidate (cluster : string) | CConfigure (creds : gmap string saslCred).

Definition run_call (c : call) (sh : shared) : res (list place * shared) :=
  match c with
  | CStart b => Ok (start_refresh b sh)
  | CStop b => sh ← stop_refresh b sh; mret ([], sh)
  | CStopAll order => sh ← stop_all order sh; mret ([], sh)
  | CTrigger b => Ok ([TLook b], sh)
  | CInvalidate b => Ok ([], invalidate b sh)
  | CConfigure creds => Ok ([], set_creds creds sh)
  end.

Inductive step : list place * shared → list place * shared → Prop :=
  | step_run ts sh i t ch t' sh' :
      ts !! i = Some t → safe (ch_dialed ch) →
      refresh_thread_step ch t sh = Some (Ok (t', sh')) → step (ts, sh) (<[i := t']> ts, sh')
  | step_call ts sh c ts' sh' : run_call c sh = Ok (ts', sh') → step (ts, sh) (ts ++ ts', sh').

Definition no_refreshers : list place * shared :=
  ([], {| rs_leaders := ∅; rs_creds := ∅; rs_refreshers := ∅; rs_loops := []; rs_fetches := [] |}).

(** ** The invariant *)

(** The loop whose goroutine this is. *)
Definition loop_of (t : place) : list nat :=
  match t with LStart i | LFetch i | LInstall i _ | LSelect i | LReturned i => [i] | _ => [] end.

Definition place_ok (loops : list channels) (t : place) : Prop :=
  match t with
  | LReturned i => ∃ r, loops !! i = Some r ∧ ch_stop r = true
  | LStart i | LFetch i | LInstall i _ | LSelect i | TSend i => (i < length loops)%nat
  | _ => True
  end.

(** The registered loops are the open ones. *)
Definition registered (sh : shared) : Prop :=
  ∀ b i, rs_refreshers sh !! b = Some i ↔
    ∃ r, rs_loops sh !! i = Some r ∧ ch_bootstrap r = b ∧ ch_stop r = false.

Definition refresh_inv (c : list place * shared) : Prop :=
  let '(ts, sh) := c in
  registered sh ∧ Forall (place_ok (rs_loops sh)) ts ∧
  concat (map loop_of ts) ≡ₚ seq 0 (length (rs_loops sh)).

(** Loops change in place, and a stopped one stays stopped. *)
Definition loops_le (l l' : list channels) : Prop :=
  (length l ≤ length l')%nat ∧
  ∀ i r, l !! i = Some r → ch_stop r = true → ∃ r', l' !! i = Some r' ∧ ch_stop r' = true.

Lemma loops_le_refl l : loops_le l l.
Proof. split; eauto. Qed.

Lemma loops_le_trans l1 l2 l3 : loops_le l1 l2 → loops_le l2 l3 → loops_le l1 l3.
Proof.
  intros [? H1] [? H2]. split; [lia|]. intros i r Hl Hs.
  destruct (H1 i r Hl Hs) as (r' & ? & ?). eauto.
Qed.

Lemma loops_le_insert l i r r' :
  l !! i = Some r → (ch_stop r = true → ch_stop r' = true) → loops_le l (<[i := r']> l).
Proof.
  intros Hi Hr. split; [by rewrite length_insert|]. intros j r1 Hj Hs.
  destruct (decide (i = j)) as [<-|Hne]; [|exists r1; by rewrite list_lookup_insert_ne].
  exists r'. rewrite list_lookup_insert_eq by (by eapply lookup_lt_Some). simplify_eq. auto.
Qed.

Lemma loops_le_snoc l r : loops_le l (l ++ [r]).
Proof.
  split; [rewrite length_app; lia|]. intros i r' Hi Hs. exists r'. split; [|done].
  by apply lookup_app_l_Some.
Qed.

Lemma place_ok_le l l' t : loops_le l l' → place_ok l t → place_ok l' t.
Proof.
  intros [Hlen Hst] Ht. destruct t; cbn in *; try done; try lia.
  destruct Ht as (r & Hi & Hs). eauto.
Qed.

Lemma places_ok_le l l' ts : loops_le l l' → Forall (place_ok l) ts → Forall (place_ok l') ts.
Proof. intros Hl Ht. eapply list.Forall_impl; [exact Ht|]. intros t. by apply place_ok_le. Qed.

(** Setting a trigger changes no registration. *)
Lemma registered_trigger sh i r b :
  rs_loops sh !! i = Some r → registered sh →
  registered (set_loops (<[i := set_trigger b r]> (rs_loops sh)) sh).
Proof.
  intros Hi Hreg b' j. cbn. rewrite (Hreg b' j).
  destruct (decide (i = j)) as [<-|Hne]; [|by rewrite list_lookup_insert_ne].
  rewrite list_lookup_insert_eq by (by eapply lookup_lt_Some). split.
  - intros (r' & Hr & <- & Hs). rewrite Hi in Hr. injection Hr as <-. by exists (set_trigger b r).
  - intros (r' & Hr & <- & Hs). injection Hr as <-. by exists r.
Qed.

Lemma refresh_thread_inv ch t sh t' sh' :
  refresh_thread_step ch t sh = Some (Ok (t', sh')) → registered sh → place_ok (rs_loops sh) t →
  registered sh' ∧ loops_le (rs_loops sh) (rs_loops sh') ∧ place_ok (rs_loops sh') t' ∧
  loop_of t' = loop_of t ∧ length (rs_loops sh') = length (rs_loops sh).
Proof.
  intros Hst Hreg Ht.
  destruct t as [i|i|i l|i|i|b|i|]; cbn [refresh_thread_step] in Hst; unfold fetch in Hst;
    repeat case_match; simplify_eq; try (split_and!; done || apply loops_le_refl);
    cbn [rs_loops set_loops add_fetch place_ok].
  - split; [by apply registered_trigger|]. rewrite length_insert. split; [|done].
    by eapply loops_le_insert.
  - split; [done|]. split; [apply loops_le_refl|]. split; [|done]. cbn. eauto.
  - split; [done|]. split; [apply loops_le_refl|]. split; [|done]. cbn.
    apply Hreg in H as (r & ? & _). by eapply lookup_lt_Some.
  - split; [by apply registered_trigger|]. rewrite length_insert. split; [|done].
    by eapply loops_le_insert.
Qed.

Lemma start_refresh_inv b sh ts' sh' :
  start_refresh b sh = (ts', sh') → registered sh →
  registered sh' ∧ loops_le (rs_loops sh) (rs_loops sh') ∧ Forall (place_ok (rs_loops sh')) ts' ∧
  seq 0 (length (rs_loops sh')) = seq 0 (length (rs_loops sh)) ++ concat (map loop_of ts').
Proof.
  unfold start_refresh. intros Hst Hreg.
  destruct (rs_refreshers sh !! b) as [i|] eqn:Hb; simplify_eq.
  { split; [done|]. split; [apply loops_le_refl|]. split; [done|]. by rewrite app_nil_r. }
  cbn [rs_loops set_refreshers set_loops]. split; [|split; [apply loops_le_snoc|split]].
  - intros b' i. cbn. rewrite lookup_insert_Some. setoid_rewrite (Hreg b' i). split.
    + intros [[<- <-]|[Hne (r & Hi & Hr)]].
      * eexists. by rewrite lookup_app_r, Nat.sub_diag.
      * exists r. split; [|done]. by apply lookup_app_l_Some.
    + intros (r & [Hi|[Hle Hi]]%lookup_app_Some & Hb' & Hs).
      * right. split; [|eauto]. intros <-. rewrite (proj2 (Hreg b i)) in Hb; [done|eauto].
      * left. destruct (i - length (rs_loops sh))%nat eqn:E; [|by destruct n].
        cbn in Hi. simplify_eq. split; [done|lia].
  - constructor; [cbn; rewrite length_app; cbn; lia|constructor].
  - rewrite length_app. cbn. by rewrite Nat.add_1_r, seq_S.
Qed.

Lemma stop_refresh_inv b sh :
  registered sh →
  ∃ sh', stop_refresh b sh = Ok sh' ∧ registered sh' ∧ loops_le (rs_loops sh) (rs_loops sh') ∧
    length (rs_loops sh') = length (rs_loops sh).
Proof.
  intros Hreg. unfold stop_refresh. destruct (rs_refreshers sh !! b) as [i|] eqn:Hb.
  2:{ exists sh. split_and!; done || apply loops_le_refl. }
  pose proof Hb as (r & Hi & Hr & Hs)%Hreg. unfold close_stop. rewrite Hi, Hs.
  eexists. split; [reflexivity|]. cbn [rs_loops set_refreshers set_loops rs_refreshers].
  split; [|split; [by eapply loops_le_insert|by rewrite length_insert]].
  intros b' j. cbn. rewrite lookup_delete_Some, (Hreg b' j).
  destruct (decide (i = j)) as [<-|Hne].
  - rewrite list_lookup_insert_eq by (by eapply lookup_lt_Some). split.
    + intros [Hne (r' & ? & ? & _)]. simplify_eq.
    + intros (r' & ? & ? & ?). simplify_eq.
  - rewrite list_lookup_insert_ne by done. split; [tauto|].
    intros (r' & Hj & Hr' & Hs'). split; [|eauto]. intros ->.
    assert (rs_refreshers sh !! b' = Some j) by (apply Hreg; eauto). congruence.
Qed.

Lemma stop_all_inv order sh :
  registered sh →
  ∃ sh', stop_all order sh = Ok sh' ∧ registered sh' ∧ loops_le (rs_loops sh) (rs_loops sh') ∧
    length (rs_loops sh') = length (rs_loops sh).
Proof.
  unfold stop_all. revert sh. induction order as [|b order IH]; intros sh Hreg; cbn [foldl].
  { exists sh. split_and!; done || apply loops_le_refl. }
  destruct (stop_refresh_inv b sh Hreg) as (sh1 & Hst & Hreg1 & Hle1 & Hlen1).
  change (sh ← Ok sh; stop_refresh b sh) with (stop_refresh b sh). rewrite Hst.
  destruct (IH sh1 Hreg1) as (sh2 & Hf & Hreg2 & Hle2 & Hlen2).
  exists sh2. split; [done|]. split; [done|]. split; [by eapply loops_le_trans|lia].
Qed.

Lemma run_call_inv c sh :
  registered sh →
  ∃ ts' sh', run_call c sh = Ok (ts', sh') ∧ registered sh' ∧
    loops_le (rs_loops sh) (rs_loops sh') ∧ Forall (place_ok (rs_loops sh')) ts' ∧
    seq 0 (length (rs_loops sh')) = seq 0 (length (rs_loops sh)) ++ concat (map loop_of ts').
Proof.
  intros Hreg. destruct c as [b|b|order|b|b|creds]; cbn [run_call].
  - destruct (start_refresh b sh) as [ts' sh'] eqn:E.
    exists ts', sh'. split; [done|]. by apply (start_refresh_inv b).
  - destruct (stop_refresh_inv b sh Hreg) as (sh' & -> & Hreg' & Hle & Hlen).
    exists [], sh'. cbn. rewrite Hlen, app_nil_r. by split_and!.
  - destruct (stop_all_inv order sh Hreg) as (sh' & -> & Hreg' & Hle & Hlen).
    exists [], sh'. cbn. rewrite Hlen, app_nil_r. by split_and!.
  - exists [TLook b], sh. cbn. rewrite app_nil_r. split_and!; try done; [apply loops_le_refl|].
    by constructor.
  - do 2 eexists. split; [done|]. cbn. rewrite app_nil_r. split_and!; try done. apply loops_le_refl.
  - do 2 eexists. split; [done|]. cbn. rewrite app_nil_r. split_and!; try done. apply loops_le_refl.
Qed.

Lemma refresh_inv_step c c' : step c c' → refresh_inv c → refresh_inv c'.
Proof.
  intros [ts sh i t ch t' sh' Hi _ Hst|ts sh c0 ts' sh' Hc] (Hreg & Hpl & Hlp).
  - assert (Ht : place_ok (rs_loops sh) t) by (by eapply Forall_lookup_1).
    destruct (refresh_thread_inv _ _ _ _ _ Hst Hreg Ht) as (Hreg' & Hle & Ht' & Hlo & Hlen).
    split; [done|]. split; [by apply Forall_insert; [eapply places_ok_le|]|].
    rewrite Hlen, <- Hlp, (concat_others _ _ _ _ Hi), <- Hlo.
    rewrite (concat_others _ i t'), others_insert by
      (rewrite list_lookup_insert_eq; [done|]; by eapply lookup_lt_Some). done.
  - destruct (run_call_inv c0 sh Hreg) as (ts1 & sh1 & Hc' & Hreg' & Hle & Hpl' & Hseq).
    rewrite Hc in Hc'. injection Hc' as <- <-. split; [done|]. split.
    + apply list.Forall_app. split; [by eapply places_ok_le|done].
    + by rewrite Hseq, map_app, concat_app, Hlp.
Qed.

Lemma refresh_reachable_inv c : rtc step no_refreshers c → refresh_inv c.
Proof.
  intros Hr. assert (H0 : refresh_inv no_refreshers).
  { split; [|split; [constructor|done]]. intros b i. cbn. rewrite lookup_empty. naive_solver. }
  induction Hr as [|? ? ? Hst _ IH]; [done|]. eauto using refresh_inv_step.
Qed.

(** No goroutine panics. *)
Lemma refresh_thread_safe ch t sh :
  safe (ch_dialed ch) → ∀ r, refresh_thread_step ch t sh = Some r → safe r.
Proof.
  intros Hd r. destruct t as [i|i|i l|i|i|b|i|]; cbn [refresh_thread_step]; unfold fetch;
    repeat case_match; intros; simplify_eq; try done.
  match goal with H : fetchMetadata ?c ?b ?d = Panic |- _ =>
    pose proof (safe_fetchMetadata c b d Hd) as Hs; by rewrite H in Hs end.
Qed.

(** ** Triggers *)

Definition pending (i : nat) (sh : shared) : Prop := ∃ r, rs_loops sh !! i = Some r ∧ ch_trigger r = true.
Definition fetched (i : nat) (sh : shared) : nat := count_occ Nat.eq_dec (rs_fetches sh) i.

Lemma fetched_add i j sh : fetched i (add_fetch j sh) = (fetched i sh + if decide (j = i) then 1 else 0)%nat.
Proof.
  unfold fetched. cbn. rewrite count_occ_app. cbn.
  destruct (Nat.eq_dec j i), (decide (j = i)); done || lia.
Qed.

(** What a step may do to the trigger of loop [i]. *)
Definition keeps_trigger (i : nat) (sh sh' : shared) : Prop :=
  (fetched i sh ≤ fetched i sh')%nat ∧
  (pending i sh → pending i sh' ∨ (fetched i sh < fetched i sh')%nat).

Lemma keeps_trigger_same i sh sh' :
  rs_fetches sh' = rs_fetches sh → (pending i sh → pending i sh') → keeps_trigger i sh sh'.
Proof. intros Hf Hp. unfold keeps_trigger, fetched. rewrite Hf. split; [lia|auto]. Qed.

Lemma pending_insert i j r r' sh :
  rs_loops sh !! j = Some r → (ch_trigger r = true → ch_trigger r' = true) →
  pending i sh → pending i (set_loops (<[j := r']> (rs_loops sh)) sh).
Proof.
  intros Hj Hr (r0 & Hi & Ht). unfold pending. cbn.
  destruct (decide (j = i)) as [<-|Hne]; [|exists r0; by rewrite list_lookup_insert_ne].
  exists r'. rewrite list_lookup_insert_eq by (by eapply lookup_lt_Some). simplify_eq. auto.
Qed.

Lemma thread_keeps_trigger i ch t sh t' sh' :
  refresh_thread_step ch t sh = Some (Ok (t', sh')) → keeps_trigger i sh sh'.
Proof.
  intros Hst. destruct t as [j|j|j l|j|j|b|j|]; cbn [refresh_thread_step] in Hst; unfold fetch in Hst;
    repeat case_match; simplify_eq; try by apply keeps_trigger_same.
  - unfold keeps_trigger. rewrite fetched_add. split; [lia|]. auto.
  - unfold keeps_trigger. rewrite fetched_add. split; [lia|]. auto.
  - unfold keeps_trigger. rewrite fetched_add. change (fetched i (set_loops _ sh)) with (fetched i sh).
    split; [lia|]. intros Hp. destruct (decide (j = i)) as [->|Hne]; [right; lia|left].
    destruct Hp as (r & Hi & Ht). exists r. cbn. by rewrite list_lookup_insert_ne.
  - apply keeps_trigger_same; [done|]. by eapply pending_insert.
Qed.

Lemma stop_keeps_trigger i b sh sh' : stop_refresh b sh = Ok sh' → keeps_trigger i sh sh'.
Proof.
  unfold stop_refresh, close_stop. intros Hst.
  destruct (rs_refreshers sh !! b) as [j|]; [|simplify_eq; by apply keeps_trigger_same].
  destruct (rs_loops sh !! j) as [r|] eqn:Hj; [|done]. destruct (ch_stop r); [done|].
  injection Hst as <-. apply keeps_trigger_same; [done|].
  intros Hp. exact (pending_insert i j r (set_stop r) sh Hj (λ H, H) Hp).
Qed.

Lemma keeps_trigger_trans i sh1 sh2 sh3 :
  keeps_trigger i sh1 sh2 → keeps_trigger i sh2 sh3 → keeps_trigger i sh1 sh3.
Proof.
  intros [? H1] [? H2]. split; [lia|]. intros [Hp|?]%H1; [|right; lia].
  destruct (H2 Hp); [by left|right; lia].
Qed.

Lemma stop_all_keeps_trigger i order sh sh' : stop_all order sh = Ok sh' → keeps_trigger i sh sh'.
Proof.
  unfold stop_all. revert sh'. induction order as [|b order IH] using rev_ind; intros sh' E.
  - cbn in E. simplify_eq. by apply keeps_trigger_same.
  - rewrite foldl_snoc in E. destruct (foldl _ (Ok sh) order) as [sh1| |] eqn:E1; try done.
    eapply keeps_trigger_trans; [by apply IH|by eapply stop_keeps_trigger].
Qed.

Lemma call_keeps_trigger i c sh ts' sh' : run_call c sh = Ok (ts', sh') → keeps_trigger i sh sh'.
Proof.
  destruct c as [b|b|order|b|b|creds]; cbn [run_call]; intros Hc.
  - injection Hc as Hc. unfold start_refresh in Hc.
    destruct (rs_refreshers sh !! b); simplify_eq; apply keeps_trigger_same; try done.
    intros (r & Hi & Ht). exists r. split; [|done]. by apply lookup_app_l_Some.
  - destruct (stop_refresh b sh) as [sh1| |] eqn:E; try done. injection Hc as <- <-.
    by eapply stop_keeps_trigger.
  - destruct (stop_all order sh) as [sh1| |] eqn:E; try done. injection Hc as <- <-.
    by eapply stop_all_keeps_trigger.
  - injection Hc as <- <-. by apply keeps_trigger_same.
  - injection Hc as <- <-. by apply keeps_trigger_same.
  - injection Hc as <- <-. by apply keeps_trigger_same.
Qed.

Lemma run_keeps_trigger i c c' : rtc step c c' → keeps_trigger i c.2 c'.2.
Proof.
  induction 1 as [c|c1 c2 c3 Hst _ IH]; [by apply keeps_trigger_same|].
  eapply keeps_trigger_trans; [|exact IH].
  destruct Hst; cbn [snd]; eauto using thread_keeps_trigger, call_keeps_trigger.
Qed.

(** ** The calls on the cache *)

Definition trigger_of (sh : shared) (i : nat) : clusterRefresher :=
  {| rf_trigger := default false (ch_trigger <$> rs_loops sh !! i) |}.

Lemma cache_refreshers sh : lc_refreshers (cache_of sh) = trigger_of sh <$> rs_refreshers sh.
Proof. done. Qed.

Lemma cache_eq sh c :
  lc_leaders c = rs_leaders sh → lc_bootstrapCreds c = rs_creds sh →
  lc_refreshInterval c = DefaultRefreshInterval → lc_refreshers c = trigger_of sh <$> rs_refreshers sh →
  cache_of sh = c.
Proof. destruct c. cbn. intros -> -> -> ->. done. Qed.

(** One loop's trigger changes. *)
Lemma triggers_insert sh i r r' (m : gmap string nat) :
  rs_loops sh !! i = Some r → ch_trigger r' = ch_trigger r →
  trigger_of (set_loops (<[i := r']> (rs_loops sh)) sh) <$> m = trigger_of sh <$> m.
Proof.
  intros Hi Hr. apply map_fmap_ext. intros b j _. unfold trigger_of. cbn. f_equal.
  destruct (decide (i = j)) as [<-|Hne]; [|by rewrite list_lookup_insert_ne].
  rewrite list_lookup_insert_eq by (by eapply lookup_lt_Some). rewrite Hi. cbn. by rewrite Hr.
Qed.

Lemma cache_start b sh :
  registered sh → cache_of (start_refresh b sh).2 = StartBackgroundRefresh b (cache_of sh).
Proof.
  intros Hreg. unfold start_refresh, StartBackgroundRefresh. rewrite cache_refreshers, lookup_fmap.
  destruct (rs_refreshers sh !! b) as [i|] eqn:Hb; [done|].
  apply cache_eq; [done..|]. cbn [fst snd fmap option_fmap option_map with_refreshers lc_refreshers
    set_refreshers rs_refreshers].
  rewrite fmap_insert. f_equal.
  - unfold trigger_of. cbn. by rewrite lookup_app_r, Nat.sub_diag.
  - apply map_fmap_ext. intros b' j (r & Hj & _)%Hreg. unfold trigger_of. cbn.
    by rewrite (lookup_app_l_Some _ _ _ _ Hj), Hj.
Qed.

Lemma cache_stop b sh sh' :
  stop_refresh b sh = Ok sh' → cache_of sh' = StopBackgroundRefresh b (cache_of sh).
Proof.
  unfold stop_refresh, close_stop, StopBackgroundRefresh. intros Hst.
  destruct (rs_refreshers sh !! b) as [i|] eqn:Hb.
  - destruct (rs_loops sh !! i) as [r|] eqn:Hi; [|done]. destruct (ch_stop r); [done|].
    injection Hst as <-. apply cache_eq; [done..|].
    cbn [with_refreshers lc_refreshers set_refreshers rs_refreshers set_loops].
    rewrite cache_refreshers, <- fmap_delete. symmetry. by apply (triggers_insert sh i r).
  - injection Hst as <-. apply cache_eq; [done..|]. cbn [with_refreshers lc_refreshers].
    rewrite cache_refreshers. apply delete_id. by rewrite lookup_fmap, Hb.
Qed.

(** One goroutine alone, the outside deciding as [ch] says. *)
Fixpoint alone (n : nat) (ch : choice) (t : place) (sh : shared) : option (res (place * shared)) :=
  match n with
  | O => Some (Ok (t, sh))
  | S n =>
      match refresh_thread_step ch t sh with
      | Some (Ok (t', sh')) => alone n ch t' sh'
      | Some Panic => Some Panic
      | Some (Err e) => Some (Err e)
      | None => Some (Ok (t, sh))
      end
  end.

Lemma alone_trigger b ch sh :
  registered sh →
  ∃ sh', alone 2 ch (TLook b) sh = Some (Ok (TDone, sh')) ∧ cache_of sh' = TriggerRefresh b (cache_of sh).
Proof.
  intros Hreg. cbn [alone refresh_thread_step]. unfold TriggerRefresh. rewrite cache_refreshers, lookup_fmap.
  destruct (rs_refreshers sh !! b) as [i|] eqn:Hb; [|by exists sh].
  pose proof Hb as (r & Hi & Hr & Hs)%Hreg. cbn [alone refresh_thread_step]. rewrite Hi.
  eexists. split; [reflexivity|]. apply cache_eq; [done..|].
  cbn [fmap option_fmap option_map with_refreshers lc_refreshers set_loops rs_refreshers].
  apply map_eq. intros b'. rewrite lookup_insert, !lookup_fmap. case_decide as Hbb.
  - subst b'. rewrite Hb. cbn. unfold trigger_of. cbn.
    by rewrite list_lookup_insert_eq by (by eapply lookup_lt_Some).
  - destruct (rs_refreshers sh !! b') as [j|] eqn:Hj; cbn; [|done]. unfold trigger_of. cbn.
    rewrite list_lookup_insert_ne; [done|]. intros <-.
    apply Hreg in Hj as (r' & ? & ? & _). simplify_eq.
Qed.

Lemma alone_refresh i r ch sh :
  rs_loops sh !! i = Some r → safe (ch_dialed ch) →
  ∃ n sh', alone n ch (LFetch i) sh = Some (Ok (LSelect i, sh')) ∧
    cache_of sh' = snd (Refresh (ch_bootstrap r) (ch_dialed ch) (cache_of sh)).
Proof.
  intros Hi Hd. unfold Refresh.
  pose proof (safe_fetchMetadata (cache_of sh) (ch_bootstrap r) (ch_dialed ch) Hd) as Hs.
  destruct (fetchMetadata (cache_of sh) (ch_bootstrap r) (ch_dialed ch)) as [l|e|] eqn:Hf; [..|done].
  - exists 2%nat. eexists. split.
    { cbn [alone refresh_thread_step]. unfold fetch. rewrite Hi, Hf.
      cbn [alone refresh_thread_step]. rewrite Hi. reflexivity. }
    done.
  - exists 1%nat, sh. split; [|done]. cbn [alone refresh_thread_step]. unfold fetch. by rewrite Hi, Hf.
Qed.

(** ** Serving a trigger *)

(** A run of the whole proxy in which goroutine [g] takes at least [n] steps. *)
Inductive run_of (g : nat) : nat → list place * shared → list place * shared → Prop :=
  | run_none c : run_of g 0 c c
  | run_own ts sh t ch t' sh' n c :
      ts !! g = Some t → safe (ch_dialed ch) → refresh_thread_step ch t sh = Some (Ok (t', sh')) →
      run_of g n (<[g := t']> ts, sh') c → run_of g (S n) (ts, sh) c
  | run_any c1 c2 c3 n : step c1 c2 → run_of g n c2 c3 → run_of g n c1 c3.

Lemma run_of_rtc g n c c' : run_of g n c c' → rtc step c c'.
Proof. induction 1; [apply rtc_refl|eapply rtc_l; [by eapply step_run|done]|by eapply rtc_l]. Qed.

Lemma step_loops_le c c' : refresh_inv c → step c c' → loops_le (rs_loops c.2) (rs_loops c'.2).
Proof.
  intros Hinv Hst. destruct Hst as [ts sh i t ch t' sh' Hi _ Hst|ts sh c0 ts' sh' Hc]; cbn [snd];
    destruct Hinv as (Hreg & Hpl & _).
  - by destruct (refresh_thread_inv _ _ _ _ _ Hst Hreg (Forall_lookup_1 _ _ _ _ Hpl Hi)) as (_ & ? & _).
  - destruct (run_call_inv c0 sh Hreg) as (ts1 & sh1 & Hc' & _ & Hle & _).
    rewrite Hc in Hc'. by injection Hc' as <- <-.
Qed.

Definition stopped (i : nat) (sh : shared) : Prop := ∃ r, rs_loops sh !! i = Some r ∧ ch_stop r = true.

Lemma run_stopped i c c' : refresh_inv c → rtc step c c' → stopped i c.2 → stopped i c'.2.
Proof.
  intros Hinv Hr. induction Hr as [|c c1 c2 Hst _ IH]; [done|]. intros (r & Hi & Hs).
  apply IH; [by eapply refresh_inv_step|]. destruct (step_loops_le _ _ Hinv Hst) as [_ Hle].
  destruct (Hle i r Hi Hs) as (r' & ? & ?). by exists r'.
Qed.

#[local] Instance stopped_dec i sh : Decision (stopped i sh).
Proof.
  destruct (rs_loops sh !! i) as [r|] eqn:Hi; [destruct (ch_stop r) eqn:Hs|]; [left; by exists r|right..];
    intros (r' & ? & ?); congruence.
Defined.

(** How many steps a loop is from beginning a refresh. *)
Definition distance (t : place) : nat :=
  match t with LStart _ | LSelect _ => 1 | LInstall _ _ => 2 | LFetch _ => 3 | _ => 0 end.

Lemma own_step_serves ch t sh t' sh' i :
  refresh_thread_step ch t sh = Some (Ok (t', sh')) → loop_of t = [i] → ¬ stopped i sh →
  (fetched i sh < fetched i sh')%nat ∨ loop_of t' = [i] ∧ (distance t' < distance t)%nat.
Proof.
  intros Hst Hl Hns. destruct t as [j|j|j l|j|j|b|j|]; cbn in Hl; simplify_eq;
    cbn [refresh_thread_step] in Hst; unfold fetch in Hst; repeat case_match; simplify_eq.
  - left. rewrite fetched_add, decide_True by done. lia.
  - right. split; [done|cbn; lia].
  - right. split; [done|cbn; lia].
  - right. split; [done|cbn; lia].
  - left. rewrite fetched_add, decide_True by done. lia.
  - left. rewrite fetched_add, decide_True by done. unfold fetched. cbn. lia.
  - destruct Hns. unfold stopped. eauto.
Qed.

Lemma step_place c c' g t :
  step c c' → c.1 !! g = Some t →
  c'.1 !! g = Some t ∨
  ∃ ch t', refresh_thread_step ch t c.2 = Some (Ok (t', c'.2)) ∧ c'.1 !! g = Some t'.
Proof.
  intros [ts sh i t1 ch t' sh' Hi _ Hst|ts sh c0 ts' sh' Hc] Hg; cbn [fst snd] in *.
  - destruct (decide (i = g)) as [<-|Hne]; [|left; by rewrite list_lookup_insert_ne].
    right. simplify_eq. exists ch, t'. split; [done|].
    by rewrite list_lookup_insert_eq by (by eapply lookup_lt_Some).
  - left. by apply lookup_app_l_Some.
Qed.

(** Until its refresh begins, the loop comes nearer to it with each of its steps. *)
Lemma run_serves g n c c' i t :
  run_of g n c c' → refresh_inv c → c.1 !! g = Some t → loop_of t = [i] → ¬ stopped i c'.2 →
  (fetched i c.2 < fetched i c'.2)%nat ∨
  ∃ t', c'.1 !! g = Some t' ∧ loop_of t' = [i] ∧ (n + distance t' ≤ distance t)%nat.
Proof.
  intros Hr. revert t. induction Hr as [c|ts sh t1 ch t1' sh1 n c Hg Hd Hst Hr IH|c1 c2 c3 n Hst Hr IH];
    intros t Hinv Ht Hl Hns; [right; by exists t|..].
  - cbn [fst snd] in *. simplify_eq.
    assert (Hstep : step (ts, sh) (<[g:=t1']> ts, sh1)) by (by eapply step_run).
    pose proof (refresh_inv_step _ _ Hstep Hinv) as Hinv1.
    assert (Hns0 : ¬ stopped i sh).
    { intros H. apply Hns. eapply (run_stopped i (ts, sh)); [done|by eapply rtc_l, run_of_rtc|done]. }
    pose proof (proj1 (run_keeps_trigger i _ _ (run_of_rtc _ _ _ _ Hr))) as Hmono. cbn [snd] in Hmono.
    destruct (own_step_serves _ _ _ _ _ _ Hst Hl Hns0) as [Hlt|[Hl' Hdist]]; [left; lia|].
    destruct (IH t1') as [Hlt|(t' & ? & ? & ?)]; try done.
    + by rewrite list_lookup_insert_eq by (by eapply lookup_lt_Some).
    + left. pose proof (proj1 (thread_keeps_trigger i _ _ _ _ _ Hst)). lia.
    + right. exists t'. split_and!; [done|done|lia].
  - pose proof (refresh_inv_step _ _ Hst Hinv) as Hinv2.
    assert (Hrtc : rtc step c2 c3) by (by eapply run_of_rtc).
    assert (Hns0 : ¬ stopped i c1.2).
    { intros H. apply Hns. eapply (run_stopped i c1); [done|by eapply rtc_l|done]. }
    pose proof (proj1 (run_keeps_trigger i _ _ Hrtc)) as Hmono.
    pose proof (proj1 (run_keeps_trigger i c1 c2 (rtc_once _ _ Hst))) as Hmono1.
    destruct (step_place _ _ _ _ Hst Ht) as [Ht2|(ch & t' & Hth & Ht2)].
    + destruct (IH t Hinv2 Ht2 Hl Hns) as [Hlt|Hres]; [left; lia|by right].
    + destruct (own_step_serves _ _ _ _ _ _ Hth Hl Hns0) as [Hlt|[Hl' Hdist]]; [left; lia|].
      destruct (IH t' Hinv2 Ht2 Hl' Hns) as [Hlt|(t2 & ? & ? & ?)]; [left; lia|].
      right. exists t2. split_and!; [done|done|lia].
Qed.

Lemma distance_loop i t sh :
  place_ok (rs_loops sh) t → loop_of t = [i] → ¬ stopped i sh → (0 < distance t ≤ 3)%nat.
Proof.
  intros Hok Hl Hns. destruct t as [j|j|j l|j|j|b|j|]; cbn in Hl; simplify_eq; cbn [distance]; try lia.
  destruct Hns. exact Hok.
Qed.

(** A loop that is not stopped is never stuck. *)
Lemma loop_can_step i t sh :
  place_ok (rs_loops sh) t → loop_of t = [i] → ¬ stopped i sh →
  ∃ ch t' sh', safe (ch_dialed ch) ∧ refresh_thread_step ch t sh = Some (Ok (t', sh')).
Proof.
  set (ch := {| ch_dialed := Err (Errorf "refused"); ch_case := OnTick |}). intros Hok Hl Hns.
  exists ch. destruct t as [j|j|j l|j|j|b|j|]; cbn in Hl; simplify_eq; cbn [place_ok] in Hok.
  - by do 2 eexists.
  - destruct (lookup_lt_is_Some_2 _ _ Hok) as [r Hr]. cbn. unfold fetch. rewrite Hr.
    pose proof (safe_fetchMetadata (cache_of sh) (ch_bootstrap r) (ch_dialed ch) I) as Hs.
    destruct (fetchMetadata _ _ _); [by do 2 eexists..|done].
  - destruct (lookup_lt_is_Some_2 _ _ Hok) as [r Hr]. cbn. rewrite Hr. by do 2 eexists.
  - destruct (lookup_lt_is_Some_2 _ _ Hok) as [r Hr]. cbn. rewrite Hr. by do 2 eexists.
  - destruct Hns. exact Hok.
Qed.

(** ** Properties *)

(** C27: the refreshers under any interleaving.  However the loops, triggers and
    calls of all bootstraps interleave: no [stop] channel is closed twice, so no
    call panics, and no loop does; every loop has exactly one goroutine, which
    returns only after its [stop] is closed; and a bootstrap is registered exactly
    while it has an open loop, of which it has at most one. *)
Theorem refresher_interleavings ts sh :
  rtc step no_refreshers (ts, sh) →
  (∀ c, is_ok (run_call c sh) = true) ∧
  (∀ ch t r, safe (ch_dialed ch) → refresh_thread_step ch t sh = Some r → safe r) ∧
  concat (map loop_of ts) ≡ₚ seq 0 (length (rs_loops sh)) ∧
  (∀ i, LReturned i ∈ ts → ∃ r, rs_loops sh !! i = Some r ∧ ch_stop r = true) ∧
  (∀ b i, rs_refreshers sh !! b = Some i ↔
     ∃ r, rs_loops sh !! i = Some r ∧ ch_bootstrap r = b ∧ ch_stop r = false).
Proof.
  intros (Hreg & Hpl & Hlp)%refresh_reachable_inv. split_and!; try done.
  - intros c. by destruct (run_call_inv c sh Hreg) as (ts' & sh' & -> & _).
  - intros ch t r Hd. by apply refresh_thread_safe.
  - intros i Hin. rewrite list.Forall_forall in Hpl. exact (Hpl _ Hin).
Qed.

(** C28: a trigger is never lost.  [TriggerRefresh] first looks the loop of the
    bootstrap up and then sends.  The send never blocks, and after it a trigger is
    pending for the loop, whether or not one was before, so that dropping a second
    one is no loss.  From then on, however everything in the proxy interleaves, the
    trigger stays pending until the loop begins a refresh; and unless the loop is
    stopped, it begins one by its third step, whichever ready case its [select]
    takes, and can always take its next step.  (A loop that is stopped may return
    with its last trigger unserved.) *)
Theorem trigger_not_lost ts sh k i ch :
  rtc step no_refreshers (ts, sh) → ts !! k = Some (TSend i) →
  (∀ b ch, refresh_thread_step ch (TLook b) sh =
     Some (Ok (match rs_refreshers sh !! b with Some j => TSend j | None => TDone end, sh))) ∧
  ∃ sh1, refresh_thread_step ch (TSend i) sh = Some (Ok (TDone, sh1)) ∧
    ∀ g n ts' sh', (∃ t, ts !! g = Some t ∧ loop_of t = [i]) →
      run_of g n (<[k := TDone]> ts, sh1) (ts', sh') →
      (fetched i sh < fetched i sh')%nat ∨
      (∃ r, rs_loops sh' !! i = Some r ∧ ch_trigger r = true) ∧
      ((∃ r, rs_loops sh' !! i = Some r ∧ ch_stop r = true) ∨
       (n < 3)%nat ∧ ∃ ch' t t' sh2, safe (ch_dialed ch') ∧ ts' !! g = Some t ∧
                       refresh_thread_step ch' t sh' = Some (Ok (t', sh2))).
Proof.
  intros Hr Hk. pose proof (refresh_reachable_inv _ Hr) as (Hreg & Hpl & Hlp). split.
  { intros b ch'. cbn. by destruct (rs_refreshers sh !! b). }
  pose proof (Forall_lookup_1 _ _ _ _ Hpl Hk) as Hlt. cbn [place_ok] in Hlt.
  destruct (lookup_lt_is_Some_2 _ _ Hlt) as [r Hi].
  set (sh1 := set_loops (<[i := set_trigger true r]> (rs_loops sh)) sh).
  assert (Hst : ∀ ch, refresh_thread_step ch (TSend i) sh = Some (Ok (TDone, sh1))) by (intros; cbn; by rewrite Hi).
  exists sh1. split; [done|]. intros g n ts' sh' (t & Hg & Hl) Hrun.
  assert (Hstep : step (ts, sh) (<[k := TDone]> ts, sh1)).
  { by eapply (step_run _ _ k _ {| ch_dialed := Err (Errorf "refused"); ch_case := OnTick |}). }
  pose proof (refresh_inv_step _ _ Hstep (conj Hreg (conj Hpl Hlp))) as Hinv1.
  assert (Hp1 : pending i sh1).
  { exists (set_trigger true r). cbn. by rewrite list_lookup_insert_eq. }
  pose proof (run_of_rtc _ _ _ _ Hrun) as Hrtc.
  destruct (decide (fetched i sh < fetched i sh')%nat) as [Hlt'|Hnlt]; [by left|right].
  destruct (proj2 (run_keeps_trigger i _ _ Hrtc) Hp1) as [Hp|?]; [split; [exact Hp|]|done].
  assert (Hpl' : Forall (place_ok (rs_loops sh')) ts').
  { apply (refresh_reachable_inv (ts', sh')). etransitivity; [exact Hr|]. by eapply rtc_l. }
  destruct (stopped_dec i sh') as [Hs|Hns]; [by left|right].
  assert (Hg1 : <[k := TDone]> ts !! g = Some t).
  { rewrite list_lookup_insert_ne; [done|]. intros <-. by simplify_eq. }
  assert (Hd3 : (0 < distance t ≤ 3)%nat).
  { apply (distance_loop i t sh1); [by eapply Forall_lookup_1; [apply Hinv1|]|done|].
    intros H. apply Hns. by eapply (run_stopped i _ _ Hinv1 Hrtc). }
  destruct (run_serves _ _ _ _ _ _ Hrun Hinv1 Hg1 Hl Hns) as [?|(t' & Hg' & Hl' & Hd)]; [done|].
  pose proof (Forall_lookup_1 _ _ _ _ Hpl' Hg') as Ht'.
  pose proof (distance_loop i t' sh' Ht' Hl' Hns). split; [lia|].
  destruct (loop_can_step i t' sh' Ht' Hl' Hns) as (ch' & t2 & sh2 & ? & ?). eauto 8.
Qed.

(** Without interference the loops and calls are those of [LeaderCache]. *)
Theorem refresher_operations_alone ts sh :
  rtc step no_refreshers (ts, sh) →
  (∀ b, cache_of (start_refresh b sh).2 = StartBackgroundRefresh b (cache_of sh)) ∧
  (∀ b, ∃ sh', stop_refresh b sh = Ok sh' ∧ cache_of sh' = StopBackgroundRefresh b (cache_of sh)) ∧
  (∀ b ch, ∃ sh', alone 2 ch (TLook b) sh = Some (Ok (TDone, sh')) ∧
     cache_of sh' = TriggerRefresh b (cache_of sh)) ∧
  (∀ b, cache_of (invalidate b sh) = LC_Invalidate b (cache_of sh)) ∧
  (∀ i r ch, rs_loops sh !! i = Some r → safe (ch_dialed ch) →
     ∃ n sh', alone n ch (LFetch i) sh = Some (Ok (LSelect i, sh')) ∧
       cache_of sh' = snd (Refresh (ch_bootstrap r) (ch_dialed ch) (cache_of sh))).
Proof.
  intros (Hreg & _ & _)%refresh_reachable_inv. split_and!.
  - intros b. by apply cache_start.
  - intros b. destruct (stop_refresh_inv b sh Hreg) as (sh' & Hst & _). eauto using cache_stop.
  - intros b ch. by apply alone_trigger.
  - done.
  - intros i r ch. apply alone_refresh.
Qed.

(** A stopped refresher still writes.  [StopBackgroundRefresh] closes the
    channel of the loop and does not wait for it.  A reload that removes a
    bootstrap stops its loop and invalidates its leaders, but a refresh in flight
    installs them again afterwards, with no loop left that will refresh or forget
    them; and when a further reload brings the bootstrap back, the older answer
    can replace the newer one. *)
Theorem stopped_refresher_writes b dialed1 dialed2 l1 l2 :
  safe dialed1 → safe dialed2 →
  fetchMetadata NewPartitionLeaderCache b dialed1 = Ok l1 →
  fetchMetadata NewPartitionLeaderCache b dialed2 = Ok l2 →
  (∃ sh, rtc step no_refreshers ([LSelect 0], sh) ∧ rs_refreshers sh !! b = None ∧
     rs_leaders sh !! b = Some l1) ∧
  (∃ sh, rtc step no_refreshers ([LSelect 0; LSelect 1], sh) ∧ rs_refreshers sh !! b = Some 1%nat ∧
     rs_fetches sh = [0; 1]%nat ∧ rs_leaders sh !! b = Some l1).
Proof.
  intros Hd1 Hd2 H1 H2.
  set (ch1 := {| ch_dialed := dialed1; ch_case := OnTick |}).
  set (ch2 := {| ch_dialed := dialed2; ch_case := OnTick |}).
  set (cs := λ stop, {| ch_bootstrap := b; ch_trigger := false; ch_stop := stop |}).
  (* the loop has its answer when it is stopped *)
  assert (Hrun : rtc step no_refreshers ([LInstall 0 l1],
    {| rs_leaders := ∅; rs_creds := ∅; rs_refreshers := ∅; rs_loops := [cs true];
       rs_fetches := [0%nat] |})).
  { eapply rtc_l; [apply (step_call [] _ (CStart b)); reflexivity|].
    eapply rtc_l; [apply (step_run _ _ 0 (LStart 0) ch1); [done..|reflexivity]|].
    eapply rtc_l; [apply (step_run _ _ 0 (LFetch 0) ch1 (LInstall 0 l1)); [done..|]|].
    { cbn [refresh_thread_step]. unfold fetch. cbn. unfold NewPartitionLeaderCache in H1.
      change (fetchMetadata _ b dialed1) with (fetchMetadata NewPartitionLeaderCache b dialed1).
      unfold NewPartitionLeaderCache. rewrite H1. reflexivity. }
    eapply rtc_l; [apply (step_call _ _ (CStop b)); cbn; unfold stop_refresh; cbn;
      rewrite lookup_insert, decide_True by done; reflexivity|].
    eapply rtc_l; [apply (step_call _ _ (CInvalidate b)); reflexivity|].
    unfold set_refreshers, set_loops, invalidate, set_leaders. cbn.
    rewrite delete_insert_eq, delete_empty. apply rtc_refl. }
  split.
  - eexists. split; [|split].
    + etransitivity; [exact Hrun|].
      eapply rtc_l; [apply (step_run _ _ 0 (LInstall 0 l1) ch1); [done..|reflexivity]|].
      apply rtc_refl.
    + done.
    + cbn. by rewrite lookup_insert, decide_True.
  - eexists. split; [|split; [|split]].
    + etransitivity; [exact Hrun|].
      eapply rtc_l; [apply (step_call _ _ (CStart b)); reflexivity|].
      eapply rtc_l; [apply (step_run _ _ 1 (LStart 1) ch2); [done..|reflexivity]|].
      eapply rtc_l; [apply (step_run _ _ 1 (LFetch 1) ch2 (LInstall 1 l2)); [done..|]|].
      { cbn [refresh_thread_step]. unfold fetch. cbn.
        change (fetchMetadata _ b dialed2) with (fetchMetadata NewPartitionLeaderCache b dialed2).
        rewrite H2. reflexivity. }
      eapply rtc_l; [apply (step_run _ _ 1 (LInstall 1 l2) ch2); [done..|reflexivity]|].
      eapply rtc_l; [apply (step_run _ _ 0 (LInstall 0 l1) ch1); [done..|reflexivity]|].
      apply rtc_refl.
    + cbn. by rewrite lookup_insert, decide_True.
    + done.
    + cbn. by rewrite lookup_insert, decide_True.
Qed.

(** ** Witnesses *)

Definition one_refresher : list place * shared :=
  ([LStart 0], snd (start_refresh "b:9092" (snd no_refreshers))).

Lemma refresher_interleavings_witness :
  rtc step no_refreshers one_refresher ∧
  is_ok (run_call (CStop "b:9092") (snd one_refresher)) = true ∧
  rs_refreshers (snd one_refresher) !! "b:9092"%string = Some 0%nat.
Proof.
  assert (H : rtc step no_refreshers one_refresher).
  { apply rtc_once. apply (step_call [] _ (CStart "b:9092")). reflexivity. }
  split; [exact H|]. destruct (refresher_interleavings _ _ H) as (Hc & _ & _ & _ & Hr).
  split; [apply Hc|]. apply Hr. eexists. split; [reflexivity|split; reflexivity].
Defined.

(** A loop is started and a trigger looks it up while its first refresh runs: the
    trigger is sent, and the loop's third step after that begins another refresh. *)
Lemma trigger_not_lost_witness :
  ∃ ts sh sh1, rtc step no_refreshers (ts, sh) ∧ ts = [LFetch 0; TSend 0] ∧ fetched 0 sh = 1%nat ∧
    refresh_thread_step {| ch_dialed := Err (Errorf "refused"); ch_case := OnTick |} (TSend 0) sh =
      Some (Ok (TDone, sh1)) ∧
    ∀ ts' sh', run_of 0 3 ([LFetch 0; TDone], sh1) (ts', sh') →
      (1 < fetched 0 sh')%nat ∨ ∃ r, rs_loops sh' !! 0%nat = Some r ∧ ch_stop r = true.
Proof.
  set (ch := {| ch_dialed := Err (Errorf "refused"); ch_case := OnTick |}).
  set (sh := add_fetch 0 (snd one_refresher)).
  assert (Hr : rtc step no_refreshers ([LFetch 0; TSend 0], sh)).
  { eapply rtc_l; [apply (step_call [] _ (CStart "b:9092")); reflexivity|].
    eapply rtc_l; [apply (step_call _ _ (CTrigger "b:9092")); reflexivity|].
    eapply rtc_l; [apply (step_run _ _ 0 (LStart 0) ch (LFetch 0)); reflexivity|].
    eapply rtc_l; [apply (step_run _ _ 1 (TLook "b:9092") ch (TSend 0)); reflexivity|]. apply rtc_refl. }
  destruct (trigger_not_lost _ sh 1 0 ch Hr eq_refl) as [_ (sh1 & Hst & Hserve)].
  exists [LFetch 0; TSend 0], sh, sh1. split; [exact Hr|]. split; [reflexivity|]. split; [reflexivity|].
  split; [exact Hst|]. intros ts' sh' Hrun.
  destruct (Hserve 0%nat 3%nat ts' sh') as [H|[_ [H|[H _]]]].
  - exists (LFetch 0). split; reflexivity.
  - exact Hrun.
  - left. exact H.
  - right. exact H.
  - destruct (Nat.lt_irrefl _ H).
Defined.

Lemma refresher_operations_alone_witness :
  cache_of (snd one_refresher) = StartBackgroundRefresh "b:9092" (cache_of (snd no_refreshers)).
Proof.
  exact (proj1 (refresher_operations_alone [] (snd no_refreshers) (rtc_refl _ _)) "b:9092"%string).
Defined.

(** The sample answer arrives after the stop. *)
Lemma stopped_refresher_writes_witness :
  ∃ sh, rtc step no_refreshers ([LSelect 0], sh) ∧ rs_refreshers sh !! "b:9092"%string = None ∧
    getLeaderLocked (cache_of sh) "b:9092" "orders" 0 = Some "kafka-2:9093"%string.
Proof.
  destruct (fetchMetadata NewPartitionLeaderCache "b:9092" (Ok sample_peer)) as [l| |] eqn:E;
    [|vm_compute in E; discriminate E..].
  destruct (stopped_refresher_writes "b:9092" (Ok sample_peer) (Ok sample_peer) l l I I E E)
    as [(sh & H1 & H2 & H3) _].
  exists sh. split; [exact H1|]. split; [exact H2|].
  unfold getLeaderLocked, cache_of. cbn [lc_leaders]. rewrite H3.
  vm_compute in E. injection E as <-. vm_compute. reflexivity.
Defined.
