(* ===== verification/PoolThreads.v ===== *)
(** * The connection pool under concurrency ([internal/pool/pool.go])

    [Pool] runs each operation alone; here the goroutines that use the pool of one
    broker interleave, one channel operation or one locked section at a time.  The
    idle channel is a bounded FIFO, [sem] the number of tokens in the semaphore
    channel, [sh_mu] tells whether the cleanup holds [cp.mu].  A goroutine is its
    place in [Get], in [Put], in the release of a slot after a failed health check,
    or in [cleanupBrokerPool]; [None] means that it blocks there. *)

From S2P Require Import Prelude Bytes Conn Protocol Config Pool.

#[local] Arguments Z.ltb : simpl never.

Record shared := {
  sh_idle : list pooledConn;
  sh_sem : Z;
  sh_mu : bool;
  sh_closed : list nat;
  sh_next : nat
}.

Inductive place :=
  (* Get *)
  | GStart | GIdle | GSem | GBlocked | GCheck (p : pooledConn) | GExpired | GDial | GFail
  (* its result: a connection in use, or an error *)
  | Holds (c : nat) | Failed
  (* Put *)
  | PStart (c : nat) | PSend (p : pooledConn)
  (* conn.Close() and releaseSem *)
  | DRelease
  (* cleanupBrokerPool *)
  | CStart | CDrain (l : list pooledConn) | CSort (l : list pooledConn)
  | CRelease (l : list pooledConn)
  | Gone.

(** What the holder of a connection does with it. *)
Inductive usage := ReturnIt | DiscardIt.

(** What the outside decides at a step. *)
Record choice := { ch_now : time; ch_dials : bool; ch_usage : usage }.

Section Threads.
Context (maxSize : Z) (timeout : duration).

Definition with_idle (l : list pooledConn) (sh : shared) : shared :=
  {| sh_idle := l; sh_sem := sh_sem sh; sh_mu := sh_mu sh; sh_closed := sh_closed sh;
     sh_next := sh_next sh |}.
Definition with_sem (n : Z) (sh : shared) : shared :=
  {| sh_idle := sh_idle sh; sh_sem := n; sh_mu := sh_mu sh; sh_closed := sh_closed sh;
     sh_next := sh_next sh |}.
Definition with_mu (b : bool) (sh : shared) : shared :=
  {| sh_idle := sh_idle sh; sh_sem := sh_sem sh; sh_mu := b; sh_closed := sh_closed sh;
     sh_next := sh_next sh |}.
Definition closing (c : nat) (sh : shared) : shared :=
  {| sh_idle := sh_idle sh; sh_sem := sh_sem sh; sh_mu := sh_mu sh;
     sh_closed := sh_closed sh ++ [c]; sh_next := sh_next sh |}.
Definition dialled (sh : shared) : shared :=
  {| sh_idle := sh_idle sh; sh_sem := sh_sem sh; sh_mu := sh_mu sh; sh_closed := sh_closed sh;
     sh_next := S (sh_next sh) |}.

(** [<-bp.sem] *)
Definition receive_sem (t : place) (sh : shared) : option (place * shared) :=
  if 0 <? sh_sem sh then Some (t, with_sem (sh_sem sh - 1) sh) else None.

(** [bp.idle <- pc] *)
Definition send_idle (p : pooledConn) (t : place) (sh : shared) : option (place * shared) :=
  if Z.of_nat (length (sh_idle sh)) <? maxSize
  then Some (t, with_idle (sh_idle sh ++ [p]) sh) else None.

(** [cp.mu.Lock()] *)
Definition locked (r : place * shared) (sh : shared) : option (place * shared) :=
  if sh_mu sh then None else Some r.

Definition pool_thread_step (ch : choice) (t : place) (sh : shared) : option (place * shared) :=
  match t with
  | GStart => locked (GIdle, sh) sh
  | GIdle =>
      match sh_idle sh with
      | p :: idle => Some (GCheck p, with_idle idle sh)
      | [] => Some (GSem, sh)
      end
  | GSem =>
      if sh_sem sh <? maxSize then Some (GDial, with_sem (sh_sem sh + 1) sh)
      else Some (GBlocked, sh)
  | GBlocked =>
      match sh_idle sh with
      | p :: idle => Some (GCheck p, with_idle idle sh)
      | [] => None
      end
  | GCheck p =>
      if isAlive (ch_now ch) timeout p then Some (Holds (pc_conn p), sh)
      else Some (GExpired, closing (pc_conn p) sh)
  | GExpired => receive_sem GIdle sh
  | GDial => if ch_dials ch then Some (Holds (sh_next sh), dialled sh) else Some (GFail, sh)
  | GFail => receive_sem Failed sh
  | Holds c =>
      match ch_usage ch with
      | ReturnIt => Some (PStart c, sh)
      | DiscardIt => Some (DRelease, closing c sh)
      end
  | Failed => None
  | PStart c => locked (PSend {| pc_conn := c; pc_lastUsed := ch_now ch |}, sh) sh
  | PSend p => send_idle p Gone sh
  | DRelease =>
      locked (Gone, if 0 <? sh_sem sh then with_sem (sh_sem sh - 1) sh else sh) sh
  | CStart => locked (CDrain [], with_mu true sh) sh
  | CDrain l =>
      match sh_idle sh with
      | p :: idle => Some (CDrain (l ++ [p]), with_idle idle sh)
      | [] => Some (CSort l, sh)
      end
  | CSort [] => Some (Gone, with_mu false sh)
  | CSort (p :: l) =>
      if expired (ch_now ch) timeout p then Some (CRelease l, closing (pc_conn p) sh)
      else send_idle p (CSort l) sh
  | CRelease l => receive_sem (CSort l) sh
  | Gone => None
  end.

(** Goroutines start in [Get] or in the cleanup, and take their steps in any
    order. *)
Inductive step : list place * shared → list place * shared → Prop :=
  | step_run ts sh i t ch t' sh' :
      ts !! i = Some t → pool_thread_step ch t sh = Some (t', sh') →
      step (ts, sh) (<[i := t']> ts, sh')
  | step_spawn ts sh t : t = GStart ∨ t = CStart → step (ts, sh) (ts ++ [t], sh).

Definition empty_pool : list place * shared :=
  ([], {| sh_idle := []; sh_sem := 0; sh_mu := false; sh_closed := []; sh_next := 0 |}).

Definition reachable : list place * shared → Prop := rtc step empty_pool.

(** ** What a goroutine owns *)

(** The connections only it can reach... *)
Definition owned (t : place) : list nat :=
  match t with
  | GCheck p | PSend p => [pc_conn p]
  | Holds c | PStart c => [c]
  | CDrain l | CSort l | CRelease l => map pc_conn l
  | _ => []
  end.

(** ... and its tokens of the semaphore that stand for no open connection. *)
Definition spare (t : place) : nat :=
  match t with GExpired | GDial | GFail | DRelease | CRelease _ => 1 | _ => 0 end.

(** Inside [cleanupBrokerPool], holding the mutex. *)
Definition cleaning (t : place) : bool :=
  match t with CDrain _ | CSort _ | CRelease _ => true | _ => false end.

Definition opened (c : list place * shared) : list nat :=
  map pc_conn (sh_idle c.2) ++ concat (map owned c.1).

Definition spares (ts : list place) : nat := sum_list_with spare ts.
Definition cleaners (ts : list place) : nat := sum_list_with (λ t, if cleaning t then 1 else 0)%nat ts.

Definition pool_inv (c : list place * shared) : Prop :=
  let '(ts, sh) := c in
  sh_sem sh = Z.of_nat (length (opened c) + spares ts) ∧ sh_sem sh ≤ maxSize ∧
  NoDup (opened c ++ sh_closed sh) ∧ Forall (λ h, (h < sh_next sh)%nat) (opened c ++ sh_closed sh) ∧
  cleaners ts = (if sh_mu sh then 1 else 0)%nat.

Lemma perm_take {A} (p : A) I L X : (p :: I) ++ L ++ X ≡ₚ I ++ (L ++ [p]) ++ X.
Proof. rewrite <- app_assoc. cbn [app]. by rewrite !Permutation_middle. Qed.

Lemma perm_send {A} (p : A) I L X : I ++ (p :: L) ++ X ≡ₚ (I ++ [p]) ++ L ++ X.
Proof. by rewrite <- app_assoc. Qed.

Lemma perm_close {A} (p : A) I L R C : I ++ (p :: L) ++ R ++ C ≡ₚ I ++ L ++ R ++ C ++ [p].
Proof. cbn [app]. by rewrite <- Permutation_middle, Permutation_cons_append, <- !app_assoc. Qed.

(** The invariant, as one goroutine sees it: [rest], [n] and [k] are the
    connections, spare tokens and cleanups of the others. *)
Definition local_inv (rest : list nat) (n k : nat) (t : place) (sh : shared) : Prop :=
  let all := map pc_conn (sh_idle sh) ++ owned t ++ rest ++ sh_closed sh in
  sh_sem sh = Z.of_nat (length (sh_idle sh) + length (owned t) + length rest + spare t + n) ∧
  sh_sem sh ≤ maxSize ∧ NoDup all ∧ Forall (λ h, (h < sh_next sh)%nat) all ∧
  ((if cleaning t then 1 else 0) + k = if sh_mu sh then 1 else 0)%nat.

(** The connections of the pool after a step: the same ones, or a new one. *)
Lemma local_inv_perm rest n k t sh t' sh' :
  let all (t : place) (sh : shared) := map pc_conn (sh_idle sh) ++ owned t ++ rest ++ sh_closed sh in
  all t sh ≡ₚ all t' sh' → sh_next sh' = sh_next sh →
  local_inv rest n k t sh →
  sh_sem sh' = Z.of_nat (length (sh_idle sh') + length (owned t') + length rest + spare t' + n) →
  sh_sem sh' ≤ maxSize →
  ((if cleaning t' then 1 else 0) + k = if sh_mu sh' then 1 else 0)%nat →
  local_inv rest n k t' sh'.
Proof.
  intros all Hp Hn (_ & _ & Hnd & Hall & _) Hs Hm Hc. split; [done|]. split; [done|].
  change (NoDup (all t sh)) in Hnd. change (Forall (λ h, (h < sh_next sh)%nat) (all t sh)) in Hall.
  rewrite Hp in Hnd, Hall. rewrite Hn. by split_and!.
Qed.

Ltac count := cbn [owned spare cleaning sh_idle sh_sem sh_mu sh_next sh_closed with_idle with_sem
  with_mu closing dialled length map app] in *; rewrite ?length_app, ?length_map in *;
  cbn [length] in *; try lia.

Lemma receive_sem_inv rest n k t t' t1 sh sh' :
  receive_sem t' sh = Some (t1, sh') → local_inv rest n k t sh →
  spare t = S (spare t') → owned t' = owned t → cleaning t' = cleaning t →
  local_inv rest n k t1 sh'.
Proof.
  unfold receive_sem. destruct (0 <? _); [|done]. intros [= <- <-] Hi Hsp Ho Hc.
  pose proof Hi as (Hs & Hm & _ & _ & Hcl).
  eapply (local_inv_perm rest n k _ sh); [|done|exact Hi|..]; cbn; rewrite ?Ho, ?Hc; (done || lia).
Qed.

Lemma send_idle_inv rest n k t t' t1 p sh sh' :
  send_idle p t' sh = Some (t1, sh') → local_inv rest n k t sh →
  spare t' = spare t → owned t = pc_conn p :: owned t' → cleaning t' = cleaning t →
  local_inv rest n k t1 sh'.
Proof.
  unfold send_idle. destruct (_ <? maxSize); [|done]. intros [= <- <-] Hi Hsp Ho Hc.
  pose proof Hi as (Hs & Hm & _ & _ & Hcl).
  eapply (local_inv_perm rest n k _ sh); [|done|exact Hi|..]; cbn; rewrite ?Ho, ?Hc, ?Hsp in *.
  - rewrite map_app. cbn [map]. by rewrite perm_send.
  - count.
  - done.
  - done.
Qed.

Lemma take_idle_inv rest n k t t' p idle sh :
  sh_idle sh = p :: idle → local_inv rest n k t sh →
  spare t' = spare t → owned t' = owned t ++ [pc_conn p] → cleaning t' = cleaning t →
  local_inv rest n k t' (with_idle idle sh).
Proof.
  intros Hidle Hi Hsp Ho Hc. pose proof Hi as (Hs & Hm & _ & _ & Hcl). rewrite Hidle in Hs.
  eapply (local_inv_perm rest n k _ sh); [|done|exact Hi|..]; cbn; rewrite ?Ho, ?Hc, ?Hsp, ?Hidle.
  - apply perm_take.
  - count.
  - done.
  - done.
Qed.

Lemma close_inv rest n k t t' c sh :
  local_inv rest n k t sh →
  owned t = c :: owned t' → spare t' = S (spare t) → cleaning t' = cleaning t →
  local_inv rest n k t' (closing c sh).
Proof.
  intros Hi Ho Hsp Hc. pose proof Hi as (Hs & Hm & _ & _ & Hcl). rewrite Ho in Hs.
  eapply (local_inv_perm rest n k _ sh); [|done|exact Hi|..]; cbn; rewrite ?Ho, ?Hc, ?Hsp.
  - apply perm_close.
  - count.
  - done.
  - done.
Qed.

Lemma move_inv rest n k t t' sh :
  local_inv rest n k t sh → owned t' = owned t → spare t' = spare t → cleaning t' = cleaning t →
  local_inv rest n k t' sh.
Proof. unfold local_inv. by intros Hi -> -> ->. Qed.

Lemma thread_step_inv rest n k ch t sh t' sh' :
  pool_thread_step ch t sh = Some (t', sh') → local_inv rest n k t sh → local_inv rest n k t' sh'.
Proof.
  intros Hst Hi. unfold pool_thread_step in Hst.
  destruct t as [| | | |p| | | |c| |c|p| | |l|l|l|]; unfold locked in *.
  - destruct (sh_mu sh); simplify_eq. by eapply move_inv.
  - destruct (sh_idle sh) as [|p idle] eqn:Hid; simplify_eq; [by eapply move_inv|].
    by eapply take_idle_inv.
  - pose proof Hi as (Hs & Hm & Hnd & Hall & Hcl).
    destruct (Z.ltb_spec (sh_sem sh) maxSize); simplify_eq; [|by eapply move_inv].
    eapply (local_inv_perm rest n k _ sh); [|done|exact Hi|..]; count; done.
  - destruct (sh_idle sh) as [|p idle] eqn:Hid; simplify_eq. by eapply take_idle_inv.
  - destruct (isAlive _ _ _); simplify_eq; [by eapply move_inv|by eapply close_inv].
  - by eapply receive_sem_inv.
  - destruct (ch_dials ch); simplify_eq; [|by eapply move_inv].
    destruct Hi as (Hs & Hm & Hnd & Hall & Hcl). unfold local_inv. count.
    assert (Hp : map pc_conn (sh_idle sh) ++ sh_next sh :: rest ++ sh_closed sh ≡ₚ
                 sh_next sh :: map pc_conn (sh_idle sh) ++ rest ++ sh_closed sh)
      by (symmetry; apply Permutation_middle).
    rewrite Hp. split; [lia|]. split; [done|]. split.
    + apply list.NoDup_cons. split; [|done]. intros Hin.
      rewrite list.Forall_forall in Hall. apply Hall in Hin. lia.
    + split; [|done]. constructor; [lia|]. eapply list.Forall_impl; [exact Hall|]. cbn. lia.
  - by eapply receive_sem_inv.
  - destruct (ch_usage ch); simplify_eq; [by eapply move_inv|by eapply close_inv].
  - done.
  - destruct (sh_mu sh); simplify_eq. by eapply move_inv.
  - by eapply send_idle_inv.
  - destruct (sh_mu sh) eqn:Hmu; simplify_eq. pose proof Hi as (Hs & Hm & Hnd & Hall & Hcl). count.
    destruct (Z.ltb_spec 0 (sh_sem sh)); [|lia].
    eapply (local_inv_perm rest n k _ sh); [|done|exact Hi|..]; count; done.
  - destruct (sh_mu sh) eqn:Hmu; simplify_eq. pose proof Hi as (Hs & Hm & Hnd & Hall & Hcl).
    eapply (local_inv_perm rest n k _ sh); [|done|exact Hi|..]; rewrite ?Hmu in *; count; done.
  - destruct (sh_idle sh) as [|p idle] eqn:Hid; simplify_eq; [by eapply move_inv|].
    eapply take_idle_inv; try done. cbn. by rewrite map_app.
  - destruct l as [|p l]; simplify_eq.
    + pose proof Hi as (Hs & Hm & Hnd & Hall & Hcl).
      eapply (local_inv_perm rest n k _ sh); [|done|exact Hi|..]; count; try done.
      destruct (sh_mu sh); lia.
    + destruct (expired _ _ _); simplify_eq; [by eapply close_inv|by eapply send_idle_inv].
  - by eapply receive_sem_inv.
  - done.
Qed.

(** ** All goroutines *)

Lemma pool_inv_local i t ts sh :
  ts !! i = Some t →
  pool_inv (ts, sh) ↔
  local_inv (concat (map owned (others i ts))) (spares (others i ts)) (cleaners (others i ts)) t sh.
Proof.
  intros Hi. unfold pool_inv, local_inv, opened, spares, cleaners; cbn [fst snd].
  rewrite (concat_others owned i t ts Hi).
  rewrite !(sum_others _ i t ts Hi), !length_app, length_map, <- !app_assoc.
  rewrite (Permutation_app_swap_app _ (owned t)).
  set (r := concat _). split; intros (H1 & H2 & H3 & H4 & H5); (split; [lia|]); by split_and!.
Qed.

Lemma step_inv c c' : step c c' → pool_inv c → pool_inv c'.
Proof.
  intros [ts sh i t ch t' sh' Hi Hst|ts sh t Ht] Hinv.
  - rewrite (pool_inv_local i t) in Hinv by done.
    rewrite (pool_inv_local i t').
    2:{ rewrite list_lookup_insert_eq; [done|]. by eapply lookup_lt_Some. }
    rewrite others_insert. by eapply thread_step_inv.
  - destruct Hinv as (Hs & Hm & Hnd & Hall & Hcl).
    assert (owned t = [] ∧ spare t = 0%nat ∧ cleaning t = false) as (Ho & Hsp & Hc)
      by (by destruct Ht as [-> | ->]).
    assert (Hop : opened (ts ++ [t], sh) = opened (ts, sh)).
    { unfold opened; cbn [fst snd]. rewrite map_app, concat_app. cbn. by rewrite Ho, !app_nil_r. }
    unfold pool_inv. rewrite Hop. split_and!; try done.
    + unfold spares in *. rewrite sum_list_with_app. cbn. rewrite Hsp. lia.
    + unfold cleaners in *. rewrite sum_list_with_app. cbn. rewrite Hc. lia.
Qed.

Lemma pool_reachable_inv c : 0 ≤ maxSize → reachable c → pool_inv c.
Proof.
  intros Hmax Hr. unfold reachable in Hr.
  assert (H0 : pool_inv empty_pool) by (split_and!; done || constructor).
  induction Hr as [|? ? ? Hst _ IH]; [done|]. eauto using step_inv.
Qed.

(** Where a goroutine can be stuck. *)
Definition blocked_on_pool (t : place) (sh : shared) : Prop := t = GBlocked ∧ sh_idle sh = [].
Definition waits_for_cleanup (t : place) (sh : shared) : Prop :=
  sh_mu sh = true ∧ match t with GStart | PStart _ | DRelease | CStart => True | _ => False end.
Definition finished (t : place) : Prop := t = Failed ∨ t = Gone.

(** Sends on the idle channel and receives from the semaphore never block. *)
Lemma thread_progress rest n k ch t sh :
  local_inv rest n k t sh →
  is_Some (pool_thread_step ch t sh) ∨
  blocked_on_pool t sh ∨ waits_for_cleanup t sh ∨ finished t.
Proof.
  intros (Hs & Hm & _ & _ & Hcl). unfold blocked_on_pool, waits_for_cleanup, finished.
  destruct t as [| | | |p| | | |c| |c|p| | |l|[|p l]|l|]; cbn [pool_thread_step owned spare length map] in *;
    unfold locked, receive_sem, send_idle; try (by auto);
    repeat case_match; bool_to_prop; eauto; try done; rewrite ?length_map in *; try lia.
Qed.

(** ** One goroutine alone *)

Fixpoint alone (n : nat) (ch : choice) (t : place) (sh : shared) : place * shared :=
  match n with
  | O => (t, sh)
  | S n =>
      match pool_thread_step ch t sh with
      | Some (t', sh') => alone n ch t' sh'
      | None => (t, sh)
      end
  end.

(** What [Get] returned, and where its goroutine is then. *)
Definition get_result (ch : choice) (r : option (res nat)) (t : place) (sh : shared) : Prop :=
  match r with
  | Some (Ok c) => t = Holds c
  | Some (Err _) => t = Failed
  | Some Panic => False
  | None => (t = GExpired ∨ t = GBlocked) ∧ pool_thread_step ch t sh = None
  end.

Lemma get_loop_alone ch sh r bp closed' :
  0 ≤ sh_sem sh →
  get_loop (ch_now ch) timeout (dial_result (ch_dials ch) (sh_next sh)) (sh_idle sh) (sh_sem sh)
    maxSize (sh_closed sh) = (r, bp, closed') →
  ∃ n t sh', alone n ch GIdle sh = (t, sh') ∧ get_result ch r t sh' ∧
    sh_idle sh' = bp_idle bp ∧ sh_sem sh' = bp_sem bp ∧ sh_closed sh' = closed'.
Proof.
  destruct sh as [idle sem mu closed next]. cbn [sh_idle sh_sem sh_closed sh_next].
  revert sem closed. induction idle as [|p idle IH]; intros sem closed Hsem; cbn [get_loop].
  - destruct (sem <? maxSize) eqn:Hlt.
    + destruct (ch_dials ch) eqn:Hd; cbn [dial_result]; intros [= <- <- <-].
      * exists 3%nat. do 2 eexists. split.
        { cbn. rewrite Hlt. cbn. rewrite Hd. reflexivity. }
        by split_and!.
      * exists 4%nat. do 2 eexists. split.
        { cbn. rewrite Hlt. cbn. rewrite Hd. cbn. unfold receive_sem. cbn.
          destruct (Z.ltb_spec 0 (sem + 1)); [reflexivity|lia]. }
        split; [reflexivity|]. cbn. split_and!; [done|lia|done].
    + intros [= <- <- <-]. exists 2%nat. do 2 eexists. split.
      { cbn. rewrite Hlt. reflexivity. }
      cbn. split; [split; [by right|done]|by split_and!].
  - destruct (isAlive (ch_now ch) timeout p) eqn:Ha.
    + intros [= <- <- <-]. exists 2%nat. do 2 eexists. split.
      { cbn. rewrite Ha. reflexivity. }
      by split_and!.
    + destruct (sem <=? 0) eqn:Hz.
      * intros [= <- <- <-]. exists 2%nat. do 2 eexists. split.
        { cbn. rewrite Ha. reflexivity. }
        cbn. unfold receive_sem; cbn. bool_to_prop. rewrite (proj2 (Z.ltb_ge _ _)) by lia.
        split; [split; [by left|done]|by split_and!].
      * bool_to_prop. intros Hg. destruct (IH (sem - 1) _ ltac:(lia) Hg) as (n & t & sh' & Hn & Hr).
        exists (3 + n)%nat, t, sh'. split; [|done]. cbn. rewrite Ha. cbn. unfold receive_sem; cbn.
        rewrite (proj2 (Z.ltb_lt _ _)) by lia. exact Hn.
Qed.

(** ** A blocked [Get] *)

Lemma step_middle ch l1 l2 t t' sh sh' :
  pool_thread_step ch t sh = Some (t', sh') → step (l1 ++ t :: l2, sh) (l1 ++ t' :: l2, sh').
Proof.
  intros Hst. assert (l1 ++ t' :: l2 = <[length l1 := t']> (l1 ++ t :: l2)) as ->.
  { rewrite insert_app_r_alt by lia. by rewrite Nat.sub_diag. }
  eapply step_run; [|exact Hst]. by apply list_lookup_middle.
Qed.

(** [k] connections in use, of handles [0] to [k - 1], and [j] discarded before. *)
Definition in_use (j k : nat) (closed : list nat) : shared :=
  {| sh_idle := []; sh_sem := Z.of_nat k - Z.of_nat j; sh_mu := false; sh_closed := closed;
     sh_next := k |}.

Definition dial_and (u : usage) : choice := {| ch_now := 0; ch_dials := true; ch_usage := u |}.

Lemma reach_in_use k :
  Z.of_nat k ≤ maxSize → reachable (map Holds (seq 0 k), in_use 0 k []).
Proof.
  induction k as [|k IH]; intros Hk; [apply rtc_refl|].
  unfold reachable in *. etransitivity; [apply IH; lia|]. rewrite seq_S, map_app. cbn [map Nat.add].
  eapply rtc_l; [apply step_spawn; by left|].
  eapply rtc_l; [apply (step_middle (dial_and ReturnIt)); reflexivity|].
  eapply rtc_l; [apply (step_middle (dial_and ReturnIt)); reflexivity|].
  eapply rtc_l; [apply (step_middle (dial_and ReturnIt))|].
  { cbn [pool_thread_step in_use sh_sem]. rewrite (proj2 (Z.ltb_lt _ _)) by lia. reflexivity. }
  eapply rtc_l; [apply (step_middle (dial_and ReturnIt)); reflexivity|].
  unfold in_use, dialled, with_sem; cbn [sh_idle sh_sem sh_mu sh_closed sh_next].
  replace (Z.of_nat k - Z.of_nat 0 + 1) with (Z.of_nat (S k) - Z.of_nat 0) by lia.
  apply rtc_refl.
Qed.

(** The first of them is discarded. *)
Lemma discard_first l k :
  rtc step (Holds 0 :: l, in_use 0 (S k) []) (Gone :: l, in_use 1 (S k) [0%nat]).
Proof.
  eapply rtc_l; [apply (step_middle (dial_and DiscardIt) []); reflexivity|].
  eapply rtc_l; [apply (step_middle (dial_and DiscardIt) [])|].
  { cbn [pool_thread_step]. unfold locked; cbn [sh_mu sh_sem closing in_use].
    rewrite (proj2 (Z.ltb_lt _ _)) by lia. reflexivity. }
  unfold in_use, with_sem, closing; cbn [sh_idle sh_sem sh_mu sh_closed sh_next app].
  replace (Z.of_nat (S k) - Z.of_nat 0 - 1) with (Z.of_nat (S k) - Z.of_nat 1) by lia.
  apply rtc_refl.
Qed.
End Threads.

(** ** Properties *)

(** C19: the pool under any interleaving.  However [Get], [Put], the release of
    discarded connections and the cleanup interleave, one channel operation at a
    time: at most [maxSize] connections are open; none is in the hands of two
    goroutines, or idle while in use; none is closed twice or used after it is
    closed; sends on the idle channel and receives from the semaphore never block,
    so a goroutine waits only for the cleanup to release the mutex, or in [Get]
    for an idle connection; and a running cleanup never waits. *)
Theorem pool_interleavings maxSize timeout ts sh :
  0 ≤ maxSize → reachable maxSize timeout (ts, sh) →
  Z.of_nat (length (opened (ts, sh))) ≤ maxSize ∧ NoDup (opened (ts, sh) ++ sh_closed sh) ∧
  (∀ i t ch, ts !! i = Some t →
     is_Some (pool_thread_step maxSize timeout ch t sh) ∨ blocked_on_pool t sh ∨
     waits_for_cleanup t sh ∨ finished t) ∧
  (sh_mu sh = true → ∃ i t, ts !! i = Some t ∧ cleaning t = true ∧
     ∀ ch, is_Some (pool_thread_step maxSize timeout ch t sh)).
Proof.
  intros Hmax Hr. pose proof (pool_reachable_inv maxSize timeout _ Hmax Hr) as Hinv.
  pose proof Hinv as (Hs & Hm & Hnd & _ & Hcl).
  assert (Hprog : ∀ i t ch, ts !! i = Some t →
    is_Some (pool_thread_step maxSize timeout ch t sh) ∨ blocked_on_pool t sh ∨
    waits_for_cleanup t sh ∨ finished t).
  { intros i t ch Hi. eapply thread_progress. by apply (pool_inv_local maxSize i t). }
  split; [lia|]. split; [done|]. split; [done|]. intros Hmu. rewrite Hmu in Hcl.
  assert (∃ i t, ts !! i = Some t ∧ cleaning t = true) as (i & t & Hi & Ht).
  { clear -Hcl. unfold cleaners in Hcl. induction ts as [|t ts IH]; [done|].
    destruct (cleaning t) eqn:Ht; [by exists 0%nat, t|]. cbn in Hcl. rewrite Ht in Hcl.
    destruct (IH Hcl) as (i & t' & ? & ?). by exists (S i), t'. }
  exists i, t. split; [done|]. split; [done|]. intros ch.
  destruct (Hprog i t ch Hi) as [?|[[-> _]|[[_ Hw]|[-> | ->]]]]; [done|done| |done|done].
  by destruct t.
Qed.

(** C20: the lost wakeup.  [Get] is documented to wait at capacity until a
    connection is put back or closed.  For every size of the pool there is a run
    in which a [Get] that met a full pool still waits after one connection has been
    closed and its slot released, as a failed health check does: it cannot move,
    while the slot is free for any other [Get] that comes.  In a pool of one
    connection no goroutine can then move at all. *)
Theorem Get_lost_wakeup maxSize timeout :
  0 < maxSize →
  ∃ ts sh, reachable maxSize timeout (ts, sh) ∧ GBlocked ∈ ts ∧
    sh_sem sh = maxSize - 1 ∧ sh_idle sh = [] ∧ sh_mu sh = false ∧
    (∀ ch, pool_thread_step maxSize timeout ch GBlocked sh = None) ∧
    (∀ ch, pool_thread_step maxSize timeout ch GSem sh = Some (GDial, with_sem maxSize sh)) ∧
    (maxSize = 1 → ∀ i t ch, ts !! i = Some t → pool_thread_step maxSize timeout ch t sh = None).
Proof.
  intros Hmax. destruct (Z.to_nat maxSize) as [|k] eqn:Hk; [lia|].
  exists (Gone :: map Holds (seq 1 k) ++ [GBlocked]), (in_use 1 (S k) [0%nat]). split.
  - unfold reachable. etransitivity; [apply (reach_in_use maxSize timeout (S k)); lia|].
    eapply rtc_l; [apply step_spawn; by left|].
    eapply rtc_l; [apply (step_middle _ _ (dial_and ReturnIt)); reflexivity|].
    eapply rtc_l; [apply (step_middle _ _ (dial_and ReturnIt)); reflexivity|].
    eapply rtc_l; [apply (step_middle _ _ (dial_and ReturnIt))|].
    { cbn [pool_thread_step in_use sh_sem]. rewrite (proj2 (Z.ltb_ge _ _)) by lia. reflexivity. }
    apply discard_first.
  - split; [set_solver|]. cbn [in_use sh_sem sh_idle sh_mu]. split; [lia|]. do 3 (split; [done|]). split.
    + intros ch. cbn [pool_thread_step in_use sh_sem]. rewrite (proj2 (Z.ltb_lt _ _)) by lia.
      by replace (Z.of_nat (S k) - Z.of_nat 1 + 1) with maxSize by lia.
    + intros ->. destruct k; [|lia]. intros [|[|i]] t ch [= <-]; done.
Qed.

(** Without interference the goroutine is [Get].  From any state of the pool
    the steps of one goroutine alone lead where [Pool.Get] says: to the connection
    or the error it returns, or to the place where it blocks, with the same idle
    queue, semaphore and closed connections. *)
Theorem Get_alone maxSize timeout ch sh r bp closed' :
  0 ≤ sh_sem sh → sh_mu sh = false →
  get_loop (ch_now ch) timeout (dial_result (ch_dials ch) (sh_next sh)) (sh_idle sh) (sh_sem sh)
    maxSize (sh_closed sh) = (r, bp, closed') →
  ∃ n t sh', alone maxSize timeout n ch GStart sh = (t, sh') ∧ get_result maxSize timeout ch r t sh' ∧
    sh_idle sh' = bp_idle bp ∧ sh_sem sh' = bp_sem bp ∧ sh_closed sh' = closed'.
Proof.
  intros Hs Hmu Hg. destruct (get_loop_alone maxSize timeout ch sh r bp closed' Hs Hg) as (n & t & sh' & Hn & H).
  exists (S n), t, sh'. split; [|done]. cbn [alone pool_thread_step]. unfold locked. by rewrite Hmu.
Qed.

(** ** Witnesses *)

(** Two connections in use in a pool of three. *)
Lemma pool_interleavings_witness :
  reachable 3 second (map Holds (seq 0 2), in_use 0 2 []) ∧
  opened (map Holds (seq 0 2), in_use 0 2 []) = [0%nat; 1%nat] ∧
  (∀ i t ch, map Holds (seq 0 2) !! i = Some t →
     is_Some (pool_thread_step 3 second ch t (in_use 0 2 [])) ∨ blocked_on_pool t (in_use 0 2 []) ∨
     waits_for_cleanup t (in_use 0 2 []) ∨ finished t).
Proof.
  assert (H : reachable 3 second (map Holds (seq 0 2), in_use 0 2 [])) by (apply reach_in_use; lia).
  split; [exact H|]. split; [reflexivity|].
  refine (proj1 (proj2 (proj2 (pool_interleavings 3 second _ _ _ H)))). lia.
Defined.

Lemma Get_lost_wakeup_witness :
  ∃ ts sh, reachable 1 second (ts, sh) ∧ GBlocked ∈ ts ∧ sh_sem sh = 0 ∧
    ∀ i t ch, ts !! i = Some t → pool_thread_step 1 second ch t sh = None.
Proof.
  destruct (Get_lost_wakeup 1 second eq_refl) as (ts & sh & H1 & H2 & H3 & _ & _ & _ & _ & H4).
  exists ts, sh. split; [exact H1|]. split; [exact H2|]. split; [exact H3|]. exact (H4 eq_refl).
Defined.

(** An idle connection that has expired is closed, and another dialled. *)
Lemma Get_alone_witness :
  let sh := {| sh_idle := [{| pc_conn := 0; pc_lastUsed := 0 |}]; sh_sem := 1; sh_mu := false;
               sh_closed := []; sh_next := 1 |} in
  let ch := {| ch_now := 60 * second; ch_dials := true; ch_usage := ReturnIt |} in
  ∃ n t sh', alone 2 (30 * second) n ch GStart sh = (t, sh') ∧ t = Holds 1 ∧ sh_closed sh' = [0%nat].
Proof.
  intros sh ch.
  destruct (Get_alone 2 (30 * second) ch sh (Some (Ok 1%nat))
    {| bp_idle := []; bp_sem := 1; bp_maxSize := 2 |} [0%nat] ltac:(discriminate) eq_refl)
    as (n & t & sh' & H1 & H2 & _ & _ & H3); [vm_compute; reflexivity|].
  exists n, t, sh'. split; [exact H1|]. split; [exact H2|exact H3].
Defined.
