(* ===== verification/PoolClose.v ===== *)
(** * Closing the pool while it is used ([internal/pool/pool.go], [Close])

    [Close] ends the two background loops and then, with the mutex held, closes
    each idle channel and what is idle in it, and forgets the pools.  A goroutine
    that took its [brokerPool] before goes on with a closed channel: a receive
    from it gives a nil connection, whose [isAlive] panics, and a send panics.
    [closed_step] is [pool_thread_step] for such goroutines; the background loops
    have returned, so none of the places of the cleanup occurs. *)

From S2P Require Import Prelude Conn Config Pool PoolThreads.

Section Close.
Context (maxSize : Z) (timeout : duration).

(** [drainPool] *)
Definition drained (sh : shared) : shared :=
  foldl (λ sh p, closing (pc_conn p) sh) (with_idle [] sh) (sh_idle sh).

(** A receive from the closed idle channel. *)
Definition receive_closed (sh : shared) : option (res (place * shared)) :=
  match sh_idle sh with
  | p :: idle => Some (Ok (GCheck p, with_idle idle sh))
  | [] => Some Panic
  end.

(** A goroutine that has its [brokerPool], which is no longer in the map; one that
    starts [Get] now makes a new pool instead. *)
Definition closed_step (ch : choice) (t : place) (sh : shared) : option (res (place * shared)) :=
  match t with
  | GIdle | GBlocked => receive_closed sh
  | PStart c => Some (Ok (Gone, closing c sh))
  | PSend _ => Some Panic
  | DRelease => Some (Ok (Gone, sh))
  | GStart => None
  | _ => Ok <$> pool_thread_step maxSize timeout ch t sh
  end.

(** ** Lemmas *)

Lemma closing_all l sh :
  let sh' := foldl (λ sh p, closing (pc_conn p) sh) sh l in
  sh_idle sh' = sh_idle sh ∧ sh_sem sh' = sh_sem sh ∧ sh_mu sh' = sh_mu sh ∧
  sh_next sh' = sh_next sh ∧ sh_closed sh' = sh_closed sh ++ map pc_conn l.
Proof.
  revert sh. induction l as [|p l IH]; intros sh; cbn [foldl map]; [by rewrite app_nil_r|].
  destruct (IH (closing (pc_conn p) sh)) as (-> & -> & -> & -> & ->). cbn.
  by rewrite <- app_assoc.
Qed.

Lemma drained_spec sh :
  sh_idle (drained sh) = [] ∧ sh_mu (drained sh) = sh_mu sh ∧
  sh_closed (drained sh) = sh_closed sh ++ map pc_conn (sh_idle sh).
Proof. unfold drained. by destruct (closing_all (sh_idle sh) (with_idle [] sh)) as (-> & _ & -> & _ & ->). Qed.

(** ** Properties *)

(** What [Close] leaves.  Whatever the pool's users were doing, every connection
    that was idle is closed, once, and the connections in use stay open in the
    hands of their users; a user that puts its connection back later has it
    closed.  But a goroutine that is in [Get], before its receive or blocked on
    it, or about to send in [Put], panics at its next step, and nobody else
    does at theirs. *)
Theorem Close_in_use ts sh :
  0 ≤ maxSize → reachable maxSize timeout (ts, sh) → sh_mu sh = false →
  sh_idle (drained sh) = [] ∧ opened (ts, drained sh) = concat (map owned ts) ∧
  sh_closed (drained sh) = sh_closed sh ++ map pc_conn (sh_idle sh) ∧
  NoDup (opened (ts, drained sh) ++ sh_closed (drained sh)) ∧
  ∀ ch t, closed_step ch t (drained sh) = Some Panic ↔
          t = GIdle ∨ t = GBlocked ∨ ∃ p, t = PSend p.
Proof.
  intros Hmax Hr Hmu. destruct (pool_reachable_inv maxSize timeout _ Hmax Hr) as (_ & _ & Hnd & _).
  destruct (drained_spec sh) as (Hi & _ & Hc).
  assert (Ho : opened (ts, drained sh) = concat (map owned ts)).
  { unfold opened. cbn [fst snd]. by rewrite Hi. }
  split_and!; [done|done|done| |].
  - rewrite Ho, Hc. unfold opened in Hnd; cbn [fst snd] in Hnd.
    by rewrite <- app_assoc, (Permutation_app_comm (map pc_conn _)), <- app_assoc in Hnd.
  - intros ch t. unfold closed_step, receive_closed. rewrite Hi. destruct t; split; try naive_solver.
    all: intros H; exfalso; destruct (pool_thread_step _ _ _ _ _); naive_solver.
Qed.
End Close.
