(* ===== verification/PoolLoops.v ===== *)
(** * The background loops of the pool, and [Close] waiting for them
      ([internal/pool/pool.go])

    [New] starts two goroutines: [idleCleanupLoop], which runs
    [cleanupIdleConns] at each tick, and [healthCheckLoop], which takes a
    connection with [Get], probes it and puts it back or closes it.  Both are a
    [select] between the tick and the closed [stopCh]; the body of a loop is a
    goroutine of [PoolThreads], started in [CStart] or [GStart].  [Close] closes
    [stopCh], waits for both and drains the pool.  The users of the pool, such as
    the router, are in [Get] or [Put]. *)

From S2P Require Import Prelude Conn Config Pool PoolThreads PoolClose.

#[local] Arguments Z.ltb : simpl never.

(** [for { select { ... } }]: in [select], in the body, or returned. *)
Inductive loop := Select | Body (t : place) | Returned.

Inductive closer := KOpen | KWait | KClosed.

Record state := {
  st_users : list place;
  st_cleanup : loop;
  st_health : loop;
  st_closer : closer;  (* [stopCh] is closed unless [KOpen] *)
  st_shared : shared
}.

Inductive select_case := OnStop | OnTick.

Section Loops.
Context (maxSize : Z) (timeout : duration).

Definition finishedb (t : place) : bool := match t with Failed | Gone => true | _ => false end.

(** A loop whose body starts at [body]. *)
Definition loop_step (body : place) (stopped : bool) (ch : choice) (case : select_case) (l : loop)
    (sh : shared) : option (loop * shared) :=
  match l with
  | Select =>
      match case with
      | OnStop => if stopped then Some (Returned, sh) else None
      | OnTick => Some (Body body, sh)
      end
  | Body t =>
      if finishedb t then Some (Select, sh)
      else match pool_thread_step maxSize timeout ch t sh with
           | Some (t', sh') => Some (Body t', sh')
           | None => None
           end
  | Returned => None
  end.

Definition idleCleanupLoop := loop_step CStart.
Definition healthCheckLoop := loop_step GStart.

(** [cp.wg.Wait()] and what follows. *)
Definition Close_step (k : closer) (cleanup health : loop) (sh : shared) : option (closer * shared) :=
  match k with
  | KOpen => Some (KWait, sh)
  | KWait =>
      match cleanup, health with
      | Returned, Returned => if sh_mu sh then None else Some (KClosed, drained sh)
      | _, _ => None
      end
  | KClosed => None
  end.

Definition stopping (k : closer) : bool := match k with KOpen => false | _ => true end.

(** The steps until [Close] drains the pool. *)
Inductive loops_step : state → state → Prop :=
  | step_user us c h k sh i t ch t' sh' :
      us !! i = Some t → pool_thread_step maxSize timeout ch t sh = Some (t', sh') →
      loops_step {| st_users := us; st_cleanup := c; st_health := h; st_closer := k; st_shared := sh |}
        {| st_users := <[i := t']> us; st_cleanup := c; st_health := h; st_closer := k; st_shared := sh' |}
  | step_new_user us c h k sh :
      loops_step {| st_users := us; st_cleanup := c; st_health := h; st_closer := k; st_shared := sh |}
        {| st_users := us ++ [GStart]; st_cleanup := c; st_health := h; st_closer := k; st_shared := sh |}
  | step_cleanup us c h k sh ch case c' sh' :
      idleCleanupLoop (stopping k) ch case c sh = Some (c', sh') →
      loops_step {| st_users := us; st_cleanup := c; st_health := h; st_closer := k; st_shared := sh |}
        {| st_users := us; st_cleanup := c'; st_health := h; st_closer := k; st_shared := sh' |}
  | step_health us c h k sh ch case h' sh' :
      healthCheckLoop (stopping k) ch case h sh = Some (h', sh') →
      loops_step {| st_users := us; st_cleanup := c; st_health := h; st_closer := k; st_shared := sh |}
        {| st_users := us; st_cleanup := c; st_health := h'; st_closer := k; st_shared := sh' |}
  | step_close us c h sh :
      loops_step {| st_users := us; st_cleanup := c; st_health := h; st_closer := KOpen; st_shared := sh |}
        {| st_users := us; st_cleanup := c; st_health := h; st_closer := KWait; st_shared := sh |}.

(** [New], when its pool for the broker exists. *)
Definition New_state : state :=
  {| st_users := []; st_cleanup := Select; st_health := Select; st_closer := KOpen;
     st_shared := snd empty_pool |}.

(** ** The goroutines of the pool among them *)

Definition body_of (l : loop) : place := match l with Body t => t | _ => Gone end.

Definition threads (s : state) : list place * shared :=
  (body_of (st_cleanup s) :: body_of (st_health s) :: st_users s, st_shared s).

(** A goroutine that has nothing may start again, or for the first time. *)
Lemma pool_inv_restart i t t' ts sh :
  ts !! i = Some t → owned t' = owned t → spare t' = spare t → cleaning t' = cleaning t →
  pool_inv maxSize (ts, sh) → pool_inv maxSize (<[i := t']> ts, sh).
Proof.
  intros Hi Ho Hs Hc Hinv. rewrite (pool_inv_local maxSize i t) in Hinv by done.
  rewrite (pool_inv_local maxSize i t').
  2:{ rewrite list_lookup_insert_eq; [done|]. by eapply lookup_lt_Some. }
  rewrite others_insert. by eapply move_inv.
Qed.

Lemma finishedb_idle t : finishedb t = true → owned t = [] ∧ spare t = 0%nat ∧ cleaning t = false.
Proof. by destruct t. Qed.

Lemma loop_step_inv body i stopped ch case l l' ts sh sh' :
  body = CStart ∨ body = GStart → ts !! i = Some (body_of l) →
  loop_step body stopped ch case l sh = Some (l', sh') →
  pool_inv maxSize (ts, sh) → pool_inv maxSize (<[i := body_of l']> ts, sh').
Proof.
  intros Hbody Hi Hst Hinv. destruct l as [|t|]; cbn [loop_step] in Hst; [..|done].
  - destruct case; [destruct stopped|]; simplify_eq; eapply pool_inv_restart; try done;
      by destruct Hbody as [-> | ->].
  - destruct (finishedb t) eqn:Hf.
    + simplify_eq. apply finishedb_idle in Hf as (Ho & Hs & Hc).
      by eapply pool_inv_restart; [exact Hi|..|exact Hinv]; cbn; rewrite ?Ho, ?Hs, ?Hc.
    + destruct (pool_thread_step _ _ _ _ _) as [[t' sh1]|] eqn:E; simplify_eq.
      eapply (step_inv maxSize timeout); [|exact Hinv]. by eapply step_run.
Qed.

Lemma loops_inv_step s s' :
  loops_step s s' → pool_inv maxSize (threads s) → pool_inv maxSize (threads s').
Proof.
  unfold threads. intros Hst Hinv.
  destruct Hst as [us c h k sh i t ch t' sh' Hi Hst|us c h k sh|us c h k sh ch case c' sh' Hst
                  |us c h k sh ch case h' sh' Hst|us c h sh]; cbn [st_users st_cleanup st_health st_closer st_shared] in *; [..|done].
  - eapply (step_inv maxSize timeout); [|exact Hinv].
    change (body_of c :: body_of h :: <[i := t']> us) with (<[S (S i) := t']> (body_of c :: body_of h :: us)).
    by eapply step_run.
  - eapply (step_inv maxSize timeout); [|exact Hinv].
    change (body_of c :: body_of h :: us ++ [GStart]) with ((body_of c :: body_of h :: us) ++ [GStart]).
    apply step_spawn. by left.
  - refine (loop_step_inv CStart 0 _ _ _ _ _ _ _ _ _ _ Hst Hinv); [by left|done].
  - refine (loop_step_inv GStart 1 _ _ _ _ _ _ _ _ _ _ Hst Hinv); [by right|done].
Qed.

Lemma loops_reachable_inv s :
  0 ≤ maxSize → rtc loops_step New_state s → pool_inv maxSize (threads s).
Proof.
  intros Hmax Hr. assert (H0 : pool_inv maxSize (threads New_state)).
  { split_and!; done || constructor. }
  induction Hr as [|? ? ? Hst _ IH]; [done|]. eauto using loops_inv_step.
Qed.

(** ** Who runs what *)

Definition sweeping (t : place) : bool :=
  match t with CStart | CDrain _ | CSort _ | CRelease _ | Gone => true | _ => false end.
Definition client (t : place) : bool :=
  match t with CStart | CDrain _ | CSort _ | CRelease _ => false | _ => true end.

Lemma thread_kind ch t sh t' sh' :
  pool_thread_step maxSize timeout ch t sh = Some (t', sh') →
  (sweeping t = true → sweeping t' = true) ∧ (client t = true → client t' = true).
Proof.
  destruct t as [| | | |p| | | |c| |c|p| | |l|[|p l]|l|]; cbn [pool_thread_step];
    unfold locked, receive_sem, send_idle; intros Hst; repeat case_match; by simplify_eq.
Qed.

Lemma loop_kind body stopped ch case l sh l' sh' (kind : place → bool) :
  (∀ t sh t' sh', pool_thread_step maxSize timeout ch t sh = Some (t', sh') → kind t = true → kind t' = true) →
  kind Gone = true → kind body = true → loop_step body stopped ch case l sh = Some (l', sh') →
  kind (body_of l) = true → kind (body_of l') = true.
Proof.
  intros Hk Hg Hb Hst Hl. destruct l as [|t|]; cbn [loop_step] in Hst; [..|done].
  - destruct case; [destruct stopped|]; by simplify_eq.
  - destruct (finishedb t); [by simplify_eq|].
    destruct (pool_thread_step _ _ _ _ _) as [[t1 sh1]|] eqn:E; simplify_eq. by eapply Hk.
Qed.

Definition loops_ok (s : state) : Prop :=
  pool_inv maxSize (threads s) ∧ sweeping (body_of (st_cleanup s)) = true ∧
  client (body_of (st_health s)) = true ∧ Forall (λ t, client t = true) (st_users s).

Lemma loops_ok_step s s' : loops_step s s' → loops_ok s → loops_ok s'.
Proof.
  intros Hst (Hinv & Hc & Hh & Hu). split; [by eapply loops_inv_step|].
  destruct Hst as [us c h k sh i t ch t' sh' Hi Hst|us c h k sh|us c h k sh ch case c' sh' Hst
                  |us c h k sh ch case h' sh' Hst|us c h sh];
    cbn [st_users st_cleanup st_health st_closer st_shared] in *; split_and!; try done.
  - apply Forall_insert; [done|]. apply thread_kind in Hst as [_ H]. apply H.
    exact (Forall_lookup_1 _ _ _ _ Hu Hi).
  - apply list.Forall_app. split; [done|]. by repeat constructor.
  - refine (loop_kind _ _ _ _ _ _ _ _ sweeping _ _ _ Hst Hc); [|done..]. intros ????. apply thread_kind.
  - refine (loop_kind _ _ _ _ _ _ _ _ client _ _ _ Hst Hh); [|done..]. intros ????. apply thread_kind.
Qed.

Lemma loops_reachable_ok s : 0 ≤ maxSize → rtc loops_step New_state s → loops_ok s.
Proof.
  intros Hmax Hr. assert (H0 : loops_ok New_state).
  { split; [apply loops_reachable_inv; [done|apply rtc_refl]|]. split_and!; done || constructor. }
  induction Hr as [|? ? ? Hst _ IH]; [done|]. eauto using loops_ok_step.
Qed.

(** Only the cleanup loop holds the mutex. *)
Lemma client_not_cleaning t : client t = true → cleaning t = false.
Proof. by destruct t. Qed.

Lemma loops_mutex s : loops_ok s → sh_mu (st_shared s) = cleaning (body_of (st_cleanup s)).
Proof.
  intros ((_ & _ & _ & _ & Hcl) & _ & Hh & Hu). unfold threads, cleaners in Hcl.
  cbn [sum_list_with foldr] in Hcl.
  assert (Hz : sum_list_with (λ t, if cleaning t then 1 else 0)%nat (st_users s) = 0%nat).
  { clear -Hu. induction Hu as [|t us Ht _ IH]; [done|]. cbn [sum_list_with foldr]. rewrite (client_not_cleaning t Ht). exact IH. }
  rewrite Hz, (client_not_cleaning _ Hh) in Hcl.
  destruct (cleaning (body_of (st_cleanup s))), (sh_mu (st_shared s)); done || lia.
Qed.

(** ** Termination *)

(** Bounds the steps of a goroutine until it finishes, when it can meet [n] idle
    connections. *)
Definition steps_left (t : place) (n : nat) : nat :=
  match t with
  | GStart => 10 + 5 * n
  | GIdle => 8 + 5 * n
  | GSem => 7 + 5 * n
  | GBlocked => 6 + 5 * n
  | GCheck _ => 10 + 5 * n
  | GExpired => 9 + 5 * n
  | GDial => 4
  | GFail => 1
  | Holds _ => 3
  | PStart _ => 2
  | PSend _ | DRelease => 1
  | CStart => 3 + 4 * n
  | CDrain l => 2 + 3 * length l + 4 * n
  | CSort l => 1 + 3 * length l
  | CRelease l => 2 + 3 * length l
  | Failed | Gone => 0
  end.

Lemma steps_left_mono t n m : (n ≤ m)%nat → (steps_left t n ≤ steps_left t m)%nat.
Proof. intros. destruct t; cbn [steps_left]; lia. Qed.

(** The connections a cleanup may still put back, and those a health check may. *)
Definition held (t : place) : nat :=
  match t with CDrain l | CSort l | CRelease l => length l | _ => 0 end.
Definition may_send (t : place) : nat :=
  match t with
  | GStart | GIdle | GSem | GBlocked | GCheck _ | GExpired | GDial | Holds _ | PStart _ | PSend _ => 1
  | _ => 0
  end.

Definition idle_count (sh : shared) : nat := length (sh_idle sh).

(** A step of a goroutine brings it nearer to its end, whatever the other may
    still add, and does not take the other further from its own. *)
Lemma thread_step_decreases ch t sh t' sh' :
  pool_thread_step maxSize timeout ch t sh = Some (t', sh') →
  (∀ k, steps_left t' (idle_count sh' + k) < steps_left t (idle_count sh + k))%nat ∧
  (sweeping t = true → idle_count sh' + held t' ≤ idle_count sh + held t)%nat ∧
  (client t = true → idle_count sh' + may_send t' ≤ idle_count sh + may_send t)%nat.
Proof.
  destruct t as [| | | |p| | | |c| |c|p| | |l|[|p l]|l|]; cbn [pool_thread_step];
    unfold locked, receive_sem, send_idle, idle_count; intros Hst; repeat case_match; simplify_eq;
    cbn [steps_left held may_send sweeping client sh_idle with_idle with_sem with_mu closing dialled length] in *;
    try match goal with H : sh_idle _ = _ |- _ => rewrite H end;
    rewrite ?length_app; cbn [length]; split_and!; intros; done || lia.
Qed.

Definition loop_left (l : loop) (n : nat) : nat :=
  match l with Returned => 0 | Select => 1 | Body t => 2 + steps_left t n end.

Lemma loop_left_mono l n m : (n ≤ m)%nat → (loop_left l n ≤ loop_left l m)%nat.
Proof. intros. destruct l as [|t|]; cbn [loop_left]; [done| |done]. pose proof (steps_left_mono t n m). lia. Qed.

(** A step of a loop that does not begin a tick. *)
Lemma loop_step_decreases body ch case l sh l' sh' :
  (l = Select → case = OnStop) → loop_step body true ch case l sh = Some (l', sh') →
  (∀ k, loop_left l' (idle_count sh' + k) < loop_left l (idle_count sh + k))%nat ∧
  (sweeping (body_of l) = true →
     idle_count sh' + held (body_of l') ≤ idle_count sh + held (body_of l))%nat ∧
  (client (body_of l) = true →
     idle_count sh' + may_send (body_of l') ≤ idle_count sh + may_send (body_of l))%nat.
Proof.
  intros Hq Hst. destruct l as [|t|]; cbn [loop_step] in Hst; [|..|done].
  - rewrite (Hq eq_refl) in Hst. simplify_eq. cbn. split_and!; intros; lia.
  - destruct (finishedb t) eqn:Hf.
    + simplify_eq. cbn [loop_left body_of held may_send]. split_and!; intros; lia.
    + destruct (pool_thread_step _ _ _ _ _) as [[t' sh1]|] eqn:E; simplify_eq.
      apply thread_step_decreases in E as (H1 & H2 & H3). cbn [loop_left body_of].
      split_and!; [intros k; specialize (H1 k); lia|done|done].
Qed.

(** ** Returning *)

(** [stopCh] is closed: the state, with its loops. *)
Definition waiting (us : list place) (c h : loop) (sh : shared) : state :=
  {| st_users := us; st_cleanup := c; st_health := h; st_closer := KWait; st_shared := sh |}.

Lemma thread_stuck s ch t :
  loops_ok s → t ∈ (threads s).1 →
  is_Some (pool_thread_step maxSize timeout ch t (st_shared s)) ∨ blocked_on_pool t (st_shared s) ∨
  waits_for_cleanup t (st_shared s) ∨ finished t.
Proof.
  intros [Hinv _] [i Hi]%list_elem_of_lookup.
  eapply (thread_progress maxSize timeout). by apply (pool_inv_local maxSize i t) in Hinv.
Qed.

Lemma finishedb_spec t : finishedb t = true ↔ finished t.
Proof. unfold finished. destruct t; cbn; naive_solver. Qed.

(** The steps of the two loops once [stopCh] is closed, as long as neither begins
    another tick: no user takes part. *)
Inductive background : loop * loop * shared → loop * loop * shared → Prop :=
  | bg_cleanup c h sh ch case c' sh' :
      (c = Select → case = OnStop) → idleCleanupLoop true ch case c sh = Some (c', sh') →
      background (c, h, sh) (c', h, sh')
  | bg_health c h sh ch case h' sh' :
      (h = Select → case = OnStop) → healthCheckLoop true ch case h sh = Some (h', sh') →
      background (c, h, sh) (c, h', sh').

Definition background_left (x : loop * loop * shared) : nat :=
  let '(c, h, sh) := x in
  loop_left c (idle_count sh + may_send (body_of h)) + loop_left h (idle_count sh + held (body_of c)).

Definition with_users (us : list place) (x : loop * loop * shared) : state :=
  let '(c, h, sh) := x in waiting us c h sh.

Lemma background_step us x y : background x y → loops_step (with_users us x) (with_users us y).
Proof. intros [c h sh ch case c' sh' _ H|c h sh ch case h' sh' _ H]; by econstructor. Qed.

Lemma background_decreases us x y :
  loops_ok (with_users us x) → background x y → (background_left y < background_left x)%nat.
Proof.
  intros (_ & Hc & Hh & _) Hst.
  destruct Hst as [c h sh ch case c' sh' Hq H|c h sh ch case h' sh' Hq H];
    cbn [with_users waiting st_cleanup st_health] in Hc, Hh; unfold background_left;
    apply loop_step_decreases in H as (H1 & H2 & H3); try done.
  - specialize (H1 (may_send (body_of h))). pose proof (loop_left_mono h _ _ (H2 Hc)). lia.
  - specialize (H1 (held (body_of c))). pose proof (loop_left_mono c _ _ (H3 Hh)). lia.
Qed.

Lemma background_run us n x y :
  loops_ok (with_users us x) → nsteps background n x y →
  (n + background_left y ≤ background_left x)%nat ∧ loops_ok (with_users us y).
Proof.
  intros Hok Hr. revert Hok. induction Hr as [|n x y z Hst _ IH]; intros Hok; [done|].
  pose proof (background_decreases us x y Hok Hst).
  destruct IH as [H1 H2]; [by eapply loops_ok_step, Hok; apply background_step|]. split; [lia|done].
Qed.

(** At capacity, with nothing idle. *)
Definition at_capacity (h : loop) (sh : shared) : Prop := h = Body GBlocked ∧ sh_idle sh = [].

(** A loop that has not returned can go on, unless its body waits. *)
Lemma loop_progress body s ch l :
  loops_ok s → l = st_cleanup s ∨ l = st_health s →
  (∃ case l' sh', (l = Select → case = OnStop) ∧ loop_step body true ch case l (st_shared s) = Some (l', sh')) ∨
  l = Returned ∨ at_capacity l (st_shared s) ∨ sh_mu (st_shared s) = true ∧ cleaning (body_of l) = false.
Proof.
  intros Hok Hl. destruct l as [|t|]; [left; by exists OnStop, Returned, (st_shared s)| |by right; left].
  cbn [loop_step]. destruct (finishedb t) eqn:Hf; [left; by exists OnStop, Select, (st_shared s)|].
  destruct (thread_stuck s ch t Hok) as [[[t' sh'] Hst]|[Hb|[[Hmu Hw]|Hfin]]].
  - unfold threads. cbn [fst]. destruct Hl as [<- | <-]; cbn [body_of]; set_solver.
  - left. exists OnTick, (Body t'), sh'. split; [done|]. by rewrite Hst.
  - right; right; left. destruct Hb as [-> Hidle]. done.
  - right; right; right. split; [done|]. cbn [body_of]. by destruct t.
  - apply finishedb_spec in Hfin. congruence.
Qed.

Lemma background_quiet us c h sh :
  loops_ok (waiting us c h sh) → (∀ x, ¬ background (c, h, sh) x) →
  c = Returned ∧ (h = Returned ∨ at_capacity h sh) ∧ sh_mu sh = false.
Proof.
  set (ch := {| ch_now := 0; ch_dials := false; ch_usage := ReturnIt |}). intros Hok Hq.
  pose proof (loops_mutex _ Hok) as Hm. pose proof Hok as (_ & Hsw & _ & _).
  cbn [waiting st_shared st_cleanup] in Hm, Hsw.
  destruct (loop_progress CStart _ ch c Hok (or_introl eq_refl)) as
    [(case & c' & sh' & Hcase & Hst)|[-> |[[-> _]|[Hmu Hcl]]]].
  - exfalso. by eapply Hq, (bg_cleanup c h sh ch case c' sh').
  - cbn in Hm. split; [done|]. split; [|done].
    destruct (loop_progress GStart _ ch h Hok (or_intror eq_refl)) as
      [(case & h' & sh' & Hcase & Hst)|[-> |[Hcap|[Hmu _]]]]; [|by left|by right|].
    + exfalso. by eapply Hq, (bg_health Returned h sh ch case h' sh').
    + cbn [waiting st_shared] in Hmu. congruence.
  - done.
  - cbn [waiting st_shared] in Hmu. congruence.
Qed.

(** ** Runs of users *)

Lemma user_middle ch us1 us2 c h k t t' sh sh' :
  pool_thread_step maxSize timeout ch t sh = Some (t', sh') →
  loops_step
    {| st_users := us1 ++ t :: us2; st_cleanup := c; st_health := h; st_closer := k; st_shared := sh |}
    {| st_users := us1 ++ t' :: us2; st_cleanup := c; st_health := h; st_closer := k; st_shared := sh' |}.
Proof.
  intros Hst. assert (us1 ++ t' :: us2 = <[length us1 := t']> (us1 ++ t :: us2)) as ->.
  { rewrite insert_app_r_alt by lia. by rewrite Nat.sub_diag. }
  eapply step_user; [|exact Hst]. by apply list_lookup_middle.
Qed.

Lemma users_in_use k :
  Z.of_nat k ≤ maxSize →
  rtc loops_step New_state
    {| st_users := map Holds (seq 0 k); st_cleanup := Select; st_health := Select;
       st_closer := KOpen; st_shared := in_use 0 k [] |}.
Proof.
  induction k as [|k IH]; intros Hk; [apply rtc_refl|].
  etransitivity; [apply IH; lia|]. rewrite seq_S, map_app. cbn [map Nat.add].
  eapply rtc_l; [apply step_new_user|].
  do 2 (eapply rtc_l; [apply (user_middle (dial_and ReturnIt)); reflexivity|]).
  eapply rtc_l; [apply (user_middle (dial_and ReturnIt))|].
  { cbn [pool_thread_step in_use sh_sem]. rewrite (proj2 (Z.ltb_lt _ _)) by lia. reflexivity. }
  eapply rtc_l; [apply (user_middle (dial_and ReturnIt)); reflexivity|].
  unfold in_use, dialled, with_sem; cbn [sh_idle sh_sem sh_mu sh_closed sh_next].
  replace (Z.of_nat k - Z.of_nat 0 + 1) with (Z.of_nat (S k) - Z.of_nat 0) by lia.
  apply rtc_refl.
Qed.
End Loops.

(** ** Properties *)

(** C21: [Close] returns unless the pool is exhausted.  Take any reachable state in
    which [Close] has closed the channel and waits, whatever the users and the loops
    are doing, and let the loops go on without any step of a user, neither beginning
    another tick: every such run is over after a bounded number of steps, however
    the loops interleave and whatever the clock and the dials say.  When no further
    step is possible the cleanup loop has returned, and either the health-check loop
    has too and [Close] drains the pool and returns, or the health check waits in
    [Get] for a user to give a connection back, and [Close] with it. *)
Theorem Close_returns maxSize timeout us c h sh :
  0 ≤ maxSize → rtc (loops_step maxSize timeout) New_state (waiting us c h sh) →
  ∃ bound, ∀ n c' h' sh', nsteps (background maxSize timeout) n (c, h, sh) (c', h', sh') →
    (n ≤ bound)%nat ∧
    ((∀ x, ¬ background maxSize timeout (c', h', sh') x) →
       c' = Returned ∧
       (h' = Returned ∧ Close_step KWait c' h' sh' = Some (KClosed, drained sh') ∨
        at_capacity h' sh' ∧ Close_step KWait c' h' sh' = None)).
Proof.
  intros Hmax Hr. pose proof (loops_reachable_ok _ _ _ Hmax Hr) as Hok.
  exists (background_left (c, h, sh)). intros n c' h' sh' Hrun.
  destruct (background_run maxSize timeout us n (c, h, sh) (c', h', sh') Hok Hrun) as [Hn Hok'].
  split; [lia|]. intros Hq.
  destruct (background_quiet maxSize timeout us c' h' sh' Hok' Hq) as (-> & Hh & Hmu).
  split; [done|]. destruct Hh as [-> |Hcap]; [left|right].
  - split; [done|]. cbn [Close_step]. by rewrite Hmu.
  - split; [done|]. by destruct Hcap as [-> _].
Qed.

(** A health check can block [Close].  The health check takes its connection
    with [Get], which at capacity waits for a [Put] and not for [stopCh].  For
    every size of the pool there is a run to a state where all connections are in
    use, the cleanup loop has returned, and neither the health-check loop nor
    [Close] can move: [Close] waits for as long as the users keep their
    connections. *)
Theorem Close_waits_for_users maxSize timeout :
  0 < maxSize →
  ∃ us sh, rtc (loops_step maxSize timeout) New_state (waiting us Returned (Body GBlocked) sh) ∧
    Z.of_nat (length us) = maxSize ∧ Forall (λ t, ∃ c, t = Holds c) us ∧
    (∀ ch case, healthCheckLoop maxSize timeout true ch case (Body GBlocked) sh = None) ∧
    Close_step KWait Returned (Body GBlocked) sh = None.
Proof.
  intros Hmax. destruct (Z.to_nat maxSize) as [|k] eqn:Hk; [lia|].
  exists (map Holds (seq 0 (S k))), (in_use 0 (S k) []). split_and!.
  - etransitivity; [apply (users_in_use maxSize timeout (S k)); lia|].
    eapply rtc_l; [apply (step_health _ _ _ _ _ _ _ (dial_and ReturnIt) OnTick); reflexivity|].
    do 2 (eapply rtc_l; [apply (step_health _ _ _ _ _ _ _ (dial_and ReturnIt) OnTick); reflexivity|]).
    eapply rtc_l; [apply (step_health _ _ _ _ _ _ _ (dial_and ReturnIt) OnTick)|].
    { cbn [healthCheckLoop loop_step finishedb pool_thread_step in_use sh_sem]. unfold loop_step. cbn.
      rewrite (proj2 (Z.ltb_ge _ _)) by lia. reflexivity. }
    eapply rtc_l; [apply step_close|].
    apply rtc_once. by apply (step_cleanup _ _ _ _ _ _ _ (dial_and ReturnIt) OnStop).
  - rewrite length_map, length_seq. lia.
  - apply list.Forall_forall. intros t (c & -> & _)%list_elem_of_fmap. eauto.
  - done.
  - done.
Qed.

(** ** Witnesses *)

(** A user holds a connection of a pool of two, and the health check takes the
    other: the loops return, and so does [Close]. *)
Lemma Close_returns_witness :
  ∃ us c h sh, rtc (loops_step 2 second) New_state (waiting us c h sh) ∧ us = [Holds 0] ∧
    (∃ bound, ∀ n x, nsteps (background 2 second) n (c, h, sh) x → (n ≤ bound)%nat) ∧
    ∃ sh', rtc (background 2 second) (c, h, sh) (Returned, Returned, sh') ∧
      Close_step KWait Returned Returned sh' = Some (KClosed, drained sh').
Proof.
  assert (H : rtc (loops_step 2 second) New_state
                (waiting [Holds 0] Select (Body GIdle) (in_use 0 1 []))).
  { etransitivity; [apply (users_in_use 2 second 1); lia|].
    eapply rtc_l; [apply (step_health _ _ _ _ _ _ _ (dial_and ReturnIt) OnTick); reflexivity|].
    eapply rtc_l; [apply (step_health _ _ _ _ _ _ _ (dial_and ReturnIt) OnTick); reflexivity|].
    apply rtc_once, step_close. }
  destruct (Close_returns 2 second _ _ _ _ ltac:(discriminate) H) as (bound & Hb).
  do 4 eexists. split; [exact H|]. split; [reflexivity|]. split.
  { exists bound. intros n [[c' h'] sh'] Hr. exact (proj1 (Hb n c' h' sh' Hr)). }
  eexists. split.
  - eapply rtc_l; [eapply (bg_cleanup _ _ _ _ _ (dial_and ReturnIt) OnStop); reflexivity|].
    do 6 (eapply rtc_l; [eapply (bg_health _ _ _ _ _ (dial_and ReturnIt) OnTick); [discriminate|reflexivity]|]).
    eapply rtc_l; [eapply (bg_health _ _ _ _ _ (dial_and ReturnIt) OnTick); [discriminate|reflexivity]|].
    eapply rtc_l; [eapply (bg_health _ _ _ _ _ (dial_and ReturnIt) OnStop); [reflexivity|reflexivity]|].
    apply rtc_refl.
  - reflexivity.
Defined.

Lemma Close_waits_for_users_witness :
  ∃ us sh, rtc (loops_step 1 second) New_state (waiting us Returned (Body GBlocked) sh) ∧ length us = 1%nat.
Proof.
  destruct (Close_waits_for_users 1 second eq_refl) as (us & sh & H & Hl & _).
  exists us, sh. split; [exact H|]. exact (Nat2Z.inj _ 1 Hl).
Defined.
