(* ===== verification/ManagerLoop.v ===== *)
(** * The failover manager's goroutine ([internal/failover/manager.go])

    [Manager] models what a tick does; here is the goroutine that ticks, with the
    two channels that end it: [Stop] closes [stopCh] and waits for [doneCh], which
    the goroutine closes when it returns.  [Start] launches a goroutine at each
    call; a second one to return closes [doneCh] again, which panics. *)

From S2P Require Import Prelude Config Health StateMachine Controller Manager.

(** In [m.sync()], in the [select], or returned. *)
Inductive loop_place := Syncing | Selecting | Returned.

Section Loop.
Context {W : Type} `{DrainStateReader W} {M : Type} `{MetricsRecorder M}.

Record LoopState := {
  lp_mgr : Manager M;
  lp_sm : StateMachine W;
  lp_world : W;
  lp_stopped : bool;
  lp_done : bool;
  lp_threads : list loop_place
}.

Definition fresh_loop (m : Manager M) (sm : StateMachine W) (w : W) : LoopState :=
  {| lp_mgr := m; lp_sm := sm; lp_world := w; lp_stopped := false; lp_done := false;
     lp_threads := [] |}.

Definition Manager_Start (checker : gmap string ClusterHealth) (s : LoopState) : LoopState :=
  {| lp_mgr := SetChecker checker (lp_mgr s); lp_sm := lp_sm s; lp_world := lp_world s;
     lp_stopped := lp_stopped s; lp_done := lp_done s; lp_threads := lp_threads s ++ [Syncing] |}.

(** [Stop] up to its receive from [doneCh], which returns once that is closed. *)
Definition Manager_Stop (s : LoopState) : LoopState :=
  {| lp_mgr := lp_mgr s; lp_sm := lp_sm s; lp_world := lp_world s; lp_stopped := true;
     lp_done := lp_done s; lp_threads := lp_threads s |}.

Inductive loop_event := LSynced (order : list (string * time)) | LTicker | LStopped.

Definition at_place (i : nat) (t : loop_place) (s : LoopState) : LoopState :=
  {| lp_mgr := lp_mgr s; lp_sm := lp_sm s; lp_world := lp_world s; lp_stopped := lp_stopped s;
     lp_done := lp_done s; lp_threads := <[i := t]> (lp_threads s) |}.

(** One step of a goroutine of [loop]: [None] when it cannot take it. *)
Definition loop_step (s : LoopState) (i : nat) (ev : loop_event) : option (res LoopState) :=
  match lp_threads s !! i, ev with
  | Some Syncing, LSynced order =>
      Some ('(m, sm, w) ← sync order (lp_mgr s) (lp_sm s) (lp_world s);
            Ok {| lp_mgr := m; lp_sm := sm; lp_world := w; lp_stopped := lp_stopped s;
                  lp_done := lp_done s; lp_threads := <[i := Selecting]> (lp_threads s) |})
  | Some Selecting, LTicker => Some (Ok (at_place i Syncing s))
  | Some Selecting, LStopped =>
      if lp_stopped s then
        if lp_done s then Some Panic
        else Some (Ok {| lp_mgr := lp_mgr s; lp_sm := lp_sm s; lp_world := lp_world s;
                         lp_stopped := true; lp_done := true;
                         lp_threads := <[i := Returned]> (lp_threads s) |})
      else None
  | _, _ => None
  end.

(** What can happen after the last [Start]. *)
Inductive loop_next (s : LoopState) : LoopState → Prop :=
  | next_stop : loop_next s (Manager_Stop s)
  | next_thread i ev s' : loop_step s i ev = Some (Ok s') → loop_next s s'.

(** ** One goroutine *)

(** A tick always completes. *)
Lemma sync_total order (m : Manager M) (sm : StateMachine W) w : ∃ r, sync order m sm w = Ok r.
Proof.
  unfold sync. destruct (m_checker m) as [checker|]; [|by eexists]. clear -H0.
  revert m sm w. induction order as [|[bu now] order IH]; intros m sm w; cbn [sync_loop]; [by eexists|].
  destruct (m_controllers m !! bu) as [c|]; [|apply IH]. destruct (checker !! bu) as [ch|]; [|apply IH].
  unfold RecordHealthResult; cbn. destruct (Evaluate _ _ _ _) as [[[a c'] sm'] w']. apply IH.
Qed.

(** The one goroutine of a running manager, and what [doneCh] says of it. *)
Definition one_loop (s : LoopState) : Prop :=
  ∃ t, lp_threads s = [t] ∧ (lp_done s = true ↔ t = Returned) ∧ (t = Returned → lp_stopped s = true).

Lemma loop_step_one s i ev r :
  one_loop s → loop_step s i ev = Some r →
  ∃ s', r = Ok s' ∧ one_loop s' ∧ lp_stopped s' = lp_stopped s ∧ lp_done s = false.
Proof.
  intros (t & Ht & Hd & Hr). unfold loop_step. rewrite Ht.
  destruct i as [|i]; [|done]. cbn [list_lookup].
  change ([t] !! 0%nat) with (Some t).
  assert (t ≠ Returned → lp_done s = false) as Hnd.
  { intros Hne. destruct (lp_done s); [|done]. by destruct Hne; apply Hd. }
  destruct t, ev as [order| |]; try done.
  - intros [= <-]. destruct (sync_total order (lp_mgr s) (lp_sm s) (lp_world s)) as [[[m sm] w] ->].
    bind_simpl. eexists. split; [done|]. split; [|by split; [|apply Hnd]].
    exists Selecting. cbn. rewrite Hnd by done. by split_and!.
  - intros [= <-]. eexists. split; [done|]. split; [|by split; [|apply Hnd]].
    exists Syncing. cbn. rewrite Ht, Hnd by done. by split_and!.
  - destruct (lp_stopped s) eqn:Hs; [|done]. rewrite Hnd by done. intros [= <-].
    eexists. split; [done|]. split; [|by split].
    exists Returned. cbn. by split_and!.
Qed.

Lemma loop_next_one s s' : loop_next s s' → one_loop s → one_loop s'.
Proof.
  intros [|i ev s'' Hst] Hone.
  - destruct Hone as (t & Ht & Hd & Hr). exists t. cbn. by split_and!.
  - destruct (loop_step_one _ _ _ _ Hone Hst) as (s2 & [= ->] & Hone' & _). done.
Qed.

(** A step of the only goroutine, if it can take it and does not panic. *)
Definition run_event (s : option LoopState) (ev : loop_event) : option LoopState :=
  match s with
  | Some s => match loop_step s 0 ev with Some (Ok s') => Some s' | _ => None end
  | None => None
  end.

(** ** Properties *)

(** The life of the loop that [main] starts once.  It never panics; after [Stop]
    is called it needs at most two steps, none waiting for the ticker, for [Stop]
    to return; and once that happened the controllers, the state machine and
    everything its callbacks act on stay as they are. *)
Theorem Manager_loop_life checker m sm w s :
  rtc loop_next (Manager_Start checker (fresh_loop m sm w)) s →
  (∀ i ev r, loop_step s i ev = Some r → is_ok r = true) ∧
  (∃ evs s', (length evs ≤ 2)%nat ∧ (LTicker ∉ evs) ∧
     foldl run_event (Some (Manager_Stop s)) evs = Some s' ∧ lp_done s' = true) ∧
  (lp_done s = true → ∀ s', rtc loop_next s s' →
     lp_done s' = true ∧ lp_mgr s' = lp_mgr s ∧ lp_sm s' = lp_sm s ∧ lp_world s' = lp_world s).
Proof.
  intros Hr. assert (Hone : one_loop s).
  { assert (H1 : one_loop (Manager_Start checker (fresh_loop m sm w))).
    { exists Syncing. by split_and!. }
    induction Hr as [|? ? ? Hst _ IH]; [done|]. eauto using loop_next_one. }
  split; [|split].
  - intros i ev r Hst. by destruct (loop_step_one _ _ _ _ Hone Hst) as (s' & -> & _).
  - destruct Hone as (t & Ht & Hd & _). destruct t.
    + destruct (sync_total [] (lp_mgr s) (lp_sm s) (lp_world s)) as [[[m' sm'] w'] Hs].
      exists [LSynced []; LStopped]. eexists. split; [done|]. split; [set_solver|].
      assert (lp_done s = false) as Hnd by (destruct (lp_done s); [discriminate (proj1 Hd eq_refl)|done]).
      cbn. unfold loop_step. cbn. rewrite Ht. cbn. rewrite Hs. cbn. rewrite Hnd. by split.
    + exists [LStopped]. eexists. split; [cbn; lia|]. split; [set_solver|].
      assert (lp_done s = false) as Hnd by (destruct (lp_done s); [discriminate (proj1 Hd eq_refl)|done]).
      cbn. unfold loop_step. cbn. rewrite Ht. cbn. rewrite Hnd. by split.
    + exists [], (Manager_Stop s). split; [cbn; lia|]. split; [set_solver|]. split; [done|]. by apply Hd.
  - intros Hdone s' Hst. clear Hr. induction Hst as [|s s1 s2 Hn _ IH]; [done|].
    destruct Hn as [|i ev s1 Hst1].
    + by destruct IH as (? & ? & ? & ?); [by eapply loop_next_one; [apply next_stop|]|done|split_and!].
    + destruct (loop_step_one _ _ _ _ Hone Hst1) as (? & _ & _ & _ & Hnd). congruence.
Qed.

(** A manager that was never started cannot be stopped: [Stop] waits for ever. *)
Theorem unstarted_Stop_hangs m sm w s : rtc loop_next (fresh_loop m sm w) s → lp_done s = false.
Proof.
  intros Hr. assert (H1 : lp_threads s = [] ∧ lp_done s = false); [|by destruct H1].
  remember (fresh_loop m sm w) as s0 eqn:E.
  assert (H1 : lp_threads s0 = [] ∧ lp_done s0 = false) by (by subst). clear E.
  induction Hr as [|? ? ? Hn _ IH]; [done|]. apply IH. destruct H1 as [Ht Hd].
  destruct Hn as [|i ev s1 Hst]; [done|]. unfold loop_step in Hst. by rewrite Ht in Hst.
Qed.

(** Started twice, the second goroutine to end closes [doneCh] again. *)
Theorem second_Start_panics checker m sm w :
  ∃ s, rtc loop_next (Manager_Start checker (Manager_Start checker (fresh_loop m sm w))) s ∧
       loop_step s 1 LStopped = Some Panic.
Proof.
  set (m' := SetChecker checker (SetChecker checker m)).
  exists {| lp_mgr := m'; lp_sm := sm; lp_world := w; lp_stopped := true; lp_done := true;
            lp_threads := [Returned; Selecting] |}. split; [|reflexivity].
  eapply rtc_l; [apply (next_thread _ 0 (LSynced [])); reflexivity|].
  eapply rtc_l; [apply (next_thread _ 1 (LSynced [])); reflexivity|].
  eapply rtc_l; [apply next_stop|].
  eapply rtc_l; [apply (next_thread _ 0 LStopped); reflexivity|]. apply rtc_refl.
Qed.
End Loop.
