(* ===== verification/Http.v ===== *)
(** * The observability server's set-up ([internal/server/server.go])

    [Status] models the documents; here are the server's construction, its
    Prometheus descriptors and the routing of requests to documents.  The pages are
    registered on an [http.ServeMux] of Go's standard library: a pattern without a
    final slash matches its path only, ["/"] matches every path, and the longest
    match wins.  Paths that the mux first redirects to their clean form (with [//],
    [.] or [..]) are outside the model, as are TCP and the server's timeouts. *)

From S2P Require Import Prelude Bytes Config Health Stats LeaderCache Router AutoRebalance.
From S2P Require Import StateMachine Drain Controller DRCoordinator Manager Connection Listener Startup Status.

(** ** Construction *)

(** [New]: the port listened on, and the server. *)
Definition New (now : time) (port : Z) (healthProv : option (gmap string ClusterHealthSnapshot))
    (drainProv : option DrainManager) (cfgProv : option Config) (fm : option FailoverMetrics)
    : Z * Server :=
  ((if port <=? 0 then 8080 else port),
   {| sv_healthProv := healthProv; sv_drainProv := drainProv; sv_cfgProv := cfgProv;
      sv_weightProv := None; sv_failoverProv := None; sv_failoverM := fm; sv_startTime := now |}).

Definition SetWeightProvider (wp : string → option (Z * Z)) (s : Server) : Server :=
  {| sv_healthProv := sv_healthProv s; sv_drainProv := sv_drainProv s; sv_cfgProv := sv_cfgProv s;
     sv_weightProv := Some wp; sv_failoverProv := sv_failoverProv s; sv_failoverM := sv_failoverM s;
     sv_startTime := sv_startTime s |}.

Definition SetFailoverStateProvider (fp : string → string * bool) (s : Server) : Server :=
  {| sv_healthProv := sv_healthProv s; sv_drainProv := sv_drainProv s; sv_cfgProv := sv_cfgProv s;
     sv_weightProv := sv_weightProv s; sv_failoverProv := Some fp; sv_failoverM := sv_failoverM s;
     sv_startTime := sv_startTime s |}.

(** ** Descriptors *)

(** A [prometheus.Desc]: the name, the help text and the variable labels. *)
Record Desc := { ds_fqName : string; ds_help : string; ds_labels : list string }.

Record metricsCollector := {
  upDesc : Desc;
  uptimeDesc : Desc;
  connectionsActiveDesc : Desc;
  failoverTotalDesc : Desc;
  healthStatusDesc : Desc;
  healthConsecFailDesc : Desc;
  healthConsecSuccDesc : Desc;
  healthLatencyDesc : Desc;
  healthUpSinceDesc : Desc;
  circuitBreakerDesc : Desc;
  drainActiveDesc : Desc;
  buildInfoDesc : Desc
}.

Definition NewDesc (name help : string) (labels : list string) : Desc :=
  {| ds_fqName := name; ds_help := help; ds_labels := labels |}.

Definition newMetricsCollector : metricsCollector :=
  let labelNames := ["bu"; "endpoint"]%string in
  {| upDesc := NewDesc "proxy_up" "Whether the proxy process is running." [];
     uptimeDesc := NewDesc "proxy_uptime_seconds" "Seconds since proxy process start." [];
     connectionsActiveDesc :=
       NewDesc "proxy_connections_active" "Active client connections." ["bu"%string];
     failoverTotalDesc := NewDesc "proxy_failover_total" "Total number of failover events." [];
     healthStatusDesc :=
       NewDesc "proxy_health_status" "Cluster endpoint health status (1 = healthy)." labelNames;
     healthConsecFailDesc :=
       NewDesc "proxy_health_consecutive_failures" "Consecutive failed health checks." labelNames;
     healthConsecSuccDesc :=
       NewDesc "proxy_health_consecutive_successes" "Consecutive successful health checks." labelNames;
     healthLatencyDesc :=
       NewDesc "proxy_health_last_check_latency_seconds" "Latency of last health check." labelNames;
     healthUpSinceDesc :=
       NewDesc "proxy_health_up_since_seconds" "Seconds since endpoint became healthy." labelNames;
     circuitBreakerDesc :=
       NewDesc "proxy_circuit_breaker" "Circuit breaker state (1 = broken)." ["bu"%string];
     drainActiveDesc :=
       NewDesc "proxy_drain_active" "Whether a drain is active for this cluster." ["bu"%string];
     buildInfoDesc := NewDesc "proxy_build_info" "Proxy build metadata." ["version"%string] |}.

Definition Describe (c : metricsCollector) : list Desc :=
  [upDesc c; uptimeDesc c; connectionsActiveDesc c; failoverTotalDesc c; healthStatusDesc c;
   healthConsecFailDesc c; healthConsecSuccDesc c; healthLatencyDesc c; healthUpSinceDesc c;
   circuitBreakerDesc c; drainActiveDesc c; buildInfoDesc c].

(** ** Requests *)

Inductive page := PHealth | PMetrics | PStatus | PTopicStats | PRoot.

(** The patterns [Start] registers. *)
Definition patterns : list (string * page) :=
  [("/health", PHealth); ("/metrics", PMetrics); ("/status", PStatus);
   ("/topic-stats", PTopicStats); ("/", PRoot)]%string.

(** Whether a pattern of the mux matches a path. *)
Definition mux_matches (pattern path : string) : bool :=
  match String.get (String.length pattern - 1) pattern with
  | Some c => if Ascii.eqb c PathSeparator then String.prefix pattern path else String.eqb pattern path
  | None => false
  end.

(** The handler of the longest pattern that matches. *)
Definition ServeMux (ps : list (string * page)) (path : string) : option page :=
  snd <$> foldl (λ best p,
    if mux_matches (fst p) path then
      match best with
      | Some b => if (String.length (fst b) <? String.length (fst p))%nat then Some p else best
      | None => Some p
      end
    else best) None ps.

Inductive document :=
  | DocHealth (r : response string)
  | DocMetrics (ms : list metric)
  | DocStatus (r : response statusResponse)
  | DocTopicStats (ts : list TopicStats * list ClusterStats)
  | DocDashboard
  | DocNotFound.

(** One request: the clock, the orders in which its handler ranges over maps, and
    the routing statistics at that time. *)
Record request := {
  rq_method : string;
  rq_path : string;
  rq_now : time;
  rq_clusters : list (string * ClusterConfig);
  rq_health : list (string * ClusterHealthSnapshot);
  rq_breakers : list (string * string);
  rq_stats : Stats
}.

Definition serve (s : Server) (rq : request) : document :=
  match ServeMux patterns (rq_path rq) with
  | Some PHealth => DocHealth (handleHealth (rq_method rq))
  | Some PMetrics => DocMetrics (Collect (rq_now rq) (rq_health rq) (rq_breakers rq) s)
  | Some PStatus => DocStatus (handleStatus (rq_now rq) (rq_clusters rq) (rq_method rq) s)
  | Some PTopicStats => DocTopicStats (handleTopicStats (rq_stats rq))
  | Some PRoot => if negb (String.eqb (rq_path rq) "/") then DocNotFound else DocDashboard
  | None => DocNotFound
  end.

(** ** What a scrape needs *)

(** A metric that [MustNewConstMetric] builds without a panic and the registry
    accepts: its descriptor was announced, with as many labels as it has values. *)
Definition described (ds : list Desc) (m : metric) : Prop :=
  ∃ d, d ∈ ds ∧ ds_fqName d = mt_name m ∧ length (ds_labels d) = length (mt_labels m).

#[export] Instance described_dec ds m : Decision (described ds m).
Proof.
  refine (cast_if (decide (Exists (λ d, ds_fqName d = mt_name m ∧
                                        length (ds_labels d) = length (mt_labels m)) ds)));
    unfold described; rewrite list.Exists_exists in *; naive_solver.
Defined.

(** [described], as a check on the name and the number of labels. *)
Definition announced (name : string) (n : nat) : bool :=
  existsb (λ d, String.eqb (ds_fqName d) name && (length (ds_labels d) =? n)%nat)
    (Describe newMetricsCollector).

Lemma announced_described name labels v :
  announced name (length labels) = true →
  described (Describe newMetricsCollector) {| mt_name := name; mt_labels := labels; mt_value := v |}.
Proof.
  unfold announced. intros (d & Hd & H)%existsb_exists.
  apply andb_true_iff in H as [H1%String.eqb_eq H2%Nat.eqb_eq]. exists d.
  by rewrite list_elem_of_In.
Qed.

Ltac all_described :=
  repeat match goal with
  | |- Forall _ (_ ++ _) => apply list.Forall_app; split
  | |- Forall _ (_ :: _) => constructor
  | |- Forall _ [] => constructor
  | |- Forall _ (match ?o with Some _ => _ | None => _ end) => destruct o
  | |- described _ _ => apply announced_described; reflexivity
  end.

Lemma collect_cluster_described now dm x :
  Forall (described (Describe newMetricsCollector)) (collect_cluster now dm x).
Proof.
  destruct x as [name h]. unfold collect_cluster, emitEndpointMetrics, single. cbv zeta. all_described.
Qed.

Lemma Collect_described now healthOrder breakerOrder s :
  Forall (described (Describe newMetricsCollector)) (Collect now healthOrder breakerOrder s).
Proof.
  unfold Collect, single. all_described.
  - apply Forall_concat, Forall_fmap, list.Forall_forall. intros x _. apply collect_cluster_described.
  - apply Forall_fmap, list.Forall_forall. intros [bu state] _. by apply announced_described.
Qed.

(** ** Properties *)

(** Every scrape is accepted.  The descriptors are distinct, so registering the
    collector does not panic.  Whatever the providers hold and in whatever order
    the maps are ranged over, each metric of a scrape has a descriptor with the
    right number of labels, so building it does not panic either, and no metric
    is listed twice, which the registry would refuse together with the whole
    scrape - provided that no BU has the empty name. *)
Theorem scrape_accepted rq s :
  rq_path rq = "/metrics"%string →
  NoDup (map fst (rq_health rq)) → NoDup (map fst (rq_breakers rq)) →
  ""%string ∉ map fst (rq_health rq) →
  NoDup (map ds_fqName (Describe newMetricsCollector)) ∧
  ∃ ms, serve s rq = DocMetrics ms ∧ NoDup (map metric_key ms) ∧
    Forall (described (Describe newMetricsCollector)) ms.
Proof.
  intros Hp Hh Hb He. split.
  - refine (bool_decide_unpack _ _). vm_compute. exact I.
  - exists (Collect (rq_now rq) (rq_health rq) (rq_breakers rq) s). split.
    + unfold serve. by rewrite Hp.
    + split; [by apply Collect_distinct|apply Collect_described].
Qed.

(** The paths a client can ask for start with a slash. *)
Lemma ServeMux_pages path :
  String.prefix "/" path = true →
  ServeMux patterns path =
  Some (if String.eqb path "/health" then PHealth
        else if String.eqb path "/metrics" then PMetrics
        else if String.eqb path "/status" then PStatus
        else if String.eqb path "/topic-stats" then PTopicStats
        else PRoot).
Proof.
  intros Hp. unfold ServeMux, patterns. cbn [foldl fst snd].
  change (mux_matches "/" path) with (String.prefix "/" path). rewrite Hp.
  unfold mux_matches; cbn [String.length Nat.sub String.get].
  change (Ascii.eqb _ PathSeparator) with false. cbv iota. rewrite !(String.eqb_sym _ path).
  destruct (String.eqb_spec path "/health") as [->|]; [reflexivity|].
  destruct (String.eqb_spec path "/metrics") as [->|]; [reflexivity|].
  destruct (String.eqb_spec path "/status") as [->|]; [reflexivity|].
  by destruct (String.eqb_spec path "/topic-stats") as [->|].
Qed.

(** The dashboard is served at the root only; every path that is not registered
    is answered with a 404, though the root's pattern matches it. *)
Theorem serve_pages s rq :
  String.prefix "/" (rq_path rq) = true →
  (serve s rq = DocDashboard ↔ rq_path rq = "/"%string) ∧
  (serve s rq = DocNotFound ↔
     rq_path rq ∉ ["/health"; "/metrics"; "/status"; "/topic-stats"; "/"]%string).
Proof.
  intros Hp. unfold serve. rewrite ServeMux_pages by done.
  destruct (String.eqb_spec (rq_path rq) "/health") as [->|]; [split; set_solver|].
  destruct (String.eqb_spec (rq_path rq) "/metrics") as [->|]; [split; set_solver|].
  destruct (String.eqb_spec (rq_path rq) "/status") as [->|]; [split; set_solver|].
  destruct (String.eqb_spec (rq_path rq) "/topic-stats") as [->|]; [split; set_solver|].
  destruct (String.eqb_spec (rq_path rq) "/") as [->|]; cbn; split; set_solver.
Qed.

(** ** Witnesses *)

Definition scrape : request :=
  let h := {| chs_Name := "bu1"; chs_Primary := convertSnapshot (AutoRebalance.sample_snapshot true 0);
              chs_Secondary := convertSnapshot (AutoRebalance.sample_snapshot false 0) |} in
  {| rq_method := "GET"; rq_path := "/metrics"; rq_now := 5; rq_clusters := [];
     rq_health := [("bu1"%string, h)]; rq_breakers := [("bu1"%string, "ok"%string)];
     rq_stats := no_stats |}.

Lemma scrape_accepted_witness :
  ∃ ms, serve (main_server 0 sample_config (sample_proxy StatePrimary None)) scrape = DocMetrics ms ∧
    NoDup (map metric_key ms).
Proof.
  destruct (scrape_accepted scrape (main_server 0 sample_config (sample_proxy StatePrimary None))
              eq_refl) as (_ & ms & H1 & H2 & _).
  - apply NoDup_singleton.
  - apply NoDup_singleton.
  - intros [=]%list_elem_of_singleton.
  - exists ms. split; [exact H1|exact H2].
Defined.
