(* ===== verification/Watcher.v ===== *)
(** * The stand-alone config watcher ([internal/config/watcher.go])

    [Watcher] turns file events into at most one pending [ReloadEvent].  Nothing
    in the program creates one: the reloader has a loop of its own ([Config]).  The
    [select] of [Start] is [watcher_step], one ready case at a time; the two
    channels it fills have room for one element, and a full channel drops.
    [fsnotify] is the sequence of events and errors it delivers. *)

From S2P Require Import Prelude Config.

Record ReloadEvent := { re_Path : string; re_Time : time }.

Record Watcher := {
  wt_path : string;
  wt_events : option ReloadEvent;
  wt_errs : option error;
  wt_debounce : duration;
  wt_timer : option time
}.

Definition NewWatcher (path : string) : Watcher :=
  {| wt_path := path; wt_events := None; wt_errs := None; wt_debounce := 100 * millisecond;
     wt_timer := None |}.

(** [filepath.Base]: trailing slashes go, then all up to the last slash. *)
Fixpoint strip_slashes (rev_path : list Ascii.ascii) : list Ascii.ascii :=
  match rev_path with
  | c :: l => if Ascii.eqb c PathSeparator then strip_slashes l else rev_path
  | [] => []
  end.

Definition filepath_Base (path : string) : string :=
  if String.eqb path "" then "."
  else
    let path := String.string_of_list_ascii
                  (reverse (strip_slashes (reverse (String.list_ascii_of_string path)))) in
    if String.eqb path "" then "/" else base path.

(** A ready case of the [select], or a consumer that receives. *)
Inductive input :=
  | Cancelled (err : error)
  | FsEvent (e : option Event)      (* [None]: the channel was closed *)
  | FsError (e : option error)
  | TimerFired
  | Receive | ReceiveErr.

(** [inl] goes on, [inr] returns. *)
Definition watcher_step (now : time) (i : input) (w : Watcher) : Watcher + option error :=
  let upd events errs timer :=
    inl {| wt_path := wt_path w; wt_events := events; wt_errs := errs;
           wt_debounce := wt_debounce w; wt_timer := timer |} in
  match i with
  | Cancelled err => inr (Some err)
  | FsEvent None => inr None
  | FsEvent (Some event) =>
      if negb (String.eqb (filepath_Base (ev_Name event)) (filepath_Base (wt_path w))) then inl w
      else if ev_Write event || ev_Create event
      then upd (wt_events w) (wt_errs w) (Some (now + wt_debounce w))
      else inl w
  | TimerFired =>
      let event := {| re_Path := wt_path w; re_Time := now |} in
      upd (Some (default event (wt_events w))) (wt_errs w) None
  | FsError None => inr None
  | FsError (Some err) => upd (wt_events w) (Some (default err (wt_errs w))) (wt_timer w)
  | Receive => upd None (wt_errs w) (wt_timer w)
  | ReceiveErr => upd (wt_events w) None (wt_timer w)
  end.

(** A case that can be taken: the timer has been set and is due, the channel
    received from is not empty. *)
Definition ready (now : time) (i : input) (w : Watcher) : bool :=
  match i with
  | TimerFired => match wt_timer w with Some d => d <=? now | None => false end
  | Receive => bool_decide (is_Some (wt_events w))
  | ReceiveErr => bool_decide (is_Some (wt_errs w))
  | _ => true
  end.

(** A run in time order that has not returned. *)
Inductive watching (path : string) : list (time * input) → Watcher → Prop :=
  | watching_start : watching path [] (NewWatcher path)
  | watching_step trace w now i w' :
      watching path trace w → Forall (λ '(t, _), t ≤ now) trace → ready now i w = true →
      watcher_step now i w = inl w' → watching path (trace ++ [(now, i)]) w'.

(** The trace touches the file. *)
Definition touches (path : string) (i : input) : bool :=
  match i with
  | FsEvent (Some e) =>
      String.eqb (filepath_Base (ev_Name e)) (filepath_Base path) && (ev_Write e || ev_Create e)
  | _ => false
  end.

(** ** The pending reload *)

(** The time of the last touch that no receive has followed. *)
Definition unread (path : string) (trace : list (time * input)) : option time :=
  foldl (λ u '(t, i), match i with
                      | Receive => None
                      | _ => if touches path i then Some t else u
                      end) None trace.

(** The time of the last touch that no firing of the timer has followed. *)
Definition unfired (path : string) (trace : list (time * input)) : option time :=
  foldl (λ u '(t, i), match i with
                      | TimerFired => None
                      | _ => if touches path i then Some t else u
                      end) None trace.

Lemma watching_inv path trace w :
  watching path trace w →
  wt_path w = path ∧ wt_debounce w = 100 * millisecond ∧
  wt_timer w = (λ t, t + 100 * millisecond) <$> unfired path trace ∧
  (is_Some (unread path trace) → is_Some (wt_timer w) ∨ is_Some (wt_events w)).
Proof.
  induction 1 as [|trace w now i w' _ (Hp & Hd & Ht & Hu) _ Hr Hst].
  { by split_and!; [..|intros []]. }
  unfold unfired, unread in *. rewrite !foldl_snoc.
  destruct i as [err|[e|]|[err|]| | |]; cbn [watcher_step touches] in *; simplify_eq.
  - destruct (String.eqb_spec (filepath_Base (ev_Name e)) (filepath_Base (wt_path w))) as [Hb|Hb];
      cbn [negb andb] in *.
    + destruct (ev_Write e || ev_Create e); simplify_eq; cbn; [|by split_and!].
      rewrite Hd. split_and!; try done. intros _. left. by eexists.
    + simplify_eq. by split_and!.
  - by split_and!.
  - cbn. split_and!; try done. intros _. right. by eexists.
  - cbn in *. split_and!; done.
  - by split_and!.
Qed.

(** ** Properties *)

(** Debouncing.  The timer fires only a full debounce after the last change of the
    file, so a burst of changes closer together than that makes one event; and no
    change is missed: until the consumer has received after it, either an event
    waits in the channel or the timer is set. *)
Theorem watcher_debounces path trace w :
  watching path trace w →
  (∀ now, ready now TimerFired w = true →
     ∃ t, unfired path trace = Some t ∧ t + 100 * millisecond ≤ now) ∧
  (is_Some (unread path trace) → is_Some (wt_timer w) ∨ is_Some (wt_events w)).
Proof.
  intros H. destruct (watching_inv path trace w H) as (_ & _ & Ht & Hu). split; [|done].
  intros now Hr. cbn in Hr. rewrite Ht in Hr. destruct (unfired path trace) as [t|]; [|done].
  cbn in Hr. bool_to_prop. by exists t.
Qed.
