(* ===== verification/Logger.v ===== *)
(** * Structured logging ([internal/logger/logger.go])

    The package wraps [log/slog].  Of that library the model has what decides the
    contents of a line: the level that enables a handler, the arguments paired into
    attributes, and the attributes a handler writes, in their order, after
    [ReplaceAttr].  A line is the list of its members; how JSON and text quote them
    is left out.  [pkg] is the package's state, the default logger and its [once]. *)

From S2P Require Import Prelude Cache.

Definition Level := Z.
Definition LevelDebug : Level := -4.
Definition LevelInfo : Level := 0.
Definition LevelWarn : Level := 4.
Definition LevelError : Level := 8.

(** The names of the four levels. *)
Definition level_name (l : Level) : string :=
  if l <? LevelInfo then "DEBUG" else if l <? LevelWarn then "INFO"
  else if l <? LevelError then "WARN" else "ERROR".

(** A logged value; [VAny] is any other value, by the text it formats to. *)
Inductive value := VString (s : string) | VInt (z : Z) | VTime (t : time) | VAny (text : string).

#[export] Instance value_eq_dec : EqDecision value.
Proof. solve_decision. Defined.

(** [slog.Value.String]. *)
Definition value_String (render_time : time → string) (v : value) : string :=
  match v with
  | VString s | VAny s => s
  | VInt z => itoa z
  | VTime t => render_time t
  end.

Definition Attr : Type := string * value.

Definition badKey : string := "!BADKEY".

(** [slog.argsToAttrSlice], for arguments that are not attributes themselves: the
    program passes none. *)
Fixpoint argsToAttrs (args : list value) : list Attr :=
  match args with
  | [] => []
  | VString k :: args =>
      match args with
      | [] => [(badKey, VString k)]
      | v :: args => (k, v) :: argsToAttrs args
      end
  | v :: args => (badKey, v) :: argsToAttrs args
  end.

Inductive Writer := Stderr | Other (n : nat).

Record Logger := {
  lg_json : bool;
  lg_writer : Writer;
  lg_level : Level;
  lg_attrs : list Attr
}.

(** The [switch] on the level's name. *)
Definition parse_level (level : string) : Level :=
  if String.eqb level "debug" then LevelDebug
  else if String.eqb level "warn" then LevelWarn
  else if String.eqb level "error" then LevelError
  else LevelInfo.

Definition New (level : string) (w : option Writer) : Logger :=
  {| lg_json := true; lg_writer := default Stderr w; lg_level := parse_level level; lg_attrs := [] |}.

Definition newText (level : string) (w : option Writer) : Logger :=
  {| lg_json := false; lg_writer := default Stderr w; lg_level := parse_level level; lg_attrs := [] |}.

(** ** The default logger *)

Record pkg := { defaultLogger : option Logger; once_done : bool }.

Definition fresh_pkg : pkg := {| defaultLogger := None; once_done := false |}.

Definition Default (s : pkg) : option Logger * pkg :=
  let s := if once_done s then s
           else {| defaultLogger := Some (New "info" (Some Stderr)); once_done := true |} in
  (defaultLogger s, s).

Definition L := Default.

Definition SetDefault (l : option Logger) (s : pkg) : pkg :=
  {| defaultLogger := l; once_done := once_done s |}.

Definition InitForTest (s : pkg) : Logger * pkg :=
  let l := newText "info" (Some Stderr) in (l, SetDefault (Some l) s).

Definition InitForTestDebug (s : pkg) : Logger * pkg :=
  let l := newText "debug" (Some Stderr) in (l, SetDefault (Some l) s).

(** ** Child loggers *)

(** [slog.Logger.With], given attributes. *)
Definition with_attrs (attrs : list Attr) (l : Logger) : Logger :=
  {| lg_json := lg_json l; lg_writer := lg_writer l; lg_level := lg_level l;
     lg_attrs := lg_attrs l ++ attrs |}.

Definition With (args : list value) : Logger → Logger := with_attrs (argsToAttrs args).

Definition WithCorrelationID (id : Z) : Logger → Logger :=
  with_attrs [("correlation_id"%string, VInt id)].

Definition WithBU (bu : string) : Logger → Logger := with_attrs [("bu"%string, VString bu)].

Definition WithClientID (clientID : string) : Logger → Logger :=
  with_attrs [("client_id"%string, VString clientID)].

(** ** Lines *)

Section Lines.
Context (render_time : time → string).

(** [ReplaceAttr] of the JSON handler: a zero [Attr] is dropped. *)
Definition ReplaceAttr (a : Attr) : option Attr :=
  if String.eqb (fst a) "time" then None
  else if String.eqb (fst a) "msg" then Some ("message"%string, VString (value_String render_time (snd a)))
  else Some a.

(** What the handler of [l] writes for a record, if it is enabled for its level. *)
Definition log (now : time) (level : Level) (msg : string) (args : list value) (l : Logger)
    : option (Writer * list Attr) :=
  if level <? lg_level l then None
  else
    let attrs := [("time"%string, VTime now); ("level"%string, VAny (level_name level));
                  ("msg"%string, VString msg)] ++ lg_attrs l ++ argsToAttrs args in
    Some (lg_writer l, if lg_json l then omap ReplaceAttr attrs else attrs).

Definition Info (now : time) := log now LevelInfo.
Definition Warn (now : time) := log now LevelWarn.
Definition Error (now : time) := log now LevelError.
Definition Debug (now : time) := log now LevelDebug.

(** ** Context *)

(** The loggers and other values embedded in a context, under their keys. *)
Inductive context :=
  | Background
  | WithLogger (parent : context) (l : option Logger)
  | WithOther (parent : context) (key value : nat).

(** [ctx.Value(loggerKey)], when it holds a pointer to a [Logger]. *)
Fixpoint logger_value (ctx : context) : option (option Logger) :=
  match ctx with
  | Background => None
  | WithLogger _ l => Some l
  | WithOther parent _ _ => logger_value parent
  end.

Definition Ctx (l : option Logger) (ctx : context) : context := WithLogger ctx l.

(** [None] is a nil context. *)
Definition FromCtx (ctx : option context) (s : pkg) : option Logger * pkg :=
  match ctx with
  | None => Default s
  | Some ctx =>
      match logger_value ctx with
      | Some (Some l) => (Some l, s)
      | _ => Default s
      end
  end.

(** ** Lemmas *)

Lemma With_settings attrss l :
  lg_json (foldl (λ l a, with_attrs a l) l attrss) = lg_json l ∧
  lg_writer (foldl (λ l a, with_attrs a l) l attrss) = lg_writer l ∧
  lg_level (foldl (λ l a, with_attrs a l) l attrss) = lg_level l ∧
  lg_attrs (foldl (λ l a, with_attrs a l) l attrss) = lg_attrs l ++ concat attrss.
Proof.
  revert l. induction attrss as [|a attrss IH]; intros l; cbn [foldl concat].
  - by rewrite app_nil_r.
  - destruct (IH (with_attrs a l)) as (-> & -> & -> & ->). cbn. by rewrite app_assoc.
Qed.

Lemma ReplaceAttr_key a b : ReplaceAttr a = Some b → fst b ≠ "time"%string ∧ fst b ≠ "msg"%string.
Proof.
  unfold ReplaceAttr. destruct (String.eqb_spec (fst a) "time"); [done|].
  destruct (String.eqb_spec (fst a) "msg"); intros [= <-]; by split.
Qed.

(** Other values of a context do not hide a logger. *)
Lemma FromCtx_others l ctx others s :
  FromCtx (Some (foldl (λ c '(k, v), WithOther c k v) (Ctx (Some l) ctx) others)) s = (Some l, s).
Proof.
  assert (logger_value (foldl (λ c '(k, v), WithOther c k v) (Ctx (Some l) ctx) others) = Some (Some l))
    as H; [|by cbn; rewrite H].
  generalize (eq_refl : logger_value (Ctx (Some l) ctx) = Some (Some l)).
  generalize (Ctx (Some l) ctx). induction others as [|[k v] others IH]; intros c Hc; [done|].
  by apply IH.
Qed.

(** ** Properties *)

(** A line of the proxy's logger.  A child of any depth writes at exactly the
    levels its root was made for; the line is the level, the message, the
    attributes of the child from the outermost in, and the arguments, in that
    order; and no line has a time, under any name: it is dropped where the comment
    says it is renamed. *)
Theorem json_line now level msg args name w attrss :
  log now level msg args (foldl (λ l a, with_attrs a l) (New name w) attrss) =
    (if level <? parse_level name then None
     else Some (default Stderr w,
            [("level"%string, VAny (level_name level)); ("message"%string, VString msg)] ++
            omap ReplaceAttr (concat attrss ++ argsToAttrs args))) ∧
  ∀ wr line, log now level msg args (foldl (λ l a, with_attrs a l) (New name w) attrss) = Some (wr, line) →
    Forall (λ a, fst a ≠ "time"%string ∧ fst a ≠ "msg"%string) line.
Proof.
  unfold log. destruct (With_settings attrss (New name w)) as (-> & -> & -> & ->). cbn [New lg_json lg_writer lg_level lg_attrs].
  destruct (level <? parse_level name); [done|]. split; [done|]. intros wr line H. assert (∃ l, line = omap ReplaceAttr l) as [attrs ->].
  { injection H as _ <-. by eexists (("time"%string, VTime now) :: ("level"%string, VAny _) :: ("msg"%string, VString msg) :: _). }
  apply list.Forall_forall. intros a (b & _ & Hb)%list_elem_of_omap. by apply ReplaceAttr_key in Hb.
Qed.

(** A default set before the first use is lost: [Default] makes its own the first
    time it is called, whatever [SetDefault] has stored; from then on what is set
    is what is used. *)
Theorem SetDefault_before_use l s :
  fst (Default (SetDefault (Some l) s)) =
    (if once_done s then Some l else Some (New "info" (Some Stderr))) ∧
  fst (Default (SetDefault (Some l) (snd (Default s)))) = Some l.
Proof. by destruct s as [d []]. Qed.
End Lines.
