(* ===== verification/Dial.v ===== *)
(** * Dialling ([pool.go], [checker.go], [connection.go], [leader_cache.go])

    The four functions that open a connection, over the standard library's
    [net.Dialer] and TLS handshake, which are the arguments of the section.  The
    other files take the result of these functions.  A dial returns its result
    and the raw connections it closed. *)

From S2P Require Import Prelude Config Pool LeaderCache.

Record tlsConfig := { tls_InsecureSkipVerify : bool; tls_MinVersion : Z; tls_ServerName : string }.

Definition VersionTLS12 : Z := 771.

Definition defaultKeepAlive : duration := 30 * second.
Definition healthDialTimeout : duration := 10 * second.
Definition upstreamDialTimeout : duration := 10 * second.

Definition keepAliveInterval (cp : ConnectionPool) : duration :=
  let d := cp_KeepAliveInterval (cp_cfg cp) in
  if d <=? 0 then defaultKeepAlive else d.

(** The text before the last colon of an address, as [tls.DialWithDialer] reads
    the host. *)
Fixpoint before_last_colon (s : list Ascii.ascii) : option (list Ascii.ascii) :=
  match s with
  | [] => None
  | c :: s =>
      match before_last_colon s with
      | Some h => Some (c :: h)
      | None => if Ascii.eqb c (Ascii.ascii_of_nat 58) then Some [] else None
      end
  end.

Definition hostname (addr : string) : string :=
  String.string_of_list_ascii
    (default (String.list_ascii_of_string addr) (before_last_colon (String.list_ascii_of_string addr))).

Section Dial.
(** A connection; [net.Dialer.Dial] with a timeout and a keep-alive ([None]: the
    library's own); the handshake of a client over a raw connection. *)
Context {C : Type} (net_Dial : duration → option duration → string → res C).
Context (Handshake : tlsConfig → C → res C).

Definition dialed : Type := res C * list C.

(** A handshake over [raw], which is closed when it fails. *)
Definition handshake (wrap : error → error) (cfg : tlsConfig) (raw : C) : dialed :=
  match Handshake cfg raw with
  | Ok c => (Ok c, [])
  | Err err => (Err (wrap err), [raw])
  | Panic => (Panic, [])
  end.

Definition dialTLS (addr : string) (keepAlive : duration) (tlsCfg : option tlsConfig) : dialed :=
  match net_Dial (10 * second) (Some keepAlive) addr with
  | Err err => (Err err, [])
  | Panic => (Panic, [])
  | Ok rawConn =>
      match tlsCfg with
      | None => (Ok rawConn, [])
      | Some cfg => handshake (Wrapf ("TLS handshake to " ++ addr)) cfg rawConn
      end
  end.

Definition dialHealth (addr : string) (useTLS : bool) : dialed :=
  match net_Dial healthDialTimeout None addr with
  | Err err => (Err (Wrapf "dial" err), [])
  | Panic => (Panic, [])
  | Ok rawConn =>
      if negb useTLS then (Ok rawConn, [])
      else handshake (Wrapf "TLS handshake")
             {| tls_InsecureSkipVerify := true; tls_MinVersion := VersionTLS12; tls_ServerName := "" |}
             rawConn
  end.

(** [tls.DialWithDialer] of the standard library. *)
Definition DialWithDialer (timeout : duration) (addr : string) (cfg : tlsConfig) : dialed :=
  match net_Dial timeout None addr with
  | Err err => (Err err, [])
  | Panic => (Panic, [])
  | Ok rawConn =>
      handshake id {| tls_InsecureSkipVerify := tls_InsecureSkipVerify cfg;
                      tls_MinVersion := tls_MinVersion cfg;
                      tls_ServerName := if String.eqb (tls_ServerName cfg) "" then hostname addr
                                        else tls_ServerName cfg |} rawConn
  end.

Definition dialUpstream (addr : string) (useTLS : bool) : dialed :=
  if useTLS
  then DialWithDialer upstreamDialTimeout addr
         {| tls_InsecureSkipVerify := true; tls_MinVersion := 0; tls_ServerName := "" |}
  else (net_Dial upstreamDialTimeout None addr, []).

Definition endpointUsesTLS (_ : ClusterConfig) (_ : string) : bool := false.

(** A leader cache dials over TLS when it was made with a configuration. *)
Definition NewPartitionLeaderCacheWithTLS (tlsCfg : option tlsConfig) : LeaderCache * option tlsConfig :=
  (NewPartitionLeaderCache,
   Some (default {| tls_InsecureSkipVerify := false; tls_MinVersion := VersionTLS12;
                    tls_ServerName := "" |} tlsCfg)).

Definition cache_dial (dialTimeout : duration) (tlsCfg : option tlsConfig) (bootstrap : string) : dialed :=
  match tlsCfg with
  | Some cfg => DialWithDialer dialTimeout bootstrap cfg
  | None => (net_Dial dialTimeout None bootstrap, [])
  end.

(** ** Properties *)

(** What a dial owes its caller: on success an open connection, and none closed;
    on an error every raw connection it opened is closed. *)
Definition clean (raw : res C) (d : dialed) : Prop :=
  match fst d with
  | Ok _ => snd d = []
  | Err _ => snd d = match raw with Ok c => [c] | _ => [] end
  | Panic => True
  end.

Lemma handshake_clean wrap cfg raw : clean (Ok raw) (handshake wrap cfg raw).
Proof. unfold clean, handshake. by destruct (Handshake cfg raw). Qed.

(** No dial leaks a connection, with TLS or without. *)
Theorem dials_clean addr keepAlive tlsCfg useTLS timeout :
  clean (net_Dial (10 * second) (Some keepAlive) addr) (dialTLS addr keepAlive tlsCfg) ∧
  clean (net_Dial healthDialTimeout None addr) (dialHealth addr useTLS) ∧
  clean (net_Dial upstreamDialTimeout None addr) (dialUpstream addr useTLS) ∧
  clean (net_Dial timeout None addr) (cache_dial timeout tlsCfg addr).
Proof.
  unfold dialTLS, dialHealth, dialUpstream, cache_dial, DialWithDialer. split_and!.
  - destruct (net_Dial _ _ _); [|done..]. destruct tlsCfg; [apply handshake_clean|done].
  - destruct (net_Dial _ _ _); [|done..]. destruct useTLS; [apply handshake_clean|done].
  - destruct useTLS; destruct (net_Dial _ _ _); try done. apply handshake_clean.
  - destruct tlsCfg; destruct (net_Dial _ _ _); try done. apply handshake_clean.
Qed.

(** The program never uses TLS upstream: its pool and its leader cache are made
    without a configuration, and the checker and the handlers ask for plain TCP. *)
Theorem upstream_is_plaintext addr keepAlive timeout cluster target :
  dialTLS addr keepAlive None = (net_Dial (10 * second) (Some keepAlive) addr, []) ∧
  fst (dialUpstream addr (endpointUsesTLS cluster target)) = net_Dial upstreamDialTimeout None addr ∧
  cache_dial timeout None addr = (net_Dial timeout None addr, []) ∧
  (is_ok (fst (dialHealth addr false)) = is_ok (net_Dial healthDialTimeout None addr)).
Proof.
  unfold dialTLS, dialHealth, cache_dial. split_and!; try done; by destruct (net_Dial _ _ _).
Qed.
End Dial.
